(* ===== verification/_CoqProject ===== *)
-Q . S2P
Prelude.v
GoLib.v
GoText.v
Kube.v
Prog.v
State.v
Provider.v
StateFile.v
Persist.v
Runs.v
SaveSpec.v
Ownership.v
Status.v
Create.v
Delete.v
DeleteSpec.v
CreateSpec.v
Background.v
BackgroundSpec.v
LeaseSpec.v
RecheckSpec.v
Footprint.v
Ledger.v
Rules.v
Concurrent.v
Lifecycle.v
Pool.v
Startup.v
StatusSpec.v
Authority.v
Inventory.v
InventorySpec.v
Daemon.v
Cert.v
Events.v
Main.v
MainSpec.v
Demo.v
Witnesses.v
MainWitnesses.v
Examples.v
