(* ===== verification/Prelude.v ===== *)
(** * vk-sandbox: a verification of the virtual-kubelet for sandboxd

    vk-sandbox is one daemon per node.  Kubernetes sees a virtual node; every Pod on
    it is backed by one sandbox (a microVM) claimed from the node's sandboxd.  The
    daemon's promises are about release credentials: the id and token sandboxd
    answers to a claim are the only way to free the sandbox, so they must not be
    lost, must be on disk before a Pod is reported Running, and must be used only
    with authority.

    ** The program and its model

    - provider/: the claims table and its handlers, run by virtual-kubelet's work
      queues (CreatePod, UpdatePod, DeletePod, GetPodStatus) and by four background
      loops (orphan scan, claim verification, lease watch, owner re-check).  They
      share the [Provider] struct under the mutex [mu] and the state file under
      [saveMu].
    - inventory/: a loop that publishes what the node runs, with the provider's
      addresses, as one NodeInventory object owned by the Node.
    - main.go, events.go, selfsigned.go: options, the Node object, the kubelet
      endpoint's certificate, the event filter, and the start of all of the above.

    Handlers are programs of the free monad [prog] over atomic actions: one action
    per critical section of [mu], per call to sandboxd, the apiserver, the disk or
    the clock, per lock and unlock of [saveMu] (State).  One definition per Go
    function then has three readings: [exec] runs it alone against an environment of
    answers (the functional theorems), [pool_step] interleaves any number of them
    action by action with any answers (the concurrency theorems), and [can_run]
    gives its possible histories (the publisher and the start of the daemon, which
    have actions of their own).

    ** Files

    - Prelude, GoLib, GoText: shared lemmas, hints and tactics; Go's strings,
      strconv, net and strings functions on bytes.
    - Kube: Pods, owner references, API errors, sandboxd's requests and answers, and
      the class [KubeLib] of what apimachinery and the operator compute ([KubeLibOk]
      states the two laws the proofs use, on controllers and on RFC 3339 times).
    - Prog: programs, their execution, histories, rely/guarantee preconditions and
      the parallel composition rule.
    - State: [Claim], [Provider], the disk, the world, and what every action does.
    - Provider, StateFile, Persist: provider.go.  JSON is modelled as documents
      ([encode_state], [decode_state]); a save writes a temporary file and renames it.
    - Ownership, Status, Create, Delete, Background: ownership.go, status.go and
      unsupported.go, create.go, delete.go, orphan.go and recheck.go.
    - Runs, SaveSpec, DeleteSpec, CreateSpec, BackgroundSpec, LeaseSpec,
      RecheckSpec, StatusSpec, Footprint: the behaviour of each handler alone.
    - Ledger, Rules, Concurrent, Lifecycle, Pool: the invariant of the shared state,
      the rely and guarantee of each goroutine, a rule per action, the proof of each
      handler against them, and the daemon as a pool of goroutines.
    - Startup: [New] over the file of a previous process.  Authority: why a release
      was sent.
    - Inventory, InventorySpec: the publisher.
    - Daemon, Cert, Events, Main, MainSpec: the start of the daemon.
    - Demo, Witnesses, MainWitnesses, Examples: a concrete library, environments and
      inputs, on which each theorem with hypotheses is applied.

    ** What is proved

    - Credentials (C1, C2, C4, C5, C27, C35): in every interleaving no credential is
      lost, a claim that is not tentative or is queued for release is on disk, a
      restart or a crash at any instant restores it, Running means durable; C35
      composes this from the options the process is started with, through the call
      of [New] in the history of the start.
    - Authority (C3, C6, C7, C8, C24, C25): every release has a reason that precedes
      it in the history, and a claim is undone only if its save failed; the destroy
      decision is exactly its table [gone_by]; doubt preserves; a deletion releases
      once; the drain keeps exactly the refused releases.
    - Handlers (C9 to C15, C26): adopt, claim, replace, undo, refuse; every error path
      with what it leaves behind; the status field by field.  Whom a claim answers to
      ([same_authority]) and when a lease is over ([lease_over]) are stated apart
      from the code in the file Provider.
    - Requests and footprints (C16, C17), background loops (C18 to C23): exact
      verdicts, termination of the verification loop, the bounded back-off.
    - The state file (C28, C29): round trip and atomicity.
    - Addresses and inventory (C30 to C33): the address view is an interface
      ([AddressView]) the provider implements; a publication is one of four
      histories; the owner state machine.
    - The start of the daemon (C34 to C40): what holds before it serves, what a failed
      start leaves, ports, labels, the Node object and the certificate.

    ** Bounds, fuel and hypotheses

    Durations are Go int64 values and wrap; times are unbounded.  [ticker_loop] and
    [publish_loop] take the number of waits (publications) to look at, and the
    theorems hold for every such number; no other definition has fuel, except that
    [parseIPv6Groups] takes the eight turns that fill an address.  A ticker with an
    interval that is not positive panics ([None]); in a pool such a goroutine just
    ends, and C34 shows that the daemon starts no loop of the provider that way.  The concurrency
    theorems assume that virtual-kubelet never handles two calls of one pod key at a
    time ([pool_wf]), that sandboxd does not issue an id twice ([fresh]) and, for a
    restart, that the times in the file are those RFC 3339 can write ([timely]); the
    state path and the lister they need are set by [options_run] (C34).

    ** Not modelled

    Log lines other than the orphan scan's verdicts, metrics, contexts other than the
    caller's and the detached one, pointer aliasing behind DeepCopy, the bytes of
    JSON text (its escapes, invalid UTF-8, the folding of non-ASCII member names),
    fsync, the removal of the state directory while the daemon runs, the goroutines
    client-go's event broadcaster and virtual-kubelet start on their own, the
    cancellation that follows the return of [run], version/version.go (variables set
    by the linker).  Command-line parsing,
    [url.Parse], quantities, Unicode case and space tables, and everything inside
    client-go, virtual-kubelet, the operator's packages and crypto are parameters or
    actions. *)

From stdpp Require Export base tactics strings gmap sets list fin_maps.
From Stdlib Require Export ZArith Lia.

#[export] Set Default Goal Selector "!".
#[export] Set Warnings "-clear-no-such-hyp".

Declare Scope go_scope.
Delimit Scope go_scope with go.
#[global] Open Scope string_scope.

(** ** Go strings

    A Go string is a sequence of bytes; [string] is a sequence of 8-bit
    characters, so [String.length], [String.append] and comparison are Go's. *)

Notation "s =? t" := (String.eqb s t) (at level 70) : go_scope.
Notation "a && b" := (andb a b) : go_scope.
Notation "a || b" := (orb a b) : go_scope.
Notation "! a" := (negb a) (at level 35, right associativity) : go_scope.

(** ** Go's [cmp.Or] on strings: the first argument that is not the zero value. *)
Definition cmp_Or (a def : string) : string :=
  if (a =? "")%go then def else a.

(** ** Time and durations

    [time.Time] is the number of nanoseconds since the zero Time (January 1,
    year 1, UTC), an unbounded [Z]; [time.Duration] is a Go int64 count of
    nanoseconds, whose arithmetic wraps. *)

Definition time : Type := Z.
Definition zeroTime : time := 0%Z.
Definition IsZero (t : time) : bool := Z.eqb t 0.
Definition Before (t u : time) : bool := Z.ltb t u.

Definition int64_max : Z := (2 ^ 63 - 1)%Z.
Definition int64_min : Z := (- 2 ^ 63)%Z.
Definition wrap64 (z : Z) : Z := ((z + 2 ^ 63) mod 2 ^ 64 - 2 ^ 63)%Z.

Definition duration : Type := Z.
Definition Millisecond : duration := (1000 * 1000)%Z.
Definition Second : duration := (1000 * Millisecond)%Z.
Definition Minute : duration := (60 * Second)%Z.
Definition time_Add (t : time) (d : duration) : time := (t + d)%Z.

(** ** Automation *)

Create HintDb vk.
Create HintDb vkmap.

(** Splits conjunctions, existentials and equations in the context. *)
Ltac crush :=
  repeat (destruct_and? || destruct_or? || simplify_eq/= || case_match);
  try done; eauto with vk.

Ltac bdestr :=
  repeat match goal with
  | H : context [String.eqb ?a ?b] |- _ => destruct (String.eqb_spec a b); simpl in H
  | |- context [String.eqb ?a ?b] => destruct (String.eqb_spec a b); simpl
  end.

(** ** Shared lemmas *)

Lemma wrap64_id (z : Z) : (int64_min <= z <= int64_max)%Z -> wrap64 z = z.
Proof. unfold wrap64, int64_min, int64_max; intros H. rewrite Z.mod_small; lia. Qed.

Lemma wrap64_range (z : Z) : (int64_min <= wrap64 z <= int64_max)%Z.
Proof.
  unfold wrap64, int64_min, int64_max.
  pose proof (Z.mod_pos_bound (z + 2 ^ 63) (2 ^ 64)). lia.
Qed.

Lemma cmp_Or_nonempty a def : a <> "" -> cmp_Or a def = a.
Proof. unfold cmp_Or. by destruct (String.eqb_spec a ""). Qed.

Lemma string_app_cons a (s t : string) : String a s +:+ t = String a (s +:+ t).
Proof. done. Qed.

Lemma string_app_nil_l (s : string) : "" +:+ s = s.
Proof. done. Qed.

Lemma string_app_inj_l (s t u : string) : s +:+ t = s +:+ u -> t = u.
Proof.
  induction s as [|a s IH]; [done|].
  rewrite !string_app_cons. intros [= H]. auto.
Qed.

Lemma string_app_assoc (s t u : string) : (s +:+ t) +:+ u = s +:+ (t +:+ u).
Proof. induction s as [|a s IH]; [done|]. rewrite !string_app_cons. by rewrite IH. Qed.

Lemma string_app_nil_r (s : string) : s +:+ "" = s.
Proof. induction s as [|a s IH]; [done|]. rewrite string_app_cons. by rewrite IH. Qed.

Lemma filter_iff_on {A} (P Q : A -> Prop) `{!forall x, Decision (P x), !forall x, Decision (Q x)}
    (l : list A) : (forall x, x ∈ l -> P x <-> Q x) -> filter P l = filter Q l.
Proof.
  induction l as [|x l IH]; intros Hl; [done|].
  assert (Hx : P x <-> Q x) by (apply Hl; set_solver).
  rewrite !filter_cons, IH by (intros; apply Hl; set_solver).
  destruct (decide (P x)), (decide (Q x)); tauto.
Qed.

Lemma filter_true {A} (P : A -> Prop) `{!forall x, Decision (P x)} (l : list A) :
  (forall x, x ∈ l -> P x) -> filter P l = l.
Proof.
  induction l as [|x l IH]; intros Hl; [done|].
  rewrite filter_cons_True by (apply Hl; set_solver). f_equal. apply IH. intros; apply Hl; set_solver.
Qed.

(** Where an element sits in a concatenation. *)
Lemma app_split_cons {A} (l1 l2 h1 h2 : list A) x :
  (l1 ++ l2 = h1 ++ x :: h2)%list ->
  (exists t, l1 = h1 ++ x :: t /\ h2 = t ++ l2)%list \/
  (exists t, h1 = l1 ++ t /\ l2 = t ++ x :: h2)%list.
Proof.
  intros [(k & -> & Hk)|(k & -> & Hk)]%app_eq_inv.
  - destruct k as [|y k]; simplify_eq/=; [right|left].
    + exists []. by rewrite !app_nil_r.
    + by exists k.
  - right. by exists k.
Qed.
