(* ===== verification/GoLib.v ===== *)
(** * The parts of Go's standard library the program uses on strings

    [strings.HasSuffix], [strings.Cut], [strings.ToLower], [strings.IndexByte],
    [strconv.Atoi], [strconv.ParseInt] and [net.SplitHostPort], on byte strings,
    with the facts the components need: suffix tests, the decimal range checks,
    and that splitting what was joined gives the parts back. *)

From S2P Require Import Prelude.
From Stdlib Require Import Ascii.

Local Open Scope string_scope.

(** ** Slices and searches *)

(** [s[n:]] *)
Fixpoint str_drop (n : nat) (s : string) : string :=
  match n, s with
  | O, _ => s
  | S n, String _ s => str_drop n s
  | S _, EmptyString => EmptyString
  end.

Arguments str_drop : simpl nomatch.

(** [s[:n]] *)
Fixpoint str_take (n : nat) (s : string) : string :=
  match n, s with
  | O, _ => EmptyString
  | S n, String a s => String a (str_take n s)
  | S _, EmptyString => EmptyString
  end.

Arguments str_take : simpl nomatch.

(** [strings.IndexByte]: [None] is Go's -1. *)
Fixpoint IndexByte (s : string) (c : ascii) : option nat :=
  match s with
  | EmptyString => None
  | String a s => if Ascii.eqb a c then Some O else S <$> IndexByte s c
  end.

(** [strings.LastIndexByte] *)
Fixpoint LastIndexByte (s : string) (c : ascii) : option nat :=
  match s with
  | EmptyString => None
  | String a s =>
      match LastIndexByte s c with
      | Some i => Some (S i)
      | None => if Ascii.eqb a c then Some O else None
      end
  end.

Definition contains_byte (s : string) (c : ascii) : bool :=
  match IndexByte s c with Some _ => true | None => false end.

Definition HasSuffix (s suffix : string) : bool :=
  (String.length suffix <=? String.length s)%nat &&
  String.eqb (str_drop (String.length s - String.length suffix) s) suffix.

(** [strings.Cut] with a one-byte separator. *)
Definition Cut (s : string) (sep : ascii) : string * string * bool :=
  match IndexByte s sep with
  | Some i => (str_take i s, str_drop (S i) s, true)
  | None => (s, "", false)
  end.

(** ** [strings.ToLower]

    Go maps an all-ASCII string byte by byte and goes through the Unicode tables
    otherwise; [unicode_lower] stands for the tables. *)
Definition isASCII_byte (c : ascii) : bool := (nat_of_ascii c <? 128)%nat.

Fixpoint isASCII (s : string) : bool :=
  match s with EmptyString => true | String c s => isASCII_byte c && isASCII s end.

Definition lower_byte (c : ascii) : ascii :=
  let n := nat_of_ascii c in
  if ((65 <=? n) && (n <=? 90))%nat then ascii_of_nat (n + 32) else c.

Fixpoint map_bytes (f : ascii -> ascii) (s : string) : string :=
  match s with EmptyString => EmptyString | String c s => String (f c) (map_bytes f s) end.

Definition ToLower (unicode_lower : string -> string) (s : string) : string :=
  if isASCII s then map_bytes lower_byte s else unicode_lower s.

(** ** Decimal numbers *)

Definition digit (c : ascii) : option Z :=
  let n := nat_of_ascii c in
  if ((48 <=? n) && (n <=? 57))%nat then Some (Z.of_nat n - 48)%Z else None.

Fixpoint parse_digits (acc : Z) (s : string) : option Z :=
  match s with
  | EmptyString => Some acc
  | String c s =>
      match digit c with
      | Some d => parse_digits (acc * 10 + d)%Z s
      | None => None
      end
  end.

(** The digits after an optional sign; at least one is required. *)
Definition parse_signed (s : string) : option Z :=
  match s with
  | EmptyString => None
  | String c rest =>
      if Ascii.eqb c "-" then
        match rest with EmptyString => None | _ => Z.opp <$> parse_digits 0 rest end
      else if Ascii.eqb c "+" then
        match rest with EmptyString => None | _ => parse_digits 0 rest end
      else parse_digits 0 s
  end.

(** [strconv.ParseInt(s, 10, bits)]: a syntax or a range error is [None]. *)
Definition ParseInt10 (bits : Z) (s : string) : option Z :=
  match parse_signed s with
  | Some v =>
      if ((- 2 ^ (bits - 1) <=? v) && (v <=? 2 ^ (bits - 1) - 1))%Z then Some v else None
  | None => None
  end.

Definition Atoi (s : string) : option Z := ParseInt10 64 s.

(** ** [net.SplitHostPort]

    The port starts after the last colon; a bracketed host ends at the first
    closing bracket, which must sit right before that colon. *)
Inductive addr_error :=
| MissingPort | TooManyColons | MissingBracket | UnexpectedOpen | UnexpectedClose.

Definition split_tail (hostport host : string) (j k i : nat)
  : (string * string) + addr_error :=
  if contains_byte (str_drop j hostport) "[" then inr UnexpectedOpen
  else if contains_byte (str_drop k hostport) "]" then inr UnexpectedClose
  else inl (host, str_drop (S i) hostport).

Definition SplitHostPort (hostport : string) : (string * string) + addr_error :=
  match LastIndexByte hostport ":" with
  | None => inr MissingPort
  | Some i =>
      match String.get 0 hostport with
      | Some c =>
          if Ascii.eqb c "[" then
            match IndexByte hostport "]" with
            | None => inr MissingBracket
            | Some e =>
                if Nat.eqb (S e) (String.length hostport) then inr MissingPort
                else if Nat.eqb (S e) i then
                  split_tail hostport (str_take (e - 1) (str_drop 1 hostport)) 1 (S e) i
                else match String.get (S e) hostport with
                     | Some c' => if Ascii.eqb c' ":" then inr TooManyColons else inr MissingPort
                     | None => inr MissingPort
                     end
            end
          else
            let host := str_take i hostport in
            if contains_byte host ":" then inr TooManyColons
            else split_tail hostport host 0 0 i
      | None => inr MissingPort
      end
  end.

(** ** Facts *)

Lemma length_app_string (s t : string) :
  String.length (s +:+ t) = (String.length s + String.length t)%nat.
Proof. induction s as [|a s IH]; [done|]. rewrite string_app_cons. simpl. by rewrite IH. Qed.

Lemma str_drop_app (s t : string) : str_drop (String.length s) (s +:+ t) = t.
Proof. induction s as [|a s IH]; [by destruct t|]. rewrite string_app_cons. done. Qed.

Lemma str_take_app (s t : string) : str_take (String.length s) (s +:+ t) = s.
Proof.
  induction s as [|a s IH]; [by destruct t|].
  rewrite string_app_cons. simpl. by rewrite IH.
Qed.

Lemma str_drop_app_ge n (s t : string) :
  str_drop (String.length s + n) (s +:+ t) = str_drop n t.
Proof. induction s as [|a s IH]; [done|]. rewrite string_app_cons. done. Qed.

Lemma str_drop_take_id n (s : string) : str_take n s +:+ str_drop n s = s.
Proof.
  revert s; induction n as [|n IH]; intros [|a s]; simpl; try done.
  rewrite string_app_cons. by rewrite IH.
Qed.

Lemma HasSuffix_app (s t : string) : HasSuffix (s +:+ t) t = true.
Proof.
  unfold HasSuffix. rewrite length_app_string.
  replace (String.length s + String.length t - String.length t)%nat with (String.length s) by lia.
  rewrite str_drop_app, String.eqb_refl.
  destruct (Nat.leb_spec (String.length t) (String.length s + String.length t)); [done|lia].
Qed.

Lemma HasSuffix_inv (s t : string) :
  HasSuffix s t = true -> exists u, s = u +:+ t.
Proof.
  unfold HasSuffix. intros [_ H]%andb_prop. apply String.eqb_eq in H.
  exists (str_take (String.length s - String.length t) s).
  rewrite <- (str_drop_take_id (String.length s - String.length t) s) at 1. by rewrite H.
Qed.

Lemma contains_byte_cons a (s : string) c :
  contains_byte (String a s) c = Ascii.eqb a c || contains_byte s c.
Proof.
  unfold contains_byte; simpl. destruct (Ascii.eqb a c); [done|].
  simpl. by destruct (IndexByte s c).
Qed.

Lemma contains_byte_app (s t : string) c :
  contains_byte (s +:+ t) c = contains_byte s c || contains_byte t c.
Proof.
  induction s as [|a s IH]; [done|].
  by rewrite string_app_cons, !contains_byte_cons, IH, orb_assoc.
Qed.

Lemma IndexByte_app_first (s t : string) c :
  contains_byte s c = false -> IndexByte (s +:+ String c t) c = Some (String.length s).
Proof.
  induction s as [|a s IH].
  - intros _. rewrite string_app_nil_l. cbn [IndexByte]. by rewrite Ascii.eqb_refl.
  - rewrite contains_byte_cons. intros [Ha Hs]%orb_false_elim.
    rewrite string_app_cons. simpl. rewrite Ha, IH; done.
Qed.

Lemma LastIndexByte_None (s : string) c :
  contains_byte s c = false -> LastIndexByte s c = None.
Proof.
  induction s as [|a s IH]; [done|].
  rewrite contains_byte_cons. intros [Ha Hs]%orb_false_elim. simpl. by rewrite IH, Ha.
Qed.

Lemma LastIndexByte_app (s t : string) c :
  contains_byte t c = false -> LastIndexByte (s +:+ String c t) c = Some (String.length s).
Proof.
  intros Ht. induction s as [|a s IH].
  - rewrite string_app_nil_l. cbn [LastIndexByte].
    by rewrite LastIndexByte_None, Ascii.eqb_refl.
  - rewrite string_app_cons. simpl. by rewrite IH.
Qed.

Lemma IndexByte_take (s : string) c n : IndexByte s c = Some n -> contains_byte (str_take n s) c = false.
Proof.
  revert n. induction s as [|a s IH]; intros n; [done|]. simpl.
  destruct (Ascii.eqb a c) eqn:Ha; [by intros [= <-]|].
  destruct (IndexByte s c) as [i|]; [|done]. intros [= <-]. simpl.
  by rewrite contains_byte_cons, Ha, IH.
Qed.

(** Cutting at the first separator returns the parts that were joined. *)
Lemma Cut_join (s t : string) c :
  contains_byte s c = false -> Cut (s +:+ String c t) c = (s, t, true).
Proof.
  intros Hs. unfold Cut. rewrite IndexByte_app_first by done.
  rewrite str_take_app. f_equal. f_equal.
  rewrite <- (Nat.add_1_r (String.length s)). by rewrite str_drop_app_ge.
Qed.

(** [net.SplitHostPort] undoes joining an unbracketed host and a port. *)
Lemma SplitHostPort_join (host port : string) :
  contains_byte host ":" = false -> contains_byte port ":" = false ->
  contains_byte host "[" = false -> contains_byte port "[" = false ->
  contains_byte host "]" = false -> contains_byte port "]" = false ->
  SplitHostPort (host +:+ String ":" port) = inl (host, port).
Proof.
  intros Hh Hp Hh1 Hp1 Hh2 Hp2. unfold SplitHostPort.
  rewrite LastIndexByte_app by done.
  assert (Hsplit : split_tail (host +:+ String ":" port) host 0 0 (String.length host)
                   = inl (host, port)).
  { unfold split_tail. simpl.
    rewrite !contains_byte_app, !contains_byte_cons, Hh1, Hp1, Hh2, Hp2. simpl.
    do 2 f_equal. rewrite <- (Nat.add_1_r (String.length host)).
    by rewrite str_drop_app_ge. }
  rewrite str_take_app, Hh, Hsplit.
  destruct host as [|a host]; [done|].
  rewrite string_app_cons. simpl.
  rewrite contains_byte_cons in Hh1. apply orb_false_elim in Hh1 as [-> _]. done.
Qed.

(** [net.SplitHostPort] undoes [net.JoinHostPort] on a bracketed (IPv6) host. *)
Lemma SplitHostPort_join_bracket (host port : string) :
  contains_byte port ":" = false ->
  contains_byte host "[" = false -> contains_byte port "[" = false ->
  contains_byte host "]" = false -> contains_byte port "]" = false ->
  SplitHostPort (String "[" (host +:+ String "]" (String ":" port))) = inl (host, port).
Proof.
  intros Hp Hh1 Hp1 Hh2 Hp2. unfold SplitHostPort.
  set (hp := String "[" _).
  assert (Hlast : LastIndexByte hp ":" = Some (S (S (String.length host)))).
  { unfold hp. replace (String "[" (host +:+ String "]" (String ":" port)))
      with ((String "[" (host +:+ "]")) +:+ String ":" port).
    - rewrite LastIndexByte_app by done. simpl. rewrite length_app_string. simpl. f_equal. lia.
    - by rewrite string_app_cons, string_app_assoc. }
  assert (Hidx : IndexByte hp "]" = Some (S (String.length host))).
  { unfold hp. simpl. by rewrite IndexByte_app_first. }
  assert (Hlen : String.length hp = (S (S (S (String.length host))) + String.length port)%nat).
  { unfold hp. simpl. rewrite length_app_string. simpl. lia. }
  rewrite Hlast, Hidx, Hlen. cbn [String.get hp].
  replace (Ascii.eqb "[" "[") with true by done.
  destruct (Nat.eqb_spec (S (S (String.length host)))
              (S (S (S (String.length host))) + String.length port)) as [H|_]; [lia|].
  rewrite Nat.eqb_refl.
  unfold split_tail, hp. simpl. rewrite Nat.sub_0_r.
  rewrite str_take_app.
  rewrite contains_byte_app, !contains_byte_cons, Hh1, Hp1. simpl.
  replace (str_drop (S (String.length host)) (host +:+ String "]" (String ":" port)))
    with (String ":" port).
  2: { rewrite <- (Nat.add_1_r (String.length host)). by rewrite str_drop_app_ge. }
  rewrite contains_byte_cons, Hp2. simpl.
  do 2 f_equal. replace (S (S (String.length host))) with (String.length host + 2)%nat by lia.
  by rewrite str_drop_app_ge.
Qed.

Lemma ParseInt10_range bits s v :
  ParseInt10 bits s = Some v -> (- 2 ^ (bits - 1) <= v <= 2 ^ (bits - 1) - 1)%Z.
Proof.
  unfold ParseInt10. destruct (parse_signed s); [|done].
  case_match eqn:H; [|done]. intros [= <-].
  apply andb_prop in H as [?%Z.leb_le ?%Z.leb_le]. lia.
Qed.

