(* ===== verification/GoText.v ===== *)
(** * Text the daemon's options are made of

    [strings.SplitSeq], [strings.TrimSpace], [strings.TrimRight] and [net.ParseIP]
    as Go's standard library computes them on bytes, and decimal text: what the
    printer writes, [strconv.ParseInt] reads back. *)

From stdpp Require Import pretty.
From S2P Require Import Prelude GoLib.
From Stdlib Require Import Ascii.

Local Open Scope string_scope.
Local Open Scope list_scope.

(** ** Splitting and trimming *)

(** [strings.SplitSeq] with a one-byte separator: one piece more than separators. *)
Fixpoint SplitByte (sep : ascii) (s : string) : list string :=
  match s with
  | EmptyString => [""]
  | String a s =>
      if Ascii.eqb a sep then "" :: SplitByte sep s
      else match SplitByte sep s with
           | p :: ps => String a p :: ps
           | [] => [String a ""]
           end
  end.

(** Tab to carriage return, and space. *)
Definition asciiSpace (c : ascii) : bool :=
  let n := nat_of_ascii c in ((9 <=? n) && (n <=? 13) || (n =? 32))%nat.

Fixpoint trim_left (f : ascii -> bool) (s : string) : string :=
  match s with
  | EmptyString => ""
  | String c t => if f c then trim_left f t else s
  end.

Fixpoint trim_right (f : ascii -> bool) (s : string) : string :=
  match s with
  | EmptyString => ""
  | String c t =>
      let r := trim_right f t in
      if String.eqb r "" && f c then "" else String c r
  end.

(** A string with a byte outside ASCII goes through the Unicode tables, for which
    [unicode_trim] stands. *)
Definition TrimSpace (unicode_trim : string -> string) (s : string) : string :=
  if isASCII s then trim_right asciiSpace (trim_left asciiSpace s) else unicode_trim s.

(** [strings.TrimRight] with a one-byte cutset. *)
Definition TrimRight (s : string) (c : ascii) : string := trim_right (Ascii.eqb c) s.

(** ** [net.ParseIP] *)

(** The four octets of a dotted quad, without leading zeros; [digLen] counts the
    digits of the current octet, [fields] the finished octets. *)
Fixpoint parseIPv4Fields (s : string) (val : Z) (digLen : nat) (fields : list Z) : option (list Z) :=
  match s with
  | EmptyString => if (List.length fields <? 3)%nat then None else Some (fields ++ [val])
  | String c rest =>
      match digit c with
      | Some d =>
          if (Nat.eqb digLen 1 && Z.eqb val 0)%bool then None
          else if (255 <? val * 10 + d)%Z then None
          else parseIPv4Fields rest (val * 10 + d)%Z (S digLen) fields
      | None =>
          if Ascii.eqb c "." then
            if (Nat.eqb digLen 0 || String.eqb rest "")%bool then None
            else if (List.length fields =? 3)%nat then None
            else parseIPv4Fields rest 0 0 (fields ++ [val])
          else None
      end
  end.

Definition hex_digit (c : ascii) : option Z :=
  let n := nat_of_ascii c in
  if ((48 <=? n) && (n <=? 57))%nat then Some (Z.of_nat n - 48)%Z
  else if ((97 <=? n) && (n <=? 102))%nat then Some (Z.of_nat n - 87)%Z
  else if ((65 <=? n) && (n <=? 70))%nat then Some (Z.of_nat n - 55)%Z
  else None.

(** The hexadecimal digits at the front of [s], at most four of them. *)
Fixpoint hex_group (s : string) (off : nat) (acc : Z) : option (Z * nat * string) :=
  match s with
  | EmptyString => Some (acc, off, s)
  | String c rest =>
      match hex_digit c with
      | Some h =>
          if (3 <? off)%nat then None
          else if (65535 <? acc * 16 + h)%Z then None
          else hex_group rest (S off) (acc * 16 + h)%Z
      | None => Some (acc, off, s)
      end
  end.

(** The groups of an IPv6 address.  [ip] holds the bytes so far and [ellipsis] the
    place of the double colon; eight turns fill sixteen bytes. *)
Fixpoint parseIPv6Groups (turns : nat) (s : string) (ip : list Z) (ellipsis : option nat)
  : option (list Z * option nat * string) :=
  match turns with
  | O => Some (ip, ellipsis, s)
  | S turns =>
      match hex_group s 0 0 with
      | None => None
      | Some (acc, off, rest) =>
          if Nat.eqb off 0 then None
          else match rest with
          | EmptyString => Some (ip ++ [acc / 256; acc mod 256]%Z, ellipsis, "")
          | String c rest =>
              if Ascii.eqb c "." then
                if ((match ellipsis with None => true | _ => false end) && negb (List.length ip =? 12)%nat)%bool
                then None
                else if (16 <? List.length ip + 4)%nat then None
                else match parseIPv4Fields s 0 0 [] with
                     | Some v4 => Some (ip ++ v4, ellipsis, "")
                     | None => None
                     end
              else if negb (Ascii.eqb c ":") then None
              else
                let ip := ip ++ [acc / 256; acc mod 256]%Z in
                match rest with
                | EmptyString => None
                | String c2 rest2 =>
                    if Ascii.eqb c2 ":" then
                      match ellipsis with
                      | Some _ => None
                      | None =>
                          if String.eqb rest2 "" then Some (ip, Some (List.length ip), "")
                          else parseIPv6Groups turns rest2 ip (Some (List.length ip))
                      end
                    else parseIPv6Groups turns rest ip ellipsis
                end
          end
      end
  end.

(** A zone, empty or not, is no plain address. *)
Definition parseIPv6 (s : string) : option (list Z) :=
  if contains_byte s "%" then None
  else
    let '(s, ellipsis) :=
      if String.prefix "::" s then (str_drop 2 s, Some 0) else (s, None) in
    if (String.eqb s "" && match ellipsis with Some _ => true | None => false end)%bool
    then Some (replicate 16 0%Z)
    else match parseIPv6Groups 8 s [] ellipsis with
    | None => None
    | Some (ip, ellipsis, s) =>
        if negb (String.eqb s "") then None
        else if (List.length ip <? 16)%nat then
          match ellipsis with
          | None => None
          | Some e => Some (take e ip ++ replicate (16 - List.length ip) 0%Z ++ drop e ip)
          end
        else match ellipsis with Some _ => None | None => Some ip end
    end.

(** An IPv4 address in its sixteen-byte form. *)
Definition v4_mapped (v4 : list Z) : list Z := replicate 10 0%Z ++ [255; 255]%Z ++ v4.

(** The first separator decides the family. *)
Fixpoint family (s : string) : option ascii :=
  match s with
  | EmptyString => None
  | String c s =>
      if (Ascii.eqb c "." || Ascii.eqb c ":" || Ascii.eqb c "%")%bool then Some c else family s
  end.

Definition ParseIP (s : string) : option (list Z) :=
  match family s with
  | Some c =>
      if Ascii.eqb c "." then v4_mapped <$> parseIPv4Fields s 0 0 []
      else if Ascii.eqb c ":" then parseIPv6 s
      else None
  | None => None
  end.

Example ParseIP_v4 : ParseIP "10.0.0.5" = Some (v4_mapped [10; 0; 0; 5]%Z).
Proof. reflexivity. Qed.

Example ParseIP_v6 : ParseIP "fe80::1:2" =
  Some ([254; 128] ++ replicate 10 0 ++ [0; 1; 0; 2])%Z.
Proof. reflexivity. Qed.

Example ParseIP_mixed : ParseIP "::ffff:10.0.0.5" = Some (v4_mapped [10; 0; 0; 5]%Z).
Proof. reflexivity. Qed.

Example ParseIP_rejects :
  ParseIP <$> ["vk-1"; "1.2.3"; "1.2.3.04"; "1.2.3.256"; "1..2.3"; "fe80::1%eth0"; "1::2::3"; "12345::"; "1:2:3:4:5:6:7:8:9"; ":1"]
  = replicate 10 None.
Proof. reflexivity. Qed.

(** ** Facts *)

Lemma parse_digits_digits acc s n c :
  parse_digits acc s = Some n -> digit c = None -> contains_byte s c = false.
Proof.
  intros Hs Hc. revert acc Hs. induction s as [|a s IH]; intros acc; [done|].
  simpl. destruct (digit a) as [d|] eqn:Ha; [|done]. intros Hs%IH.
  rewrite contains_byte_cons, Hs, orb_false_r.
  destruct (Ascii.eqb_spec a c); [congruence|done].
Qed.

Lemma digit_pretty n : (n < 10)%N -> digit (pretty_N_char n) = Some (Z.of_N n).
Proof.
  intros Hn. destruct n as [|p]; [done|]. do 4 (destruct p as [p|p|]; [| |done]); lia.
Qed.

Lemma parse_pretty_go n s : parse_digits 0 (pretty_N_go n s) = parse_digits (Z.of_N n) s.
Proof.
  revert s. induction (N.lt_wf_0 n) as [n _ IH]. intros s.
  destruct (decide (0 < n)%N) as [Hn|Hn].
  - rewrite pretty_N_go_step by done. rewrite IH by (apply N.div_lt; lia).
    cbn [parse_digits]. rewrite digit_pretty by (apply N.mod_lt; lia). f_equal.
    rewrite N2Z.inj_div, N2Z.inj_mod. pose proof (Z.div_mod (Z.of_N n) 10). lia.
  - assert (n = 0)%N as -> by lia. by rewrite pretty_N_go_0.
Qed.

Lemma parse_pretty (n : N) : parse_digits 0 (pretty n) = Some (Z.of_N n).
Proof.
  unfold pretty, pretty_N. case_decide as H; [by subst|]. by rewrite parse_pretty_go.
Qed.

Lemma pretty_no_byte (n : N) c : digit c = None -> contains_byte (pretty n) c = false.
Proof. apply (parse_digits_digits 0 _ (Z.of_N n)), parse_pretty. Qed.

Lemma pretty_nonempty (n : N) : pretty n <> "".
Proof.
  unfold pretty, pretty_N. case_decide as Hn; [done|]. intros H.
  assert (Hp : parse_digits 1 (pretty_N_go n "") = Some 1%Z) by (by rewrite H).
  pose proof (parse_pretty_go n "") as Hq. rewrite H in Hq. simpl in Hq. simplify_eq. lia.
Qed.

Lemma parse_signed_N (n : N) : parse_signed (pretty n) = Some (Z.of_N n).
Proof.
  pose proof (parse_pretty n) as Hp. pose proof (pretty_no_byte n "-" eq_refl) as Hm.
  pose proof (pretty_no_byte n "+" eq_refl) as Hs. pose proof (pretty_nonempty n) as Hne.
  destruct (pretty n) as [|a s]; [done|]. rewrite contains_byte_cons in Hm, Hs. unfold parse_signed.
  apply orb_false_elim in Hm as [-> _]. by apply orb_false_elim in Hs as [-> _].
Qed.

(** The decimal text of a number, negative ones included, has its value. *)
Lemma parse_signed_pretty (z : Z) : parse_signed (pretty z) = Some z.
Proof.
  destruct z as [|p|p]; [done|exact (parse_signed_N (Npos p))|].
  change (pretty (Zneg p)) with (String "-" (pretty (Npos p))).
  pose proof (pretty_nonempty (Npos p)) as Hne. pose proof (parse_pretty (Npos p)) as Hp.
  unfold parse_signed. replace (Ascii.eqb "-" "-") with true by done.
  destruct (pretty (Npos p)) as [|a s]; [done|]. by rewrite Hp.
Qed.

Lemma pretty_Z_no_byte (z : Z) c :
  digit c = None -> c <> "-"%char -> contains_byte (pretty z) c = false.
Proof.
  intros Hc Hm. destruct z as [|p|p].
  - exact (pretty_no_byte 0 c Hc).
  - exact (pretty_no_byte (Npos p) c Hc).
  - change (pretty (Zneg p)) with (String "-" (pretty (Npos p))).
    rewrite contains_byte_cons, (pretty_no_byte (Npos p) c Hc), orb_false_r.
    destruct (Ascii.eqb_spec "-" c); [congruence|done].
Qed.

(** [strconv.ParseInt] reads back what was printed, exactly within its width. *)
Lemma ParseInt_pretty bits (z : Z) :
  ParseInt10 bits (pretty z) =
  if decide (- 2 ^ (bits - 1) <= z < 2 ^ (bits - 1))%Z then Some z else None.
Proof.
  unfold ParseInt10. rewrite parse_signed_pretty.
  destruct (Z.leb_spec (- 2 ^ (bits - 1)) z), (Z.leb_spec z (2 ^ (bits - 1) - 1)); case_decide; done || lia.
Qed.

(** ** Joining and trimming *)

Fixpoint join (sep : ascii) (l : list string) : string :=
  match l with
  | [] => ""
  | [x] => x
  | x :: l => x +:+ String sep (join sep l)
  end.

Fixpoint all_bytes (f : ascii -> bool) (s : string) : bool :=
  match s with
  | EmptyString => true
  | String c s => f c && all_bytes f s
  end.

Lemma all_bytes_app f (s t : string) : all_bytes f (s +:+ t) = all_bytes f s && all_bytes f t.
Proof.
  induction s as [|a s IH]; [done|]. rewrite string_app_cons. simpl. by rewrite IH, andb_assoc.
Qed.

Lemma SplitByte_app sep (s t : string) :
  contains_byte s sep = false -> SplitByte sep (s +:+ String sep t) = s :: SplitByte sep t.
Proof.
  induction s as [|a s IH].
  - intros _. rewrite string_app_nil_l. simpl. by rewrite Ascii.eqb_refl.
  - rewrite contains_byte_cons. intros [Ha Hs]%orb_false_elim.
    rewrite string_app_cons. simpl. by rewrite Ha, IH.
Qed.

Lemma SplitByte_single sep (s : string) : contains_byte s sep = false -> SplitByte sep s = [s].
Proof.
  induction s as [|a s IH]; [done|].
  rewrite contains_byte_cons. intros [Ha Hs]%orb_false_elim. simpl. by rewrite Ha, IH.
Qed.

(** Splitting what was joined gives the pieces back. *)
Lemma SplitByte_join sep (l : list string) :
  l <> [] -> Forall (fun s => contains_byte s sep = false) l -> SplitByte sep (join sep l) = l.
Proof.
  intros Hne Hl. induction Hl as [|x l Hx Hl IH]; [done|].
  destruct l as [|y l]; [by apply SplitByte_single|].
  cbn [join]. rewrite SplitByte_app by done. f_equal. by apply IH.
Qed.

Lemma trim_left_spaces f (s t : string) : all_bytes f s = true -> trim_left f (s +:+ t) = trim_left f t.
Proof.
  induction s as [|a s IH]; [done|]. simpl. intros [Ha Hs]%andb_prop.
  by rewrite Ha, IH.
Qed.

Lemma trim_right_spaces f (s t : string) : all_bytes f t = true -> trim_right f (s +:+ t) = trim_right f s.
Proof.
  intros Ht. induction s as [|a s IH].
  - rewrite string_app_nil_l. induction t as [|a t IH]; [done|]. simpl in *.
    apply andb_prop in Ht as [Ha Ht]. by rewrite IH, Ha.
  - rewrite string_app_cons. simpl. by rewrite IH.
Qed.

Lemma trim_right_id f (s : string) : all_bytes (fun c => negb (f c)) s = true -> trim_right f s = s.
Proof.
  induction s as [|a s IH]; [done|]. simpl. intros [Ha%negb_true_iff Hs]%andb_prop.
  by rewrite IH, Ha, andb_false_r.
Qed.

Lemma trim_left_id f (s : string) : all_bytes (fun c => negb (f c)) s = true -> trim_left f s = s.
Proof. destruct s as [|a s]; [done|]. simpl. by intros [->%negb_true_iff _]%andb_prop. Qed.

Lemma asciiSpace_ASCII c : asciiSpace c = true -> isASCII_byte c = true.
Proof. destruct c as [[] [] [] [] [] [] [] []]; vm_compute; congruence. Qed.

Lemma spaces_ASCII (s : string) : all_bytes asciiSpace s = true -> isASCII s = true.
Proof.
  induction s as [|a s IH]; [done|]. simpl. intros [Ha Hs]%andb_prop.
  by rewrite asciiSpace_ASCII, IH.
Qed.

Lemma isASCII_app (s t : string) : isASCII (s +:+ t) = isASCII s && isASCII t.
Proof.
  induction s as [|a s IH]; [done|]. rewrite string_app_cons. simpl. by rewrite IH, andb_assoc.
Qed.

(** Trimming removes the padding of a text that has no space of its own. *)
Lemma TrimSpace_pad u (lead s trail : string) :
  all_bytes asciiSpace lead = true -> all_bytes asciiSpace trail = true ->
  isASCII s = true -> all_bytes (fun c => negb (asciiSpace c)) s = true ->
  TrimSpace u (lead +:+ s +:+ trail) = s.
Proof.
  intros Hl Ht Ha Hs. unfold TrimSpace.
  rewrite !isASCII_app, Ha, (spaces_ASCII lead), (spaces_ASCII trail) by done. simpl.
  rewrite trim_left_spaces by done. destruct s as [|a s].
  - rewrite string_app_nil_l. rewrite <- (string_app_nil_r trail), trim_left_spaces by done. done.
  - assert (Hc : negb (asciiSpace a) = true) by (by apply andb_prop in Hs as [? _]).
    apply negb_true_iff in Hc. rewrite string_app_cons. cbn [trim_left]. rewrite Hc.
    rewrite <- string_app_cons, trim_right_spaces, trim_right_id; done.
Qed.
