(* ===== verification/Kube.v ===== *)
(** * The Kubernetes and sandboxd data the provider handles

    The types carry the fields the source reads or writes.  Code that lives in
    other packages (apimachinery, the agent-sandbox API, the operator's [scale]
    package, the Unicode tables) is the class [KubeLib]: a parameter of every
    definition that calls it.  An API error is the record of the answers the
    source gets when it inspects it. *)

From S2P Require Import Prelude.
Local Open Scope string_scope.

#[local] Set Warnings "-register-all".

(** A value of Go's [any] as [encoding/json] builds it. *)
Inductive json : Type :=
| JNull
| JBool (b : bool)
| JNum (s : string)
| JStr (s : string)
| JArr (l : list json)
| JObj (members : list (string * json)).

(** Index a decoded object: a repeated member overwrites the earlier one. *)
Fixpoint jmember (k : string) (members : list (string * json)) : option json :=
  match members with
  | [] => None
  | (k', v) :: rest =>
      match jmember k rest with
      | Some v' => Some v'
      | None => if String.eqb k' k then Some v else None
      end
  end.

(** [v == s] where [v] is an [any] and [s] a string. *)
Definition any_eq_string (v : option json) (s : string) : bool :=
  match v with Some (JStr t) => String.eqb t s | _ => false end.

Record OwnerReference := mkOwnerReference {
  APIVersion : string;
  Kind : string;
  OwnerName : string;
  OwnerUID : string;
  Controller : option bool;
  BlockOwnerDeletion : option bool;
}.

Record Container := mkContainer { ContainerName : string; ContainerImage : string }.

Inductive PodPhase := PodPending | PodRunning | PodFailed | PodPhaseOther (s : string).

Inductive ConditionType := PodInitialized | PodReady | PodScheduled | ConditionOther (s : string).
Record PodCondition := mkPodCondition { CondType : ConditionType; CondStatus : bool }.

Record ContainerStateTerminated := mkTerminated {
  ExitCode : Z; TermReason : string; FinishedAt : time }.
Record ContainerState := mkContainerState {
  StateRunning : option time;
  StateTerminated : option ContainerStateTerminated;
}.
Record ContainerStatus := mkContainerStatus {
  CSName : string; CSReady : bool; CSState : ContainerState; CSImage : string; CSImageID : string }.

Record PodStatus := mkPodStatus {
  Phase : PodPhase;
  Conditions : list PodCondition;
  Message : string;
  Reason : string;
  HostIP : string;
  PodIP : string;
  PodIPs : list string;
  StartTime : option time;
  ContainerStatuses : list ContainerStatus;
}.

(** The zero [corev1.PodStatus]. *)
Definition zeroStatus : PodStatus :=
  mkPodStatus (PodPhaseOther "") [] "" "" "" "" [] None [].

Record Pod := mkPod {
  Namespace : string;
  PodName : string;
  UID : string;
  Annotations : option (gmap string string);  (* [None] is the nil map *)
  OwnerReferences : list OwnerReference;
  Containers : list Container;
  Status : PodStatus;
}.

Definition with_Annotations (a : option (gmap string string)) (p : Pod) : Pod :=
  mkPod (Namespace p) (PodName p) (UID p) a (OwnerReferences p) (Containers p) (Status p).
Definition with_Status (st : PodStatus) (p : Pod) : Pod :=
  mkPod (Namespace p) (PodName p) (UID p) (Annotations p) (OwnerReferences p) (Containers p) st.
Definition with_Phase (ph : PodPhase) (st : PodStatus) : PodStatus :=
  mkPodStatus ph (Conditions st) (Message st) (Reason st) (HostIP st) (PodIP st)
    (PodIPs st) (StartTime st) (ContainerStatuses st).

(** ** What the apiserver answers about an owner *)

Record GroupVersionResource := mkGVR { Group : string; Version : string; Resource : string }.

(** An unstructured owner: [GetDeletionTimestamp], [GetUID] and the value of
    [NestedSlice(obj.Object, "status", "conditions")] (empty when the path is
    absent or not a list). *)
Record OwnerObject := mkOwnerObject {
  DeletionTimestamp : option time;
  ObjectUID : string;
  StatusConditions : list json;
}.

(** An error of the dynamic client: [k8serrors.IsNotFound(err)]; whether
    [errors.As] finds an [APIStatus], whether that has [Details], and its
    [Name]; and [err.Error()]. *)
Record APIError := mkAPIError {
  IsNotFound : bool;
  AsAPIStatus : option (option string);
  ErrorText : string;
}.

(** ** sandboxd *)

Definition gerr : Type := string.

Record ClaimSpec := mkClaimSpec {
  Template : string; Net : string; Size : string; TTLSeconds : Z; ClaimRef : string }.
Record ClaimResult := mkClaimResult {
  ResID : string; ResToken : string; OwnerAddr : string; ResDeadline : time }.
(** One row of sandboxd's listing; [SumOther] stands for the fields this program only
    hands on, encoded as one text. *)
Record SandboxSummary := mkSandboxSummary {
  SumID : string; SumClaimRef : string; SumDeadline : time; SumOther : string }.

(** ** Code of other packages *)

Class KubeLib := {
  GetControllerOf : Pod -> option OwnerReference;
  GetControllerOfNoCopy : Pod -> option OwnerReference;
  (** [schema.ParseGroupVersion]: group and version, or an error. *)
  ParseGroupVersion : string -> option (string * string);
  SelectorTemplateKey : string;
  SelectorNetKey : string;
  SelectorSizeKey : string;
  SandboxConditionReady : string;
  SandboxReasonExpired : string;
  (** [unicode.ToLower] over a string that is not all ASCII. *)
  unicode_lower : string -> string;
  (** [Time.Format(time.RFC3339)], in the Location the value carries. *)
  FormatRFC3339 : time -> string;
  (** [metav1.Time]'s text in JSON, and its inverse. *)
  time_marshal : time -> string;
  time_unmarshal : string -> option time;
}.

(** What the theorems use of it: [GetControllerOf] returns a copy of what
    [GetControllerOfNoCopy] returns, and a nonzero [metav1.Time] is written with
    a resolution of one second and reads back as the time it was written for,
    between the zero Time and the end of year 9999, where RFC 3339 ends. *)
Definition rfc3339_end : time := (3652059 * 24 * 60 * Minute)%Z.
Definition trunc_second (t : time) : time := (t / Second * Second)%Z.

Class KubeLibOk {K : KubeLib} : Prop := {
  controller_copy : forall pod, GetControllerOf pod = GetControllerOfNoCopy pod;
  time_roundtrip : forall t, (0 <= t < rfc3339_end)%Z -> time_unmarshal (time_marshal t) = Some (trunc_second t);
}.

(** ** Decidable equality *)

#[export] Instance OwnerReference_eq_dec : EqDecision OwnerReference.
Proof. solve_decision. Defined.
#[export] Instance Container_eq_dec : EqDecision Container.
Proof. solve_decision. Defined.
#[export] Instance PodPhase_eq_dec : EqDecision PodPhase.
Proof. solve_decision. Defined.
#[export] Instance ConditionType_eq_dec : EqDecision ConditionType.
Proof. solve_decision. Defined.
#[export] Instance PodCondition_eq_dec : EqDecision PodCondition.
Proof. solve_decision. Defined.
#[export] Instance Terminated_eq_dec : EqDecision ContainerStateTerminated.
Proof. solve_decision. Defined.
#[export] Instance ContainerState_eq_dec : EqDecision ContainerState.
Proof. solve_decision. Defined.
#[export] Instance ContainerStatus_eq_dec : EqDecision ContainerStatus.
Proof. solve_decision. Defined.
#[export] Instance PodStatus_eq_dec : EqDecision PodStatus.
Proof. solve_decision. Defined.
#[export] Instance Pod_eq_dec : EqDecision Pod.
Proof. solve_decision. Defined.
#[export] Instance GVR_eq_dec : EqDecision GroupVersionResource.
Proof. solve_decision. Defined.
#[export] Instance ClaimSpec_eq_dec : EqDecision ClaimSpec.
Proof. solve_decision. Defined.
#[export] Instance ClaimResult_eq_dec : EqDecision ClaimResult.
Proof. solve_decision. Defined.
#[export] Instance SandboxSummary_eq_dec : EqDecision SandboxSummary.
Proof. solve_decision. Defined.
