(* ===== verification/Prog.v ===== *)
(** * Programs as trees of atomic actions

    The Go handlers take [p.mu] for short critical sections and talk to sandboxd,
    the apiserver, the disk and the clock in between, so a handler is a sequence
    of atomic actions.  [prog] is the free monad over such actions; one definition
    of a handler then has two readings:

    - [run] executes it alone against a handler for the actions (executable);
    - [wp] is a rely/guarantee precondition: before every action, other
      goroutines may have changed the world as [R] allows, and every action the
      program itself takes satisfies the guarantee [G].

    [wp_run] connects the two, [pool_step] interleaves several programs action by
    action, and [pool_safe] is the parallel composition rule. *)

From S2P Require Import Prelude.
Local Open Scope list_scope.

Section prog.
Context {act : Type} {res : act -> Type}.

Inductive prog (A : Type) : Type :=
| Ret (a : A)
| Act (e : act) (k : res e -> prog A).
Arguments Ret {A}.
Arguments Act {A}.

Fixpoint bind {A B} (f : A -> prog B) (p : prog A) : prog B :=
  match p with
  | Ret a => f a
  | Act e k => Act e (fun x => bind f (k x))
  end.

Definition call (e : act) : prog (res e) := Act e Ret.

(** [for _, x := range l { body }] over a loop-carried value. *)
Fixpoint foldM {A S} (body : A -> S -> prog S) (l : list A) (s : S) : prog S :=
  match l with
  | [] => Ret s
  | x :: l => bind (foldM body l) (body x s)
  end.
End prog.
Arguments prog {act} res A.
Arguments Ret {act res A}.
Arguments Act {act res A}.

#[export] Instance prog_ret {act} {res : act -> Type} : MRet (prog res) := fun A => Ret.
#[export] Instance prog_bind {act} {res : act -> Type} : MBind (prog res) := fun A B => bind.

(** ** The actions a program may take

    [acts P p]: whatever the answers to its actions, every action of [p] satisfies
    [P]. *)

Section acts.
Context {act : Type} {res : act -> Type} (P : act -> Prop).

Fixpoint acts {A} (p : prog res A) : Prop :=
  match p with
  | Ret _ => True
  | Act e k => P e /\ forall x, acts (k x)
  end.

Lemma acts_call e : P e -> acts (call e : prog res (res e)).
Proof. by split. Qed.

Lemma acts_bind {A B} (p : prog res A) (f : A -> prog res B) :
  acts p -> (forall a, acts (f a)) -> acts (p ≫= f).
Proof.
  intros Hp Hf. induction p as [a|e k IH]; [apply Hf|].
  destruct Hp as [He Hk]. split; [done|]. intros x. by apply IH.
Qed.

Lemma acts_foldM {A S} (body : A -> S -> prog res S) l s :
  (forall x s, acts (body x s)) -> acts (foldM body l s).
Proof.
  intros Hb. revert s. induction l as [|x l IH]; intros s; [done|].
  apply (acts_bind (body x s) (foldM body l)); auto.
Qed.
End acts.

(** ** Histories

    [can_run p h a]: [p] can take the actions [h], each observed together with an
    answer it may get, and return [a]. *)

Section histories.
Context {act : Type} {res : act -> Type} {event : Type}.
Context (observe : forall e : act, res e -> event) (answers : forall e : act, res e -> Prop).

Fixpoint can_run {A} (p : prog res A) (h : list event) (a : A) : Prop :=
  match p with
  | Ret b => h = [] /\ a = b
  | Act e k => exists x h', answers e x /\ h = observe e x :: h' /\ can_run (k x) h' a
  end.

Lemma can_run_bind {A B} (p : prog res A) (f : A -> prog res B) h b :
  can_run (p ≫= f) h b <-> exists h1 h2 a, h = h1 ++ h2 /\ can_run p h1 a /\ can_run (f a) h2 b.
Proof.
  revert h. induction p as [a|e k IH]; intros h.
  - simpl. split.
    + intros Hf. exists [], h, a. by repeat split.
    + intros (h1 & h2 & a' & -> & [-> ->] & Hf). done.
  - simpl. split.
    + intros (x & h' & Hx & -> & (h1 & h2 & a & -> & H1 & H2)%IH).
      exists (observe e x :: h1), h2, a. split; [done|]. split; [|done]. eauto 10.
    + intros (h1 & h2 & a & -> & (x & h' & Hx & -> & H1) & H2).
      exists x, (h' ++ h2). split; [done|]. split; [done|]. apply IH. eauto 10.
Qed.

Lemma can_run_call {B} e (k : res e -> prog res B) h b :
  can_run (call e ≫= k) h b <->
  exists x h', answers e x /\ h = observe e x :: h' /\ can_run (k x) h' b.
Proof. done. Qed.
End histories.

(** ** Execution *)

Section run.
Context {act : Type} {res : act -> Type} {W : Type}.
Context (handle : forall e : act, W -> res e * W).

Fixpoint run {A} (p : prog res A) (w : W) : A * W :=
  match p with
  | Ret a => (a, w)
  | Act e k => let '(x, w1) := handle e w in run (k x) w1
  end.

Lemma run_ret {A} (a : A) w : run (mret a) w = (a, w).
Proof. done. Qed.

Lemma run_call e w : run (call e) w = handle e w.
Proof. unfold call; simpl. by destruct (handle e w). Qed.

Lemma run_bind {A B} (p : prog res A) (f : A -> prog res B) w :
  run (p ≫= f) w = let '(a, w1) := run p w in run (f a) w1.
Proof.
  revert w. induction p as [a|e k IH]; intros w; simpl; [done|].
  destruct (handle e w) as [x w1]. apply IH.
Qed.

Lemma run_call_bind {B} e (f : res e -> prog res B) w :
  run (call e ≫= f) w = let '(x, w1) := handle e w in run (f x) w1.
Proof. rewrite run_bind, run_call. done. Qed.

Lemma run_foldM_cons {A S} (body : A -> S -> prog res S) x l s w :
  run (foldM body (x :: l) s) w =
  let '(s1, w1) := run (body x s) w in run (foldM body l s1) w1.
Proof. apply (run_bind (body x s) (foldM body l)). Qed.

(** An invariant carried by every iteration of a loop. *)
Lemma run_foldM_inv {A S} (I : S -> W -> Prop) (body : A -> S -> prog res S) l s w :
  (forall x s w, x ∈ l -> I s w ->
     let '(s1, w1) := run (body x s) w in I s1 w1) ->
  I s w -> let '(s1, w1) := run (foldM body l s) w in I s1 w1.
Proof.
  revert s w. induction l as [|x l IH]; intros s w Hb HI; [done|].
  rewrite run_foldM_cons.
  pose proof (Hb x s w ltac:(set_solver) HI) as H1.
  destruct (run (body x s) w) as [s1 w1].
  apply IH; [|done]. intros; apply Hb; set_solver.
Qed.
End run.

(** ** Rely/guarantee preconditions *)

Section wp.
Context {act : Type} {res : act -> Type} {W : Type}.
Context (astep : forall e : act, W -> res e -> W -> Prop).

Fixpoint wp {A} (R G : W -> W -> Prop) (p : prog res A) (Q : A -> W -> Prop) (w : W) : Prop :=
  match p with
  | Ret a => Q a w
  | Act e k => forall w1, R w w1 -> forall x w2, astep e w1 x w2 ->
      G w1 w2 /\ wp R G (k x) Q w2
  end.

Implicit Types (R G : W -> W -> Prop).

Lemma wp_ret {A} R G (a : A) Q w : Q a w -> wp R G (mret a) Q w.
Proof. done. Qed.

Lemma wp_bind {A B} R G (p : prog res A) (f : A -> prog res B) Q w :
  wp R G (p ≫= f) Q w <-> wp R G p (fun a w => wp R G (f a) Q w) w.
Proof.
  revert w. induction p as [a|e k IH]; intros w; [done|].
  simpl. split; intros H w1 HR x w2 Hs; destruct (H w1 HR x w2 Hs); split; auto;
    by apply IH.
Qed.

Lemma wp_mono {A} R G (p : prog res A) (Q Q' : A -> W -> Prop) w :
  (forall a w, Q a w -> Q' a w) -> wp R G p Q w -> wp R G p Q' w.
Proof.
  intros HQ. revert w. induction p as [a|e k IH]; intros w; simpl; [auto|].
  intros H w1 HR x w2 Hs. destruct (H w1 HR x w2 Hs). auto.
Qed.

Lemma wp_weaken {A} R R' G G' (p : prog res A) (Q : A -> W -> Prop) w :
  (forall w w', R' w w' -> R w w') -> (forall w w', G w w' -> G' w w') ->
  wp R G p Q w -> wp R' G' p Q w.
Proof.
  intros HR HG. revert w. induction p as [a|e k IH]; intros w; simpl; [auto|].
  intros H w1 HR1 x w2 Hs. destruct (H w1 (HR _ _ HR1) x w2 Hs). auto.
Qed.

Lemma wp_call {B} R G e (f : res e -> prog res B) Q w :
  (forall w1, R w w1 -> forall x w2, astep e w1 x w2 -> G w1 w2 /\ wp R G (f x) Q w2) ->
  wp R G (call e ≫= f) Q w.
Proof. done. Qed.

(** What a thread knows survives the steps of the others. *)
Lemma wp_stable {A} R G (p : prog res A) (Q : A -> W -> Prop) w w' :
  Transitive R -> (forall a w w', Q a w -> R w w' -> Q a w') ->
  R w w' -> wp R G p Q w -> wp R G p Q w'.
Proof.
  intros HT HQ HR. destruct p as [a|e k]; simpl; [by eauto|].
  intros H w1 HR1. apply H. by transitivity w'.
Qed.

(** A predicate on worlds that interference keeps and every action keeps holds
    along the program. *)
Lemma wp_foldM {A S} R G (I : S -> W -> Prop) (body : A -> S -> prog res S) l s w :
  (forall x s w, x ∈ l -> I s w -> wp R G (body x s) I w) ->
  I s w -> wp R G (foldM body l s) I w.
Proof.
  revert s w. induction l as [|x l IH]; intros s w Hb HI; [done|].
  simpl. apply (wp_bind R G (body x s) (foldM body l)).
  eapply wp_mono; [|apply Hb; [set_solver|done]].
  intros s1 w1 HI1. apply IH; [|done]. intros; apply Hb; set_solver.
Qed.

(** [run] against a handler whose answers [astep] allows, in the worlds [P]
    that the handler keeps, obeys [wp] without interference. *)
Lemma wp_run {A} (handle : forall e, W -> res e * W) (P : W -> Prop) G (p : prog res A) Q w :
  (forall e w, P w -> astep e w (handle e w).1 (handle e w).2 /\ P (handle e w).2) ->
  P w -> wp eq G p Q w -> let '(a, w1) := run handle p w in Q a w1 /\ P w1.
Proof.
  intros Hh. revert w. induction p as [a|e k IH]; intros w HP; simpl; [done|].
  intros H. pose proof (Hh e w HP) as [He HP1].
  destruct (handle e w) as [x w1]. destruct (H w eq_refl x w1 He) as [_ ?]. by apply IH.
Qed.
End wp.

(** Fewer possible steps, fewer obligations. *)
Lemma wp_astep_mono {act} {res : act -> Type} {W A}
    (astep astep' : forall e : act, W -> res e -> W -> Prop)
    (R G : W -> W -> Prop) (p : prog res A) (Q : A -> W -> Prop) w :
  (forall e w x w', astep' e w x w' -> astep e w x w') ->
  wp astep R G p Q w -> wp astep' R G p Q w.
Proof.
  intros Ha. revert w. induction p as [a|e k IH]; intros w; simpl; [auto|].
  intros H w1 HR x w2 Hs. destruct (H w1 HR x w2 (Ha _ _ _ _ Hs)). auto.
Qed.

(** ** Interleaving *)

Section pool.
Context {act : Type} {res : act -> Type} {W : Type}.
Context (astep : nat -> forall e : act, W -> res e -> W -> Prop).

(** A pool of goroutines over a shared world; a step is one action of one of
    them, and [astep i] is what goroutine [i] may do (it depends on [i] for
    locks). *)
Inductive pool_step {A} : list (prog res A) * W -> list (prog res A) * W -> Prop :=
| pool_act ts i e k w x w' :
    ts !! i = Some (Act e k) -> astep i e w x w' ->
    pool_step (ts, w) (<[i := k x]> ts, w').

(** Every thread has its own rely and guarantee, and what one guarantees the
    others rely on. *)
Lemma pool_safe {A} (RG : nat -> (W -> W -> Prop) * (W -> W -> Prop))
    (Q : nat -> A -> W -> Prop) (c c' : list (prog res A) * W) :
  (forall i, PreOrder (RG i).1) ->
  (forall i j w w', i <> j -> (RG i).2 w w' -> (RG j).1 w w') ->
  (forall i a w w', Q i a w -> (RG i).1 w w' -> Q i a w') ->
  (forall i p, c.1 !! i = Some p -> wp (astep i) (RG i).1 (RG i).2 p (Q i) c.2) ->
  rtc pool_step c c' ->
  (forall i p, c'.1 !! i = Some p -> wp (astep i) (RG i).1 (RG i).2 p (Q i) c'.2).
Proof.
  intros Hpre Hcomp HQ Hinit Hsteps. induction Hsteps as [c|c1 c2 c3 Hs _ IH]; [done|].
  apply IH. clear IH. destruct Hs as [ts i e k w x w' Hi Hx]. simpl in *.
  pose proof (Hinit _ _ Hi w (reflexivity (R := (RG i).1) w) x w' Hx) as [HG Hk].
  intros j p Hj. destruct (decide (i = j)) as [<-|Hne].
  - rewrite list_lookup_insert_eq in Hj by (by eapply lookup_lt_Some).
    by simplify_eq.
  - rewrite list_lookup_insert_ne in Hj by done.
    eapply wp_stable; [apply _|apply HQ|by apply (Hcomp i j)|by apply Hinit].
Qed.

(** Hence an invariant every guarantee keeps is kept by every interleaving. *)
Lemma pool_invariant {A} (RG : nat -> (W -> W -> Prop) * (W -> W -> Prop))
    (Q : nat -> A -> W -> Prop) (I : W -> Prop) (c c' : list (prog res A) * W) :
  (forall i, PreOrder (RG i).1) ->
  (forall i j w w', i <> j -> (RG i).2 w w' -> (RG j).1 w w') ->
  (forall i a w w', Q i a w -> (RG i).1 w w' -> Q i a w') ->
  (forall i w w', I w -> (RG i).2 w w' -> I w') ->
  (forall i p, c.1 !! i = Some p -> wp (astep i) (RG i).1 (RG i).2 p (Q i) c.2) ->
  I c.2 -> rtc pool_step c c' -> I c'.2.
Proof.
  intros Hpre Hcomp HQ HI Hinit Hc Hsteps. revert Hinit Hc.
  induction Hsteps as [c|c1 c2 c3 Hs _ IH]; [done|]. intros Hinit Hc.
  apply IH.
  - eapply (pool_safe RG Q c1 c2); eauto using rtc_once.
  - destruct Hs as [ts i e k w x w' Hi Hx]. simpl in *.
    pose proof (Hinit _ _ Hi w (reflexivity (R := (RG i).1) w) x w' Hx) as [HG _].
    by eapply HI.
Qed.
End pool.
