(* ===== verification/State.v ===== *)
(** * The provider's state and the world it acts on

    [Claim], [stateFile] and [Provider] of provider.go, the errors the handlers
    return, the atomic actions a handler is made of, the disk that holds the
    state file, and the two semantics of an action: [handle] (executable, with
    the environment's answers as an [Env]) and [astep] (any answer). *)

From S2P Require Import Prelude Kube Prog.
Local Open Scope string_scope.

(** ** provider.go: data *)

Record Claim := mkClaim {
  ID : string;
  Token : string;
  Address : string;
  PodUID : string;
  Authority : option string;
  ClaimedAt : time;
  Deadline : time;
  Owner : option OwnerReference;
}.

Definition with_Deadline (d : time) (c : Claim) : Claim :=
  mkClaim (ID c) (Token c) (Address c) (PodUID c) (Authority c) (ClaimedAt c) d (Owner c).
Definition with_ClaimedAt (t : time) (c : Claim) : Claim :=
  mkClaim (ID c) (Token c) (Address c) (PodUID c) (Authority c) t (Deadline c) (Owner c).
Definition with_Owner (o : option OwnerReference) (c : Claim) : Claim :=
  mkClaim (ID c) (Token c) (Address c) (PodUID c) (Authority c) (ClaimedAt c) (Deadline c) o.
Definition rebind (uid : string) (auth : option string) (c : Claim) : Claim :=
  mkClaim (ID c) (Token c) (Address c) uid auth (ClaimedAt c) (Deadline c) None.

(** [stateFile]: the persisted table; [SClaims] is [None] for a nil map. *)
Record stateFile := mkStateFile {
  SClaims : option (gmap string Claim);
  SReleasing : list Claim;
}.

(** The interfaces and the path [New] is given; they never change. *)
Record Config := mkConfig {
  HasLister : bool;
  HasDynamic : bool;
  StatePath : string;
}.

Record ownerRecheck := mkRecheck { at_ : time; delay : duration }.

(** The mutable fields of [Provider].  [notifier] tells whether the callback is
    set; [tentative] and [quarantined] are sets of keys. *)
Record Provider := mkProvider {
  pods : gmap string Pod;
  claims : gmap string Claim;
  notifier : bool;
  tentative : gset string;
  quarantined : gset string;
  releasing : list Claim;
  orphanVerdicts : gmap string string;
  ownerRechecks : gmap string ownerRecheck;
}.

Definition set_pods x p := mkProvider x (claims p) (notifier p) (tentative p)
  (quarantined p) (releasing p) (orphanVerdicts p) (ownerRechecks p).
Definition set_claims x p := mkProvider (pods p) x (notifier p) (tentative p)
  (quarantined p) (releasing p) (orphanVerdicts p) (ownerRechecks p).
Definition set_notifier x p := mkProvider (pods p) (claims p) x (tentative p)
  (quarantined p) (releasing p) (orphanVerdicts p) (ownerRechecks p).
Definition set_tentative x p := mkProvider (pods p) (claims p) (notifier p) x
  (quarantined p) (releasing p) (orphanVerdicts p) (ownerRechecks p).
Definition set_quarantined x p := mkProvider (pods p) (claims p) (notifier p) (tentative p)
  x (releasing p) (orphanVerdicts p) (ownerRechecks p).
Definition set_releasing x p := mkProvider (pods p) (claims p) (notifier p) (tentative p)
  (quarantined p) x (orphanVerdicts p) (ownerRechecks p).
Definition set_orphanVerdicts x p := mkProvider (pods p) (claims p) (notifier p) (tentative p)
  (quarantined p) (releasing p) x (ownerRechecks p).
Definition set_ownerRechecks x p := mkProvider (pods p) (claims p) (notifier p) (tentative p)
  (quarantined p) (releasing p) (orphanVerdicts p) x.

(** The maps [New] starts from. *)
Definition emptyProvider : Provider := mkProvider ∅ ∅ false ∅ ∅ [] ∅ ∅.

(** The errors of the lifecycle calls, one constructor per message. *)
Inductive perr :=
| ErrRuntime (key rt : string)
| ErrUnverified (key : string)
| ErrExpiredUnlistable (key id : string) (e : gerr)
| ErrStranded (key id : string) (e : gerr)
| ErrInvalidTTL (key s : string)
| ErrMissingTemplate (key : string)
| ErrClaim (key template : string) (e : gerr)
| ErrPersist (key : string) (e : gerr)
| ErrPersistRelease (key id : string) (persistErr releaseErr : gerr)
| ErrRelease (id key : string) (e : gerr)
| ErrReadState (e : gerr)
| ErrDecodeState
| ErrNotWritable (e : gerr).

(** ** The disk

    The state file and its temporary sibling.  [Torn] is what a failed write may
    leave: text that is not a JSON document. *)
Inductive content := Doc (j : json) | Torn.
Record Disk := mkDisk { stateOnDisk : option content; tmpOnDisk : option content }.

Inductive read_result := RNotExist | RErr (e : gerr) | ROk (c : content).

(** Which context a release runs on: the caller's, or its own
    ([releaseDetached]). *)
Inductive relctx := CallerCtx | DetachedCtx.

(** ** Atomic actions

    [AMu f] is one critical section of [p.mu] (or one access to a field a
    goroutine owns).  [ASaveLock]/[ASaveUnlock] bracket the holders of [saveMu].
    [ARange] fixes the order in which [range] visits a map's keys.  [ASelect] is
    one wait of [runTicker]: [true] for a tick, [false] for [ctx.Done()].
    [ALogVerdicts] is the orphan scan's log: the only log the model keeps, because
    the scan remembers what it has logged. *)
Inductive act : Type :=
| AMu (X : Type) (f : Provider -> X * Provider)
| ASaveLock
| ASaveUnlock
| AClaim (spec : ClaimSpec)
| ARelease (ctx : relctx) (id token : string)
| ASandboxes
| AGetOwner (gvr : GroupVersionResource) (namespace name : string)
| ANow
| ANotify (pod : Pod)
| ALogVerdicts (lines : list (string * string))
| ARange (keys : list string)
| AReadFile
| AMkdirAll
| AWriteTmp (c : content)
| ARename
| ASelect.

Definition res (e : act) : Type :=
  match e with
  | AMu X _ => X
  | ASaveLock | ASaveUnlock | ANotify _ | ALogVerdicts _ => unit
  | AClaim _ => ClaimResult + gerr
  | ARelease _ _ _ => option gerr
  | ASandboxes => list SandboxSummary + gerr
  | AGetOwner _ _ _ => OwnerObject + APIError
  | ANow => time
  | ARange _ => list string
  | AReadFile => read_result
  | AMkdirAll | AWriteTmp _ | ARename => option gerr
  | ASelect => bool
  end.

Abbreviation M := (prog res).

(** What the rest of the system saw or answered, in order. *)
Inductive event :=
| EvClaim (spec : ClaimSpec) (r : ClaimResult + gerr)
| EvRelease (ctx : relctx) (id token : string) (r : option gerr)
| EvSandboxes (r : list SandboxSummary + gerr)
| EvGetOwner (gvr : GroupVersionResource) (namespace name : string) (r : OwnerObject + APIError)
| EvNow (t : time)
| EvNotify (pod : Pod)
| EvLogVerdicts (lines : list (string * string))
| EvMkdirAll (r : option gerr)
| EvWriteTmp (r : option gerr)
| EvRename (r : option gerr)
| EvRead (r : read_result)
| EvSelect (tick : bool).

(** Every event carries the number of the goroutine that took part in it. *)
Abbreviation history := (list (nat * event)).

(** [saveOwner] is the goroutine that holds [saveMu]. *)
Record World := mkWorld {
  mem : Provider;
  disk : Disk;
  hist : history;
  saveOwner : option nat;
}.

Definition set_mem x w := mkWorld x (disk w) (hist w) (saveOwner w).
Definition set_disk x w := mkWorld (mem w) x (hist w) (saveOwner w).
Definition set_saveOwner x w := mkWorld (mem w) (disk w) (hist w) x.
Definition emit (i : nat) ev w := mkWorld (mem w) (disk w) (hist w ++ [(i, ev)]) (saveOwner w).

(** ** Environments: every answer may depend on everything that happened. *)
Record Env := mkEnv {
  env_claim : history -> ClaimSpec -> ClaimResult + gerr;
  env_release : history -> relctx -> string -> string -> option gerr;
  env_list : history -> list SandboxSummary + gerr;
  env_owner : history -> GroupVersionResource -> string -> string -> OwnerObject + APIError;
  env_now : history -> time;
  env_range : history -> list string -> list string;
  env_read : history -> option gerr;
  env_mkdir : history -> option gerr;
  (** On failure: the error and what is left in the temporary file. *)
  env_write : history -> content -> option (gerr * option content);
  env_rename : history -> option gerr;
  env_tick : history -> bool;
}.

Definition read_answer (io : option gerr) (d : Disk) : read_result :=
  match io, stateOnDisk d with
  | Some e, _ => RErr e
  | None, None => RNotExist
  | None, Some c => ROk c
  end.

(** [os.Rename(tmp, statePath)]: it fails when the temporary file is missing. *)
Definition rename_answer (io : option gerr) (d : Disk) : option gerr * Disk :=
  match io, tmpOnDisk d with
  | Some e, _ => (Some e, d)
  | None, None => (Some "no such file or directory", d)
  | None, Some c => (None, mkDisk (Some c) None)
  end.

Definition write_answer (io : option (gerr * option content)) (c : content) (d : Disk)
  : option gerr * Disk :=
  match io with
  | Some (e, rest) => (Some e, mkDisk (stateOnDisk d) rest)
  | None => (None, mkDisk (stateOnDisk d) (Some c))
  end.

(** A goroutine running alone is number 0. *)
Definition handle (env : Env) (e : act) (w : World) : res e * World :=
  let h := hist w in
  match e return res e * World with
  | AMu X f => let '(x, p) := f (mem w) in (x, set_mem p w)
  | ASaveLock => (tt, set_saveOwner (Some 0) w)
  | ASaveUnlock => (tt, set_saveOwner None w)
  | AClaim spec => let r := env_claim env h spec in (r, emit 0 (EvClaim spec r) w)
  | ARelease c id tok =>
      let r := env_release env h c id tok in (r, emit 0 (EvRelease c id tok r) w)
  | ASandboxes => let r := env_list env h in (r, emit 0 (EvSandboxes r) w)
  | AGetOwner gvr ns name =>
      let r := env_owner env h gvr ns name in (r, emit 0 (EvGetOwner gvr ns name r) w)
  | ANow => let t := env_now env h in (t, emit 0 (EvNow t) w)
  | ANotify pod => (tt, emit 0 (EvNotify pod) w)
  | ALogVerdicts l => (tt, emit 0 (EvLogVerdicts l) w)
  | ARange keys =>
      let o := env_range env h keys in (if decide (o ≡ₚ keys) then o else keys, w)
  | AReadFile => let r := read_answer (env_read env h) (disk w) in (r, emit 0 (EvRead r) w)
  | AMkdirAll => let r := env_mkdir env h in (r, emit 0 (EvMkdirAll r) w)
  | AWriteTmp c =>
      let '(r, d) := write_answer (env_write env h c) c (disk w) in
      (r, emit 0 (EvWriteTmp r) (set_disk d w))
  | ARename =>
      let '(r, d) := rename_answer (env_rename env h) (disk w) in
      (r, emit 0 (EvRename r) (set_disk d w))
  | ASelect => let b := env_tick env h in (b, emit 0 (EvSelect b) w)
  end.

(** The same actions by goroutine [i] with every possible answer, without regard to locks. *)
Definition astep (i : nat) (e : act) (w : World) : res e -> World -> Prop :=
  match e return res e -> World -> Prop with
  | AMu X f => fun x w' => x = (f (mem w)).1 /\ w' = set_mem (f (mem w)).2 w
  | ASaveLock => fun _ w' => w' = set_saveOwner (Some i) w
  | ASaveUnlock => fun _ w' => w' = set_saveOwner None w
  | AClaim spec => fun r w' => w' = emit i (EvClaim spec r) w
  | ARelease c id tok => fun r w' => w' = emit i (EvRelease c id tok r) w
  | ASandboxes => fun r w' => w' = emit i (EvSandboxes r) w
  | AGetOwner gvr ns name => fun r w' => w' = emit i (EvGetOwner gvr ns name r) w
  | ANow => fun t w' => w' = emit i (EvNow t) w
  | ANotify pod => fun _ w' => w' = emit i (EvNotify pod) w
  | ALogVerdicts l => fun _ w' => w' = emit i (EvLogVerdicts l) w
  | ARange keys => fun o w' => o ≡ₚ keys /\ w' = w
  | AReadFile => fun r w' =>
      exists io, r = read_answer io (disk w) /\ w' = emit i (EvRead r) w
  | AMkdirAll => fun r w' => w' = emit i (EvMkdirAll r) w
  | AWriteTmp c => fun r w' =>
      exists io, (r, disk w') = write_answer io c (disk w)
                 /\ w' = emit i (EvWriteTmp r) (set_disk (disk w') w)
  | ARename => fun r w' =>
      exists io, (r, disk w') = rename_answer io (disk w)
                 /\ w' = emit i (EvRename r) (set_disk (disk w') w)
  | ASelect => fun b w' => w' = emit i (EvSelect b) w
  end.

(** What goroutine [i] may do: [saveMu] is exclusive. *)
Definition astep_of (i : nat) (e : act) (w : World) (x : res e) (w' : World) : Prop :=
  match e return res e -> World -> World -> Prop with
  | ASaveLock => fun _ w w' => saveOwner w = None /\ w' = set_saveOwner (Some i) w
  | ASaveUnlock => fun _ w w' => saveOwner w = Some i /\ w' = set_saveOwner None w
  | e => fun x w w' => astep i e w x w'
  end x w w'.

(** [AMu] for a section that only reads. *)
Definition read_mu {X} (f : Provider -> X) : M X := call (AMu X (fun p => (f p, p))).
(** [AMu] for a section that only writes. *)
Definition write_mu (f : Provider -> Provider) : M unit := call (AMu unit (fun p => (tt, f p))).
Definition locked {X} (f : Provider -> X * Provider) : M X := call (AMu X f).

Definition entries {V} (m : gmap string V) (ks : list string) : list (string * V) :=
  omap (fun k => v ← m !! k; Some (k, v)) ks.

(** [for k, v := range m]: the entries in an order the runtime picks. *)
Definition range {V} (m : gmap string V) : M (list (string * V)) :=
  ks ← call (ARange (elements (dom m)));
  mret (entries m ks).

(** [if err := p; err != nil { return err }; q] *)
Definition check_err (p q : M (option perr)) : M (option perr) :=
  e ← p; match e with Some e => mret (Some e) | None => q end.
Notation "p ;? q" := (check_err p q) (at level 100, q at level 200, right associativity) : go_scope.

#[export] Instance Claim_eq_dec : EqDecision Claim.
Proof. solve_decision. Defined.

(** ** Lemmas on the semantics *)

Lemma handle_astep env e w : astep 0 e w (handle env e w).1 (handle env e w).2.
Proof.
  destruct e; simpl; try done.
  - by destruct (f (mem w)).
  - by case_decide.
  - eauto.
  - destruct (write_answer _ _ _) as [r d] eqn:H; simpl. exists (env_write env (hist w) c).
    by rewrite H.
  - destruct (rename_answer _ _) as [r d] eqn:H; simpl. exists (env_rename env (hist w)).
    by rewrite H.
Qed.

(** The events an action adds to the history. *)
Definition emits (e : act) : res e -> list event :=
  match e return res e -> list event with
  | AMu _ _ | ASaveLock | ASaveUnlock | ARange _ => fun _ => []
  | AClaim spec => fun r => [EvClaim spec r]
  | ARelease c id tok => fun r => [EvRelease c id tok r]
  | ASandboxes => fun r => [EvSandboxes r]
  | AGetOwner gvr ns name => fun r => [EvGetOwner gvr ns name r]
  | ANow => fun t => [EvNow t]
  | ANotify pod => fun _ => [EvNotify pod]
  | ALogVerdicts l => fun _ => [EvLogVerdicts l]
  | AReadFile => fun r => [EvRead r]
  | AMkdirAll => fun r => [EvMkdirAll r]
  | AWriteTmp _ => fun r => [EvWriteTmp r]
  | ARename => fun r => [EvRename r]
  | ASelect => fun b => [EvSelect b]
  end.

(** What an action does to the history and to the memory. *)
Lemma astep_effect i e w x w' :
  astep i e w x w' ->
  hist w' = (hist w ++ (pair i <$> emits e x))%list /\
  mem w' = match e with AMu X f => (f (mem w)).2 | _ => mem w end.
Proof.
  destruct e; simpl; intros H; try (subst w'; by rewrite ?app_nil_r).
  - destruct H as [_ ->]. by rewrite app_nil_r.
  - destruct H as [_ ->]. by rewrite app_nil_r.
  - by destruct H as (io & _ & ->).
  - by destruct H as (io & _ & ->).
  - by destruct H as (io & _ & ->).
Qed.

Lemma astep_of_astep i e w x w' : astep_of i e w x w' -> astep i e w x w'.
Proof. destruct e; simpl; try done; by intros [_ ->]. Qed.

Lemma entries_fst {V} (m : gmap string V) ks :
  (forall k, k ∈ ks -> k ∈ dom m) -> (entries m ks).*1 = ks.
Proof.
  induction ks as [|k ks IH]; intros Hd; [done|].
  assert (is_Some (m !! k)) as [v Hv] by (apply elem_of_dom; apply Hd; set_solver).
  unfold entries; simpl. rewrite Hv. simpl. f_equal. apply IH. set_solver.
Qed.

Lemma elem_of_entries {V} (m : gmap string V) ks k v :
  (k, v) ∈ entries m ks <-> k ∈ ks /\ m !! k = Some v.
Proof.
  unfold entries. rewrite list_elem_of_omap. split.
  - intros (k' & Hk & Hm). destruct (m !! k') eqn:E; simpl in Hm; by simplify_eq.
  - intros [Hk Hm]. exists k. by rewrite Hm.
Qed.

(** Every entry of the map is visited once, in any order of the keys. *)
Lemma entries_permutation {V} (m : gmap string V) ks :
  ks ≡ₚ elements (dom m) -> entries m ks ≡ₚ map_to_list m.
Proof.
  intros Hks. apply NoDup_Permutation.
  - apply (NoDup_fmap_1 fst). rewrite entries_fst.
    + rewrite Hks. apply NoDup_elements.
    + intros k. rewrite Hks. by rewrite elem_of_elements.
  - apply NoDup_map_to_list.
  - intros [k v]. rewrite elem_of_entries, elem_of_map_to_list, Hks, elem_of_elements.
    split; [by intros []|]. intros H. split; [|done]. by eapply elem_of_dom_2.
Qed.

Abbreviation exec env := (run (handle env)).

Section exec.
Context (env : Env).

Lemma exec_read_mu {X B} (f : Provider -> X) (k : X -> M B) w :
  exec env (read_mu f ≫= k) w = exec env (k (f (mem w))) w.
Proof.
  etransitivity; [exact (run_call_bind (handle env) (AMu X (fun p => (f p, p))) k w)|].
  simpl. by destruct w.
Qed.

Lemma exec_write_mu {B} f (k : unit -> M B) w :
  exec env (write_mu f ≫= k) w = exec env (k tt) (set_mem (f (mem w)) w).
Proof. exact (run_call_bind (handle env) (AMu unit (fun p => (tt, f p))) k w). Qed.

Lemma exec_locked {X B} (f : Provider -> X * Provider) (k : X -> M B) w :
  exec env (locked f ≫= k) w = exec env (k (f (mem w)).1) (set_mem (f (mem w)).2 w).
Proof.
  etransitivity; [exact (run_call_bind (handle env) (AMu X f) k w)|].
  simpl. by destruct (f (mem w)).
Qed.

(** [range] visits every entry of the map once. *)
Lemma exec_range {V B} (m : gmap string V) (k : list (string * V) -> M B) w :
  exists l, l ≡ₚ map_to_list m /\ exec env (range m ≫= k) w = exec env (k l) w.
Proof.
  unfold range. set (ks := if decide (env_range env (hist w) (elements (dom m)) ≡ₚ elements (dom m))
    then env_range env (hist w) (elements (dom m)) else elements (dom m)).
  exists (entries m ks). split.
  - assert (Hks : ks ≡ₚ elements (dom m)) by (unfold ks; by case_decide).
    by apply entries_permutation.
  - rewrite !run_bind. done.
Qed.
End exec.
