(* ===== verification/Provider.v ===== *)
(** * provider.go: the claims table

    The table's own operations: lookups that withhold unsettled claims, the
    guarded row updates, the startup verification against the node's listing, and
    the address view the inventory reads.  The persistence half of provider.go is
    in the file Persist. *)

From S2P Require Import Prelude Kube Prog State.
Local Open Scope string_scope.
Local Open Scope go_scope.

(** [func (c Claim) expired(now time.Time) bool] *)
Definition expired (c : Claim) (now : time) : bool :=
  ! IsZero (Deadline c) && ! Before now (Deadline c).

Definition podKey (namespace name : string) : string := namespace +:+ "/" +:+ name.

Definition keyOf (pod : Pod) : string := podKey (Namespace pod) (PodName pod).

(** [settled]: neither tentative nor quarantined. *)
Definition settled (p : Provider) (key : string) : bool :=
  let pending := bool_decide (key ∈ tentative p) in
  let unverified := bool_decide (key ∈ quarantined p) in
  ! pending && ! unverified.

Definition claimFor (key : string) : M (option Claim) :=
  read_mu (fun p => if ! settled p key then None else claims p !! key).

Definition heldClaimFor (key : string) : M (option Claim) :=
  read_mu (fun p => claims p !! key).

Definition podUIDIsCurrent (key : string) (pod : Pod) : M bool :=
  read_mu (fun p => match pods p !! key with
                    | None => true
                    | Some cur => UID cur =? UID pod
                    end).

(** Rows are changed only while they still hold the claim [id]. *)
Definition drop_row (key id : string) (p : Provider) : Provider :=
  match claims p !! key with
  | Some c => if ID c =? id then set_claims (delete key (claims p)) p else p
  | None => p
  end.

Definition dropClaim (key id : string) : M unit := write_mu (drop_row key id).

Definition refresh_row (key id : string) (deadline : time) (p : Provider) : Provider :=
  match claims p !! key with
  | Some c =>
      if ID c =? id then set_claims (<[key := with_Deadline deadline c]> (claims p)) p else p
  | None => p
  end.

Definition refreshDeadline (key id : string) (deadline : time) : M unit :=
  write_mu (refresh_row key id deadline).

Definition hasQuarantined : M bool :=
  read_mu (fun p => bool_decide (0 < size (quarantined p))%nat).

Definition quarantineLoadedClaims : M unit :=
  write_mu (fun p => set_quarantined (dom (claims p) ∪ quarantined p) p).

Definition NotifyPods : M unit := write_mu (set_notifier true).

Definition notify (pod : Pod) : M unit :=
  n ← read_mu notifier;
  if (n : bool) then call (ANotify pod) else mret tt.

Definition liveDeadlines (listed : list SandboxSummary) : gmap string time :=
  foldl (fun live s => <[SumID s := SumDeadline s]> live) ∅ listed.

Definition ClaimAddresses : M (gmap string string) :=
  cs ← read_mu claims;
  l ← range cs;
  mret (foldl (fun out (kc : string * Claim) =>
                 if Address kc.2 =? "" then out else <[ID kc.2 := Address kc.2]> out) ∅ l).

(** ** [VerifyClaimsAgainstNode] *)

(** The claim id of every quarantined key that still has a row. *)
Definition quarantine_snapshot (p : Provider) : gmap string string :=
  foldr (fun k before => match claims p !! k with
                         | Some c => <[k := ID c]> before
                         | None => before
                         end) ∅ (elements (quarantined p)).

(** The body of the settling loop for one snapshot row. *)
Definition settle_row (live : gmap string time) (key id : string) (p : Provider) : Provider :=
  match claims p !! key with
  | None => p
  | Some c =>
      if ! (ID c =? id) then p
      else match live !! id with
           | Some rowDeadline =>
               let p := if IsZero (Deadline c) && ! IsZero rowDeadline
                        then set_claims (<[key := with_Deadline rowDeadline c]> (claims p)) p
                        else p in
               set_quarantined (quarantined p ∖ {[key]}) p
           | None =>
               let p := set_claims (delete key (claims p)) p in
               set_quarantined (quarantined p ∖ {[key]}) p
           end
  end.

Definition settle_rows (live : gmap string time) (rows : list (string * string)) (p : Provider)
  : Provider :=
  foldl (fun p row => settle_row live row.1 row.2 p) p rows.

Section provider.
Context `{K : KubeLib} (cfg : Config).

Definition authorityOf (pod : Pod) : string :=
  match GetControllerOfNoCopy pod with
  | Some ref => OwnerUID ref
  | None => UID pod
  end.

(** [func (c Claim) adoptableBy(pod *corev1.Pod) bool] *)
Definition adoptableBy (c : Claim) (pod : Pod) : bool :=
  let want := match Owner c with Some o => Some (OwnerUID o) | None => Authority c end in
  match want with
  | None => true
  | Some u => (PodUID c =? UID pod) || (u =? authorityOf pod)
  end.

Definition VerifyClaimsAgainstNode : M bool :=
  if ! HasLister cfg then mret false
  else
    before ← read_mu quarantine_snapshot;
    if decide (before = ∅) then mret true
    else
      r ← call ASandboxes;
      match r with
      | inr _ => mret false
      | inl listed =>
          let live := liveDeadlines listed in
          rows ← range before;
          _ ← write_mu (settle_rows live rows);
          mret true
      end.
End provider.

(** ** What the two predicates mean

    Stated apart from the code: when a lease is over, and whom a claim and a pod
    answer to. *)

(** A lease end is known and the clock has reached it. *)
Definition lease_over (c : Claim) (now : time) : Prop := Deadline c <> zeroTime /\ (Deadline c <= now)%Z.

Lemma expired_iff c now : expired c now = true <-> lease_over c now.
Proof.
  unfold expired, lease_over, IsZero, Before, zeroTime.
  destruct (Z.eqb_spec (Deadline c) 0), (Z.ltb_spec now (Deadline c)); simpl; split; intros; try done; lia.
Qed.

Lemma expired_not_iff c now : expired c now = false <-> ~ lease_over c now.
Proof. rewrite <- expired_iff. by destruct (expired c now). Qed.

(** A preserved claim answers to the owner its deletion recorded, and only a claim
    without one to the authority it was bound by; an older table has neither. *)
Inductive answers_to (c : Claim) : string -> Prop :=
| answers_owner o : Owner c = Some o -> answers_to c (OwnerUID o)
| answers_authority u : Owner c = None -> Authority c = Some u -> answers_to c u.

(** A pod speaks for its controller, and for itself without one. *)
Inductive speaks_for `{K : KubeLib} (pod : Pod) : string -> Prop :=
| speaks_controller ref : GetControllerOfNoCopy pod = Some ref -> speaks_for pod (OwnerUID ref)
| speaks_itself : GetControllerOfNoCopy pod = None -> speaks_for pod (UID pod).

(** The pod the claim was made for, or one that speaks for whomever the claim
    answers to. *)
Definition same_authority `{K : KubeLib} (c : Claim) (pod : Pod) : Prop :=
  PodUID c = UID pod \/ forall u, answers_to c u -> speaks_for pod u.

Lemma speaks_for_iff `{K : KubeLib} pod u : speaks_for pod u <-> u = authorityOf pod.
Proof.
  unfold authorityOf. split.
  - by intros [ref ->| ->].
  - intros ->. destruct (GetControllerOfNoCopy pod) eqn:Hc; by constructor.
Qed.

Lemma adoptableBy_iff `{K : KubeLib} c pod : adoptableBy c pod = true <-> same_authority c pod.
Proof.
  unfold adoptableBy, same_authority. split.
  - destruct (Owner c) as [o|] eqn:Ho; [|destruct (Authority c) as [a|] eqn:Ha].
    + intros [He%String.eqb_eq|He%String.eqb_eq]%orb_prop; [by left|right].
      intros u [o' Ho'|u' Hn _]; [|congruence]. apply speaks_for_iff. congruence.
    + intros [He%String.eqb_eq|He%String.eqb_eq]%orb_prop; [by left|right].
      intros u [o' Ho'|u' Hn Hu]; [congruence|]. apply speaks_for_iff. congruence.
    + intros _. right. intros u [o' Ho'|u' Hn Hu]; congruence.
  - intros H. destruct (Owner c) as [o|] eqn:Ho; [|destruct (Authority c) as [a|] eqn:Ha; [|done]];
      (destruct H as [->|H]; [by rewrite String.eqb_refl|]).
    + rewrite (proj1 (speaks_for_iff pod (OwnerUID o))); [by rewrite String.eqb_refl, orb_true_r|].
      by apply H, answers_owner.
    + rewrite (proj1 (speaks_for_iff pod a)); [by rewrite String.eqb_refl, orb_true_r|].
      by apply H, answers_authority.
Qed.

Lemma adoptableBy_not_iff `{K : KubeLib} c pod : adoptableBy c pod = false <-> ~ same_authority c pod.
Proof. rewrite <- adoptableBy_iff. by destruct (adoptableBy c pod). Qed.

(** ** Facts *)

Lemma liveDeadlines_snoc listed s :
  liveDeadlines (listed ++ [s])%list = (<[SumID s := SumDeadline s]> (liveDeadlines listed)).
Proof. unfold liveDeadlines. by rewrite foldl_app. Qed.

(** The map holds exactly the listed ids. *)
Lemma dom_liveDeadlines listed : dom (liveDeadlines listed) = list_to_set (SumID <$> listed).
Proof.
  induction listed as [|s listed IH] using rev_ind; [done|].
  rewrite liveDeadlines_snoc, dom_insert_L, IH, fmap_app, list_to_set_app_L. set_solver.
Qed.

Lemma liveDeadlines_None listed id :
  liveDeadlines listed !! id = None <-> id ∉ SumID <$> listed.
Proof. rewrite <- not_elem_of_dom, dom_liveDeadlines. set_solver. Qed.

(** [before] holds the claim id of exactly the quarantined keys with a row. *)
Lemma quarantine_snapshot_lookup p k :
  quarantine_snapshot p !! k =
  if decide (k ∈ quarantined p) then ID <$> claims p !! k else None.
Proof.
  unfold quarantine_snapshot.
  assert (H : forall l, foldr (fun k before => match claims p !! k with
      | Some c => <[k := ID c]> before | None => before end) (∅ : gmap string string) l !! k
    = if decide (k ∈ l) then ID <$> claims p !! k else None).
  { induction l as [|x l IH]; [done|]. simpl.
    destruct (claims p !! x) as [c|] eqn:Hx.
    - destruct (decide (x = k)) as [->|Hne].
      + rewrite lookup_insert_eq, decide_True by set_solver. by rewrite Hx.
      + rewrite lookup_insert_ne by done. rewrite IH.
        destruct (decide (k ∈ l)), (decide (k ∈ x :: l)); set_solver.
    - rewrite IH. destruct (decide (k ∈ l)), (decide (k ∈ x :: l)) as [Hin|];
        try set_solver.
      apply elem_of_cons in Hin as [->|]; [by rewrite Hx|done]. }
  rewrite H. destruct (decide (k ∈ elements _)), (decide (k ∈ quarantined p)); set_solver.
Qed.

Lemma settled_true p key :
  settled p key = true <-> (key ∉ tentative p) /\ (key ∉ quarantined p).
Proof.
  unfold settled. destruct (bool_decide_reflect (key ∈ tentative p)),
    (bool_decide_reflect (key ∈ quarantined p)); simpl; naive_solver.
Qed.

Lemma settle_row_other live key id p k :
  k <> key -> claims (settle_row live key id p) !! k = claims p !! k.
Proof.
  intros Hne. unfold settle_row. repeat case_match; simpl; try done;
    by rewrite ?lookup_insert_ne, ?lookup_delete_ne.
Qed.

Lemma settle_row_quarantined live key id p :
  quarantined (settle_row live key id p) ⊆ quarantined p.
Proof. unfold settle_row. repeat case_match; simpl; set_solver. Qed.

(** A row that is judged leaves quarantine. *)
Lemma settle_row_judged live key c p :
  claims p !! key = Some c -> key ∉ quarantined (settle_row live key (ID c) p).
Proof.
  intros Hk. unfold settle_row. rewrite Hk, String.eqb_refl. simpl.
  repeat case_match; simpl; set_solver.
Qed.

Lemma settle_row_skipped live key id p c :
  claims p !! key = Some c -> ID c <> id -> settle_row live key id p = p.
Proof. intros Hk Hne. unfold settle_row. rewrite Hk. by destruct (String.eqb_spec (ID c) id). Qed.

(** The loop lifts the quarantine of every key whose current row is listed in the
    snapshot. *)
Lemma settle_rows_lifts live rows p k :
  (k ∈ quarantined p -> exists c, claims p !! k = Some c /\ (k, ID c) ∈ rows) ->
  k ∉ quarantined (settle_rows live rows p).
Proof.
  unfold settle_rows. revert p. induction rows as [|[key id] rows IH]; intros p Hk.
  - simpl. intros (c & _ & Hin)%Hk. set_solver.
  - simpl. apply IH. intros Hq. pose proof (settle_row_quarantined live key id p k Hq) as Hq0.
    destruct (Hk Hq0) as (c & Hc & Hin). apply elem_of_cons in Hin as [[= -> <-]|Hin].
    + by destruct (settle_row_judged live key c p Hc).
    + exists c. split; [|done]. destruct (decide (k = key)) as [->|Hne].
      * destruct (decide (ID c = id)) as [<-|Hid].
        -- by destruct (settle_row_judged live key c p Hc).
        -- by rewrite (settle_row_skipped _ _ _ _ c).
      * by rewrite settle_row_other.
Qed.

(** ** The verification as one step

    [verified_on live ks p] judges the rows of the keys [ks] at once; the loop
    gives the same table whatever order it visits them in. *)

(** What becomes of a claim under a listing. *)
Definition judged (live : gmap string time) (c : Claim) : option Claim :=
  match live !! ID c with
  | Some d => Some (if IsZero (Deadline c) && ! IsZero d then with_Deadline d c else c)
  | None => None
  end.

Definition judged_in (live : gmap string time) (ks : gset string) (k : string) (c : Claim)
  : option Claim := if decide (k ∈ ks) then judged live c else Some c.

Definition verified_on (live : gmap string time) (ks : gset string) (p : Provider) : Provider :=
  set_quarantined (quarantined p ∖ ks) (set_claims (map_imap (judged_in live ks) (claims p)) p).

(** The rows a verification judges. *)
Definition unverified (p : Provider) : gset string := quarantined p ∩ dom (claims p).

Lemma provider_eq p p' :
  pods p = pods p' -> (forall k, claims p !! k = claims p' !! k) -> notifier p = notifier p' ->
  tentative p = tentative p' -> (forall k, k ∈ quarantined p <-> k ∈ quarantined p') ->
  releasing p = releasing p' -> orphanVerdicts p = orphanVerdicts p' ->
  ownerRechecks p = ownerRechecks p' -> p = p'.
Proof.
  destruct p, p'; simpl. intros -> Hc -> -> Hq -> -> ->.
  f_equal; [by apply map_eq|by apply set_eq].
Qed.

Lemma settle_row_verified live key c p :
  claims p !! key = Some c -> settle_row live key (ID c) p = verified_on live {[key]} p.
Proof.
  intros Hk. unfold settle_row. rewrite Hk, String.eqb_refl. cbn [negb].
  destruct (live !! ID c) as [d|] eqn:Hl; apply provider_eq; simpl; try done;
    try (intros; repeat case_match; simpl; set_solver); intros k; unfold verified_on; simpl;
    rewrite map_lookup_imap; unfold judged_in, judged.
  - destruct (IsZero (Deadline c) && ! IsZero d) eqn:Hz; simpl;
      (destruct (decide (k = key)) as [->|Hne];
       [rewrite ?lookup_insert_eq, Hk; simpl; rewrite decide_True by set_solver; by rewrite Hl, Hz
       |rewrite ?lookup_insert_ne by done; destruct (claims p !! k); simpl; [|done];
        by rewrite decide_False by set_solver]).
  - destruct (decide (k = key)) as [->|Hne].
    + rewrite lookup_delete_eq, Hk. simpl. rewrite decide_True by set_solver. by rewrite Hl.
    + rewrite lookup_delete_ne by done. destruct (claims p !! k); simpl; [|done].
      by rewrite decide_False by set_solver.
Qed.

Lemma verified_on_app live ks ks' p :
  ks ## ks' -> verified_on live ks' (verified_on live ks p) = verified_on live (ks ∪ ks') p.
Proof.
  intros Hd. apply provider_eq; simpl; try done; [|set_solver].
  intros k. rewrite !map_lookup_imap. destruct (claims p !! k) as [c|]; simpl; [|done].
  unfold judged_in. destruct (decide (k ∈ ks)).
  - rewrite (decide_True (P := k ∈ ks ∪ ks')) by set_solver.
    destruct (judged live c); simpl; [|done]. by rewrite decide_False by set_solver.
  - simpl. destruct (decide (k ∈ ks')), (decide (k ∈ ks ∪ ks')); try done; set_solver.
Qed.

Lemma verified_on_empty live p : verified_on live ∅ p = p.
Proof.
  apply provider_eq; simpl; try done; [|set_solver].
  intros k. rewrite map_lookup_imap. destruct (claims p !! k); simpl; [|done].
  unfold judged_in. by rewrite decide_False by set_solver.
Qed.

Lemma settle_rows_verified live rows p :
  NoDup rows.*1 -> (forall key id, (key, id) ∈ rows -> ID <$> claims p !! key = Some id) ->
  settle_rows live rows p = verified_on live (list_to_set rows.*1) p.
Proof.
  unfold settle_rows. revert p. induction rows as [|[key id] rows IH]; intros p Hnd Hin.
  { by rewrite verified_on_empty. }
  apply NoDup_cons in Hnd as [Hnk Hnd]. simpl.
  pose proof (Hin key id ltac:(set_solver)) as Hk.
  destruct (claims p !! key) as [c|] eqn:Hc; [|done]. simplify_eq/=.
  rewrite (settle_row_verified live key c) by done. rewrite IH; [|done|].
  { rewrite verified_on_app by set_solver. done. }
  intros k id Hr. assert (k <> key) by (intros ->; apply Hnk, list_elem_of_fmap; by exists (key, id)).
  simpl. rewrite map_lookup_imap. specialize (Hin k id ltac:(set_solver)).
  destruct (claims p !! k); simpl; [|done]. unfold judged_in.
  by rewrite decide_False by set_solver.
Qed.

Lemma dom_quarantine_snapshot p : dom (quarantine_snapshot p) = unverified p.
Proof.
  apply set_eq. intros k. unfold unverified. rewrite elem_of_intersection, !elem_of_dom.
  rewrite quarantine_snapshot_lookup. case_decide; rewrite ?fmap_is_Some; [naive_solver|].
  split; [by intros []|naive_solver].
Qed.

(** Whatever order the snapshot is visited in. *)
Lemma settle_snapshot live p rows :
  rows ≡ₚ map_to_list (quarantine_snapshot p) ->
  settle_rows live rows p = verified_on live (unverified p) p.
Proof.
  intros Hp. rewrite settle_rows_verified.
  - f_equal. rewrite <- dom_quarantine_snapshot. apply set_eq. intros k.
    rewrite elem_of_list_to_set, Hp, list_elem_of_fmap, elem_of_dom. split.
    + intros ([k' id] & -> & Hin%elem_of_map_to_list). eauto.
    + intros [id Hid%elem_of_map_to_list]. by exists (k, id).
  - rewrite Hp. apply NoDup_fst_map_to_list.
  - intros key id. rewrite Hp, elem_of_map_to_list, quarantine_snapshot_lookup. by case_decide.
Qed.

Lemma snapshot_empty p : quarantine_snapshot p = ∅ <-> unverified p = ∅.
Proof.
  rewrite <- dom_quarantine_snapshot. split; intros H; [by rewrite H, dom_empty_L|by apply dom_empty_inv_L].
Qed.
