(* ===== verification/StateFile.v ===== *)
(** * The claims table as JSON

    [json.Marshal] and [json.Unmarshal] on [stateFile], at the level of JSON
    documents: member names, [omitempty] and [omitzero], [null], unknown members,
    case-insensitive names and type errors follow encoding/json; the map's members
    are written in key order.  [decode_encode] is the round trip: everything comes
    back except that times keep only their seconds. *)

From S2P Require Import Prelude GoLib Kube Prog State.
From stdpp Require Import sorting.
Local Open Scope string_scope.

(** ** Encoding *)

Definition str_member (k s : string) : list (string * json) := [(k, JStr s)].
Definition str_omitempty (k s : string) : list (string * json) :=
  if String.eqb s "" then [] else [(k, JStr s)].
Definition opt_member {A} (k : string) (f : A -> json) (o : option A) : list (string * json) :=
  match o with Some a => [(k, f a)] | None => [] end.

Definition encode_owner (o : OwnerReference) : json :=
  JObj (str_member "apiVersion" (APIVersion o) ++ str_member "kind" (Kind o) ++
        str_member "name" (OwnerName o) ++ str_member "uid" (OwnerUID o) ++
        opt_member "controller" JBool (Controller o) ++
        opt_member "blockOwnerDeletion" JBool (BlockOwnerDeletion o)).

Section codec.
Context `{K : KubeLib}.

Definition time_omitzero (k : string) (t : time) : list (string * json) :=
  if IsZero t then [] else [(k, JStr (time_marshal t))].

Definition encode_claim (c : Claim) : json :=
  JObj (str_member "id" (ID c) ++ str_member "token" (Token c) ++
        str_omitempty "address" (Address c) ++ str_member "podUID" (PodUID c) ++
        opt_member "authority" JStr (Authority c) ++
        time_omitzero "claimedAt" (ClaimedAt c) ++ time_omitzero "deadline" (Deadline c) ++
        opt_member "owner" encode_owner (Owner c)).

Definition key_le (a b : string * json) : Prop := Is_true (String.leb a.1 b.1).
#[export] Instance key_le_dec : RelDecision key_le.
Proof. intros a b. unfold key_le. apply _. Defined.

Definition encode_map (m : gmap string Claim) : json :=
  JObj (merge_sort key_le (prod_map id encode_claim <$> map_to_list m)).

Definition encode_state (st : stateFile) : json :=
  JObj ([("claims", match SClaims st with Some m => encode_map m | None => JNull end)] ++
        match SReleasing st with
        | [] => []
        | l => [("releasing", JArr (encode_claim <$> l))]
        end).

(** ** Decoding *)

(** Member names match a field exactly or up to ASCII case. *)
Definition name_is (k field : string) : bool :=
  String.eqb (map_bytes lower_byte k) (map_bytes lower_byte field).

Definition decode_string (cur : string) (j : json) : option string :=
  match j with JStr s => Some s | JNull => Some cur | _ => None end.
Definition decode_pointer {A} (f : json -> option A) (j : json) : option (option A) :=
  match j with JNull => Some None | _ => Some <$> f j end.
Definition decode_bool (j : json) : option bool :=
  match j with JBool b => Some b | _ => None end.
Definition decode_time (j : json) : option time :=
  match j with JNull => Some zeroTime | JStr s => time_unmarshal s | _ => None end.

(** Members are applied in order to the value built so far. *)
Definition decode_members {A} (f : A -> string * json -> option A) (cur : A)
    (members : list (string * json)) : option A :=
  foldl (fun acc m => a ← acc; f a m) (Some cur) members.

Definition owner_member (o : OwnerReference) (m : string * json) : option OwnerReference :=
  let '(mkOwnerReference av kd nm uid ct bl) := o in
  let '(k, j) := m in
  if name_is k "apiVersion" then
    s ← decode_string av j; Some (mkOwnerReference s kd nm uid ct bl)
  else if name_is k "kind" then
    s ← decode_string kd j; Some (mkOwnerReference av s nm uid ct bl)
  else if name_is k "name" then
    s ← decode_string nm j; Some (mkOwnerReference av kd s uid ct bl)
  else if name_is k "uid" then
    s ← decode_string uid j; Some (mkOwnerReference av kd nm s ct bl)
  else if name_is k "controller" then
    b ← decode_pointer decode_bool j; Some (mkOwnerReference av kd nm uid b bl)
  else if name_is k "blockOwnerDeletion" then
    b ← decode_pointer decode_bool j; Some (mkOwnerReference av kd nm uid ct b)
  else Some o.

Definition zeroOwner : OwnerReference := mkOwnerReference "" "" "" "" None None.

Definition decode_owner (cur : option OwnerReference) (j : json)
  : option (option OwnerReference) :=
  match j with
  | JNull => Some None
  | JObj ms => Some <$> decode_members owner_member (default zeroOwner cur) ms
  | _ => None
  end.

Definition claim_member (c : Claim) (m : string * json) : option Claim :=
  let '(mkClaim i t a u au ca d o) := c in
  let '(k, j) := m in
  if name_is k "id" then s ← decode_string i j; Some (mkClaim s t a u au ca d o)
  else if name_is k "token" then s ← decode_string t j; Some (mkClaim i s a u au ca d o)
  else if name_is k "address" then s ← decode_string a j; Some (mkClaim i t s u au ca d o)
  else if name_is k "podUID" then s ← decode_string u j; Some (mkClaim i t a s au ca d o)
  else if name_is k "authority" then
    s ← decode_pointer (decode_string "") j; Some (mkClaim i t a u s ca d o)
  else if name_is k "claimedAt" then s ← decode_time j; Some (mkClaim i t a u au s d o)
  else if name_is k "deadline" then s ← decode_time j; Some (mkClaim i t a u au ca s o)
  else if name_is k "owner" then s ← decode_owner o j; Some (mkClaim i t a u au ca d s)
  else Some c.

Definition zeroClaim : Claim := mkClaim "" "" "" "" None zeroTime zeroTime None.

Definition decode_claim (j : json) : option Claim :=
  match j with
  | JNull => Some zeroClaim
  | JObj ms => decode_members claim_member zeroClaim ms
  | _ => None
  end.

Definition map_member (m : gmap string Claim) (kv : string * json)
  : option (gmap string Claim) :=
  c ← decode_claim kv.2; Some (<[kv.1 := c]> m).

Definition decode_map (cur : option (gmap string Claim)) (j : json)
  : option (option (gmap string Claim)) :=
  match j with
  | JNull => Some None
  | JObj ms => Some <$> decode_members map_member (default ∅ cur) ms
  | _ => None
  end.

Definition decode_list (j : json) : option (list Claim) :=
  match j with
  | JNull => Some []
  | JArr l => mapM decode_claim l
  | _ => None
  end.

Definition state_member (st : stateFile) (m : string * json) : option stateFile :=
  let '(k, j) := m in
  if name_is k "claims" then
    c ← decode_map (SClaims st) j; Some (mkStateFile c (SReleasing st))
  else if name_is k "releasing" then
    l ← decode_list j; Some (mkStateFile (SClaims st) l)
  else Some st.

Definition decode_state (j : json) : option stateFile :=
  match j with
  | JNull => Some (mkStateFile None [])
  | JObj ms => decode_members state_member (mkStateFile None []) ms
  | _ => None
  end.

(** [json.Unmarshal(b, &st)] *)
Definition Unmarshal (b : content) : option stateFile :=
  match b with Doc j => decode_state j | Torn => None end.

(** ** Round trip *)

(** What is left of a claim after it was written and read back. *)
Definition stored_claim (c : Claim) : Claim :=
  mkClaim (ID c) (Token c) (Address c) (PodUID c) (Authority c)
    (trunc_second (ClaimedAt c)) (trunc_second (Deadline c)) (Owner c).

Definition stored_state (st : stateFile) : stateFile :=
  mkStateFile ((fun m : gmap string Claim => stored_claim <$> m) <$> SClaims st) (stored_claim <$> SReleasing st).

(** The times RFC 3339 can write. *)
Definition timely (c : Claim) : Prop :=
  (0 <= ClaimedAt c < rfc3339_end)%Z /\ (0 <= Deadline c < rfc3339_end)%Z.

Lemma decode_members_app {A} (f : A -> string * json -> option A) a l1 l2 :
  decode_members f a (l1 ++ l2) = (b ← decode_members f a l1; decode_members f b l2).
Proof.
  unfold decode_members. rewrite foldl_app.
  destruct (foldl _ (Some a) l1); [done|]. simpl. by induction l2.
Qed.

Lemma decode_members_cons {A} (f : A -> string * json -> option A) a x l :
  decode_members f a (x :: l) = (b ← f a x; decode_members f b l).
Proof.
  exact (decode_members_app f a [x] l).
Qed.

Lemma decode_encode_owner o : decode_owner None (encode_owner o) = Some (Some o).
Proof. by destruct o as [av kd nm uid [[]|] [[]|]]. Qed.

Context `{!KubeLibOk}.

Lemma decode_time_member c k t (set : time -> Claim -> Claim) :
  (0 <= t < rfc3339_end)%Z -> set zeroTime c = c ->
  (forall s, claim_member c (k, JStr s) = (x ← time_unmarshal s; Some (set x c))) ->
  decode_members claim_member c (time_omitzero k t) = Some (set (trunc_second t) c).
Proof.
  intros Ht H0 Hm. unfold time_omitzero. destruct (IsZero t) eqn:E.
  - apply Z.eqb_eq in E as ->. change (trunc_second 0%Z) with zeroTime. by rewrite H0.
  - rewrite decode_members_cons, Hm, time_roundtrip; done.
Qed.

Lemma decode_encode_claim c : timely c -> decode_claim (encode_claim c) = Some (stored_claim c).
Proof.
  intros [Hc Hd]. destruct c as [i t a u au ca d o]. cbn [ClaimedAt Deadline] in *.
  unfold stored_claim, encode_claim, decode_claim, zeroClaim.
  cbn [ID Token Address PodUID Authority ClaimedAt Deadline Owner].
  rewrite decode_members_app. change (decode_members claim_member _ (str_member "id" i))
    with (Some (mkClaim i "" "" "" None zeroTime zeroTime None)). cbn [mbind option_bind].
  rewrite decode_members_app. change (decode_members claim_member _ (str_member "token" t))
    with (Some (mkClaim i t "" "" None zeroTime zeroTime None)). cbn [mbind option_bind].
  rewrite decode_members_app.
  replace (decode_members claim_member _ (str_omitempty "address" a))
    with (Some (mkClaim i t a "" None zeroTime zeroTime None))
    by (unfold str_omitempty; by destruct (String.eqb_spec a "") as [->|?]).
  cbn [mbind option_bind]. rewrite decode_members_app.
  change (decode_members claim_member _ (str_member "podUID" u))
    with (Some (mkClaim i t a u None zeroTime zeroTime None)). cbn [mbind option_bind].
  rewrite decode_members_app.
  replace (decode_members claim_member _ (opt_member "authority" JStr au))
    with (Some (mkClaim i t a u au zeroTime zeroTime None)) by (by destruct au).
  cbn [mbind option_bind]. rewrite decode_members_app.
  rewrite (decode_time_member _ _ ca with_ClaimedAt) by done. cbn [mbind option_bind].
  rewrite decode_members_app.
  rewrite (decode_time_member _ _ d with_Deadline) by done. cbn [mbind option_bind].
  destruct o as [o|]; [|done]. unfold opt_member. rewrite decode_members_cons.
  cbn -[encode_owner decode_owner]. by rewrite decode_encode_owner.
Qed.

#[local] Arguments decode_claim : simpl never.
#[local] Arguments encode_claim : simpl never.
#[local] Arguments stored_claim : simpl never.
#[local] Arguments decode_members : simpl never.

Lemma decode_encode_list l :
  Forall timely l -> mapM decode_claim (encode_claim <$> l) = Some (stored_claim <$> l).
Proof.
  induction 1 as [|c l Hc _ IH]; [done|]. rewrite fmap_cons. cbn [mapM].
  rewrite decode_encode_claim by done. cbn [mbind option_bind]. by rewrite IH.
Qed.

(** Members with distinct keys give the map they list, in any order. *)
Lemma decode_map_members l :
  NoDup l.*1 -> Forall (fun kc => timely kc.2) l -> forall m,
  decode_members map_member m (prod_map id encode_claim <$> l)
  = Some (list_to_map (prod_map id stored_claim <$> l) ∪ m).
Proof.
  intros Hnd Hl. induction l as [|[k c] l IH]; intros m.
  { cbn. by rewrite (left_id_L ∅ (∪)). }
  apply Forall_cons in Hl as [Hc Hl]. apply NoDup_cons in Hnd as [Hk Hnd].
  rewrite !fmap_cons, decode_members_cons.
  change (map_member m (prod_map id encode_claim (k, c)))
    with (x ← decode_claim (encode_claim c); Some (<[k := x]> m)).
  rewrite decode_encode_claim by done. cbn [mbind option_bind].
  rewrite (IH Hnd Hl). f_equal. cbn [list_to_map foldr prod_map fst snd].
  rewrite <- insert_union_l, insert_union_r; [done|].
  apply not_elem_of_list_to_map_1. rewrite <- list_fmap_compose. done.
Qed.

Definition timely_state (st : stateFile) : Prop :=
  (forall m, SClaims st = Some m -> map_Forall (fun _ c => timely c) m) /\
  Forall timely (SReleasing st).

Lemma decode_encode_map m :
  map_Forall (fun _ c => timely c) m ->
  decode_map None (encode_map m) = Some (Some (stored_claim <$> m)).
Proof.
  intros Hm. unfold encode_map, decode_map.
  destruct (Permutation_map_inv (prod_map id encode_claim) (map_to_list m)
    (l1 := merge_sort key_le (prod_map id encode_claim <$> map_to_list m)))
    as (l & Hl & Hp); [by rewrite merge_sort_Permutation|].
  assert (Hnd : NoDup l.*1) by (rewrite <- Hp; apply NoDup_fst_map_to_list).
  rewrite Hl. change (map ?f l) with (f <$> l).
  rewrite decode_map_members; [|done|].
  - simpl. rewrite (right_id_L ∅ (∪)). do 2 f_equal.
    rewrite <- (list_to_map_to_list m) at 1. rewrite <- list_to_map_fmap.
    apply list_to_map_proper; [|by rewrite Hp].
    rewrite <- list_fmap_compose. done.
  - rewrite <- Hp. apply Forall_forall. intros [k c] Hk%elem_of_map_to_list.
    by apply (Hm k).
Qed.

(** Writing the table and reading it back returns every claim, with times cut
    to seconds. *)
Lemma decode_encode_state st :
  timely_state st -> decode_state (encode_state st) = Some (stored_state st).
Proof.
  intros [Hm Hr]. destruct st as [om r]. cbn [SClaims SReleasing] in *.
  unfold encode_state, decode_state. cbn [SClaims SReleasing app].
  rewrite decode_members_cons.
  assert (Hc : state_member (mkStateFile None [])
      ("claims", match om with Some m => encode_map m | None => JNull end)
    = Some (mkStateFile (SClaims (stored_state (mkStateFile om r))) [])).
  { unfold state_member. change (name_is "claims" "claims") with true. cbv iota.
    destruct om as [m|]; [|done]. cbn [SClaims]. rewrite decode_encode_map; auto. }
  rewrite Hc. cbn [mbind option_bind]. destruct r as [|c r]; [done|].
  rewrite decode_members_cons. unfold state_member.
  change (name_is "releasing" "claims") with false.
  change (name_is "releasing" "releasing") with true. cbv iota.
  unfold decode_list. rewrite decode_encode_list by done. done.
Qed.
End codec.
