(* ===== verification/Persist.v ===== *)
(** * provider.go: the durable table

    [write] replaces the state file through a temporary file and a rename, under
    [saveMu]; [commitClaim], [persist] and [saveState] are its callers, and
    [loadState] and [New] read the table back. *)

From S2P Require Import Prelude Kube Prog State Provider StateFile.
Local Open Scope string_scope.
Local Open Scope go_scope.

(** The table [write] marshals: the durable claims plus the one committing. *)
Definition snapshot (committing : string) (p : Provider) : stateFile :=
  mkStateFile
    (Some (filter (fun kc => kc.1 ∉ tentative p \/ kc.1 = committing) (claims p)))
    (releasing p).

Section persist.
Context `{K : KubeLib} (cfg : Config).

Definition write (committing : string) : M (option gerr) :=
  if StatePath cfg =? "" then mret None
  else
    st ← read_mu (snapshot committing);
    let b := Doc (encode_state st) in
    e ← call AMkdirAll;
    match e with
    | Some e => mret (Some ("mkdir state dir: " +:+ e))
    | None =>
        e ← call (AWriteTmp b);
        match e with
        | Some e => mret (Some ("write claims state: " +:+ e))
        | None =>
            e ← call ARename;
            match e with
            | Some e => mret (Some ("rename claims state: " +:+ e))
            | None => mret None
            end
        end
    end.

Definition persist : M (option gerr) :=
  _ ← call ASaveLock;
  e ← write "";
  _ ← call ASaveUnlock;
  mret e.

Definition commitClaim (key : string) : M (option gerr) :=
  _ ← call ASaveLock;
  e ← write key;
  match e with
  | Some e => _ ← call ASaveUnlock; mret (Some e)
  | None =>
      _ ← write_mu (fun p => set_tentative (tentative p ∖ {[key]}) p);
      _ ← call ASaveUnlock;
      mret None
  end.

(** A failed save is only logged. *)
Definition saveState : M unit := _ ← persist; mret tt.

(** A table from before [ClaimedAt] gets the load time. *)
Definition backfill (now : time) (c : Claim) : Claim :=
  if IsZero (ClaimedAt c) then with_ClaimedAt now c else c.

Definition loadState : M (option perr) :=
  if StatePath cfg =? "" then mret None
  else
    b ← call AReadFile;
    match b with
    | RNotExist => mret None
    | RErr e => mret (Some (ErrReadState e))
    | ROk b =>
        match Unmarshal b with
        | None => mret (Some ErrDecodeState)
        | Some st =>
            _ ← write_mu (set_releasing (SReleasing st));
            match SClaims st with
            | None => mret None
            | Some cs =>
                now ← call ANow;
                _ ← write_mu (set_claims (backfill now <$> cs));
                mret None
            end
        end
    end.

(** [New]: the provider it returns is the world's memory; [Some e] is an error. *)
Definition New : M (option perr) :=
  _ ← write_mu (fun _ => emptyProvider);
  loadState ;?
  (_ ← (if HasLister cfg
        then _ ← quarantineLoadedClaims; _ ← VerifyClaimsAgainstNode cfg; mret tt
        else mret tt);
   e ← persist;
   match e with
   | Some e => mret (Some (ErrNotWritable e))
   | None => mret None
   end).
End persist.
