(* ===== verification/Runs.v ===== *)
(** * Operations run alone

    What the shared steps do when no other goroutine runs: rules for [exec], and
    the specifications of the save, the verification and the notification that
    the theorems on whole handlers build on. *)

From S2P Require Import Prelude Kube Prog State Provider StateFile Persist.
Local Open Scope string_scope.
Local Open Scope list_scope.

(** ** Rules for [exec] *)

Section rules.
Context (env : Env).

Lemma exec_act {B} e (k : res e -> M B) w :
  exec env (call e ≫= k) w = exec env (k (handle env e w).1) (handle env e w).2.
Proof. etransitivity; [exact (run_call_bind (handle env) e k w)|]. by destruct (handle env e w). Qed.

Lemma exec_ret {A} (a : A) w : exec env (mret a) w = (a, w).
Proof. done. Qed.

Lemma exec_bind {A B} (p : M A) (f : A -> M B) w :
  exec env (p ≫= f) w = exec env (f (exec env p w).1) (exec env p w).2.
Proof. rewrite run_bind. by destruct (exec env p w). Qed.

Lemma exec_check p q w :
  exec env (check_err p q) w =
  match (exec env p w).1 with
  | Some e => (Some e, (exec env p w).2)
  | None => exec env q (exec env p w).2
  end.
Proof. unfold check_err. rewrite exec_bind. by destruct (exec env p w) as [[e|] w1]. Qed.

Lemma exec_read {X} (f : Provider -> X) w : exec env (read_mu f) w = (f (mem w), w).
Proof. simpl. by destruct w. Qed.

Lemma exec_write f w : exec env (write_mu f) w = (tt, set_mem (f (mem w)) w).
Proof. done. Qed.
End rules.

(** One step of a run: an action, a critical section, a bound program or a check. *)
Ltac xact :=
  match goal with
  | |- context [run (handle ?env) (mbind ?f (call ?e)) ?w] =>
      rewrite (exec_act env e f w
        : run (handle env) (mbind f (call e)) w
          = run (handle env) (f (handle env e w).1) (handle env e w).2)
  end; cbn [handle fst snd].
Ltac xread := rewrite exec_read_mu; cbv zeta beta.
Ltac xwrite := rewrite exec_write_mu; cbv zeta beta.

(** ** Events an operation may add *)

Definition disk_event (ev : event) : Prop :=
  match ev with EvMkdirAll _ | EvWriteTmp _ | EvRename _ => True | _ => False end.

(** [w'] has the history of [w] and then only events that satisfy [P]. *)
Definition adds (P : event -> Prop) (w w' : World) : Prop :=
  exists t, hist w' = hist w ++ t /\ Forall (fun ie => P ie.2) t.

Lemma adds_refl P w : adds P w w.
Proof. exists []. by rewrite app_nil_r. Qed.

Lemma adds_trans P w1 w2 w3 : adds P w1 w2 -> adds P w2 w3 -> adds P w1 w3.
Proof.
  intros (t1 & H1 & F1) (t2 & H2 & F2). exists (t1 ++ t2).
  rewrite H2, H1, app_assoc. split; [done|]. by apply Forall_app.
Qed.

Lemma adds_emit (P : event -> Prop) i ev w : P ev -> adds P w (emit i ev w).
Proof. intros HP. exists [(i, ev)]. by repeat constructor. Qed.

Lemma adds_step (P : event -> Prop) i ev w w1 w2 :
  P ev -> hist w2 = hist (emit i ev w1) -> adds P w w1 -> adds P w w2.
Proof.
  intros HP Hh (t & Ht & F). exists (t ++ [(i, ev)]). rewrite Hh. simpl.
  rewrite Ht, app_assoc. split; [done|]. apply Forall_app. split; [done|by repeat constructor].
Qed.

Lemma adds_mono (P P' : event -> Prop) w w' :
  (forall ev, P ev -> P' ev) -> adds P w w' -> adds P' w w'.
Proof. intros HP (t & Ht & F). exists t. split; [done|]. eapply Forall_impl; [done|]. by intros; apply HP. Qed.

Lemma adds_elem P w w' ie : adds P w w' -> ie ∈ hist w' -> ie ∈ hist w \/ P ie.2.
Proof.
  intros (t & -> & F) [|Hin]%elem_of_app; [by left|right]. rewrite Forall_forall in F. by apply F.
Qed.

(** Reads the events off the world an operation ends in. *)
Ltac add_events :=
  lazymatch goal with
  | |- adds _ ?w ?w => apply adds_refl
  | |- adds _ _ (emit ?i ?ev ?w) => apply (adds_step _ i ev _ w); [done|done|add_events]
  | |- adds ?P ?w (set_mem _ ?w1) => change (adds P w w1); add_events
  | |- adds ?P ?w (set_disk _ ?w1) => change (adds P w w1); add_events
  | |- adds ?P ?w (set_saveOwner _ ?w1) => change (adds P w w1); add_events
  | |- _ => idtac
  end.

(** ** The save *)

(** The disk accepts every write. *)
Definition disk_works (env : Env) : Prop :=
  (forall h, env_mkdir env h = None) /\ (forall h c, env_write env h c = None) /\
  (forall h, env_rename env h = None).

Section save.
Context `{K : KubeLib} (cfg : Config) (env : Env).

(** The outcome of replacing the state file by the snapshot of [w]: the new
    snapshot on success, the old file on failure, the memory as it was. *)
Definition saved (committing : string) (w : World) (e : option gerr) (w' : World) : Prop :=
  mem w' = mem w /\ adds disk_event w w' /\
  match e with
  | None => StatePath cfg <> "" ->
      stateOnDisk (disk w') = Some (Doc (encode_state (snapshot committing (mem w))))
  | Some _ => stateOnDisk (disk w') = stateOnDisk (disk w)
  end /\
  (disk_works env -> e = None).

Lemma exec_write_file committing w :
  saved committing w (exec env (write cfg committing) w).1 (exec env (write cfg committing) w).2
  /\ saveOwner (exec env (write cfg committing) w).2 = saveOwner w.
Proof.
  unfold write. destruct (String.eqb_spec (StatePath cfg) "") as [Hp|Hp].
  { rewrite exec_ret. cbn [fst snd]. split; [|done]. split; [done|]. split; [apply adds_refl|by split]. }
  xread. xact. destruct (env_mkdir env (hist w)) as [e|] eqn:Hm.
  { rewrite exec_ret. split; [|done]. split; [done|]. cbn [snd]. split; [add_events|].
    split; [done|]. intros [Hd _]. congruence. }
  xact. set (h1 := hist (emit 0 _ w)).
  destruct (env_write env h1 _) as [[e rest]|] eqn:Hw; cbn [write_answer fst snd].
  { rewrite exec_ret. split; [|done]. split; [done|]. cbn [snd]. split; [add_events|].
    split; [done|]. intros (_ & Hd & _). congruence. }
  xact. set (h2 := hist (emit 0 (EvWriteTmp None) _)).
  destruct (env_rename env h2) as [e|] eqn:Hr; cbn [rename_answer fst snd tmpOnDisk emit set_disk disk];
    rewrite exec_ret; (split; [|done]); (split; [done|]); cbn [snd]; (split; [|split]).
  - apply (adds_step _ 0 (EvRename (Some e)) _ (emit 0 (EvWriteTmp None) (emit 0 (EvMkdirAll None) w)));
      [done|done|add_events].
  - done.
  - intros (_ & _ & Hd). congruence.
  - apply (adds_step _ 0 (EvRename None) _ (emit 0 (EvWriteTmp None) (emit 0 (EvMkdirAll None) w)));
      [done|done|add_events].
  - done.
  - done.
Qed.

Lemma exec_persist w :
  saved "" w (exec env (persist cfg) w).1 (exec env (persist cfg) w).2
  /\ saveOwner (exec env (persist cfg) w).2 = None.
Proof.
  unfold persist. xact. rewrite exec_bind. xact. rewrite exec_ret. cbn [fst snd].
  destruct (exec_write_file "" (set_saveOwner (Some 0) w)) as [(Hm & Ha & He & Hd) _].
  set (r := exec env _ _) in *. split; [|done]. by split.
Qed.
End save.

(** ** The verification *)

Section verify.
Context `{K : KubeLib} (cfg : Config) (env : Env).

(** One listing, one judgement of every unverified row. *)
Definition verify_result (w : World) : bool * World :=
  if negb (HasLister cfg) then (false, w)
  else if decide (unverified (mem w) = ∅) then (true, w)
  else match env_list env (hist w) with
       | inr e => (false, emit 0 (EvSandboxes (inr e)) w)
       | inl listed =>
           (true, set_mem (verified_on (liveDeadlines listed) (unverified (mem w)) (mem w))
                    (emit 0 (EvSandboxes (inl listed)) w))
       end.

Lemma exec_verify w : exec env (VerifyClaimsAgainstNode cfg) w = verify_result w.
Proof.
  unfold VerifyClaimsAgainstNode, verify_result. destruct (HasLister cfg); [|done]. cbn [negb].
  xread. case_decide as Hs; rewrite snapshot_empty in Hs.
  { by rewrite decide_True. }
  rewrite decide_False by done. xact. destruct (env_list env (hist w)) as [listed|e]; [|done].
  cbv zeta. set (w1 := emit 0 _ w).
  destruct (exec_range env (quarantine_snapshot (mem w))
    (fun rows => _ ← write_mu (settle_rows (liveDeadlines listed) rows); mret true) w1)
    as (rows & Hp & ->).
  xwrite. rewrite exec_ret. simpl. by rewrite settle_snapshot.
Qed.
End verify.

(** ** Saving and notifying, as steps *)

Section steps.
Context `{K : KubeLib} (cfg : Config) (env : Env).

Lemma exec_saveState w :
  let w' := (exec env (saveState cfg) w).2 in
  mem w' = mem w /\ adds disk_event w w' /\
  (disk_works env -> StatePath cfg <> "" ->
     stateOnDisk (disk w') = Some (Doc (encode_state (snapshot "" (mem w))))).
Proof.
  unfold saveState. rewrite exec_bind, exec_ret. cbn [snd].
  destruct (exec_persist cfg env w) as [(Hm & Ha & Hf & Hd) _].
  destruct (exec env (persist cfg) w) as [e w']. cbn [fst snd] in *.
  split; [done|]. split; [done|]. intros Hw Hp. rewrite (Hd Hw) in Hf. auto.
Qed.

Lemma exec_notify pod w :
  exec env (notify pod) w =
  (tt, if notifier (mem w) then emit 0 (EvNotify pod) w else w).
Proof. unfold notify. xread. by destruct (notifier (mem w)). Qed.

(** The save of a claim that becomes durable with it. *)
Lemma exec_commitClaim key w :
  let '(e, w') := exec env (commitClaim cfg key) w in
  mem w' = (match e with
            | None => set_tentative (tentative (mem w) ∖ {[key]}) (mem w)
            | Some _ => mem w
            end) /\
  adds disk_event w w' /\
  match e with
  | None => StatePath cfg <> "" ->
      stateOnDisk (disk w') = Some (Doc (encode_state (snapshot key (mem w))))
  | Some _ => stateOnDisk (disk w') = stateOnDisk (disk w)
  end /\ (disk_works env -> e = None).
Proof.
  unfold commitClaim. xact. rewrite exec_bind.
  destruct (exec_write_file cfg env key (set_saveOwner (Some 0) w)) as [(Hm & Ha & Hf & Hd) _].
  destruct (exec env (write cfg key) (set_saveOwner (Some 0) w)) as [e w1]. cbn [fst snd] in *.
  destruct e as [e|].
  - xact. rewrite exec_ret. split; [done|]. split; [exact Ha|]. by split.
  - xwrite. xact. rewrite exec_ret. cbn [mem set_mem set_saveOwner]. rewrite Hm.
    split; [done|]. split; [exact Ha|]. by split.
Qed.
End steps.
