(* ===== verification/SaveSpec.v ===== *)
(** * The state file

    The round trip of the table through its JSON document, and the atomicity of a
    save: whatever fails and wherever a crash interrupts it, the file is the old
    one or the whole new one. *)

From S2P Require Import Prelude Kube Prog State Provider StateFile Persist Runs.
Local Open Scope string_scope.
Local Open Scope list_scope.

Section roundtrip.
Context `{K : KubeLib} `{HK : !KubeLibOk}.

Lemma trunc_second_idemp t : trunc_second (trunc_second t) = trunc_second t.
Proof. unfold trunc_second. by rewrite Z.div_mul by done. Qed.

Lemma trunc_second_range t :
  (0 <= t < rfc3339_end)%Z -> (0 <= trunc_second t < rfc3339_end)%Z.
Proof.
  intros [H0 H1]. unfold trunc_second.
  pose proof (Z.mul_div_le t Second ltac:(by compute)).
  pose proof (Z.div_pos t Second H0 ltac:(by compute)). unfold Second, Millisecond in *. lia.
Qed.

Lemma stored_claim_idemp c : stored_claim (stored_claim c) = stored_claim c.
Proof. unfold stored_claim. simpl. by rewrite !trunc_second_idemp. Qed.

Lemma stored_timely c : timely c -> timely (stored_claim c).
Proof. intros [H1 H2]. split; by apply trunc_second_range. Qed.

Lemma stored_state_timely st : timely_state st -> timely_state (stored_state st).
Proof.
  intros [Hm Hr]. split; simpl.
  - intros m Hs. destruct (SClaims st) as [m0|]; [|done]. simplify_eq/=.
    apply map_Forall_fmap. eapply map_Forall_impl; [by apply Hm|]. intros; by apply stored_timely.
  - apply Forall_fmap. eapply Forall_impl; [exact Hr|]. intros; by apply stored_timely.
Qed.

Lemma stored_state_idemp st : stored_state (stored_state st) = stored_state st.
Proof.
  unfold stored_state. simpl. f_equal.
  - destruct (SClaims st) as [m|]; simpl; [|done]. f_equal. rewrite <- map_fmap_compose.
    apply map_fmap_ext. intros; apply stored_claim_idemp.
  - rewrite <- list_fmap_compose. apply list_fmap_ext. intros; apply stored_claim_idemp.
Qed.

(** What a save must not change: everything but fractions of seconds. *)
Definition same_claim (c c' : Claim) : Prop :=
  ID c' = ID c /\ Token c' = Token c /\ Address c' = Address c /\ PodUID c' = PodUID c /\
  Authority c' = Authority c /\ Owner c' = Owner c /\
  (ClaimedAt c' <= ClaimedAt c < ClaimedAt c' + Second)%Z /\
  (Deadline c' <= Deadline c < Deadline c' + Second)%Z.

Lemma trunc_second_bounds t : (trunc_second t <= t < trunc_second t + Second)%Z.
Proof.
  unfold trunc_second. pose proof (Z.mul_div_le t Second ltac:(by compute)).
  pose proof (Z.mul_succ_div_gt t Second ltac:(by compute)). lia.
Qed.

(** C28: The table survives its file.  For times RFC 3339 can write, the saved
    document decodes to the same keys, the same queue, and under each key the same
    claim, credential, owner and authority included, with times cut to the second;
    and what was read back is a fixed point: saving and reading it again changes
    nothing. *)
Theorem table_roundtrip m q :
  timely_state (mkStateFile (Some m) q) ->
  exists m' q', Unmarshal (Doc (encode_state (mkStateFile (Some m) q))) = Some (mkStateFile (Some m') q') /\
    (forall k, option_relation same_claim (fun _ => False) (fun _ => False) (m !! k) (m' !! k)) /\
    Forall2 same_claim q q' /\
    Unmarshal (Doc (encode_state (mkStateFile (Some m') q'))) = Some (mkStateFile (Some m') q').
Proof.
  intros Ht. exists (stored_claim <$> m), (stored_claim <$> q).
  assert (Hs : forall c, same_claim c (stored_claim c)).
  { intros c. repeat (split; [done|]). split; apply trunc_second_bounds. }
  split; [by apply decode_encode_state|]. split; [|split].
  - intros k. rewrite lookup_fmap. destruct (m !! k); simpl; auto.
  - induction q; simpl; constructor; auto. apply IHq.
    destruct Ht as [H1 H2]. split; [done|]. by apply Forall_cons in H2 as [_ ?].
  - simpl. pose proof (decode_encode_state _ (stored_state_timely _ Ht)) as H.
    rewrite stored_state_idemp in H. exact H.
Qed.
End roundtrip.

Section atomic.
Context `{K : KubeLib} (cfg : Config).

(** The file is the one of [w], or the whole snapshot of [w]'s table; the table
    itself is as it was, but for [key]'s tentative mark, which goes only once the
    snapshot is the file. *)
Definition whole (key : string) (w w' : World) : Prop :=
  (mem w' = mem w /\ stateOnDisk (disk w') = stateOnDisk (disk w)) \/
  (stateOnDisk (disk w') = Some (Doc (encode_state (snapshot key (mem w)))) /\
   (mem w' = mem w \/ mem w' = set_tentative (tentative (mem w) ∖ {[key]}) (mem w))).

Definition keeps_whole (key : string) (w w1 w2 : World) : Prop := whole key w w1 -> whole key w w2.

Lemma wp_write_whole i key w0 w Q :
  mem w = mem w0 -> stateOnDisk (disk w) = stateOnDisk (disk w0) ->
  (forall e w', mem w' = mem w0 -> whole key w0 w' ->
     (e = None -> StatePath cfg <> "" ->
        stateOnDisk (disk w') = Some (Doc (encode_state (snapshot key (mem w0))))) ->
     wp (astep i) eq (keeps_whole key w0) (Q e) (fun _ _ => True) w') ->
  wp (astep i) eq (keeps_whole key w0) (e ← write cfg key; Q e) (fun (_ : option gerr) _ => True) w.
Proof.
  intros Hm Hd HQ. assert (Hold : whole key w0 w) by by left.
  unfold write. destruct (String.eqb_spec (StatePath cfg) "") as [Hp|Hp]; [by apply HQ|].
  intros ? <- st w1 [-> ->]. split; [by left|]. replace (set_mem (mem w) w) with w by by destruct w.
  intros ? <- e w2 ->. split; [intros _; by left|]. destruct e as [e|]; [by apply HQ; [|left|]|].
  intros ? <- e w3 (io & Hio & ->). simpl in Hio. split.
  { intros _. left. split; [done|]. destruct io as [[err rest]|]; by injection Hio as _ ->. }
  destruct e as [e|].
  { destruct io as [[err rest]|]; [|discriminate]. injection Hio as _ Hd3. apply HQ; [done| |done].
    left. split; [done|]. simpl. by rewrite Hd3. }
  destruct io as [[err rest]|]; [discriminate|]. injection Hio as Hd3.
  intros ? <- e w4 (io & Hio & ->). simpl in Hio. rewrite Hd3 in Hio. simpl in Hio.
  destruct io as [err|]; injection Hio as -> Hd4; simpl; rewrite Hd4.
  - split; [intros _; by left|]. apply HQ; [done|by left|done].
  - assert (Hnew : forall w', mem w' = mem w -> disk w' = mkDisk (Some (Doc (encode_state (snapshot key (mem w))))) None ->
      whole key w0 w').
    { intros w' Hm' Hd'. right. rewrite Hd', Hm', Hm. auto. }
    split; [intros _; by apply Hnew|]. apply HQ; [done|by apply Hnew|]. simpl. by rewrite Hm.
Qed.

Lemma wp_persist_whole i w :
  wp (astep i) eq (keeps_whole "" w) (persist cfg) (fun _ _ => True) w.
Proof.
  unfold persist. intros ? <- [] w1 ->. split; [intros _; by left|].
  apply (wp_write_whole i "" w); [done|done|]. intros e w2 Hm Hw _.
  intros ? <- [] w3 ->. by split; [intros _; exact Hw|].
Qed.

Lemma wp_commit_whole i key w :
  StatePath cfg <> "" ->
  wp (astep i) eq (keeps_whole key w) (commitClaim cfg key) (fun _ _ => True) w.
Proof.
  intros Hp. unfold commitClaim. intros ? <- [] w1 ->. split; [intros _; by left|].
  apply (wp_write_whole i key w); [done|done|]. intros e w2 Hm Hw Hsaved. destruct e as [e|].
  { intros ? <- [] w3 ->. by split; [intros _; exact Hw|]. }
  specialize (Hsaved eq_refl Hp).
  assert (Hdone : forall w3, disk w3 = disk w2 -> mem w3 = set_tentative (tentative (mem w2) ∖ {[key]}) (mem w2) ->
    whole key w w3).
  { intros w3 Hd3 Hm3. right. rewrite Hd3, Hm3, Hm. auto. }
  intros ? <- [] w3 [_ ->]. split; [intros _; by apply Hdone|].
  intros ? <- [] w4 ->. by split; [intros _; by apply Hdone|].
Qed.

(** A goroutine that runs alone, action by action. *)
Lemma alone_whole {A} key w (p : M A) ts w' :
  wp (astep 0) eq (keeps_whole key w) p (fun _ _ => True) w ->
  rtc (pool_step astep_of) ([p], w) (ts, w') -> whole key w w'.
Proof.
  intros Hwp Hr. set (RG := fun i : nat => match i with
    | O => (@eq World, keeps_whole key w)
    | _ => ((fun _ _ => True), (fun _ _ => False)) end : (World -> World -> Prop) * (World -> World -> Prop)).
  apply (pool_invariant astep_of RG (fun _ _ _ => True) (whole key w) ([p], w) (ts, w')); try done.
  - intros [|i]; simpl; [apply _|]. split; by intros.
  - intros [|i] [|j] w1 w2; simpl; try done.
  - intros [|i] w1 w2 H1 H2; simpl in H2; [by apply H2|done].
  - intros [|i] q Hq; simpl in *; [|done]. simplify_eq. eapply wp_astep_mono; [apply astep_of_astep|done].
  - by left.
Qed.

(** C29: A save is atomic.  At every instant of a save of the table, or of the
    commit of a claim, whichever of its steps fail and wherever it is cut off, the
    state file is the previous one or the complete new snapshot, never a part of
    it; and a claim's tentative mark is cleared only when the file has it. *)
Theorem save_atomic key w :
  StatePath cfg <> "" ->
  (forall ts w', rtc (pool_step astep_of) ([persist cfg], w) (ts, w') -> whole "" w w') /\
  (forall ts w', rtc (pool_step astep_of) ([commitClaim cfg key], w) (ts, w') -> whole key w w').
Proof.
  intros Hp. split; intros ts w'; apply alone_whole; [apply wp_persist_whole|by apply wp_commit_whole].
Qed.
End atomic.
