(* ===== verification/Ownership.v ===== *)
(** * ownership.go: may a pod deletion destroy the VM?

    The owner's resource name, the owner query and the verdict.  [gone_by] is the
    decision table of docs/architecture.md as a relation. *)

From S2P Require Import Prelude GoLib Kube Prog State StateFile Persist Runs.
From Stdlib Require Import Ascii.
Local Open Scope string_scope.
Local Open Scope go_scope.

Inductive authVerdict := authPreserve | authRelease.

#[export] Instance authVerdict_eq_dec : EqDecision authVerdict.
Proof. solve_decision. Defined.

(** The plural rules, on a lower-case kind. *)
Definition pluralResource (lower : string) : string :=
  if HasSuffix lower "s" || HasSuffix lower "x" || HasSuffix lower "z" ||
     HasSuffix lower "ch" || HasSuffix lower "sh"
  then lower +:+ "es"
  else if HasSuffix lower "y" && (1 <? String.length lower)%nat &&
          match String.get (String.length lower - 2) lower with
          | Some c => ! contains_byte "aeiou" c
          | None => false
          end
  then str_take (String.length lower - 1) lower +:+ "ies"
  else lower +:+ "s".

Section ownership.
Context `{K : KubeLib} (cfg : Config).

Definition ownerGVR (apiVersion kind : string) : option GroupVersionResource :=
  if kind =? "" then None
  else match ParseGroupVersion apiVersion with
       | None => None
       | Some (g, v) => Some (mkGVR g v (pluralResource (ToLower unicode_lower kind)))
       end.

(** The first condition of type Ready decides. *)
Fixpoint ready_expired (conditions : list json) : bool :=
  match conditions with
  | [] => false
  | JObj m :: rest =>
      if any_eq_string (jmember "type" m) SandboxConditionReady
      then any_eq_string (jmember "reason" m) SandboxReasonExpired
      else ready_expired rest
  | _ :: rest => ready_expired rest
  end.

Definition ownerExpired (obj : OwnerObject) : bool := ready_expired (StatusConditions obj).

(** [Details.Name] of a structured error, empty otherwise. *)
Definition notFoundName (err : APIError) : string :=
  match AsAPIStatus err with
  | Some (Some n) => n
  | _ => ""
  end.

(** The verdict on the owner query's answer. *)
Definition judge_owner (ref : OwnerReference) (r : OwnerObject + APIError)
  : authVerdict * string :=
  match r with
  | inr err =>
      if IsNotFound err then
        if notFoundName err =? OwnerName ref
        then (authRelease, "owner " +:+ Kind ref +:+ " " +:+ OwnerName ref
               +:+ " confirmed gone (structured NotFound)")
        else (authPreserve, "ambiguous 404 for owner " +:+ Kind ref +:+ " " +:+ OwnerName ref
               +:+ " (no Details.Name match): endpoint shape unverified")
      else (authPreserve, "owner query failed: " +:+ ErrorText err)
  | inl obj =>
      match DeletionTimestamp obj with
      | Some _ => (authRelease, "owner " +:+ Kind ref +:+ " " +:+ OwnerName ref
                    +:+ " in teardown (deletionTimestamp set)")
      | None =>
          if ownerExpired obj
          then (authRelease, "owner " +:+ Kind ref +:+ " " +:+ OwnerName ref
                 +:+ " expired: the operator tore its workload down")
          else if ! (OwnerUID ref =? "") && ! (ObjectUID obj =? OwnerUID ref)
          then (authRelease, "owner " +:+ Kind ref +:+ " " +:+ OwnerName ref
                 +:+ " UID rotated: referenced generation gone")
          else (authPreserve, "owner " +:+ Kind ref +:+ " " +:+ OwnerName ref
                 +:+ " alive: pod deletion is not VM authority")
      end
  end.

Definition destroyAuthorized (namespace : string) (ref : option OwnerReference)
  : M (authVerdict * string) :=
  match ref with
  | None => mret (authRelease, "bare pod: pod deletion is the owner teardown")
  | Some ref =>
      if ! HasDynamic cfg
      then mret (authPreserve, "no dynamic client: owner state unverifiable")
      else match ownerGVR (APIVersion ref) (Kind ref) with
           | None => mret (authPreserve, "owner GVR unresolvable for kind " +:+ Kind ref)
           | Some gvr =>
               r ← call (AGetOwner gvr namespace (OwnerName ref));
               mret (judge_owner ref r)
           end
  end.

(** ** The decision table *)

(** [conditions] has a Ready condition, and the first one gives [Expired] as its
    reason. *)
Definition ready_is (m : list (string * json)) : Prop :=
  jmember "type" m = Some (JStr SandboxConditionReady).

Inductive says_expired (conditions : list json) : Prop :=
| first_ready l1 m l2 :
    conditions = (l1 ++ JObj m :: l2)%list -> (forall m', JObj m' ∈ l1 -> ~ ready_is m') ->
    ready_is m -> jmember "reason" m = Some (JStr SandboxReasonExpired) -> says_expired conditions.

(** The answers that give a deletion authority over the sandbox of [ref]. *)
Inductive gone_by (ref : OwnerReference) : OwnerObject + APIError -> Prop :=
| gone_named err :
    IsNotFound err = true -> notFoundName err = OwnerName ref -> gone_by ref (inr err)
| gone_teardown obj t : DeletionTimestamp obj = Some t -> gone_by ref (inl obj)
| gone_expired obj : says_expired (StatusConditions obj) -> gone_by ref (inl obj)
| gone_rotated obj : OwnerUID ref <> "" -> ObjectUID obj <> OwnerUID ref -> gone_by ref (inl obj).

Lemma any_eq_string_true v s : any_eq_string v s = true <-> v = Some (JStr s).
Proof.
  unfold any_eq_string. split; [|intros ->; apply String.eqb_refl].
  destruct v as [[]|]; try done. by intros ->%String.eqb_eq.
Qed.

Lemma ready_expired_true conditions : ready_expired conditions = true <-> says_expired conditions.
Proof.
  split.
  - induction conditions as [|j l IH]; [done|].
    assert (Hskip : (forall m, j = JObj m -> ~ ready_is m) -> ready_expired l = true ->
      says_expired (j :: l)).
    { intros Hj [l1 m l2 -> Hl1 Hm Hr]%IH. apply (first_ready _ (j :: l1) m l2); [done| |done|done].
      intros m' [Heq|Hin]%elem_of_cons; [by apply Hj|by apply Hl1]. }
    destruct j as [| | | | |m]; simpl; try (by apply Hskip).
    destruct (any_eq_string (jmember "type" m) _) eqn:Ht.
    + intros Hr. apply (first_ready _ [] m l); [done|set_solver| |]; by apply any_eq_string_true.
    + apply Hskip. intros m' [= <-] Hm. apply any_eq_string_true in Hm. congruence.
  - intros [l1 m l2 -> Hl1 Hm Hr]. induction l1 as [|j l1 IH]; simpl.
    + apply any_eq_string_true in Hm, Hr. by rewrite Hm.
    + specialize (IH ltac:(set_solver)). destruct j as [| | | | |m']; try done.
      destruct (any_eq_string (jmember "type" m') _) eqn:Ht; [|done].
      apply any_eq_string_true in Ht. by destruct (Hl1 m' ltac:(set_solver)).
Qed.

Lemma judge_owner_release ref r : (judge_owner ref r).1 = authRelease <-> gone_by ref r.
Proof.
  split.
  - destruct r as [obj|err]; simpl.
    + destruct (DeletionTimestamp obj) eqn:Hd; [by econstructor|].
      destruct (ownerExpired obj) eqn:He; [intros _; by apply gone_expired, ready_expired_true|].
      bdestr; simpl; try done. intros _. by apply gone_rotated.
    + destruct (IsNotFound err) eqn:Hn; [|done]. bdestr; [|done]. intros _. by apply gone_named.
  - intros [err Hn Hm|obj t Hd|obj He%ready_expired_true|obj Hu Hne]; simpl.
    + rewrite Hn, Hm. by rewrite String.eqb_refl.
    + by rewrite Hd.
    + unfold ownerExpired. rewrite He. by destruct (DeletionTimestamp obj).
    + destruct (DeletionTimestamp obj), (ownerExpired obj); try done. bdestr; done.
Qed.

(** C6: The destroy decision is its table.  [destroyAuthorized] authorizes exactly
    for a bare pod, or when a dynamic client asked the apiserver for the owner, by
    its resource in the pod's namespace, and the answer is in [gone_by]: a
    NotFound that names the owner, a deletion timestamp, a first Ready condition
    that says Expired, or another UID than the referenced one.  A failed query, an
    unnamed 404 and an unresolvable kind preserve; nothing but the query is done. *)
Theorem destroy_decision env ns ref w :
  let '(v, w') := exec env (destroyAuthorized ns ref) w in
  (v.1 = authRelease <->
     ref = None \/
     exists r gvr, ref = Some r /\ HasDynamic cfg = true /\
       ownerGVR (APIVersion r) (Kind r) = Some gvr /\
       gone_by r (env_owner env (hist w) gvr ns (OwnerName r))) /\
  mem w' = mem w /\ disk w' = disk w /\
  adds (fun ev => exists gvr name a, ev = EvGetOwner gvr ns name a) w w'.
Proof.
  unfold destroyAuthorized. destruct ref as [r|].
  2:{ rewrite exec_ret. split; [|split; [done|split; [done|apply adds_refl]]]. split; eauto. }
  destruct (HasDynamic cfg); cbn [negb].
  2:{ rewrite exec_ret. split; [|split; [done|split; [done|apply adds_refl]]].
      split; [done|]. intros [|(? & ? & _ & ? & _)]; done. }
  destruct (ownerGVR _ _) as [gvr|] eqn:Hg.
  2:{ rewrite exec_ret. split; [|split; [done|split; [done|apply adds_refl]]].
      split; [done|]. intros [|(? & ? & ? & _ & ? & _)]; [done|]. congruence. }
  xact. rewrite exec_ret. split; [|split; [done|split; [done|apply adds_emit; eauto]]].
  rewrite judge_owner_release. split.
  - intros H. right. eauto 10.
  - intros [|(r' & g' & ? & _ & Hg' & H)]; [done|]. simplify_eq. done.
Qed.
End ownership.
