(* ===== verification/Status.v ===== *)
(** * status.go and unsupported.go: the status reads

    The pod views served from the table, and the synthetic statuses. *)

From S2P Require Import Prelude GoLib Kube Prog State Provider.
Local Open Scope string_scope.
Local Open Scope go_scope.

Definition ReasonLeaseExpired : string := "SandboxLeaseExpired".

(** create.go's [claimIP]: the host of an [owner_addr]. *)
Definition claimIP (addr : string) : string :=
  match SplitHostPort addr with
  | inl (host, _) => if ! (host =? "") then host else addr
  | inr _ => addr
  end.

Definition containerStatuses (pod : Pod) (c : Claim) (state : ContainerState) (ready : bool)
  : list ContainerStatus :=
  (fun ctr => mkContainerStatus (ContainerName ctr) ready state (ContainerImage ctr)
                ("sandboxd://" +:+ ID c)) <$> Containers pod.

Definition runningStatus (pod : Pod) (c : Claim) : PodStatus :=
  let ip := claimIP (Address c) in
  mkPodStatus PodRunning
    [mkPodCondition PodInitialized true; mkPodCondition PodReady true;
     mkPodCondition PodScheduled true]
    "" "" ip
    (if ! (ip =? "") then ip else "")
    (if ! (ip =? "") then [ip] else [])
    (Some (ClaimedAt c))
    (containerStatuses pod c (mkContainerState (Some (ClaimedAt c)) None) true).

Definition GetPod (namespace name : string) : M (option Pod) :=
  read_mu (fun p => pods p !! podKey namespace name).

Definition GetPods : M (list Pod) :=
  ps ← read_mu pods;
  l ← range ps;
  mret l.*2.

Section status.
Context `{K : KubeLib}.

Definition expiredStatus (pod : Pod) (c : Claim) : PodStatus :=
  mkPodStatus PodFailed []
    ("sandbox lease ended at " +:+ FormatRFC3339 (Deadline c)
      +:+ "; the microVM is reaped at the deadline")
    ReasonLeaseExpired "" "" [] (Some (ClaimedAt c))
    (containerStatuses pod c
       (mkContainerState None (Some (mkTerminated 1 ReasonLeaseExpired (Deadline c)))) false).

Definition GetPodStatus (namespace name : string) : M (option PodStatus) :=
  let key := podKey namespace name in
  v ← read_mu (fun p => (pods p !! key, claims p !! key, settled p key));
  let '(pod, c, set) := v in
  match pod with
  | None => mret None
  | Some pod =>
      match c with
      | Some c =>
          if (set : bool) then
            now ← call ANow;
            if expired c now then mret (Some (expiredStatus pod c))
            else mret (Some (runningStatus pod c))
          else mret (Some (with_Phase PodPending (Status pod)))
      | None => mret (Some (with_Phase PodPending (Status pod)))
      end
  end.
End status.

(** ** unsupported.go *)

Inductive unsupported_error := ErrNotImplemented.

Definition GetContainerLogs : unit + unsupported_error := inr ErrNotImplemented.
Definition RunInContainer : option unsupported_error := Some ErrNotImplemented.
Definition AttachToContainer : option unsupported_error := Some ErrNotImplemented.
Definition PortForward : option unsupported_error := Some ErrNotImplemented.

(** No statistics: a zero summary, and no metric family. *)
Definition GetStatsSummary {Summary : Type} (zero : Summary) : Summary + unsupported_error := inl zero.
Definition GetMetricsResource {MetricFamily : Type} : list MetricFamily + unsupported_error := inl [].
