(* ===== verification/Create.v ===== *)
(** * create.go: claiming a sandbox for a pod

    [CreatePod] and [UpdatePod] with every step they call: settling an unverified
    or an expired row, adopting the row of the same owner, returning a stranded
    claim, the claim itself, its commit and its undo. *)

From S2P Require Import Prelude GoLib Kube Prog State Provider StateFile Persist Status.
Local Open Scope string_scope.
Local Open Scope go_scope.

Definition AnnRuntime : string := "sandbox.cocoonstack.io/runtime".
Definition RuntimeSandboxd : string := "sandboxd".
Definition AnnTTLSeconds : string := "sandbox.cocoonstack.io/ttl-seconds".
Definition AnnClaimID : string := "sandbox.cocoonstack.io/claim-id".
Definition defaultClaimTTLSeconds : Z := (24 * 60 * 60)%Z.

(** [cmp.Or(pod.Annotations[key], def)]; a nil map reads as empty. *)
Definition ann (pod : Pod) (key def : string) : string :=
  cmp_Or (default "" (m ← Annotations pod; m !! key)) def.

Definition podWithClaim (pod : Pod) (id : string) : Pod :=
  with_Annotations (Some (<[AnnClaimID := id]> (default ∅ (Annotations pod)))) pod.

Definition releaseDetached (c : Claim) : M (option gerr) :=
  call (ARelease DetachedCtx (ID c) (Token c)).

Definition withdraw_row (key id : string) (p : Provider) : Provider :=
  let p := match claims p !! key with
           | Some cur =>
               if ID cur =? id
               then set_pods (delete key (pods p)) (set_claims (delete key (claims p)) p)
               else p
           | None => p
           end in
  set_quarantined (quarantined p ∖ {[key]}) (set_tentative (tentative p ∖ {[key]}) p).

Definition withdrawClaim (key id : string) : M unit := write_mu (withdraw_row key id).

Definition pushRunning (pod : Pod) (c : Claim) : M unit :=
  let out := podWithClaim pod (ID c) in
  notify (with_Status (runningStatus out c) out).

Definition undoUnpersistedClaim (key : string) (c : Claim) (persistErr : gerr)
  : M (option perr) :=
  e ← releaseDetached c;
  match e with
  | Some err => mret (Some (ErrPersistRelease key (ID c) persistErr err))
  | None =>
      _ ← withdrawClaim key (ID c);
      mret (Some (ErrPersist key persistErr))
  end.

(** A row whose claim never reached disk and whose undo release failed. *)
Definition clearStrandedClaim (key : string) : M (option perr) :=
  v ← read_mu (fun p => (claims p !! key, bool_decide (key ∈ tentative p)));
  match v with
  | (Some c, true) =>
      e ← releaseDetached c;
      match e with
      | Some err => mret (Some (ErrStranded key (ID c) err))
      | None => _ ← withdrawClaim key (ID c); mret None
      end
  | _ => mret None
  end.

Definition find_row (listed : list SandboxSummary) (id : string) : option SandboxSummary :=
  head (filter (fun row => SumID row = id) listed).

Lemma find_row_None listed id : find_row listed id = None -> id ∉ SumID <$> listed.
Proof.
  unfold find_row. intros Hh%head_None (row & -> & Hin)%list_elem_of_fmap.
  assert (Hf : row ∈ filter (fun r => SumID r = SumID row) listed) by by apply list_elem_of_filter.
  rewrite Hh in Hf. by apply elem_of_nil in Hf.
Qed.

Section create.
Context `{K : KubeLib} (cfg : Config).

Definition resolveUnverifiedClaim (key : string) : M (option perr) :=
  unverified ← read_mu (fun p => bool_decide (key ∈ quarantined p));
  if ! unverified then mret None
  else
    ok ← VerifyClaimsAgainstNode cfg;
    if (ok : bool) then mret None else mret (Some (ErrUnverified key)).

Definition settleExpiredClaim (key : string) : M (option perr) :=
  held ← claimFor key;
  match held with
  | None => mret None
  | Some c =>
      now ← call ANow;
      if ! expired c now then mret None
      else if ! HasLister cfg then _ ← dropClaim key (ID c); mret None
      else
        r ← call ASandboxes;
        match r with
        | inr err => mret (Some (ErrExpiredUnlistable key (ID c) err))
        | inl listed =>
            match find_row listed (ID c) with
            | Some row => _ ← refreshDeadline key (ID c) (SumDeadline row); mret None
            | None => _ ← dropClaim key (ID c); mret None
            end
        end
  end.

(** The locked step of [adoptExistingClaim]. *)
Definition adopt_row (key : string) (pod : Pod) (p : Provider) : option Claim * Provider :=
  match claims p !! key with
  | None => (None, p)
  | Some c =>
      if ! settled p key then (None, p)
      else if ! adoptableBy c pod then
        (None, set_releasing (releasing p ++ [c]) (set_claims (delete key (claims p)) p))
      else
        let c := rebind (UID pod) (Some (authorityOf pod)) c in
        (Some c, set_pods (<[key := pod]> (pods p)) (set_claims (<[key := c]> (claims p)) p))
  end.

Definition adoptExistingClaim (key : string) (pod : Pod) : M (option Claim) :=
  locked (adopt_row key pod).

(** The lease a pod asks for: [None] is an invalid annotation. *)
Definition claim_ttl (pod : Pod) : option Z :=
  let s := ann pod AnnTTLSeconds "" in
  if s =? "" then Some defaultClaimTTLSeconds
  else match Atoi s with
       | Some v => if (v <? 0)%Z then None else Some v
       | None => None
       end.

Definition claim_spec (pod : Pod) (ttl : Z) : ClaimSpec :=
  mkClaimSpec (ann pod SelectorTemplateKey "") (ann pod SelectorNetKey "")
    (ann pod SelectorSizeKey "") ttl (keyOf pod).

Definition granted_claim (pod : Pod) (r : ClaimResult) (now : time) : Claim :=
  mkClaim (ResID r) (ResToken r) (OwnerAddr r) (UID pod) (Some (authorityOf pod)) now
    (ResDeadline r) None.

Definition insert_claim (key : string) (pod : Pod) (c : Claim) (p : Provider) : Provider :=
  let p := set_claims (<[key := c]> (claims p)) p in
  let p := set_pods (<[key := podWithClaim pod (ID c)]> (pods p)) p in
  set_tentative ({[key]} ∪ tentative p) p.

Definition CreatePod (pod : Pod) : M (option perr) :=
  let key := podKey (Namespace pod) (PodName pod) in
  let rt := ann pod AnnRuntime RuntimeSandboxd in
  if ! (rt =? RuntimeSandboxd) then mret (Some (ErrRuntime key rt))
  else
    resolveUnverifiedClaim key ;?
    settleExpiredClaim key ;?
    (adopted ← adoptExistingClaim key pod;
     match adopted with
     | Some c => _ ← saveState cfg; _ ← pushRunning pod c; mret None
     | None =>
         clearStrandedClaim key ;?
         match claim_ttl pod with
         | None => mret (Some (ErrInvalidTTL key (ann pod AnnTTLSeconds "")))
         | Some ttl =>
             let spec := claim_spec pod ttl in
             if Template spec =? "" then mret (Some (ErrMissingTemplate key))
             else
               r ← call (AClaim spec);
               match r with
               | inr err => mret (Some (ErrClaim key (Template spec) err))
               | inl r =>
                   now ← call ANow;
                   let c := granted_claim pod r now in
                   _ ← write_mu (insert_claim key pod c);
                   e ← commitClaim cfg key;
                   match e with
                   | Some err => undoUnpersistedClaim key c err
                   | None => _ ← pushRunning pod c; mret None
                   end
               end
         end
     end).

Definition UpdatePod (pod : Pod) : M (option perr) :=
  let key := podKey (Namespace pod) (PodName pod) in
  current ← podUIDIsCurrent key pod;
  if ! current then mret None
  else
    pending ← locked (fun p =>
      if bool_decide (key ∈ tentative p) then (true, p)
      else (false, set_pods (<[key := pod]> (pods p)) p));
    if (pending : bool) then CreatePod pod else mret None.
End create.
