(* ===== verification/Delete.v ===== *)
(** * delete.go: a pod deletion is not VM authority *)

From S2P Require Import Prelude Kube Prog State Provider StateFile Persist Ownership Create.
Local Open Scope string_scope.
Local Open Scope go_scope.

Definition forgetPod (key : string) : M unit :=
  write_mu (fun p => set_pods (delete key (pods p)) p).

Definition preserve_row (key id : string) (owner : option OwnerReference) (p : Provider)
  : Provider :=
  let p := set_pods (delete key (pods p)) p in
  match claims p !! key with
  | Some c =>
      if ID c =? id then set_claims (<[key := with_Owner owner c]> (claims p)) p else p
  | None => p
  end.

Section delete.
Context `{K : KubeLib} (cfg : Config).

Definition preserveClaim (key id : string) (owner : option OwnerReference) : M unit :=
  _ ← write_mu (preserve_row key id owner);
  saveState cfg.

Definition DeletePod (pod : Pod) : M (option perr) :=
  let key := podKey (Namespace pod) (PodName pod) in
  current ← podUIDIsCurrent key pod;
  if ! current then mret None
  else
    held ← heldClaimFor key;
    match held with
    | None => _ ← forgetPod key; mret None
    | Some c =>
        let owner := GetControllerOf pod in
        v ← destroyAuthorized cfg (Namespace pod) owner;
        match v.1 with
        | authPreserve => _ ← preserveClaim key (ID c) owner; mret None
        | authRelease =>
            e ← call (ARelease CallerCtx (ID c) (Token c));
            match e with
            | Some err => mret (Some (ErrRelease (ID c) key err))
            | None =>
                _ ← withdrawClaim key (ID c);
                _ ← saveState cfg;
                mret None
            end
        end
    end.
End delete.
