(* ===== verification/DeleteSpec.v ===== *)
(** * What a pod deletion does

    [DeletePod] run alone, branch by branch. *)

From S2P Require Import Prelude GoLib Kube Prog State Provider StateFile Persist Runs Ownership Create Delete.
Local Open Scope string_scope.
Local Open Scope list_scope.

Section delete.
Context `{K : KubeLib} (cfg : Config) (env : Env).

(** The pod is of the generation the provider tracks, or nothing is tracked. *)
Definition current_pod (p : Provider) (pod : Pod) : Prop :=
  forall cur, pods p !! keyOf pod = Some cur -> UID cur = UID pod.

(** What the owner query of a deletion decides. *)
Definition verdict_on (pod : Pod) (w : World) : authVerdict :=
  (exec env (destroyAuthorized cfg (Namespace pod) (GetControllerOf pod)) w).1.1.

(** The events of a deletion that destroys nothing. *)
Definition harmless (ev : event) : Prop :=
  match ev with EvClaim _ _ | EvRelease _ _ _ _ => False | _ => True end.

Lemma current_pod_true w pod :
  current_pod (mem w) pod ->
  match pods (mem w) !! podKey (Namespace pod) (PodName pod) with
  | Some cur => String.eqb (UID cur) (UID pod)
  | None => true
  end = true.
Proof.
  intros Hc. destruct (pods (mem w) !! _) as [cur|] eqn:Hp; [|done].
  apply String.eqb_eq. by apply Hc.
Qed.

(** The query for the owner of a pod. *)
Definition owner_query (ev : event) : Prop :=
  match ev with EvGetOwner _ _ _ _ => True | _ => False end.

(** The query leaves the world as it is but for its event. *)
Lemma exec_destroyAuthorized ns ref w :
  let w1 := (exec env (destroyAuthorized cfg ns ref) w).2 in
  mem w1 = mem w /\ disk w1 = disk w /\ saveOwner w1 = saveOwner w /\
  adds owner_query w w1.
Proof.
  unfold destroyAuthorized. destruct ref as [r|]; [|repeat split; apply adds_refl].
  destruct (HasDynamic cfg); cbn [negb]; [|repeat split; apply adds_refl].
  destruct (ownerGVR _ _) as [gvr|]; [|repeat split; apply adds_refl].
  xact. rewrite exec_ret. repeat split. by apply adds_emit.
Qed.

(** C9: A request for a previous pod generation is ignored.  [DeletePod] and
    [UpdatePod] with another UID than the tracked pod's return success and leave
    memory, disk and sandboxd exactly as they are. *)
Theorem stale_generation_ignored pod cur w :
  pods (mem w) !! keyOf pod = Some cur -> UID cur <> UID pod ->
  exec env (DeletePod cfg pod) w = (None, w) /\ exec env (UpdatePod cfg pod) w = (None, w).
Proof.
  intros Hp Hu. unfold DeletePod, UpdatePod, podUIDIsCurrent, keyOf in *. cbv zeta.
  rewrite !exec_read_mu, Hp. destruct (String.eqb_spec (UID cur) (UID pod)); [done|].
  by split.
Qed.

(** C7: A pod deletion without authority keeps the sandbox.  When the verdict is
    to preserve, [DeletePod] succeeds, sends no release and no claim, forgets the
    pod, keeps the row under its key with its credential and records the owner to
    ask about (there is one), and saves that table. *)
Theorem delete_preserves pod c w :
  current_pod (mem w) pod -> claims (mem w) !! keyOf pod = Some c ->
  verdict_on pod w = authPreserve ->
  let '(e, w') := exec env (DeletePod cfg pod) w in
  e = None /\ adds harmless w w' /\ GetControllerOf pod <> None /\
  mem w' = set_claims (<[keyOf pod := with_Owner (GetControllerOf pod) c]> (claims (mem w)))
             (set_pods (delete (keyOf pod) (pods (mem w))) (mem w)) /\
  (disk_works env -> StatePath cfg <> "" ->
     stateOnDisk (disk w') = Some (Doc (encode_state (snapshot "" (mem w'))))).
Proof.
  intros Hcur Hc Hv. unfold DeletePod, podUIDIsCurrent, heldClaimFor, preserveClaim. cbv zeta.
  xread. rewrite current_pod_true by done. cbn [negb]. xread.
  change (podKey _ _) with (keyOf pod). rewrite Hc, exec_bind.
  assert (Ho : GetControllerOf pod <> None).
  { intros Hn. unfold verdict_on, destroyAuthorized in Hv. by rewrite Hn in Hv. }
  destruct (exec_destroyAuthorized (Namespace pod) (GetControllerOf pod) w) as (Hm1 & _ & _ & Ha1).
  unfold verdict_on in Hv.
  destruct (exec env (destroyAuthorized _ _ _) w) as [[v reason] w1]. cbn [fst snd] in *. subst v.
  rewrite exec_bind. rewrite exec_bind, exec_write. cbn [fst snd].
  set (w2 := set_mem _ w1). destruct (exec_saveState cfg env w2) as (Hm3 & Ha3 & Hf3).
  rewrite exec_ret. set (w3 := (exec env (saveState cfg) w2).2) in *.
  assert (Hm2 : mem w2 = set_claims (<[keyOf pod := with_Owner (GetControllerOf pod) c]> (claims (mem w)))
             (set_pods (delete (keyOf pod) (pods (mem w))) (mem w))).
  { unfold w2. simpl. rewrite Hm1. unfold preserve_row. simpl. by rewrite Hc, String.eqb_refl. }
  split; [done|]. split.
  { eapply (adds_trans _ _ w2); [eapply adds_mono; [|exact Ha1]; by intros []|].
    eapply adds_mono; [|exact Ha3]. by intros []. }
  split; [done|]. rewrite Hm3. by split.
Qed.

(** C8: An authorized deletion releases the sandbox before it forgets it.  When
    the verdict is to release, everything [DeletePod] asks of the system is its
    owner query, then one release of the row's credential on the caller's
    context, then disk operations: sandboxd is called exactly once.  If sandboxd
    refuses, the deletion fails with that error, nothing follows the release and
    memory and disk stay as they were, so a retry can release; if sandboxd
    accepts, it succeeds, the row, the pod and the key's marks are gone, no other
    row and no queued release changed, and the saved file no longer has the row. *)
Theorem delete_releases pod c w :
  current_pod (mem w) pod -> claims (mem w) !! keyOf pod = Some c ->
  verdict_on pod w = authRelease ->
  let '(e, w') := exec env (DeletePod cfg pod) w in
  exists asked saves r,
    hist w' = hist w ++ asked ++ [(0, EvRelease CallerCtx (ID c) (Token c) r)] ++ saves /\
    Forall (fun ie => owner_query ie.2) asked /\ Forall (fun ie => disk_event ie.2) saves /\
    r = env_release env (hist w ++ asked) CallerCtx (ID c) (Token c) /\
    match r with
    | Some err =>
        e = Some (ErrRelease (ID c) (keyOf pod) err) /\ saves = [] /\
        mem w' = mem w /\ disk w' = disk w
    | None =>
        e = None /\ claims (mem w') = delete (keyOf pod) (claims (mem w)) /\
        pods (mem w') = delete (keyOf pod) (pods (mem w)) /\
        tentative (mem w') = tentative (mem w) ∖ {[keyOf pod]} /\
        quarantined (mem w') = quarantined (mem w) ∖ {[keyOf pod]} /\
        releasing (mem w') = releasing (mem w) /\
        (disk_works env -> StatePath cfg <> "" ->
           stateOnDisk (disk w') = Some (Doc (encode_state (snapshot "" (mem w')))))
    end.
Proof.
  intros Hcur Hc Hv. unfold DeletePod, podUIDIsCurrent, heldClaimFor, withdrawClaim. cbv zeta.
  xread. rewrite current_pod_true by done. cbn [negb]. xread.
  change (podKey _ _) with (keyOf pod). rewrite Hc, exec_bind.
  destruct (exec_destroyAuthorized (Namespace pod) (GetControllerOf pod) w)
    as (Hm1 & Hd1 & _ & (t & Ht & Hq)).
  unfold verdict_on in Hv.
  destruct (exec env (destroyAuthorized _ _ _) w) as [[v reason] w1]. cbn [fst snd] in *. subst v.
  xact. rewrite Ht. set (r := env_release env (hist w ++ t) CallerCtx (ID c) (Token c)).
  set (w2 := emit 0 _ w1).
  assert (H2 : hist w2 = hist w ++ t ++ [(0, EvRelease CallerCtx (ID c) (Token c) r)]).
  { unfold w2. cbn [hist emit]. by rewrite Ht, <- app_assoc. }
  destruct r as [err|] eqn:Hr.
  { rewrite exec_ret. exists t, [], (Some err). rewrite app_nil_r. unfold r in Hr. by rewrite Hr. }
  xwrite. rewrite exec_bind, exec_ret. set (w3 := set_mem _ w2).
  destruct (exec_saveState cfg env w3) as (Hm4 & (t' & Ht' & Hs) & Hf4).
  set (w4 := (exec env (saveState cfg) w3).2) in *.
  exists t, t', None. change (hist w3) with (hist w2) in Ht'. unfold r in Hr. rewrite Hr.
  split; [by rewrite Ht', H2, <- !app_assoc|]. repeat (split; [done|]).
  rewrite Hm4. unfold w3 at 1 2 3 4 5. cbn [mem set_mem]. unfold w2. cbn [mem emit]. rewrite Hm1.
  unfold withdraw_row. rewrite Hc, String.eqb_refl. by repeat split.
Qed.
End delete.
