(* ===== verification/CreateSpec.v ===== *)
(** * What a pod creation does

    [CreatePod] run alone: adoption, the fresh claim and its commit, the failures
    and what they leave behind. *)

From S2P Require Import Prelude GoLib Kube Prog State Provider StateFile Persist Runs Ownership Status Create Delete DeleteSpec.
Local Open Scope string_scope.
Local Open Scope list_scope.

Section create.
Context `{K : KubeLib} (cfg : Config) (env : Env).

(** The pod asks for this provider's runtime. *)
Definition served (pod : Pod) : Prop := ann pod AnnRuntime RuntimeSandboxd = RuntimeSandboxd.

(** ** The steps before the claim *)

Lemma exec_resolve_settled key w :
  key ∉ quarantined (mem w) -> exec env (resolveUnverifiedClaim cfg key) w = (None, w).
Proof.
  intros Hq. unfold resolveUnverifiedClaim. xread. by rewrite bool_decide_false.
Qed.

(** An empty or unsettled key has no lease to settle. *)
Lemma exec_settle_none key w :
  claims (mem w) !! key = None \/ settled (mem w) key = false ->
  exec env (settleExpiredClaim cfg key) w = (None, w).
Proof.
  intros H. unfold settleExpiredClaim, claimFor. xread.
  destruct H as [Hn|Hs]; [rewrite Hn; by destruct (settled (mem w) key)|by rewrite Hs].
Qed.

(** What [settleExpiredClaim] makes of a settled row. *)
Definition settle_result (key : string) (c : Claim) (w : World) : option perr * World :=
  let now := env_now env (hist w) in
  let w1 := emit 0 (EvNow now) w in
  if negb (expired c now) then (None, w1)
  else if negb (HasLister cfg) then (None, set_mem (drop_row key (ID c) (mem w)) w1)
  else match env_list env (hist w1) with
       | inr err => (Some (ErrExpiredUnlistable key (ID c) err), emit 0 (EvSandboxes (inr err)) w1)
       | inl listed =>
           (None, set_mem (match find_row listed (ID c) with
                           | Some row => refresh_row key (ID c) (SumDeadline row) (mem w)
                           | None => drop_row key (ID c) (mem w)
                           end) (emit 0 (EvSandboxes (inl listed)) w1))
       end.

Lemma exec_settle key c w :
  claims (mem w) !! key = Some c -> settled (mem w) key = true ->
  exec env (settleExpiredClaim cfg key) w = settle_result key c w.
Proof.
  intros Hc Hs. unfold settleExpiredClaim, claimFor, settle_result, dropClaim, refreshDeadline.
  xread. rewrite Hs, Hc. cbn [negb]. xact. destruct (expired c _); [|done]. cbn [negb].
  destruct (HasLister cfg); cbn [negb]; [|done]. xact.
  destruct (env_list env _) as [listed|err]; [|done]. by destruct (find_row listed (ID c)).
Qed.

(** The row [c] of [key] still has a lease on the node: its cached deadline is not
    past, or a listing shows it with the lease end [d]. *)
Definition leased (w : World) (c : Claim) (d : time) : Prop :=
  let now := env_now env (hist w) in
  (~ lease_over c now /\ d = Deadline c) \/
  (lease_over c now /\ HasLister cfg = true /\
   exists listed row, env_list env (hist w ++ [(0, EvNow now)]) = inl listed /\
     find_row listed (ID c) = Some row /\ d = SumDeadline row).

Lemma with_Deadline_same c : with_Deadline (Deadline c) c = c.
Proof. by destruct c. Qed.

Lemma set_claims_same p : set_claims (claims p) p = p.
Proof. by destruct p. Qed.

Lemma exec_settle_leased key c d w :
  claims (mem w) !! key = Some c -> settled (mem w) key = true -> leased w c d ->
  exists w1, exec env (settleExpiredClaim cfg key) w = (None, w1) /\ adds harmless w w1 /\
    disk w1 = disk w /\ mem w1 = set_claims (<[key := with_Deadline d c]> (claims (mem w))) (mem w).
Proof.
  intros Hc Hs Hl. rewrite (exec_settle key c) by done. unfold settle_result.
  destruct Hl as [[He%expired_not_iff ->]|(He%expired_iff & -> & listed & row & Hlist & Hrow & ->)];
    rewrite He; cbn [negb].
  - eexists. split; [done|]. split; [add_events|]. split; [done|].
    rewrite with_Deadline_same, insert_id by done. by rewrite set_claims_same.
  - cbn [hist emit]. rewrite Hlist, Hrow. eexists. split; [done|]. split; [add_events|].
    split; [done|]. simpl. unfold refresh_row. by rewrite Hc, String.eqb_refl.
Qed.

Lemma served_runtime pod :
  served pod -> String.eqb (ann pod AnnRuntime RuntimeSandboxd) RuntimeSandboxd = true.
Proof. intros ->. done. Qed.

Lemma exec_pushRunning pod c w :
  exec env (pushRunning pod c) w =
  (tt, if notifier (mem w)
       then emit 0 (EvNotify (with_Status (runningStatus (podWithClaim pod (ID c)) c)
              (podWithClaim pod (ID c)))) w
       else w).
Proof. unfold pushRunning. cbv zeta. apply exec_notify. Qed.

(** C10: A replacement pod of the same authority keeps its sandbox.  If the key's
    row is settled and still leased, and the pod is the one it was made for or
    speaks for whomever the row answers to ([same_authority]: the owner recorded
    when the row was preserved, before the authority recorded when it was bound),
    [CreatePod] succeeds without claiming or releasing anything: the row keeps its
    credential, address and start time and is rebound to the pod, recording whom
    the pod speaks for and no owner; every other row, the marks and the release
    queue are untouched; and Running is published for the adopted sandbox. *)
Theorem create_adopts pod c d u w :
  served pod -> claims (mem w) !! keyOf pod = Some c -> settled (mem w) (keyOf pod) = true ->
  leased w c d -> same_authority c pod -> speaks_for pod u ->
  let '(e, w') := exec env (CreatePod cfg pod) w in
  let c' := mkClaim (ID c) (Token c) (Address c) (UID pod) (Some u) (ClaimedAt c) d None in
  e = None /\ adds harmless w w' /\
  mem w' = set_pods (<[keyOf pod := pod]> (pods (mem w)))
             (set_claims (<[keyOf pod := c']> (claims (mem w))) (mem w)) /\
  (notifier (mem w) = true ->
     (0, EvNotify (with_Status (runningStatus (podWithClaim pod (ID c)) c')
            (podWithClaim pod (ID c)))) ∈ hist w').
Proof.
  intros Hrt Hc Hs Hl Ha%adoptableBy_iff ->%speaks_for_iff.
  unfold CreatePod. cbv zeta. rewrite served_runtime by done. cbn [negb].
  pose proof Hs as [_ Hq]%settled_true. change (podKey _ _) with (keyOf pod).
  rewrite exec_check, exec_resolve_settled by done. cbn [fst snd].
  destruct (exec_settle_leased (keyOf pod) c d w Hc Hs Hl) as (w1 & Hw1 & Ha1 & _ & Hm1).
  rewrite exec_check, Hw1. cbn [fst snd]. unfold adoptExistingClaim. rewrite exec_locked.
  assert (Hadopt : adopt_row (keyOf pod) pod (mem w1) =
    (Some (rebind (UID pod) (Some (authorityOf pod)) (with_Deadline d c)),
     set_pods (<[keyOf pod := pod]> (pods (mem w)))
       (set_claims (<[keyOf pod := rebind (UID pod) (Some (authorityOf pod)) (with_Deadline d c)]>
          (claims (mem w))) (mem w)))).
  { unfold adopt_row. rewrite Hm1. simpl. rewrite lookup_insert_eq.
    change (settled (set_claims _ (mem w)) (keyOf pod)) with (settled (mem w) (keyOf pod)).
    rewrite Hs. cbn [negb].
    change (adoptableBy (with_Deadline d c) pod) with (adoptableBy c pod).
    rewrite Ha. cbn [negb]. by rewrite insert_insert_eq. }
  rewrite Hadopt. cbn [fst snd]. set (w2 := set_mem _ w1).
  rewrite exec_bind. destruct (exec_saveState cfg env w2) as (Hm3 & Ha3 & _).
  set (w3 := (exec env (saveState cfg) w2).2) in *.
  rewrite exec_bind, exec_pushRunning, exec_ret. cbn [fst snd].
  assert (Hadds : adds harmless w w3).
  { eapply (adds_trans _ _ w2); [exact Ha1|]. eapply adds_mono; [|exact Ha3]. by intros []. }
  rewrite Hm3. cbn [w2 mem set_mem notifier set_pods set_claims].
  split; [done|]. destruct (notifier (mem w)).
  - split; [by eapply adds_trans; [|by apply adds_emit]|]. split; [done|]. intros _. simpl. set_solver.
  - split; [done|]. by split.
Qed.

(** ** From the claim on *)

(** The rest of [CreatePod] once the key is free. *)
Definition claim_phase (pod : Pod) : M (option perr) :=
  let key := keyOf pod in
  match claim_ttl pod with
  | None => mret (Some (ErrInvalidTTL key (ann pod AnnTTLSeconds "")))
  | Some ttl =>
      let spec := claim_spec pod ttl in
      if String.eqb (Template spec) "" then mret (Some (ErrMissingTemplate key))
      else
        r ← call (AClaim spec);
        match r with
        | inr err => mret (Some (ErrClaim key (Template spec) err))
        | inl r =>
            now ← call ANow;
            let c := granted_claim pod r now in
            _ ← write_mu (insert_claim key pod c);
            e ← commitClaim cfg key;
            match e with
            | Some err => undoUnpersistedClaim key c err
            | None => _ ← pushRunning pod c; mret None
            end
        end
  end.

(** An empty key goes straight to the claim. *)
Lemma exec_create_empty pod w :
  served pod -> claims (mem w) !! keyOf pod = None -> keyOf pod ∉ quarantined (mem w) ->
  exec env (CreatePod cfg pod) w = exec env (claim_phase pod) w.
Proof.
  intros Hrt Hn Hq. unfold CreatePod. cbv zeta. rewrite served_runtime by done. cbn [negb].
  change (podKey _ _) with (keyOf pod).
  rewrite exec_check, exec_resolve_settled by done. cbn [fst snd].
  rewrite exec_check, exec_settle_none by auto. cbn [fst snd].
  unfold adoptExistingClaim. rewrite exec_locked. unfold adopt_row. rewrite Hn. cbn [fst snd].
  replace (set_mem (mem w) w) with w by by destruct w.
  rewrite exec_check. unfold clearStrandedClaim. xread. by rewrite Hn.
Qed.

(** The pod's annotations make a claim: its lease and template are valid. *)
Definition claimable (pod : Pod) (ttl : Z) : Prop :=
  claim_ttl pod = Some ttl /\ ann pod SelectorTemplateKey "" <> "".

(** The claim sandboxd granted, and the world once its row is in the table. *)
Definition claim_now (pod : Pod) (ttl : Z) (r : ClaimResult) (w : World) : time :=
  env_now env (hist w ++ [(0, EvClaim (claim_spec pod ttl) (inl r))]).

Definition new_claim (pod : Pod) (ttl : Z) (r : ClaimResult) (w : World) : Claim :=
  granted_claim pod r (claim_now pod ttl r w).

Definition inserted (pod : Pod) (ttl : Z) (r : ClaimResult) (w : World) : World :=
  set_mem (insert_claim (keyOf pod) pod (new_claim pod ttl r w) (mem w))
    (emit 0 (EvNow (claim_now pod ttl r w)) (emit 0 (EvClaim (claim_spec pod ttl) (inl r)) w)).

Lemma exec_claim_granted pod ttl r w :
  claimable pod ttl -> env_claim env (hist w) (claim_spec pod ttl) = inl r ->
  exec env (claim_phase pod) w =
  match exec env (commitClaim cfg (keyOf pod)) (inserted pod ttl r w) with
  | (Some err, w2) => exec env (undoUnpersistedClaim (keyOf pod) (new_claim pod ttl r w) err) w2
  | (None, w2) => (None, (exec env (pushRunning pod (new_claim pod ttl r w)) w2).2)
  end.
Proof.
  intros [Httl Ht] Hr. unfold claim_phase. rewrite Httl. cbv zeta.
  destruct (String.eqb_spec (Template (claim_spec pod ttl)) "") as [Hz|_]; [done|].
  xact. rewrite Hr. xact. xwrite. rewrite exec_bind.
  change (set_mem _ _) with (inserted pod ttl r w).
  destruct (exec env (commitClaim cfg (keyOf pod)) (inserted pod ttl r w)) as [[err|] w2]; cbn [fst snd].
  - done.
  - by rewrite exec_bind, exec_ret.
Qed.

(** The table after a committed claim. *)
Definition committed (pod : Pod) (c : Claim) (p : Provider) : Provider :=
  set_tentative (tentative p ∖ {[keyOf pod]})
    (set_pods (<[keyOf pod := podWithClaim pod (ID c)]> (pods p))
       (set_claims (<[keyOf pod := c]> (claims p)) p)).

(** What a create that ends in a granted, saved claim leaves. *)
Definition claimed_and_saved (pod : Pod) (c : Claim) (h : history) (p : Provider) (w' : World) : Prop :=
  mem w' = committed pod c p /\
  (StatePath cfg <> "" -> exists st, stateOnDisk (disk w') = Some (Doc (encode_state st)) /\
     exists m, SClaims st = Some m /\ m !! keyOf pod = Some c) /\
  exists t, Forall (fun ie : nat * event => disk_event ie.2) t /\
    hist w' = h ++ t ++
      (if notifier p then [(0, EvNotify (with_Status (runningStatus (podWithClaim pod (ID c)) c)
                                  (podWithClaim pod (ID c))))] else []).

Lemma exec_claim_saved pod ttl r w :
  disk_works env -> claimable pod ttl -> env_claim env (hist w) (claim_spec pod ttl) = inl r ->
  let '(e, w') := exec env (claim_phase pod) w in
  e = None /\ claimed_and_saved pod (new_claim pod ttl r w) (hist (inserted pod ttl r w)) (mem w) w'.
Proof.
  intros Hd Hcl Hr. rewrite (exec_claim_granted pod ttl r) by done.
  pose proof (exec_commitClaim cfg env (keyOf pod) (inserted pod ttl r w)) as Hcm.
  destruct (exec env (commitClaim _ _) _) as [e w2]. destruct Hcm as (Hm & (t & Ht & Ft) & Hf & Hok).
  rewrite (Hok Hd) in *. split; [done|]. rewrite exec_pushRunning. cbn [snd].
  assert (Hm2 : mem w2 = committed pod (new_claim pod ttl r w) (mem w)).
  { rewrite Hm. apply provider_eq; try done. simpl. set_solver. }
  assert (Hmem : forall b : bool, mem (if b then emit 0 (EvNotify (with_Status
      (runningStatus (podWithClaim pod (ID (new_claim pod ttl r w))) (new_claim pod ttl r w))
      (podWithClaim pod (ID (new_claim pod ttl r w))))) w2 else w2) = mem w2) by by intros [].
  split; [by rewrite Hmem|]. split.
  - intros Hp. eexists. split.
    + transitivity (stateOnDisk (disk w2)); [by destruct (notifier (mem w2))|by apply Hf].
    + eexists. split; [done|]. simpl. apply map_lookup_filter_Some. split; [|by right].
      simpl. by rewrite lookup_insert_eq.
  - exists t. split; [done|]. rewrite Hm2. change (notifier (committed _ _ _)) with (notifier (mem w)).
    destruct (notifier (mem w)); simpl; rewrite Ht; by rewrite ?app_nil_r, ?app_assoc.
Qed.

(** C11: A fresh claim is durable before it is Running.  On an empty key with
    valid annotations, a granting sandboxd and a working disk, [CreatePod]
    succeeds: the table holds the granted claim, settled; the state file holds
    it too; and the history is exactly the claim, the clock, the save and then the
    Running notification, in this order. *)
Theorem create_claims pod ttl r w :
  served pod -> claims (mem w) !! keyOf pod = None -> keyOf pod ∉ quarantined (mem w) ->
  disk_works env -> claimable pod ttl -> env_claim env (hist w) (claim_spec pod ttl) = inl r ->
  let '(e, w') := exec env (CreatePod cfg pod) w in
  e = None /\ settled (mem w') (keyOf pod) = true /\
  claimed_and_saved pod (new_claim pod ttl r w)
    (hist w ++ [(0, EvClaim (claim_spec pod ttl) (inl r)); (0, EvNow (claim_now pod ttl r w))])
    (mem w) w'.
Proof.
  intros Hrt Hn Hq Hd Hcl Hr. rewrite exec_create_empty by done.
  pose proof (exec_claim_saved pod ttl r w Hd Hcl Hr) as H.
  destruct (exec env (claim_phase pod) w) as [e w']. destruct H as [-> Hsv]. split; [done|].
  unfold inserted in Hsv. cbn [hist set_mem emit] in Hsv. rewrite <- app_assoc in Hsv. split; [|done].
  destruct Hsv as [Hm _]. rewrite Hm. apply settled_true. simpl. set_solver.
Qed.

(** ** Failures *)

(** Everything but a Running notification. *)
Definition silent (ev : event) : Prop := match ev with EvNotify _ => False | _ => True end.

(** The row is in the table but not durable, and only memory has its credential. *)
Definition stranded (pod : Pod) (c : Claim) (p : Provider) : Prop :=
  claims p !! keyOf pod = Some c /\ keyOf pod ∈ tentative p.

(** C12: A claim that cannot be saved is given back.  When the commit fails with
    [perr], [CreatePod] fails, tells Kubernetes nothing, leaves the state file as
    it was, and releases the granted sandbox on a context of its own; if sandboxd
    accepts, the table has its old rows again; if not, the row stays, stranded, so
    the credential is not lost. *)
Theorem unsaved_claim_undone pod ttl r perr w :
  served pod -> claims (mem w) !! keyOf pod = None -> keyOf pod ∉ quarantined (mem w) ->
  claimable pod ttl -> env_claim env (hist w) (claim_spec pod ttl) = inl r ->
  (exec env (commitClaim cfg (keyOf pod)) (inserted pod ttl r w)).1 = Some perr ->
  let '(e, w') := exec env (CreatePod cfg pod) w in
  adds silent w w' /\ stateOnDisk (disk w') = stateOnDisk (disk w) /\
  exists h rel, rel = env_release env h DetachedCtx (ResID r) (ResToken r) /\
    hist w' = (h ++ [(0, EvRelease DetachedCtx (ResID r) (ResToken r) rel)]) /\
    match rel with
    | None => e = Some (ErrPersist (keyOf pod) perr) /\ claims (mem w') = claims (mem w) /\
        (keyOf pod ∉ tentative (mem w')) /\ pods (mem w') !! keyOf pod = None
    | Some err => e = Some (ErrPersistRelease (keyOf pod) (ResID r) perr err) /\
        stranded pod (new_claim pod ttl r w) (mem w')
    end.
Proof.
  intros Hrt Hn Hq Hcl Hr Hfail. rewrite exec_create_empty, (exec_claim_granted pod ttl r) by done.
  pose proof (exec_commitClaim cfg env (keyOf pod) (inserted pod ttl r w)) as Hcm.
  destruct (exec env (commitClaim _ _) _) as [e w2]. cbn [fst] in Hfail. subst e.
  destruct Hcm as (Hm & Ha & Hf & _). set (c := new_claim pod ttl r w) in *.
  unfold undoUnpersistedClaim, releaseDetached, withdrawClaim. xact. change (ID c) with (ResID r).
  change (Token c) with (ResToken r).
  assert (Hsil : adds silent w w2).
  { eapply (adds_trans _ _ (inserted pod ttl r w)); [unfold inserted; add_events|].
    eapply adds_mono; [|exact Ha]. by intros []. }
  set (rel := env_release env (hist w2) DetachedCtx (ResID r) (ResToken r)).
  destruct rel as [err|] eqn:Hrel; [rewrite exec_ret|xwrite; rewrite exec_ret];
    (split; [eapply adds_trans; [exact Hsil|by apply adds_emit]|]); (split; [done|]);
    exists (hist w2), rel; rewrite Hrel; (split; [done|]); (split; [done|]); (split; [done|]).
  - cbn [mem emit]. rewrite Hm. unfold stranded, inserted. simpl.
    rewrite lookup_insert_eq. split; [done|set_solver].
  - cbn [mem emit set_mem]. rewrite Hm. unfold withdraw_row, inserted. simpl.
    rewrite lookup_insert_eq. simpl. rewrite String.eqb_refl. simpl. split; [|split].
    + by rewrite delete_insert_id.
    + set_solver.
    + by rewrite lookup_delete_eq.
Qed.

(** The create path up to the stranded claim of the key. *)
Lemma exec_create_stranded pod c w :
  served pod -> stranded pod c (mem w) -> keyOf pod ∉ quarantined (mem w) ->
  exec env (CreatePod cfg pod) w =
  match env_release env (hist w) DetachedCtx (ID c) (Token c) with
  | Some err => (Some (ErrStranded (keyOf pod) (ID c) err),
                 emit 0 (EvRelease DetachedCtx (ID c) (Token c) (Some err)) w)
  | None => exec env (claim_phase pod)
              (set_mem (withdraw_row (keyOf pod) (ID c) (mem w))
                 (emit 0 (EvRelease DetachedCtx (ID c) (Token c) None) w))
  end.
Proof.
  intros Hrt [Hc Ht] Hq. unfold CreatePod. cbv zeta. rewrite served_runtime by done. cbn [negb].
  change (podKey _ _) with (keyOf pod).
  assert (Hs : settled (mem w) (keyOf pod) = false).
  { destruct (settled (mem w) (keyOf pod)) eqn:E; [|done]. by apply settled_true in E as []. }
  rewrite exec_check, exec_resolve_settled by done. cbn [fst snd].
  rewrite exec_check, exec_settle_none by auto. cbn [fst snd].
  unfold adoptExistingClaim. rewrite exec_locked. unfold adopt_row. rewrite Hc, Hs. cbn [negb fst snd].
  replace (set_mem (mem w) w) with w by by destruct w.
  rewrite exec_check. unfold clearStrandedClaim, releaseDetached, withdrawClaim.
  xread. rewrite Hc, bool_decide_true by done. xact.
  by destruct (env_release env (hist w) DetachedCtx (ID c) (Token c)).
Qed.

(** C13: A stranded sandbox is returned before its key is used again.  A create on
    a key with a stranded row first releases that row's credential: if sandboxd
    refuses, the create fails, claims nothing and keeps the row; if it accepts,
    the row is withdrawn and only then a new sandbox is claimed. *)
Theorem stranded_returned_first pod c ttl r w :
  served pod -> stranded pod c (mem w) -> keyOf pod ∉ quarantined (mem w) ->
  disk_works env -> claimable pod ttl ->
  (forall h, env_claim env h (claim_spec pod ttl) = inl r) ->
  let rel := env_release env (hist w) DetachedCtx (ID c) (Token c) in
  let h := hist w ++ [(0, EvRelease DetachedCtx (ID c) (Token c) rel)] in
  let '(e, w') := exec env (CreatePod cfg pod) w in
  match rel with
  | Some err => e = Some (ErrStranded (keyOf pod) (ID c) err) /\ mem w' = mem w /\ hist w' = h
  | None => e = None /\ settled (mem w') (keyOf pod) = true /\
      (h ++ [(0, EvClaim (claim_spec pod ttl) (inl r))]) `prefix_of` hist w' /\
      exists c', claims (mem w') = <[keyOf pod := c']> (claims (mem w)) /\
        (ID c', Token c') = (ResID r, ResToken r)
  end.
Proof.
  intros Hrt Hst Hq Hd Hcl Hr rel h. rewrite (exec_create_stranded pod c) by done. fold rel.
  destruct rel as [err|] eqn:Hrel; [done|]. set (w1 := set_mem _ _).
  pose proof (exec_claim_saved pod ttl r w1 Hd Hcl (Hr _)) as H.
  destruct (exec env (claim_phase pod) w1) as [e w']. destruct H as (-> & Hm & _ & t & _ & Hh).
  split; [done|]. rewrite Hm. split; [apply settled_true; unfold w1; simpl; set_solver|]. split.
  - unfold h. rewrite Hh. unfold inserted. cbn [hist set_mem emit w1].
    rewrite <- !app_assoc. do 2 apply prefix_app. by eexists.
  - exists (new_claim pod ttl r w1). split; [|done]. destruct Hst as [Hc _]. simpl.
    unfold withdraw_row. rewrite Hc, String.eqb_refl. simpl. by rewrite insert_delete_eq.
Qed.

(** ** Pods of another authority *)

(** The credential was granted during [t]. *)
Definition granted_in (t : history) (id tok : string) : Prop :=
  exists spec r, (0, EvClaim spec (inl r)) ∈ t /\ ResID r = id /\ ResToken r = tok.

(** What a create that may not have the key's sandbox does during [t]: it releases
    and publishes only sandboxes granted to it in [t]. *)
Definition own_event (pod : Pod) (t : history) (ev : event) : Prop :=
  match ev with
  | EvRelease _ id tok _ => granted_in t id tok
  | EvNotify out => exists c, granted_in t (ID c) (Token c) /\
      out = with_Status (runningStatus (podWithClaim pod (ID c)) c) (podWithClaim pod (ID c))
  | _ => True
  end.

(** Neither a claim, a release nor a notification. *)
Definition inert (ev : event) : Prop := harmless ev /\ silent ev.

Lemma inert_own pod t t' :
  Forall (fun ie : nat * event => inert ie.2) t' -> Forall (fun ie => own_event pod t ie.2) t'.
Proof. intros H. eapply Forall_impl; [exact H|]. by intros [i []] [? ?]. Qed.

Lemma own_event_app pod t t' ev : own_event pod t' ev -> own_event pod (t ++ t') ev.
Proof.
  assert (Hg : forall id tok, granted_in t' id tok -> granted_in (t ++ t') id tok).
  { intros id tok (spec & r & Hin & H). exists spec, r. split; [|done]. apply elem_of_app. by right. }
  destruct ev; simpl; eauto. intros (c & H & ->). eauto.
Qed.

(** What a claim on an empty key leaves, whatever happens. *)
Definition claim_outcome (pod : Pod) (w : World) (e : option perr) (w' : World) : Prop :=
  exists t, hist w' = hist w ++ t /\ Forall (fun ie => own_event pod t ie.2) t /\
    releasing (mem w') = releasing (mem w) /\
    match claims (mem w') !! keyOf pod with
    | None => e <> None
    | Some c' => granted_in t (ID c') (Token c')
    end.

Lemma claim_failed pod w e w' t :
  claims (mem w) !! keyOf pod = None -> mem w' = mem w -> hist w' = hist w ++ t ->
  Forall (fun ie => own_event pod t ie.2) t -> claim_outcome pod w (Some e) w'.
Proof. intros Hn Hm Hh Ht. exists t. rewrite Hm, Hn. by repeat split. Qed.

(** The events of a granted claim up to its save, and those that follow. *)
Lemma granted_own pod ttl r w td t' :
  Forall (fun ie : nat * event => disk_event ie.2) td ->
  let c := new_claim pod ttl r w in
  let t0 := [(0, EvClaim (claim_spec pod ttl) (inl r)); (0, EvNow (claim_now pod ttl r w))] ++ td in
  granted_in (t0 ++ t') (ID c) (Token c) /\
  (Forall (fun ie => own_event pod (t0 ++ t') ie.2) t' -> Forall (fun ie => own_event pod (t0 ++ t') ie.2) (t0 ++ t')).
Proof.
  intros Hdisk c t0. split.
  - exists (claim_spec pod ttl), r. split; [|done]. unfold t0. set_solver.
  - intros Ht'. apply Forall_app. split; [|done]. unfold t0 at 2. do 2 (constructor; [done|]).
    eapply Forall_impl; [exact Hdisk|]. by intros [i []].
Qed.

Lemma exec_claim_own_granted pod ttl r w :
  claimable pod ttl -> env_claim env (hist w) (claim_spec pod ttl) = inl r ->
  let '(e, w') := exec env (claim_phase pod) w in claim_outcome pod w e w'.
Proof.
  intros Hcl Hr. rewrite (exec_claim_granted pod ttl r w) by done.
  pose proof (exec_commitClaim cfg env (keyOf pod) (inserted pod ttl r w)) as Hcm.
  destruct (exec env (commitClaim _ _) _) as [e w2]. destruct Hcm as (Hm & (td & Hh & Hdisk) & _).
  pose proof (fun t' => granted_own pod ttl r w td t' Hdisk) as Hown. cbv zeta in Hown.
  set (c := new_claim pod ttl r w) in *. set (t0 := [_; _] ++ td) in *.
  assert (Hh2 : hist w2 = hist w ++ t0).
  { rewrite Hh. unfold inserted, t0. cbn [hist set_mem emit]. by rewrite <- !app_assoc. }
  assert (Hrow : claims (mem w2) !! keyOf pod = Some c).
  { destruct e; rewrite Hm; simpl; by rewrite lookup_insert_eq. }
  assert (Hrel : releasing (mem w2) = releasing (mem w)) by (by destruct e; rewrite Hm).
  assert (Hend : forall ev e' w', hist w' = hist w2 ++ [(0, ev)] -> releasing (mem w') = releasing (mem w2) ->
    own_event pod (t0 ++ [(0, ev)]) ev ->
    match claims (mem w') !! keyOf pod with None => e' <> None | Some c' => c' = c end ->
    claim_outcome pod w e' w').
  { intros ev e' w' Hh' Hr' Hev Hc'. exists (t0 ++ [(0, ev)]). destruct (Hown [(0, ev)]) as [Hg Ht].
    split; [by rewrite Hh', Hh2, <- app_assoc|]. split; [apply Ht; by constructor|].
    split; [congruence|]. destruct (claims (mem w') !! keyOf pod); [by subst|done]. }
  destruct e as [err|].
  - unfold undoUnpersistedClaim, releaseDetached, withdrawClaim. xact.
    destruct (env_release env (hist w2) DetachedCtx (ID c) (Token c)) as [e|];
      [rewrite exec_ret|xwrite; rewrite exec_ret]; (eapply Hend; [reflexivity| |apply Hown|]);
      cbn [mem emit set_mem]; unfold withdraw_row; rewrite ?Hrow, ?String.eqb_refl; simpl; try done.
    by rewrite lookup_delete_eq.
  - rewrite exec_pushRunning. cbn [snd]. destruct (notifier (mem w2)).
    + eapply Hend; [reflexivity|done|exists c; split; [apply Hown|done]|]. cbn [mem emit]. by rewrite Hrow.
    + destruct (Hown []) as [Hg Ht]. rewrite app_nil_r in Hg, Ht. exists t0. rewrite Hrow.
      split; [done|]. split; [by apply Ht|]. by split.
Qed.

Lemma exec_claim_own pod w :
  claims (mem w) !! keyOf pod = None ->
  let '(e, w') := exec env (claim_phase pod) w in claim_outcome pod w e w'.
Proof.
  intros Hn. destruct (claim_ttl pod) as [ttl|] eqn:Httl.
  2:{ unfold claim_phase. rewrite Httl, exec_ret. by apply (claim_failed _ _ _ _ []); rewrite ?app_nil_r. }
  destruct (String.eqb_spec (Template (claim_spec pod ttl)) "") as [Ht|Ht].
  { unfold claim_phase. rewrite Httl. cbv zeta. rewrite Ht, String.eqb_refl, exec_ret.
    by apply (claim_failed _ _ _ _ []); rewrite ?app_nil_r. }
  destruct (env_claim env (hist w) (claim_spec pod ttl)) as [r|err] eqn:Hr.
  { by apply (exec_claim_own_granted pod ttl r). }
  unfold claim_phase. rewrite Httl. cbv zeta. destruct (String.eqb_spec (Template (claim_spec pod ttl)) ""); [done|].
  xact. rewrite Hr, exec_ret.
  apply (claim_failed _ _ _ _ [(0, EvClaim (claim_spec pod ttl) (inr err))]); [done..|]. by constructor.
Qed.

(** The node does not vouch for [c] after its lease: there is no lister, or a listing
    of [t] does not have it. *)
Definition unvouched (t : history) (c : Claim) : Prop :=
  HasLister cfg = false \/ exists listed, (0, EvSandboxes (inl listed)) ∈ t /\ ID c ∉ SumID <$> listed.

(** The part of [CreatePod] from the adoption on. *)
Definition bind_phase (pod : Pod) : M (option perr) :=
  adopted ← adoptExistingClaim (keyOf pod) pod;
  match adopted with
  | Some c => _ ← saveState cfg; _ ← pushRunning pod c; mret None
  | None => check_err (clearStrandedClaim (keyOf pod)) (claim_phase pod)
  end.

Lemma exec_bind_empty pod w :
  claims (mem w) !! keyOf pod = None -> exec env (bind_phase pod) w = exec env (claim_phase pod) w.
Proof.
  intros Hn. unfold bind_phase, adoptExistingClaim. rewrite exec_locked. unfold adopt_row. rewrite Hn.
  cbn [fst snd]. replace (set_mem (mem w) w) with w by by destruct w.
  rewrite exec_check. unfold clearStrandedClaim. xread. by rewrite Hn.
Qed.

Lemma exec_bind_foreign pod c w :
  claims (mem w) !! keyOf pod = Some c -> settled (mem w) (keyOf pod) = true -> ~ same_authority c pod ->
  exec env (bind_phase pod) w =
  exec env (claim_phase pod)
    (set_mem (set_releasing (releasing (mem w) ++ [c])
       (set_claims (delete (keyOf pod) (claims (mem w))) (mem w))) w).
Proof.
  intros Hc Hs Ha%adoptableBy_not_iff. unfold bind_phase, adoptExistingClaim. rewrite exec_locked.
  unfold adopt_row. rewrite Hc, Hs, Ha. cbn [negb fst snd]. rewrite exec_check. unfold clearStrandedClaim.
  xread. cbn [mem set_mem claims set_releasing set_claims]. by rewrite lookup_delete_eq.
Qed.

(** The lease end has no part in it. *)
Lemma other_authority_deadline d c pod : ~ same_authority c pod -> ~ same_authority (with_Deadline d c) pod.
Proof. by rewrite <- !adoptableBy_not_iff. Qed.

Lemma drop_row_gone key c p : claims p !! key = Some c -> claims (drop_row key (ID c) p) !! key = None.
Proof. intros Hc. unfold drop_row. rewrite Hc, String.eqb_refl. simpl. by rewrite lookup_delete_eq. Qed.

(** What is left of a settled row, once its lease has been looked at: an error, the
    row with a lease end, or nothing if its lease is over and the node does not vouch
    for it. *)
Lemma exec_settle_cases key c w :
  claims (mem w) !! key = Some c -> settled (mem w) key = true ->
  exists t w1, hist w1 = hist w ++ t /\ Forall (fun ie : nat * event => inert ie.2) t /\
    ((exists e, exec env (settleExpiredClaim cfg key) w = (Some e, w1) /\ mem w1 = mem w) \/
     (exec env (settleExpiredClaim cfg key) w = (None, w1) /\
      ((exists d, mem w1 = set_claims (<[key := with_Deadline d c]> (claims (mem w))) (mem w)) \/
       (claims (mem w1) !! key = None /\ lease_over c (env_now env (hist w)) /\ unvouched t c)))).
Proof.
  intros Hc Hs. rewrite (exec_settle _ c) by done. unfold settle_result.
  set (now := env_now env (hist w)). set (w1 := emit 0 (EvNow now) w).
  destruct (expired c now) eqn:He; cbn [negb].
  2:{ exists [(0, EvNow now)], w1. split; [done|]. split; [by repeat constructor|]. right. split; [done|].
      left. exists (Deadline c). rewrite with_Deadline_same, insert_id by done. by rewrite set_claims_same. }
  apply expired_iff in He. destruct (HasLister cfg) eqn:Hl; cbn [negb].
  2:{ exists [(0, EvNow now)], (set_mem (drop_row key (ID c) (mem w)) w1). split; [done|].
      split; [by repeat constructor|]. right. split; [done|]. right. split; [by apply drop_row_gone|].
      split; [done|]. by left. }
  destruct (env_list env (hist w1)) as [listed|err].
  2:{ exists [(0, EvNow now); (0, EvSandboxes (inr err))], (emit 0 (EvSandboxes (inr err)) w1).
      split; [cbn [hist emit w1]; by rewrite <- app_assoc|]. split; [by repeat constructor|]. left. by eexists. }
  set (w2 := set_mem _ _). exists [(0, EvNow now); (0, EvSandboxes (inl listed))], w2.
  split; [|split; [by repeat constructor|right; split; [done|]]].
  { unfold w2. cbn [hist set_mem emit w1]. by rewrite <- app_assoc. }
  unfold w2. cbn [mem set_mem]. destruct (find_row listed (ID c)) as [row|] eqn:Hf.
  - left. exists (SumDeadline row). unfold refresh_row. by rewrite Hc, String.eqb_refl.
  - right. split; [by apply drop_row_gone|]. split; [done|]. right. exists listed.
    split; [set_solver|]. by apply find_row_None.
Qed.

(** The create path up to the claim, on a settled row of another authority. *)
Lemma exec_create_foreign pod c w :
  claims (mem w) !! keyOf pod = Some c -> settled (mem w) (keyOf pod) = true -> ~ same_authority c pod ->
  exists t w1, hist w1 = hist w ++ t /\ Forall (fun ie : nat * event => inert ie.2) t /\
    ((exists e, exec env (CreatePod cfg pod) w = (Some e, w1) /\ mem w1 = mem w) \/
     (exec env (CreatePod cfg pod) w = exec env (claim_phase pod) w1 /\
      claims (mem w1) !! keyOf pod = None /\
      ((exists d, with_Deadline d c ∈ releasing (mem w1)) \/
       (lease_over c (env_now env (hist w)) /\ unvouched t c)))).
Proof.
  intros Hc Hs Ha. unfold CreatePod. cbv zeta. change (podKey _ _) with (keyOf pod).
  destruct (String.eqb_spec (ann pod AnnRuntime RuntimeSandboxd) RuntimeSandboxd) as [Hrt|Hrt]; cbn [negb].
  2:{ exists [], w. rewrite app_nil_r. split; [done|]. split; [done|]. left. by eexists. }
  pose proof Hs as [_ Hq]%settled_true. rewrite exec_check, exec_resolve_settled by done. cbn [fst snd].
  rewrite exec_check. destruct (exec_settle_cases (keyOf pod) c w Hc Hs)
    as (t & w1 & Hh & Ht & [(e & -> & Hm)|[-> [[d Hm]|(Hn & Hov & Hu)]]]); cbn [fst snd].
  - exists t, w1. split; [done|]. split; [done|]. left. by exists e.
  - pose proof (exec_bind_foreign pod (with_Deadline d c) w1) as Hb.
    set (w2 := set_mem _ w1) in Hb. exists t, w2. split; [exact Hh|]. split; [done|]. right. split.
    + apply Hb; [|by rewrite Hm|by apply other_authority_deadline]. rewrite Hm. simpl. by rewrite lookup_insert_eq.
    + simpl. rewrite lookup_delete_eq. split; [done|]. left. exists d. set_solver.
  - exists t, w1. split; [done|]. split; [done|]. right. split; [by apply exec_bind_empty|].
    split; [done|]. by right.
Qed.

Lemma exec_create_other pod c d w :
  served pod -> claims (mem w) !! keyOf pod = Some c -> settled (mem w) (keyOf pod) = true ->
  leased w c d -> ~ same_authority c pod ->
  exists w1, exec env (CreatePod cfg pod) w = exec env (claim_phase pod) w1 /\
    adds harmless w w1 /\ disk w1 = disk w /\
    mem w1 = set_releasing (releasing (mem w) ++ [with_Deadline d c])
               (set_claims (delete (keyOf pod) (claims (mem w))) (mem w)).
Proof.
  intros Hrt Hc Hs Hl Ha. unfold CreatePod. cbv zeta. rewrite served_runtime by done. cbn [negb].
  pose proof Hs as [_ Hq]%settled_true. change (podKey _ _) with (keyOf pod).
  rewrite exec_check, exec_resolve_settled by done. cbn [fst snd].
  destruct (exec_settle_leased (keyOf pod) c d w Hc Hs Hl) as (w1 & Hw1 & Ha1 & Hd1 & Hm1).
  rewrite exec_check, Hw1. cbn [fst snd].
  pose proof (exec_bind_foreign pod (with_Deadline d c) w1) as Hb.
  set (w2 := set_mem _ w1) in Hb. exists w2. split; [|split; [exact Ha1|]].
  - apply Hb; [|by rewrite Hm1|by apply other_authority_deadline]. rewrite Hm1. simpl. by rewrite lookup_insert_eq.
  - unfold w2. split; [done|]. cbn [mem set_mem]. rewrite Hm1. simpl. by rewrite delete_insert_eq.
Qed.

(** The successful replacement, in full. *)
Lemma exec_create_replaced pod c d ttl r w :
  claims (mem w) !! keyOf pod = Some c -> settled (mem w) (keyOf pod) = true -> ~ same_authority c pod ->
  served pod -> leased w c d -> disk_works env -> claimable pod ttl ->
  (forall h, env_claim env h (claim_spec pod ttl) = inl r) ->
  let '(e, w') := exec env (CreatePod cfg pod) w in
  e = None /\ settled (mem w') (keyOf pod) = true /\
  releasing (mem w') = releasing (mem w) ++ [with_Deadline d c] /\
  adds (fun ev => match ev with EvRelease _ _ _ _ => False | _ => True end) w w' /\
  exists c', claims (mem w') = <[keyOf pod := c']> (claims (mem w)) /\
    (ID c', Token c') = (ResID r, ResToken r) /\ PodUID c' = UID pod.
Proof.
  intros Hc Hs Ha Hrt Hl Hd Hcl Hr.
  destruct (exec_create_other pod c d w Hrt Hc Hs Hl Ha) as (w1 & -> & Ha1 & _ & Hm1).
  pose proof (exec_claim_saved pod ttl r w1 Hd Hcl (Hr _)) as H.
  destruct (exec env (claim_phase pod) w1) as [e w']. destruct H as (-> & Hm & _ & t & Ft & Hh).
  split; [done|]. rewrite Hm, Hm1. split.
  { apply settled_true in Hs as [_ Hq]. apply settled_true. simpl. set_solver. }
  split; [done|]. split.
  - eapply (adds_trans _ _ w1); [eapply adds_mono; [|exact Ha1]; by intros []|].
    eapply (adds_trans _ _ (inserted pod ttl r w1)); [unfold inserted; add_events|].
    eexists. split; [exact Hh|]. apply Forall_app. split.
    + eapply Forall_impl; [exact Ft|]. by intros [i []].
    + destruct (notifier (mem w1)); by repeat constructor.
  - exists (new_claim pod ttl r w1). split; [|done]. simpl. by rewrite insert_delete_eq.
Qed.

(** C14: A pod of another authority never gets the previous sandbox.  Take a settled
    row and a pod that does not speak for whomever the row answers to
    ([same_authority] fails), with any annotations, disk and answers.  After
    [CreatePod], the key has no row (and the create failed), or its old row (and the
    create failed), or a row whose credential sandboxd granted in this very call;
    only sandboxes granted in this call are released or published; and the old
    credential is still in its row, or in the release queue, or its lease is over
    and the node does not vouch for it.  And when the row is leased, the disk works,
    the runtime and the annotations are valid and sandboxd grants, the create
    succeeds, queues the old row with its credential, releases nothing and binds
    the granted claim to the pod, leaving every other row as it is. *)
Theorem create_replaces pod c w :
  claims (mem w) !! keyOf pod = Some c -> settled (mem w) (keyOf pod) = true -> ~ same_authority c pod ->
  let '(e, w') := exec env (CreatePod cfg pod) w in
  (exists t, hist w' = hist w ++ t /\ Forall (fun ie => own_event pod t ie.2) t /\
     match claims (mem w') !! keyOf pod with
     | None => e <> None
     | Some c' => (c' = c /\ e <> None) \/ granted_in t (ID c') (Token c')
     end /\
     (claims (mem w') !! keyOf pod = Some c \/ (exists d, with_Deadline d c ∈ releasing (mem w')) \/
      (lease_over c (env_now env (hist w)) /\ unvouched t c))) /\
  (forall d ttl r, served pod -> leased w c d -> disk_works env -> claimable pod ttl ->
     (forall h, env_claim env h (claim_spec pod ttl) = inl r) ->
     e = None /\ settled (mem w') (keyOf pod) = true /\
     releasing (mem w') = releasing (mem w) ++ [with_Deadline d c] /\
     adds (fun ev => match ev with EvRelease _ _ _ _ => False | _ => True end) w w' /\
     exists c', claims (mem w') = <[keyOf pod := c']> (claims (mem w)) /\
       (ID c', Token c') = (ResID r, ResToken r) /\ PodUID c' = UID pod).
Proof.
  intros Hc Hs Ha.
  pose proof (fun d ttl r => exec_create_replaced pod c d ttl r w Hc Hs Ha) as Hfull.
  destruct (exec_create_foreign pod c w Hc Hs Ha) as (t & w1 & Hh1 & Ht & [(e & Hw1 & Hm1)|(Hw1 & Hn & Hold)]);
    rewrite Hw1 in *.
  - split; [|exact Hfull]. exists t. split; [done|]. split; [by apply inert_own|]. rewrite Hm1, Hc.
    split; [by left|by left].
  - pose proof (exec_claim_own pod w1 Hn) as Hown.
    destruct (exec env (claim_phase pod) w1) as [e w']. split; [|exact Hfull].
    destruct Hown as (t' & Hh & Ht' & Hrel & Hrow). exists (t ++ t'). rewrite Hh, Hh1, <- app_assoc.
    split; [done|]. split.
    { apply Forall_app. split; [by apply inert_own|]. eapply Forall_impl; [exact Ht'|].
      intros ie. apply own_event_app. }
    assert (Hg : forall id tok, granted_in t' id tok -> granted_in (t ++ t') id tok).
    { intros id tok (spec & r & Hin & H). exists spec, r. split; [|done]. apply elem_of_app. by right. }
    split; [destruct (claims (mem w') !! keyOf pod); [right; by apply Hg|done]|].
    right. rewrite Hrel. destruct Hold as [Hq|[Hov Hu]]; [by left|right]. split; [done|].
    destruct Hu as [Hu|(listed & Hin & Hno)]; [by left|right]. exists listed. split; [set_solver|done].
Qed.

(** C15: No claim is made over a sandbox that may be live.  While sandboxd cannot
    be listed, a create on a key whose row is unverified, or settled but past its
    cached deadline, fails, changes nothing in memory or on disk, and neither
    claims nor releases. *)
Theorem create_refuses_unlistable pod c w :
  served pod -> HasLister cfg = true -> claims (mem w) !! keyOf pod = Some c ->
  keyOf pod ∈ quarantined (mem w) \/
  (settled (mem w) (keyOf pod) = true /\ expired c (env_now env (hist w)) = true) ->
  (forall h, exists err, env_list env h = inr err) ->
  let '(e, w') := exec env (CreatePod cfg pod) w in
  e <> None /\ mem w' = mem w /\ disk w' = disk w /\ adds harmless w w'.
Proof.
  intros Hrt Hl Hc Hcase Hfail. unfold CreatePod. cbv zeta. rewrite served_runtime by done. cbn [negb].
  change (podKey _ _) with (keyOf pod). rewrite exec_check.
  destruct Hcase as [Hq|[Hs He]].
  - unfold resolveUnverifiedClaim. xread. rewrite bool_decide_true by done. cbn [negb].
    rewrite exec_bind, exec_verify. unfold verify_result. rewrite Hl. cbn [negb].
    rewrite decide_False.
    2:{ intros Hu. apply elem_of_dom_2 in Hc. assert (keyOf pod ∈ unverified (mem w)); [|set_solver].
        by apply elem_of_intersection. }
    destruct (Hfail (hist w)) as [err ->]. cbn [fst snd]. rewrite exec_ret. cbn [fst snd].
    split; [done|]. split; [done|]. split; [done|]. add_events.
  - pose proof Hs as [_ Hq]%settled_true. rewrite exec_resolve_settled by done. cbn [fst snd].
    rewrite exec_check, (exec_settle _ c) by done. unfold settle_result. rewrite He, Hl. cbn [negb].
    destruct (Hfail (hist (emit 0 (EvNow (env_now env (hist w))) w))) as [err ->]. cbn [fst snd].
    split; [done|]. split; [done|]. split; [done|]. add_events.
Qed.
End create.
