(* ===== verification/Background.v ===== *)
(** * orphan.go and recheck.go: the background loops

    The audit-only orphan scan, the lease watch, the claim verification loop and
    the owner re-check with its release queue. *)

From S2P Require Import Prelude GoLib Kube Prog State Provider StateFile Persist Ownership Status Create Delete.
From Stdlib Require Import Ascii.
Local Open Scope string_scope.
Local Open Scope list_scope.
Local Open Scope go_scope.

Definition verdictExternal : string := "external".
Definition verdictOrphan : string := "orphan".
Definition verdictStale : string := "stale".

Definition ownerRecheckMaxDelay : duration := (10 * Minute)%Z.

(** The [for] of [runTicker]: [fuel] bounds the waits the model looks at; the
    result tells whether the loop ended (the context is done or the action asked to
    stop). *)
Fixpoint ticker_loop (fuel : nat) (action : M bool) : M bool :=
  match fuel with
  | O => mret false
  | S fuel =>
      tick ← call ASelect;
      if (tick : bool) then
        again ← action;
        if (again : bool) then ticker_loop fuel action else mret true
      else mret true
  end.

(** [time.NewTicker] panics on an interval that is not positive: [None]. *)
Definition runTicker (fuel : nat) (interval : duration) (action : M bool) : M (option bool) :=
  if Z.leb interval 0 then mret None
  else ended ← ticker_loop fuel action; mret (Some ended).

(** ** The orphan scan *)

(** The scan's running result: this scan's verdicts, the ids or keys reported,
    and the lines logged. *)
Record scan := mkScan {
  verdicts : gmap string string;
  reported : list string;
  lines : list (string * string);
}.

(** [recordVerdict]: a verdict is logged when the previous scan had another. *)
Definition recordVerdict (prev : gmap string string) (id verdict : string) (s : scan) : scan :=
  mkScan (<[id := verdict]> (verdicts s)) (reported s)
    (if default "" (prev !! id) =? verdict then lines s else lines s ++ [(id, verdict)]).

Definition report (x : string) (s : scan) : scan :=
  mkScan (verdicts s) (reported s ++ [x]) (lines s).

(** Rows of the listing that neither a claim nor the release queue accounts for. *)
Definition scan_listed (prev : gmap string string) (claimed : gmap string string)
    (queued : gset string) (listed : list SandboxSummary) (acc : scan) : scan :=
  foldl (fun acc s =>
    if bool_decide (SumID s ∈ dom claimed) then acc
    else if bool_decide (SumID s ∈ queued) then acc
    else if ! (SumClaimRef s =? "") then recordVerdict prev (SumID s) verdictExternal acc
    else recordVerdict prev (SumID s) verdictOrphan (report (SumID s) acc)) acc listed.

(** Claims whose sandbox is not listed. *)
Definition scan_claimed (prev : gmap string string) (live : gmap string time)
    (claimed : list (string * string)) (acc : scan) : scan :=
  foldl (fun acc (row : string * string) =>
    match live !! row.1 with
    | Some _ => acc
    | None => recordVerdict prev row.1 verdictStale (report row.2 acc)
    end) acc claimed.

(** [delay = base] at first, then doubling up to the cap, in int64. *)
Definition next_delay (base : duration) (prev : option ownerRecheck) : duration :=
  match prev with
  | None => base
  | Some r => Z.min (wrap64 (2 * delay r)) ownerRecheckMaxDelay
  end.

(** Pod-less settled claims with a recorded owner. *)
Definition preserved_claims (p : Provider) : gmap string Claim :=
  filter (fun kc => Owner kc.2 <> None /\ pods p !! kc.1 = None /\ settled p kc.1 = true)
    (claims p).

(** The locked step of [withdrawForRelease]. *)
Definition queue_row (key : string) (c : Claim) (p : Provider) : bool * Provider :=
  match claims p !! key, pods p !! key with
  | Some cur, None =>
      if ID cur =? ID c
      then (true, set_releasing (releasing p ++ [c]) (set_claims (delete key (claims p)) p))
      else (false, p)
  | _, _ => (false, p)
  end.

Definition withdrawForRelease (key : string) (c : Claim) : M bool := locked (queue_row key c).

Definition release_queued (c : Claim) (released : bool) : M bool :=
  e ← call (ARelease CallerCtx (ID c) (Token c));
  match e with
  | Some _ => mret released
  | None =>
      _ ← write_mu (fun p => set_releasing (filter (fun q => ID q <> ID c) (releasing p)) p);
      mret true
  end.

Definition drainReleases : M bool :=
  queued ← read_mu releasing;
  foldM release_queued queued false.

(** The ownership of a row behind [now.Before(r.at)]. *)
Definition recheck_due (now : time) (seen : option ownerRecheck) : bool :=
  match seen with Some r => ! Before now (at_ r) | None => true end.

(** Rows that may publish an expiry. *)
Definition lease_candidates (now : time) (p : Provider) : gmap string Claim :=
  filter (fun kc => expired kc.2 now = true /\ settled p kc.1 = true /\ pods p !! kc.1 <> None)
    (claims p).

Section background.
Context `{K : KubeLib} (cfg : Config).

Definition OrphanScan : M (list string * list string * bool) :=
  if ! HasLister cfg then mret ([], [], false)
  else
    r ← call ASandboxes;
    match r with
    | inr _ => mret ([], [], false)
    | inl listed =>
        let live := liveDeadlines listed in
        v ← read_mu (fun p => (claims p, list_to_set (C := gset string) (ID <$> releasing p)));
        let '(cs, queued) := v in
        order ← range cs;
        let claimed : gmap string string :=
          foldl (fun m (kc : string * Claim) => <[ID kc.2 := kc.1]> m) ∅ order in
        prev ← read_mu orphanVerdicts;
        let s1 := scan_listed prev claimed queued listed (mkScan ∅ [] []) in
        rows ← range claimed;
        let s2 := scan_claimed prev live rows (mkScan (verdicts s1) [] (lines s1)) in
        _ ← call (ALogVerdicts (lines s2));
        _ ← write_mu (set_orphanVerdicts (verdicts s2));
        mret (reported s1, reported s2, true)
    end.

Definition publish_row (live : gmap string time) (kc : string * Claim) (u : unit) : M unit :=
  let '(key, c) := kc in
  match live !! ID c with
  | Some rowDeadline => refreshDeadline key (ID c) rowDeadline
  | None =>
      v ← read_mu (fun p => (pods p !! key, claims p !! key));
      match v with
      | (Some pod, Some current) =>
          if ID current =? ID c
          then notify (with_Status (expiredStatus pod c) pod)
          else mret tt
      | _ => mret tt
      end
  end.

Definition publishExpiredLeases : M unit :=
  now ← call ANow;
  candidates ← read_mu (lease_candidates now);
  if decide (candidates = ∅) then mret tt
  else if HasLister cfg then
    r ← call ASandboxes;
    match r with
    | inr _ => mret tt
    | inl listed =>
        rows ← range candidates;
        foldM (publish_row (liveDeadlines listed)) rows tt
    end
  else
    rows ← range candidates;
    foldM (publish_row ∅) rows tt.

Definition recheck_row (now : time) (base : duration) (kc : string * Claim) (changed : bool)
  : M bool :=
  let '(key, c) := kc in
  seen ← read_mu (fun p => ownerRechecks p !! key);
  if ! recheck_due now seen then mret changed
  else
    let '(namespace, _, _) := Cut key "/" in
    v ← destroyAuthorized cfg namespace (Owner c);
    match v.1 with
    | authRelease =>
        withdrawn ← withdrawForRelease key c;
        _ ← write_mu (fun p => set_ownerRechecks (delete key (ownerRechecks p)) p);
        mret (if (withdrawn : bool) then true else changed)
    | authPreserve =>
        let d := next_delay base seen in
        _ ← write_mu (fun p =>
              set_ownerRechecks (<[key := mkRecheck (time_Add now d) d]> (ownerRechecks p)) p);
        mret changed
    end.

Definition recheckOwners (now : time) (base : duration) : M unit :=
  preserved ← read_mu preserved_claims;
  _ ← write_mu (fun p =>
        set_ownerRechecks (filter (fun kr => kr.1 ∈ dom preserved) (ownerRechecks p)) p);
  rows ← range preserved;
  changed ← foldM (recheck_row now base) rows false;
  released ← drainReleases;
  if (released || changed)%bool then saveState cfg else mret tt.

Definition RunOrphanScan (fuel : nat) (interval : duration) : M (option bool) :=
  runTicker fuel interval (_ ← OrphanScan; mret true).

Definition RunClaimVerification (fuel : nat) (interval : duration) : M (option bool) :=
  runTicker fuel interval
    (ok ← VerifyClaimsAgainstNode cfg;
     if ! ok then mret true else hasQuarantined).

Definition RunLeaseWatch (fuel : nat) (interval : duration) : M (option bool) :=
  runTicker fuel interval (_ ← publishExpiredLeases; mret true).

Definition RunOwnerRecheck (fuel : nat) (interval : duration) : M (option bool) :=
  runTicker fuel interval (now ← call ANow; _ ← recheckOwners now interval; mret true).
End background.
