(* ===== verification/BackgroundSpec.v ===== *)
(** * What the background loops do

    The verification, the orphan scan, the lease watch and the owner re-check, run
    alone. *)

From S2P Require Import Prelude GoLib Kube Prog State Provider StateFile Persist Runs Ownership Status Create Delete Background DeleteSpec.
Local Open Scope string_scope.
Local Open Scope list_scope.

Section verify.
Context `{K : KubeLib} (cfg : Config) (env : Env).

Lemma judged_listed listed c :
  judged (liveDeadlines listed) c =
  (d ← liveDeadlines listed !! ID c;
   Some (with_Deadline (if (IsZero (Deadline c) && ! IsZero d)%go then d else Deadline c) c)).
Proof.
  unfold judged. destruct (liveDeadlines listed !! ID c) as [d|]; simpl; [|done].
  destruct (IsZero (Deadline c) && ! IsZero d)%go; [done|]. by destruct c.
Qed.

(** C18: A verification judges exactly the unverified rows, by the node's listing.
    A failed listing is not an empty one: it changes nothing and reports failure.
    A successful one lifts every quarantine: the row of a listed sandbox stays,
    with its own lease end or, when it had none, the listed one, and the row of an
    unlisted sandbox is dropped; a settled row, the pods, the tentative marks and
    the release queue are left alone, whatever order the rows are visited in. *)
Theorem verification_exact w :
  HasLister cfg = true -> unverified (mem w) <> ∅ ->
  let '(ok, w') := exec env (VerifyClaimsAgainstNode cfg) w in
  match env_list env (hist w) with
  | inr _ => ok = false /\ mem w' = mem w
  | inl listed =>
      ok = true /\
      (forall key c, claims (mem w) !! key = Some c -> key ∈ quarantined (mem w) ->
         (key ∉ quarantined (mem w')) /\
         (ID c ∈ SumID <$> listed -> exists d, claims (mem w') !! key = Some (with_Deadline d c) /\
            (Deadline c <> zeroTime -> d = Deadline c) /\
            (Deadline c = zeroTime -> liveDeadlines listed !! ID c = Some d)) /\
         (ID c ∉ SumID <$> listed -> claims (mem w') !! key = None)) /\
      (forall key, key ∉ quarantined (mem w) -> claims (mem w') !! key = claims (mem w) !! key) /\
      pods (mem w') = pods (mem w) /\ tentative (mem w') = tentative (mem w) /\
      releasing (mem w') = releasing (mem w)
  end.
Proof.
  intros Hl Hne. rewrite exec_verify. unfold verify_result. rewrite Hl, decide_False by done.
  cbn [negb]. destruct (env_list env (hist w)) as [listed|e]; [|done].
  split; [done|]. cbn [mem set_mem]. split; [|split; [|done]].
  - intros key c Hk Hq.
    assert (Hu : key ∈ unverified (mem w)).
    { apply elem_of_intersection. split; [done|]. by eapply elem_of_dom_2. }
    assert (Hrow : claims (verified_on (liveDeadlines listed) (unverified (mem w)) (mem w)) !! key
      = judged (liveDeadlines listed) c).
    { simpl. rewrite map_lookup_imap, Hk. simpl. unfold judged_in. by rewrite decide_True. }
    split; [simpl; set_solver|]. rewrite Hrow, judged_listed. split.
    + intros Hin. assert (is_Some (liveDeadlines listed !! ID c)) as [d Hd].
      { apply elem_of_dom. rewrite dom_liveDeadlines. set_solver. }
      rewrite Hd. simpl. eexists. split; [done|]. unfold IsZero, zeroTime. split; intros Hz.
      * apply Z.eqb_neq in Hz. by rewrite Hz.
      * rewrite Hz. simpl. destruct (Z.eqb_spec d 0) as [->|]; [by subst|done].
    + intros Hn%liveDeadlines_None. by rewrite Hn.
  - intros key Hq. simpl. rewrite map_lookup_imap. destruct (claims (mem w) !! key); simpl; [|done].
    unfold judged_in. rewrite decide_False; [done|]. unfold unverified. set_solver.
Qed.

(** How many listings were asked for so far. *)
Definition is_listing (ev : event) : bool :=
  match ev with EvSandboxes _ => true | _ => false end.

Definition listings (h : history) : nat :=
  length (filter (fun ie : nat * event => is_listing ie.2 = true) h).

(** One turn of the verification loop: it ends with no quarantine left, or the
    listing failed and nothing else happened. *)
Lemma verify_turn w :
  HasLister cfg = true -> quarantined (mem w) ⊆ dom (claims (mem w)) ->
  let '(again, w') := exec env (ok ← VerifyClaimsAgainstNode cfg;
                                if (negb ok) then mret true else hasQuarantined) w in
  (again = false /\ quarantined (mem w') = ∅) \/
  (again = true /\ mem w' = mem w /\ listings (hist w') = S (listings (hist w)) /\
   exists e, env_list env (hist w) = inr e).
Proof.
  intros Hl Hq. rewrite exec_bind, exec_verify. unfold verify_result. rewrite Hl. cbn [negb].
  assert (Hun : unverified (mem w) = quarantined (mem w)) by (unfold unverified; set_solver).
  assert (Hend : forall w1, quarantined (mem w1) = ∅ -> exec env hasQuarantined w1 = (false, w1)).
  { intros w1 H1. unfold hasQuarantined. rewrite exec_read, H1. by rewrite size_empty. }
  case_decide as He.
  - cbn [fst snd negb]. rewrite Hend by (by rewrite <- Hun). left. by rewrite <- Hun.
  - destruct (env_list env (hist w)) as [listed|e] eqn:Hlist; cbn [fst snd negb].
    + rewrite Hend; [left; split; [done|]|]; simpl; rewrite Hun; set_solver.
    + rewrite exec_ret. right. split; [done|]. split; [done|]. split; [|by exists e].
      unfold listings. simpl. rewrite filter_app, length_app. simpl. lia.
Qed.

Lemma verification_turns k n w :
  HasLister cfg = true -> quarantined (mem w) ⊆ dom (claims (mem w)) ->
  (forall h, env_tick env h = true) ->
  (forall h, k <= listings h -> exists listed, env_list env h = inl listed) ->
  k <= listings (hist w) + n ->
  let '(ended, w') := exec env (ticker_loop (S n)
    (ok ← VerifyClaimsAgainstNode cfg; if negb ok then mret true else hasQuarantined)) w in
  ended = true /\ quarantined (mem w') = ∅.
Proof.
  intros Hl Hq Htick Hlist. revert w Hq.
  induction n as [|n IH]; intros w Hq Hk; cbn [ticker_loop]; xact; rewrite Htick, exec_bind;
    set (w1 := emit 0 (EvSelect true) w); pose proof (verify_turn w1 Hl Hq) as Hturn;
    assert (Hw1 : listings (hist w1) = listings (hist w))
      by (unfold listings, w1; simpl; rewrite filter_app, length_app; simpl; lia);
    destruct (exec env _ w1) as [again w2]; destruct Hturn as [[-> H]|(-> & Hm & Hn & e & He)];
    cbn [fst snd].
  - by rewrite exec_ret.
  - destruct (Hlist (hist w1)) as [listed Hok]; [lia|]. congruence.
  - by rewrite exec_ret.
  - apply IH; [by rewrite Hm|lia].
Qed.

(** C19: The startup quarantine is lifted as soon as the node can be listed.  If
    the loop's interval is positive (or its ticker panics), sandboxd answers from
    its [k]-th listing on and the loop is not cancelled, [RunClaimVerification] ends
    by itself within [k] failed turns and one more, and no row is left in
    quarantine. *)
Theorem verification_loop_ends k n interval w :
  (0 < interval)%Z -> HasLister cfg = true -> quarantined (mem w) ⊆ dom (claims (mem w)) ->
  (forall h, env_tick env h = true) ->
  (forall h, k <= listings h -> exists listed, env_list env h = inl listed) ->
  k <= listings (hist w) + n ->
  let '(ended, w') := exec env (RunClaimVerification cfg (S n) interval) w in
  ended = Some true /\ quarantined (mem w') = ∅.
Proof.
  intros Hi Hl Hq Htick Hlist Hk. unfold RunClaimVerification, runTicker.
  destruct (Z.leb_spec interval 0); [lia|]. rewrite exec_bind, exec_ret.
  pose proof (verification_turns k n w Hl Hq Htick Hlist Hk) as Ht.
  destruct (exec env (ticker_loop _ _) w) as [ended w']. by destruct Ht as [-> ?].
Qed.
End verify.

(** ** The orphan scan *)

Section scan.
Context (prev : gmap string string).

(** The verdicts a scan records, in the order it records them. *)
Definition recordAll (recs : list (string * string)) (s : scan) : scan :=
  foldl (fun s r => recordVerdict prev r.1 r.2 s) s recs.

Definition listed_verdict (claimed : gmap string string) (queued : gset string) (s : SandboxSummary)
  : option (string * string) :=
  if decide (SumID s ∈ dom claimed \/ SumID s ∈ queued) then None
  else Some (SumID s, if String.eqb (SumClaimRef s) "" then verdictOrphan else verdictExternal).

Definition stale_verdict (live : gmap string time) (row : string * string)
  : option (string * string) :=
  match live !! row.1 with Some _ => None | None => Some (row.1, verdictStale) end.

(** Live, bound to no row, not queued, and made with no claim reference. *)
Definition orphan_row (claimed : gmap string string) (queued : gset string) (s : SandboxSummary)
  : Prop := (SumID s ∉ dom claimed) /\ (SumID s ∉ queued) /\ SumClaimRef s = "".

#[export] Instance orphan_row_dec claimed queued s : Decision (orphan_row claimed queued s).
Proof. unfold orphan_row. apply _. Defined.

Lemma recordAll_app l1 l2 s : recordAll (l1 ++ l2) s = recordAll l2 (recordAll l1 s).
Proof. apply foldl_app. Qed.

Lemma recordAll_lines recs s :
  Forall (fun r => r.2 <> "") recs ->
  lines (recordAll recs s) = lines s ++ filter (fun r => prev !! r.1 <> Some r.2) recs.
Proof.
  revert s. induction recs as [|[id v] recs IH]; intros s Hne; [by rewrite app_nil_r|].
  apply Forall_cons in Hne as [Hv Hne]. simpl in Hv.
  change (recordAll ((id, v) :: recs) s) with (recordAll recs (recordVerdict prev id v s)).
  rewrite (IH _ Hne). rewrite filter_cons. unfold recordVerdict. simpl.
  destruct (String.eqb_spec (default "" (prev !! id)) v) as [He|He].
  - rewrite decide_False; [done|]. destruct (prev !! id); simpl in He; subst; auto.
  - rewrite decide_True; [by rewrite <- app_assoc|]. intros Hp. by rewrite Hp in He.
Qed.

Lemma recordAll_verdicts recs s id :
  NoDup recs.*1 -> (forall r, r ∈ recs -> verdicts s !! r.1 = None) ->
  forall v, verdicts (recordAll recs s) !! id = Some v <->
    (id, v) ∈ recs \/ verdicts s !! id = Some v.
Proof.
  revert s. induction recs as [|[i u] recs IH]; intros s Hnd Hf v; [set_solver|].
  apply NoDup_cons in Hnd as [Hni Hnd].
  change (recordAll ((i, u) :: recs) s) with (recordAll recs (recordVerdict prev i u s)).
  rewrite IH; [|done|].
  - simpl. rewrite elem_of_cons. destruct (decide (i = id)) as [->|Hne].
    + rewrite lookup_insert_eq. pose proof (Hf (id, u) ltac:(set_solver)) as Hnone. simpl in Hnone.
      rewrite Hnone. split; [intros [|[= ->]]; auto|intros [[[= ->]|]|]; auto; done].
    + rewrite lookup_insert_ne by done. split; [intros [|]; auto|intros [[[= -> ->]|]|]; auto; done].
  - intros r Hr. simpl. rewrite lookup_insert_ne; [apply Hf; set_solver|].
    intros ->. apply Hni, list_elem_of_fmap. by exists r.
Qed.

Lemma scan_listed_all claimed queued listed acc :
  let s := scan_listed prev claimed queued listed acc in
  let t := recordAll (omap (listed_verdict claimed queued) listed) acc in
  verdicts s = verdicts t /\ lines s = lines t /\
  reported s = reported acc ++ (SumID <$> filter (orphan_row claimed queued) listed).
Proof.
  induction listed as [|s listed IH] using rev_ind; [by rewrite app_nil_r|].
  destruct IH as (Hv & Hl & Hr). unfold scan_listed in *. rewrite foldl_app, omap_app, recordAll_app.
  rewrite filter_app, fmap_app, app_assoc, <- Hr. cbn [foldl omap list_omap].
  set (a := foldl _ acc listed) in *. unfold listed_verdict. rewrite filter_cons, filter_nil.
  destruct (bool_decide_reflect (SumID s ∈ dom claimed)) as [Hc|Hc].
  { rewrite decide_True by auto. rewrite decide_False by (intros []; done). by rewrite app_nil_r. }
  destruct (bool_decide_reflect (SumID s ∈ queued)) as [Hq|Hq].
  { rewrite decide_True by auto. rewrite decide_False by (intros (_ & ? & _); done). by rewrite app_nil_r. }
  rewrite decide_False by (intros []; done). cbn [recordAll foldl fst snd].
  destruct (String.eqb_spec (SumClaimRef s) "") as [Hr0|Hr0]; cbn [negb].
  - rewrite decide_True by done. unfold recordVerdict. simpl. by rewrite Hv, Hl.
  - rewrite decide_False by (intros (_ & _ & ?); done). unfold recordVerdict. simpl.
    by rewrite Hv, Hl, app_nil_r.
Qed.

Lemma scan_claimed_all live rows acc :
  let s := scan_claimed prev live rows acc in
  let t := recordAll (omap (stale_verdict live) rows) acc in
  verdicts s = verdicts t /\ lines s = lines t /\
  reported s = reported acc ++ (filter (fun row => live !! row.1 = None) rows).*2.
Proof.
  induction rows as [|row rows IH] using rev_ind; [by rewrite app_nil_r|].
  destruct IH as (Hv & Hl & Hr). unfold scan_claimed in *. rewrite foldl_app, omap_app, recordAll_app.
  rewrite filter_app, fmap_app, app_assoc, <- Hr. cbn [foldl omap list_omap].
  set (a := foldl _ acc rows) in *. unfold stale_verdict. rewrite filter_cons, filter_nil.
  destruct (live !! row.1) as [d|] eqn:Hlive.
  - rewrite decide_False by done. by rewrite app_nil_r.
  - rewrite decide_True by done. cbn [recordAll foldl fst snd]. unfold recordVerdict. simpl.
    by rewrite Hv, Hl.
Qed.
End scan.

Section orphan.
Context `{K : KubeLib} (cfg : Config) (env : Env).

Definition unique_ids (cs : gmap string Claim) : Prop :=
  forall k k' c c', cs !! k = Some c -> cs !! k' = Some c' -> ID c = ID c' -> k = k'.

(** A live sandbox the provider does not account for. *)
Definition unaccounted (p : Provider) (s : SandboxSummary) : Prop :=
  (forall key c, claims p !! key = Some c -> ID c <> SumID s) /\
  (forall c, c ∈ releasing p -> ID c <> SumID s).

(** The verdict the scan gives an id, from the table and the listing. *)
Inductive verdict_spec (p : Provider) (listed : list SandboxSummary) (id : string) : string -> Prop :=
| spec_orphan s : s ∈ listed -> SumID s = id -> unaccounted p s -> SumClaimRef s = "" ->
    verdict_spec p listed id verdictOrphan
| spec_external s : s ∈ listed -> SumID s = id -> unaccounted p s -> SumClaimRef s <> "" ->
    verdict_spec p listed id verdictExternal
| spec_stale key c : claims p !! key = Some c -> ID c = id -> id ∉ SumID <$> listed ->
    verdict_spec p listed id verdictStale.

Definition claimed_map (order : list (string * Claim)) : gmap string string :=
  foldl (fun m (kc : string * Claim) => <[ID kc.2 := kc.1]> m) ∅ order.

Lemma claimed_map_Some order id key :
  claimed_map order !! id = Some key -> exists c, (key, c) ∈ order /\ ID c = id.
Proof.
  unfold claimed_map. revert key. induction order as [|[k c] order IH] using rev_ind; intros key; [done|].
  rewrite foldl_app. simpl. intros [[<- <-]|[_ H]]%lookup_insert_Some.
  - exists c. set_solver.
  - destruct (IH key H) as (c' & Hin & Hid). exists c'. set_solver.
Qed.

Lemma claimed_map_dom order k c : (k, c) ∈ order -> ID c ∈ dom (claimed_map order).
Proof.
  unfold claimed_map. induction order as [|[k' c'] order IH] using rev_ind; [set_solver|].
  rewrite foldl_app, elem_of_app. simpl. rewrite dom_insert. set_solver.
Qed.

(** The scan's view of the table it copied. *)
Lemma claimed_map_table p order :
  order ≡ₚ map_to_list (claims p) ->
  (forall id, id ∈ dom (claimed_map order) <-> exists key c, claims p !! key = Some c /\ ID c = id) /\
  (forall id key, claimed_map order !! id = Some key -> exists c, claims p !! key = Some c /\ ID c = id).
Proof.
  intros Hp. assert (Hel : forall k c, (k, c) ∈ order <-> claims p !! k = Some c).
  { intros k c. by rewrite Hp, elem_of_map_to_list. }
  split; [intros id; split|].
  - intros [key Hk]%elem_of_dom. apply claimed_map_Some in Hk as (c & Hin & Hid). naive_solver.
  - intros (key & c & Hk & <-). apply Hel in Hk. by eapply claimed_map_dom.
  - intros id key Hk. apply claimed_map_Some in Hk as (c & Hin & Hid). naive_solver.
Qed.

Lemma orphan_row_unaccounted p order s :
  order ≡ₚ map_to_list (claims p) ->
  orphan_row (claimed_map order) (list_to_set (ID <$> releasing p)) s <->
  unaccounted p s /\ SumClaimRef s = "".
Proof.
  intros Hp. destruct (claimed_map_table p order Hp) as [Hdom _].
  unfold orphan_row, unaccounted. rewrite Hdom, elem_of_list_to_set, list_elem_of_fmap. naive_solver.
Qed.

Lemma listed_verdict_spec p order s id v :
  order ≡ₚ map_to_list (claims p) ->
  listed_verdict (claimed_map order) (list_to_set (ID <$> releasing p)) s = Some (id, v) <->
  SumID s = id /\ unaccounted p s /\
  (SumClaimRef s = "" /\ v = verdictOrphan \/ SumClaimRef s <> "" /\ v = verdictExternal).
Proof.
  intros Hp. destruct (claimed_map_table p order Hp) as [Hdom _].
  unfold listed_verdict, unaccounted.
  case_decide as Hd; rewrite Hdom, elem_of_list_to_set, list_elem_of_fmap in Hd.
  - split; [done|]. intros (<- & [H1 H2] & _). destruct Hd as [(k & c & Hk & Hc)|(c & Hc & Hin)].
    + by destruct (H1 k c).
    + by destruct (H2 c).
  - destruct (String.eqb_spec (SumClaimRef s) ""); split; naive_solver.
Qed.

(** The verdicts of one scan, in order. *)
Definition scan_records (p : Provider) (listed : list SandboxSummary) (order : list (string * Claim))
    (rows : list (string * string)) : list (string * string) :=
  omap (listed_verdict (claimed_map order) (list_to_set (ID <$> releasing p))) listed ++
  omap (stale_verdict (liveDeadlines listed)) rows.

Lemma exec_OrphanScan listed w :
  HasLister cfg = true -> env_list env (hist w) = inl listed ->
  exists order rows, order ≡ₚ map_to_list (claims (mem w)) /\
    rows ≡ₚ map_to_list (claimed_map order) /\
    let s := recordAll (orphanVerdicts (mem w)) (scan_records (mem w) listed order rows) (mkScan ∅ [] []) in
    exec env (OrphanScan cfg) w =
    ((SumID <$> filter (orphan_row (claimed_map order) (list_to_set (ID <$> releasing (mem w)))) listed,
      (filter (fun row => liveDeadlines listed !! row.1 = None) rows).*2, true),
     set_mem (set_orphanVerdicts (verdicts s) (mem w))
       (emit 0 (EvLogVerdicts (lines s)) (emit 0 (EvSandboxes (inl listed)) w))).
Proof.
  intros Hl Hlist. unfold OrphanScan. rewrite Hl. cbn [negb]. xact. rewrite Hlist. cbv zeta. xread.
  set (w1 := emit 0 _ w). cbn [mem emit w1].
  match goal with |- context [exec env (range (claims (mem w)) ≫= ?k) w1] =>
    destruct (exec_range env (claims (mem w)) k w1) as (order & Hp & ->) end.
  fold (claimed_map order). xread. cbn [mem emit w1].
  match goal with |- context [exec env (range (claimed_map order) ≫= ?k) w1] =>
    destruct (exec_range env (claimed_map order) k w1) as (rows & Hp2 & ->) end.
  exists order, rows. split; [done|]. split; [done|]. cbv zeta. xact. xwrite. rewrite exec_ret.
  set (prev := orphanVerdicts (mem w)). set (q := list_to_set (ID <$> releasing (mem w))).
  pose proof (scan_listed_all prev (claimed_map order) q listed (mkScan ∅ [] [])) as (Hv1 & Hl1 & Hr1).
  set (s1 := scan_listed prev _ q listed _) in *.
  pose proof (scan_claimed_all prev (liveDeadlines listed) rows (mkScan (verdicts s1) [] (lines s1)))
    as (Hv2 & Hl2 & Hr2).
  set (s2 := scan_claimed prev _ rows _) in *.
  unfold scan_records. rewrite recordAll_app. rewrite Hr1, Hr2. simpl.
  assert (Hsame : forall recs s s', verdicts s = verdicts s' -> lines s = lines s' ->
    verdicts (recordAll prev recs s) = verdicts (recordAll prev recs s') /\
    lines (recordAll prev recs s) = lines (recordAll prev recs s')).
  { induction recs as [|r recs IH]; intros s s' Hv Hls; [done|]. apply IH; simpl; by rewrite ?Hv, ?Hls. }
  destruct (Hsame (omap (stale_verdict (liveDeadlines listed)) rows) (mkScan (verdicts s1) [] (lines s1))
    (recordAll prev (omap (listed_verdict (claimed_map order) q) listed) (mkScan ∅ [] [])) Hv1 Hl1)
    as [Ha Hb].
  by rewrite Hv2, Hl2, Ha, Hb.
Qed.

(** C20: The orphan scan reports exactly the discrepancies.  Given a listing and a
    table with one row per sandbox, the orphans are the listed sandboxes that no
    row and no queued release accounts for and that nobody else claimed, and the
    stale keys are those whose sandbox is not listed; the table is untouched. *)
Theorem orphan_scan_exact listed w :
  HasLister cfg = true -> env_list env (hist w) = inl listed -> unique_ids (claims (mem w)) ->
  let '((orphans, stale, ok), w') := exec env (OrphanScan cfg) w in
  ok = true /\
  (forall id, id ∈ orphans <->
     exists s, s ∈ listed /\ SumID s = id /\ unaccounted (mem w) s /\ SumClaimRef s = "") /\
  (forall key, key ∈ stale <->
     exists c, claims (mem w) !! key = Some c /\ ID c ∉ SumID <$> listed) /\
  mem w' = set_orphanVerdicts (orphanVerdicts (mem w')) (mem w) /\ disk w' = disk w.
Proof.
  intros Hl Hlist Hu. destruct (exec_OrphanScan listed w Hl Hlist) as (order & rows & Hp & Hp2 & ->).
  destruct (claimed_map_table (mem w) order Hp) as [Hdom Hlook].
  split; [done|]. split; [|split; [|done]].
  - intros id. rewrite list_elem_of_fmap. setoid_rewrite list_elem_of_filter.
    setoid_rewrite (orphan_row_unaccounted (mem w) order _ Hp). naive_solver.
  - intros key. rewrite list_elem_of_fmap. setoid_rewrite list_elem_of_filter. setoid_rewrite Hp2. split.
    + intros ([id k] & -> & Hn & Hin%elem_of_map_to_list). simpl in *.
      destruct (Hlook id k Hin) as (c & Hk & <-). exists c. split; [done|]. by apply liveDeadlines_None.
    + intros (c & Hk & Hn). exists (ID c, key). split; [done|]. simpl.
      split; [by apply liveDeadlines_None|]. apply elem_of_map_to_list.
      assert (is_Some (claimed_map order !! ID c)) as [key' Hk'].
      { apply elem_of_dom, Hdom. eauto. }
      destruct (Hlook _ _ Hk') as (c' & Hc' & Hid). by rewrite (Hu key key' c c').
Qed.

Lemma scan_records_spec p listed order rows id v :
  order ≡ₚ map_to_list (claims p) -> rows ≡ₚ map_to_list (claimed_map order) ->
  (id, v) ∈ scan_records p listed order rows <-> verdict_spec p listed id v.
Proof.
  intros Hp Hp2. destruct (claimed_map_table p order Hp) as [Hdom Hlook].
  unfold scan_records. rewrite elem_of_app, !list_elem_of_omap. split.
  - intros [(s & Hin & Hs)|([i key] & Hin & Hs)].
    + apply (listed_verdict_spec p order s id v Hp) in Hs as (Hid & Hu & [[Hr ->]|[Hr ->]]).
      * by eapply spec_orphan.
      * by eapply spec_external.
    + unfold stale_verdict in Hs. simpl in Hs. destruct (liveDeadlines listed !! i) eqn:Hlive; [done|].
      injection Hs as -> <-. rewrite Hp2 in Hin. apply elem_of_map_to_list, Hlook in Hin as (c & Hk & Hid).
      eapply spec_stale; [done|done|]. by apply liveDeadlines_None.
  - intros [s Hin Hid Hu Hr|s Hin Hid Hu Hr|key c Hk Hid Hn].
    + left. exists s. split; [done|]. apply (listed_verdict_spec p order s); naive_solver.
    + left. exists s. split; [done|]. apply (listed_verdict_spec p order s); naive_solver.
    + right. assert (is_Some (claimed_map order !! id)) as [key' Hk'].
      { apply elem_of_dom, Hdom. eauto. }
      exists (id, key'). split; [rewrite Hp2; by apply elem_of_map_to_list|].
      unfold stale_verdict. simpl. apply liveDeadlines_None in Hn. by rewrite Hn.
Qed.

Lemma omap_fst_sublist {A} (f : A -> option (string * string)) (g : A -> string) l :
  (forall x r, f x = Some r -> r.1 = g x) -> (omap f l).*1 `sublist_of` (g <$> l).
Proof.
  intros Hf. induction l as [|x l IH]; [done|]. simpl. destruct (f x) as [r|] eqn:Hx.
  - simpl. rewrite (Hf x r Hx). by constructor.
  - by constructor.
Qed.

Lemma scan_records_NoDup p listed order rows :
  NoDup (SumID <$> listed) -> rows ≡ₚ map_to_list (claimed_map order) ->
  NoDup (scan_records p listed order rows).*1.
Proof.
  intros Hnd Hp2. unfold scan_records. rewrite fmap_app. apply NoDup_app.
  assert (H1 : forall s r, listed_verdict (claimed_map order) (list_to_set (ID <$> releasing p)) s = Some r ->
    r.1 = SumID s) by (intros s r; unfold listed_verdict; by case_decide; intros; simplify_eq).
  assert (H2 : forall row r, stale_verdict (liveDeadlines listed) row = Some r -> r.1 = row.1)
    by (intros row r; unfold stale_verdict; by case_match; intros; simplify_eq).
  split; [|split].
  - eapply sublist_NoDup; [exact Hnd|]. by apply omap_fst_sublist.
  - intros id Hin Hin2. apply list_elem_of_fmap in Hin2 as (r & -> & Hr).
    apply list_elem_of_omap in Hr as (row & _ & Hs).
    assert (Hl : r.1 ∈ SumID <$> listed).
    { eapply elem_of_sublist; [exact Hin|]. by apply omap_fst_sublist. }
    rewrite (H2 _ _ Hs) in Hl. unfold stale_verdict in Hs.
    destruct (liveDeadlines listed !! row.1) eqn:Hlive; [done|]. by apply liveDeadlines_None in Hlive.
  - eapply sublist_NoDup; [|by apply (omap_fst_sublist _ fst)]. rewrite Hp2. apply NoDup_fst_map_to_list.
Qed.

(** What a scan logs and remembers. *)
Lemma scan_log listed w :
  HasLister cfg = true -> env_list env (hist w) = inl listed -> NoDup (SumID <$> listed) ->
  let w' := (exec env (OrphanScan cfg) w).2 in
  exists ls, hist w' = hist w ++ [(0, EvSandboxes (inl listed)); (0, EvLogVerdicts ls)] /\ NoDup ls.*1 /\
    (forall id v, orphanVerdicts (mem w') !! id = Some v <-> verdict_spec (mem w) listed id v) /\
    (forall id v, (id, v) ∈ ls <->
       orphanVerdicts (mem w') !! id = Some v /\ orphanVerdicts (mem w) !! id <> Some v).
Proof.
  intros Hl Hlist Hnd. destruct (exec_OrphanScan listed w Hl Hlist) as (order & rows & Hp & Hp2 & ->).
  cbv zeta. cbn [snd hist mem set_mem emit orphanVerdicts set_orphanVerdicts].
  set (recs := scan_records (mem w) listed order rows). set (prev := orphanVerdicts (mem w)).
  assert (Hnr : NoDup recs.*1) by by apply scan_records_NoDup.
  assert (Hrec : forall id v, (id, v) ∈ recs <-> verdict_spec (mem w) listed id v)
    by (intros; by apply scan_records_spec).
  assert (Hv : forall id v, verdicts (recordAll prev recs (mkScan ∅ [] [])) !! id = Some v <-> (id, v) ∈ recs).
  { intros id v. rewrite recordAll_verdicts by done. split; [intros [|]; done|auto]. }
  assert (Hne : Forall (fun r => r.2 <> "") recs).
  { apply Forall_forall. intros [id v] Hin. by apply Hrec in Hin as []. }
  eexists. rewrite <- app_assoc. split; [done|]. rewrite recordAll_lines by done. simpl. split.
  { eapply sublist_NoDup; [exact Hnr|]. apply fmap_sublist, sublist_filter. }
  split; [intros id v; by rewrite Hv|]. intros id v. rewrite Hv, list_elem_of_filter. simpl. tauto.
Qed.

Lemma scan_keeps_table listed w :
  HasLister cfg = true -> env_list env (hist w) = inl listed ->
  let w' := (exec env (OrphanScan cfg) w).2 in
  claims (mem w') = claims (mem w) /\ releasing (mem w') = releasing (mem w).
Proof.
  intros Hl Hlist. by destruct (exec_OrphanScan listed w Hl Hlist) as (order & rows & _ & _ & ->).
Qed.

Lemma verdict_spec_table p p' listed id v :
  claims p' = claims p -> releasing p' = releasing p ->
  verdict_spec p listed id v -> verdict_spec p' listed id v.
Proof.
  intros Hc Hr [s Hin Hid [Hu1 Hu2] Hcr|s Hin Hid [Hu1 Hu2] Hcr|key c Hk Hid Hn].
  - eapply spec_orphan; eauto. split; rewrite ?Hc, ?Hr; eauto.
  - eapply spec_external; eauto. split; rewrite ?Hc, ?Hr; eauto.
  - eapply spec_stale; eauto. by rewrite Hc.
Qed.

(** C21: Each change of verdict is logged once.  A scan logs a line exactly for
    every id whose verdict differs from the previous scan's; and a later scan that
    finds the same listing and the same table logs nothing. *)
Theorem scan_logs_once listed w w1 :
  HasLister cfg = true -> NoDup (SumID <$> listed) ->
  env_list env (hist w) = inl listed -> env_list env (hist w1) = inl listed ->
  let w' := (exec env (OrphanScan cfg) w).2 in
  claims (mem w1) = claims (mem w') -> releasing (mem w1) = releasing (mem w') ->
  orphanVerdicts (mem w1) = orphanVerdicts (mem w') ->
  (exists ls, (0, EvLogVerdicts ls) ∈ hist w' /\ NoDup ls.*1 /\
     forall id v, (id, v) ∈ ls <->
       verdict_spec (mem w) listed id v /\ orphanVerdicts (mem w) !! id <> Some v) /\
  hist (exec env (OrphanScan cfg) w1).2 =
    hist w1 ++ [(0, EvSandboxes (inl listed)); (0, EvLogVerdicts [])].
Proof.
  intros Hl Hnd Hlist Hlist1 w' Hc Hr Hv.
  destruct (scan_keeps_table listed w Hl Hlist) as [Hck Hrk].
  destruct (scan_log listed w Hl Hlist Hnd) as (ls & Hh & Hnl & Hov & Hls).
  destruct (scan_log listed w1 Hl Hlist1 Hnd) as (ls1 & Hh1 & _ & Hov1 & Hls1).
  fold w' in Hck, Hrk, Hh, Hov, Hls. split.
  - exists ls. split; [rewrite Hh; set_solver|]. split; [done|].
    intros id v. by rewrite Hls, Hov.
  - rewrite Hh1. repeat f_equal. apply elem_of_nil_inv. intros [id v] [Hin Hne]%Hls1.
    apply Hne. rewrite Hv, Hov. apply Hov1 in Hin.
    eapply verdict_spec_table; [| |exact Hin]; congruence.
Qed.
End orphan.
