(* ===== verification/LeaseSpec.v ===== *)
(** * What the lease watch publishes

    [publishExpiredLeases] run alone: Failed is published exactly for the pods
    whose lease is past and whose sandbox the node no longer lists. *)

From S2P Require Import Prelude GoLib Kube Prog State Provider StateFile Persist Runs Ownership Status Create Delete Background DeleteSpec.
Local Open Scope string_scope.
Local Open Scope list_scope.

Section lease.
Context `{K : KubeLib} (cfg : Config) (env : Env).

(** The table after the rows of live sandboxes got their listed lease end. *)
Definition refresh_one (live : gmap string time) (p : Provider) (kc : string * Claim) : Provider :=
  match live !! ID kc.2 with Some d => refresh_row kc.1 (ID kc.2) d p | None => p end.

Definition refresh_all (live : gmap string time) (rows : list (string * Claim)) (p : Provider) : Provider :=
  foldl (refresh_one live) p rows.

(** The pod published for a row. *)
Definition expired_pod (p : Provider) (live : gmap string time) (kc : string * Claim) : option Pod :=
  match live !! ID kc.2 with
  | Some _ => None
  | None => pod ← pods p !! kc.1; Some (with_Status (expiredStatus pod kc.2) pod)
  end.

(** The row is still of the claim [c], and has a pod. *)
Definition row_live (p : Provider) (kc : string * Claim) : Prop :=
  (exists cur, claims p !! kc.1 = Some cur /\ ID cur = ID kc.2) /\ is_Some (pods p !! kc.1).

Lemma refresh_one_live live kc p kc' : row_live p kc' -> row_live (refresh_one live p kc) kc'.
Proof.
  intros [(cur & Hc & Hid) Hp]. unfold row_live, refresh_one, refresh_row.
  repeat case_match; simpl; eauto.
  split; [|done]. destruct (decide (kc.1 = kc'.1)) as [He|Hne].
  - rewrite He, lookup_insert_eq. simplify_eq. eexists. split; [done|]. simpl. congruence.
  - rewrite lookup_insert_ne by done. eauto.
Qed.

Lemma refresh_one_frame live kc p :
  pods (refresh_one live p kc) = pods p /\ notifier (refresh_one live p kc) = notifier p /\
  tentative (refresh_one live p kc) = tentative p /\ quarantined (refresh_one live p kc) = quarantined p /\
  releasing (refresh_one live p kc) = releasing p.
Proof. unfold refresh_one, refresh_row. by repeat case_match. Qed.

Lemma exec_publish_row live key c w :
  row_live (mem w) (key, c) ->
  exec env (publish_row live (key, c) tt) w =
  (tt, set_mem (refresh_one live (mem w) (key, c))
         (match expired_pod (mem w) live (key, c) with
          | Some pod => if notifier (mem w) then emit 0 (EvNotify pod) w else w
          | None => w
          end)).
Proof.
  intros [(cur & Hc & Hid) [pod Hp]]. simpl in Hc, Hid, Hp. unfold publish_row, refresh_one, expired_pod, refreshDeadline.
  cbn [fst snd]. destruct (live !! ID c) as [d|] eqn:Hl; [done|].
  xread. rewrite Hp, Hc. cbn [mbind option_bind]. rewrite <- Hid, String.eqb_refl, exec_notify.
  destruct (notifier (mem w)); by destruct w.
Qed.

Lemma exec_publish_rows live rows w :
  (forall kc, kc ∈ rows -> row_live (mem w) kc) ->
  let w' := (exec env (foldM (publish_row live) rows tt) w).2 in
  mem w' = refresh_all live rows (mem w) /\ disk w' = disk w /\
  hist w' = hist w ++ (if notifier (mem w)
                       then (fun pod => (0, EvNotify pod)) <$> omap (expired_pod (mem w) live) rows
                       else []).
Proof.
  revert w. induction rows as [|[key c] rows IH]; intros w Hlive; cbv zeta.
  { simpl. split; [done|]. split; [done|]. by destruct (notifier (mem w)); rewrite app_nil_r. }
  rewrite run_foldM_cons, exec_publish_row by set_solver.
  set (w1 := set_mem _ _).
  assert (Hm1 : mem w1 = refresh_one live (mem w) (key, c)) by done.
  destruct (IH w1) as (Hm & Hd & Hh).
  { intros kc Hin. rewrite Hm1. apply refresh_one_live, Hlive. set_solver. }
  rewrite Hm, Hd, Hh, Hm1. destruct (refresh_one_frame live (key, c) (mem w)) as (Hpods & Hnot & _).
  rewrite Hnot. unfold expired_pod. rewrite Hpods. fold (expired_pod (mem w) live).
  split; [done|]. simpl. unfold w1. split; [by repeat case_match|].
  destruct (expired_pod (mem w) live (key, c)) as [pod|]; destruct (notifier (mem w)); simpl;
    by rewrite ?app_nil_r, <- ?app_assoc.
Qed.

Lemma refresh_all_lookup live rows p k :
  NoDup rows.*1 -> (forall kc, kc ∈ rows -> claims p !! kc.1 = Some kc.2) ->
  claims (refresh_all live rows p) !! k =
  match claims p !! k with
  | Some c => Some (match live !! ID c with
                    | Some d => if decide (k ∈ rows.*1) then with_Deadline d c else c
                    | None => c
                    end)
  | None => None
  end.
Proof.
  unfold refresh_all. revert p. induction rows as [|[key c] rows IH]; intros p Hnd Hin.
  { simpl. destruct (claims p !! k) as [c|]; [|done]. by destruct (live !! ID c). }
  rewrite fmap_cons in Hnd |- *. apply NoDup_cons in Hnd as [Hnk Hnd]. cbn [foldl fst] in *.
  pose proof (Hin (key, c) ltac:(set_solver)) as Hc. cbn [fst snd] in Hc. rewrite IH; [|done|].
  - unfold refresh_one. cbn [fst snd]. destruct (decide (k = key)) as [->|Hne].
    + destruct (live !! ID c) as [d|] eqn:Hl.
      * unfold refresh_row. rewrite Hc, String.eqb_refl. cbn [claims set_claims].
        rewrite lookup_insert_eq. change (ID (with_Deadline d c)) with (ID c).
        rewrite Hl, decide_False by done. by rewrite decide_True by set_solver.
      * by rewrite Hc, Hl.
    + assert (Hsame : claims (match live !! ID c with Some d => refresh_row key (ID c) d p | None => p end)
        !! k = claims p !! k).
      { destruct (live !! ID c); [|done]. unfold refresh_row. rewrite Hc, String.eqb_refl. simpl.
        by rewrite lookup_insert_ne. }
      rewrite Hsame. destruct (claims p !! k) as [c0|]; [|done].
      destruct (live !! ID c0); [|done].
      destruct (decide (k ∈ rows.*1)), (decide (k ∈ key :: rows.*1)); try done; set_solver.
  - intros [k' c'] Hin'. assert (k' <> key).
    { intros ->. apply Hnk, list_elem_of_fmap. by exists (key, c'). }
    unfold refresh_one. simpl. specialize (Hin (k', c') ltac:(set_solver)). simpl in Hin.
    destruct (live !! ID c); [|done]. unfold refresh_row. rewrite Hc, String.eqb_refl. simpl.
    by rewrite lookup_insert_ne.
Qed.

(** A settled row with a pod whose cached lease is past at [now]. *)
Definition overdue (p : Provider) (now : time) (key : string) (pod : Pod) (c : Claim) : Prop :=
  claims p !! key = Some c /\ pods p !! key = Some pod /\ settled p key = true /\ lease_over c now.

Lemma lease_candidates_spec p now key c :
  lease_candidates now p !! key = Some c <-> exists pod, overdue p now key pod c.
Proof.
  unfold lease_candidates, overdue. rewrite map_lookup_filter_Some. simpl. setoid_rewrite expired_iff. split.
  - intros (Hc & He & Hs & Hp). destruct (pods p !! key) as [pod|] eqn:Hpod; [|done]. eauto.
  - intros (pod & Hc & Hp & Hs & He). rewrite Hp. naive_solver.
Qed.

(** The rows the loop goes through, and the run over them. *)
Lemma exec_publish listed w :
  HasLister cfg = true ->
  env_list env (hist w ++ [(0, EvNow (env_now env (hist w)))]) = inl listed ->
  let now := env_now env (hist w) in
  let live := liveDeadlines listed in
  let w' := (exec env (publishExpiredLeases cfg) w).2 in
  exists rows t, rows ≡ₚ map_to_list (lease_candidates now (mem w)) /\
    mem w' = refresh_all live rows (mem w) /\ disk w' = disk w /\
    hist w' = hist w ++ t ++ (if notifier (mem w)
                              then (fun pod => (0, EvNotify pod)) <$> omap (expired_pod (mem w) live) rows
                              else []) /\
    Forall (fun ie : nat * event => match ie.2 with EvNow _ | EvSandboxes _ => True | _ => False end) t.
Proof.
  intros Hl Hlist. cbv zeta. unfold publishExpiredLeases. xact. xread. cbn [mem emit].
  case_decide as He.
  { rewrite exec_ret. exists [], [(0, EvNow (env_now env (hist w)))]. rewrite He.
    split; [by rewrite map_to_list_empty|]. split; [done|]. split; [done|].
    split; [|by repeat constructor]. simpl. by destruct (notifier (mem w)). }
  rewrite Hl. xact. cbn [hist emit]. rewrite Hlist.
  set (w2 := emit 0 (EvSandboxes _) _).
  match goal with |- context [exec env (range ?m ≫= ?k) w2] =>
    destruct (exec_range env m k w2) as (rows & Hp & ->) end.
  destruct (exec_publish_rows (liveDeadlines listed) rows w2) as (Hm & Hd & Hh).
  { intros [key c] Hin. rewrite Hp in Hin. apply elem_of_map_to_list, lease_candidates_spec in Hin
      as (pod & Hc & Hpod & _). split; simpl; eauto. }
  exists rows, [(0, EvNow (env_now env (hist w))); (0, EvSandboxes (inl listed))].
  split; [done|]. split; [done|]. split; [done|]. split; [|by repeat constructor].
  rewrite Hh. cbn [w2 hist emit mem]. by rewrite <- !app_assoc.
Qed.

(** The published pods, and the refreshed table, in terms of the table. *)
Lemma expired_pods_spec p live now rows pod' :
  rows ≡ₚ map_to_list (lease_candidates now p) ->
  pod' ∈ omap (expired_pod p live) rows <->
  exists key pod c, overdue p now key pod c /\ live !! ID c = None /\
    pod' = with_Status (expiredStatus pod c) pod.
Proof.
  intros Hp. rewrite list_elem_of_omap. setoid_rewrite Hp. split.
  - intros ([key c] & Hr & Hx). apply elem_of_map_to_list, lease_candidates_spec in Hr as (pod & Hov).
    unfold expired_pod in Hx. simpl in Hx. destruct (live !! ID c) eqn:Hlive; [done|].
    pose proof Hov as (_ & Hpod & _). rewrite Hpod in Hx. simplify_eq/=. eauto 10.
  - intros (key & pod & c & Hov & Hn & ->). exists (key, c). split.
    + apply elem_of_map_to_list, lease_candidates_spec. eauto.
    + unfold expired_pod. simpl. rewrite Hn. by destruct Hov as (_ & -> & _).
Qed.

Lemma refreshed_lookup p live now rows k :
  rows ≡ₚ map_to_list (lease_candidates now p) ->
  claims (refresh_all live rows p) !! k =
  match claims p !! k with
  | Some c => Some (match live !! ID c, lease_candidates now p !! k with
                    | Some d, Some _ => with_Deadline d c
                    | _, _ => c
                    end)
  | None => None
  end.
Proof.
  intros Hp. rewrite refresh_all_lookup.
  - destruct (claims p !! k) as [c|] eqn:Hc; [|done]. do 2 f_equal. destruct (live !! ID c); [|done].
    assert (Hin : k ∈ rows.*1 <-> is_Some (lease_candidates now p !! k)).
    { rewrite Hp, list_elem_of_fmap. split.
      - intros ([k' c'] & -> & Hin%elem_of_map_to_list). eauto.
      - intros [c' Hc'%elem_of_map_to_list]. by exists (k, c'). }
    case_decide as Hd; rewrite Hin in Hd; destruct (lease_candidates now p !! k); try done; by destruct Hd.
  - rewrite Hp. apply NoDup_fst_map_to_list.
  - intros [k' c'] Hin. rewrite Hp in Hin. by apply elem_of_map_to_list, lease_candidates_spec in Hin as (? & ? & _).
Qed.

(** C22: Failed is published only on the node's word.  When sandboxd can be
    listed, a tick publishes the expired status exactly for the pods whose settled
    row is past its deadline and whose sandbox is not listed; a row whose sandbox
    is still listed gets the listed lease end instead; nothing else changes.  When
    the listing fails, the tick publishes and changes nothing. *)
Theorem lease_watch_exact w :
  HasLister cfg = true ->
  let now := env_now env (hist w) in
  let w' := (exec env (publishExpiredLeases cfg) w).2 in
  match env_list env (hist w ++ [(0, EvNow now)]) with
  | inr _ => mem w' = mem w /\ forall pod, (0, EvNotify pod) ∈ hist w' -> (0, EvNotify pod) ∈ hist w
  | inl listed =>
      (forall pod', (0, EvNotify pod') ∈ hist w' -> (0, EvNotify pod') ∈ hist w \/
         exists key pod c, overdue (mem w) now key pod c /\ (ID c ∉ SumID <$> listed) /\
           pod' = with_Status (expiredStatus pod c) pod) /\
      (notifier (mem w) = true -> forall key pod c,
         overdue (mem w) now key pod c -> ID c ∉ SumID <$> listed ->
         (0, EvNotify (with_Status (expiredStatus pod c) pod)) ∈ hist w') /\
      (forall key pod c d, overdue (mem w) now key pod c -> liveDeadlines listed !! ID c = Some d ->
         claims (mem w') !! key = Some (with_Deadline d c)) /\
      (forall key c, claims (mem w) !! key = Some c ->
         (forall pod, ~ overdue (mem w) now key pod c) \/ ID c ∉ SumID <$> listed ->
         claims (mem w') !! key = Some c) /\
      dom (claims (mem w')) = dom (claims (mem w))
  end.
Proof.
  intros Hl. cbv zeta. set (now := env_now env (hist w)).
  destruct (env_list env (hist w ++ [(0, EvNow now)])) as [listed|err] eqn:Hlist.
  - destruct (exec_publish listed w Hl Hlist) as (rows & t & Hp & Hm & _ & Hh & Ft). fold now in Hp.
    pose proof (fun k => refreshed_lookup (mem w) (liveDeadlines listed) now rows k Hp) as Hlook.
    rewrite <- Hm in Hlook. split; [|split; [|split; [|split]]].
    + intros pod' Hin. rewrite Hh in Hin. apply elem_of_app in Hin as [|[Hin|Hin]%elem_of_app]; [by left| |].
      { rewrite Forall_forall in Ft. by apply Ft in Hin. }
      right. destruct (notifier (mem w)); [|by apply elem_of_nil in Hin].
      apply list_elem_of_fmap in Hin as (pod1 & [= ->] & Hin).
      apply (expired_pods_spec (mem w) _ now) in Hin as (key & pod & c & Hov & Hn & ->); [|done].
      exists key, pod, c. split; [done|]. split; [|done]. by apply liveDeadlines_None.
    + intros Hn key pod c Hov Hni. rewrite Hh, Hn. apply elem_of_app. right. apply elem_of_app. right.
      apply list_elem_of_fmap. eexists. split; [done|]. apply (expired_pods_spec (mem w) _ now); [done|].
      apply liveDeadlines_None in Hni. eauto 10.
    + intros key pod c d Hov Hd. rewrite Hlook. pose proof Hov as (-> & _). rewrite Hd.
      assert (lease_candidates now (mem w) !! key = Some c) as -> by (apply lease_candidates_spec; eauto). done.
    + intros key c Hc Hno. rewrite Hlook, Hc. destruct (liveDeadlines listed !! ID c) as [d|] eqn:Hd; [|done].
      destruct Hno as [Hno|Hno]; [|apply liveDeadlines_None in Hno; congruence].
      destruct (lease_candidates now (mem w) !! key) as [c'|] eqn:Hcand; [|done].
      apply lease_candidates_spec in Hcand as (pod & Hov). destruct (Hno pod).
      pose proof Hov as (Hc' & _). by simplify_eq.
    + apply set_eq. intros k. rewrite !elem_of_dom, Hlook. by destruct (claims (mem w) !! k).
  - unfold publishExpiredLeases. xact. xread. cbn [mem emit]. fold now. case_decide.
    { rewrite exec_ret. split; [done|]. simpl. set_solver. }
    rewrite Hl. xact. cbn [hist emit]. fold now. rewrite Hlist, exec_ret.
    split; [done|]. simpl. set_solver.
Qed.
End lease.
