(* ===== verification/RecheckSpec.v ===== *)
(** * What the owner re-check does

    The back-off of a preserved claim, the release queue and its drain, and a whole
    turn of [recheckOwners], run alone. *)

From S2P Require Import Prelude GoLib Kube Prog State Provider StateFile Persist Runs Ownership Status Create Delete Background DeleteSpec.
From Stdlib Require Import Ascii.
Local Open Scope string_scope.
Local Open Scope list_scope.

Section recheck.
Context `{K : KubeLib} (cfg : Config) (env : Env).

(** ** One row *)

(** The verdict on a preserved row's owner. *)
Definition row_verdict (kc : string * Claim) (w : World) : authVerdict :=
  (exec env (destroyAuthorized cfg (Cut kc.1 "/").1.1 (Owner kc.2)) w).1.1.

(** The memory after one row: not due, preserved with a longer delay, or queued. *)
Definition recheck_mem (now : time) (base : duration) (kc : string * Claim) (v : authVerdict)
    (p : Provider) : Provider :=
  if recheck_due now (ownerRechecks p !! kc.1) then
    match v with
    | authRelease => set_ownerRechecks (delete kc.1 (ownerRechecks p)) (queue_row kc.1 kc.2 p).2
    | authPreserve =>
        let d := next_delay base (ownerRechecks p !! kc.1) in
        set_ownerRechecks (<[kc.1 := mkRecheck (time_Add now d) d]> (ownerRechecks p)) p
    end
  else p.

Lemma queue_row_rechecks key c p : ownerRechecks (queue_row key c p).2 = ownerRechecks p.
Proof. unfold queue_row. by repeat case_match. Qed.

Lemma exec_recheck_row now base kc changed w :
  let '(b, w') := exec env (recheck_row cfg now base kc changed) w in
  mem w' = recheck_mem now base kc (row_verdict kc w) (mem w) /\ disk w' = disk w /\
  adds owner_query w w' /\
  b = (if recheck_due now (ownerRechecks (mem w) !! kc.1)
       then match row_verdict kc w with
            | authRelease => if (queue_row kc.1 kc.2 (mem w)).1 then true else changed
            | authPreserve => changed
            end
       else changed).
Proof.
  destruct kc as [key c]. unfold recheck_row, recheck_mem, row_verdict. cbn [fst snd]. xread.
  destruct (recheck_due _ _); cbn [negb]; [|by rewrite exec_ret; repeat split; apply adds_refl].
  destruct (Cut key "/") as [[ns x] y]. cbn [fst]. rewrite exec_bind.
  destruct (exec_destroyAuthorized cfg env ns (Owner c) w) as (Hm & Hd & _ & Ha).
  destruct (exec env (destroyAuthorized cfg ns (Owner c)) w) as [[v reason] w1]. cbn [fst snd] in *.
  destruct v.
  - xwrite. rewrite exec_ret. cbn [mem set_mem disk]. rewrite Hm. repeat split; [done|].
    exact Ha.
  - unfold withdrawForRelease. rewrite exec_locked. xwrite. rewrite exec_ret. cbn [mem set_mem disk].
    rewrite Hm, queue_row_rechecks. repeat split; [done|exact Ha].
Qed.

(** A due row asks one question, if its owner's resource can be named. *)
Lemma recheck_row_asks now base key c changed w ref gvr :
  recheck_due now (ownerRechecks (mem w) !! key) = true ->
  Owner c = Some ref -> HasDynamic cfg = true ->
  ownerGVR (APIVersion ref) (Kind ref) = Some gvr ->
  exists r, hist (exec env (recheck_row cfg now base (key, c) changed) w).2 =
    hist w ++ [(0, EvGetOwner gvr (Cut key "/").1.1 (OwnerName ref) r)].
Proof.
  intros Hd Ho Hdyn Hg. unfold recheck_row. xread. rewrite Hd. cbn [negb].
  destruct (Cut key "/") as [[ns x] y]. cbn [fst]. rewrite exec_bind. unfold destroyAuthorized.
  rewrite Ho, Hdyn, Hg. cbn [negb]. xact. eexists. rewrite exec_ret. cbn [fst snd].
  destruct (judge_owner _ _) as [[] reason]; cbn [fst].
  - xwrite. by rewrite exec_ret.
  - unfold withdrawForRelease. rewrite exec_locked. xwrite. by rewrite exec_ret.
Qed.

(** The delay after [n] earlier questions in a row. *)
Definition backoff (base : duration) (n : nat) : duration :=
  Z.min (base * 2 ^ Z.of_nat n) ownerRecheckMaxDelay.

(** The owner was asked [n] times and kept its claim. *)
Definition asked (base : duration) (n : nat) (seen : option ownerRecheck) : Prop :=
  match n, seen with
  | O, None => True
  | S m, Some r => delay r = backoff base m
  | _, _ => False
  end.

Lemma next_delay_backoff base n seen :
  (0 < base <= ownerRecheckMaxDelay)%Z -> asked base n seen ->
  next_delay base seen = backoff base n.
Proof.
  intros Hb Ha. unfold next_delay, backoff. destruct n as [|n], seen as [r|]; simpl in Ha; try done.
  - rewrite Z.pow_0_r. lia.
  - rewrite Ha. unfold backoff. rewrite Nat2Z.inj_succ, Z.pow_succ_r by lia.
    assert (0 < base * 2 ^ Z.of_nat n)%Z by (apply Z.mul_pos_pos; [lia|by apply Z.pow_pos_nonneg; lia]).
    assert (Hmax : ownerRecheckMaxDelay = 600000000000%Z) by reflexivity.
    rewrite wrap64_id; [|unfold int64_min, int64_max; lia]. lia.
Qed.

Lemma backoff_bounds base n :
  (0 < base <= ownerRecheckMaxDelay)%Z -> (0 < backoff base n <= ownerRecheckMaxDelay)%Z.
Proof.
  intros Hb. unfold backoff. assert (0 < base * 2 ^ Z.of_nat n)%Z; [|lia].
  apply Z.mul_pos_pos; [lia|]. apply Z.pow_pos_nonneg; lia.
Qed.

(** The next question about a key is not before [t]. *)
Definition waits (p : Provider) (key : string) (t : time) : Prop :=
  exists r, ownerRechecks p !! key = Some r /\ at_ r = t.

Lemma recheck_due_iff now seen :
  recheck_due now seen = true <-> forall r, seen = Some r -> (at_ r <= now)%Z.
Proof.
  unfold recheck_due, Before. destruct seen as [r|]; [|by split].
  rewrite negb_true_iff, Z.ltb_ge. split; [by intros H ? [= <-]|by intros H; apply H].
Qed.

(** C23: The re-check backs off without overflow.  Before the time noted for a row,
    a turn does nothing with it: nothing is asked and the world is exactly as it
    was.  From that time on (or if nothing is noted), while the owner keeps the
    claim, the question after [n] others is noted to be asked again [base * 2^n]
    later, at most ten minutes; all that was asked of the outside is about the
    owner, one query if the owner's resource can be named; and the claims, the
    pods, the release queue and the disk are untouched. *)
Theorem recheck_backs_off now base n key c changed w :
  (0 < base <= ownerRecheckMaxDelay)%Z -> asked base n (ownerRechecks (mem w) !! key) ->
  (forall t, waits (mem w) key t -> (now < t)%Z ->
     exec env (recheck_row cfg now base (key, c) changed) w = (changed, w)) /\
  ((forall t, waits (mem w) key t -> (t <= now)%Z) -> row_verdict (key, c) w = authPreserve ->
     let '(b, w') := exec env (recheck_row cfg now base (key, c) changed) w in
     b = changed /\ disk w' = disk w /\
     mem w' = set_ownerRechecks (<[key := mkRecheck (now + backoff base n)%Z (backoff base n)]>
                (ownerRechecks (mem w))) (mem w) /\
     asked base (S n) (ownerRechecks (mem w') !! key) /\
     (0 < backoff base n <= ownerRecheckMaxDelay)%Z /\
     adds owner_query w w' /\
     (forall ref gvr, Owner c = Some ref -> HasDynamic cfg = true ->
        ownerGVR (APIVersion ref) (Kind ref) = Some gvr ->
        exists r, hist w' = hist w ++ [(0, EvGetOwner gvr (Cut key "/").1.1 (OwnerName ref) r)])).
Proof.
  intros Hb Ha. split.
  { intros t (r & Hr & <-) Hlt. unfold recheck_row. xread. rewrite Hr. unfold recheck_due, Before.
    by rewrite (proj2 (Z.ltb_lt _ _) Hlt). }
  intros Hdue Hv.
  assert (Hd : recheck_due now (ownerRechecks (mem w) !! key) = true).
  { apply recheck_due_iff. intros r Hr. apply Hdue. by exists r. }
  pose proof (exec_recheck_row now base (key, c) changed w) as H.
  pose proof (recheck_row_asks now base key c changed w) as Hask.
  destruct (exec env (recheck_row cfg now base (key, c) changed) w) as [b w'].
  destruct H as (Hm & Hdk & Had & Hres). unfold recheck_mem in Hm. cbn [fst] in Hm, Hres.
  rewrite Hd, Hv in Hm. rewrite Hd, Hv in Hres. rewrite (next_delay_backoff base n _ Hb Ha) in Hm.
  split; [done|]. split; [done|]. split; [exact Hm|]. rewrite Hm. cbn [ownerRechecks set_ownerRechecks].
  rewrite lookup_insert_eq. split; [done|]. split; [by apply backoff_bounds|]. split; [done|].
  intros ref gvr Ho Hdyn Hg. by apply Hask.
Qed.

(** ** The drain *)

(** The drain asks about the claims [l] in order, with the answers [rs]. *)
Definition release_events (l : list Claim) (rs : list (option gerr)) : history :=
  zip_with (fun c r => (0, EvRelease CallerCtx (ID c) (Token c) r)) l rs.

(** [rs] are sandboxd's answers, each at the moment its question is asked. *)
Definition answered (h : history) (l : list Claim) (rs : list (option gerr)) : Prop :=
  length rs = length l /\
  forall j c, l !! j = Some c ->
    rs !! j = Some (env_release env (h ++ take j (release_events l rs)) CallerCtx (ID c) (Token c)).

(** The ids sandboxd accepted. *)
Definition accepted (l : list Claim) (rs : list (option gerr)) : list string :=
  ID <$> (filter (fun cr => cr.2 = None) (zip l rs)).*1.

Lemma answered_cons h c l r rs :
  r = env_release env h CallerCtx (ID c) (Token c) ->
  answered (h ++ [(0, EvRelease CallerCtx (ID c) (Token c) r)]) l rs -> answered h (c :: l) (r :: rs).
Proof.
  intros -> [Hlen Hans]. split; [by rewrite !length_cons, Hlen|]. intros [|j] c' Hj.
  - simpl in Hj. simplify_eq. simpl. by rewrite app_nil_r.
  - apply Hans in Hj. etransitivity; [exact Hj|].
    unfold release_events. cbn [zip_with take]. by rewrite <- app_assoc.
Qed.

Lemma exec_drain l released w :
  let '(b, w') := exec env (foldM release_queued l released) w in
  exists rs, answered (hist w) l rs /\
  mem w' = set_releasing (filter (fun q => ID q ∉ accepted l rs) (releasing (mem w))) (mem w) /\
  disk w' = disk w /\ hist w' = hist w ++ release_events l rs /\
  b = (released || bool_decide (accepted l rs <> []))%bool.
Proof.
  revert released w. induction l as [|c l IH]; intros released w.
  { exists []. split; [done|]. simpl. rewrite app_nil_r, orb_false_r. split; [|done].
    rewrite filter_true; [by destruct (mem w)|]. intros q _. apply not_elem_of_nil. }
  rewrite run_foldM_cons. unfold release_queued at 1. xact.
  destruct (env_release env (hist w) CallerCtx (ID c) (Token c)) as [err|] eqn:Hr.
  - rewrite exec_ret. specialize (IH released (emit 0 (EvRelease CallerCtx (ID c) (Token c) (Some err)) w)).
    destruct (exec env (foldM release_queued l released) _) as [b w']. destruct IH as (rs & Hans & Hm & Hd & Hh & ->).
    exists (Some err :: rs). split; [by apply answered_cons|].
    change (accepted (c :: l) (Some err :: rs)) with (accepted l rs).
    rewrite Hm, Hd, Hh. unfold release_events. simpl. rewrite <- app_assoc. by repeat split.
  - xwrite. rewrite exec_ret. set (w1 := set_mem _ _). specialize (IH true w1).
    destruct (exec env (foldM release_queued l true) w1) as [b w']. destruct IH as (rs & Hans & Hm & Hd & Hh & ->).
    exists (None :: rs). split; [by apply answered_cons|].
    change (accepted (c :: l) (None :: rs)) with (ID c :: accepted l rs).
    rewrite Hm, Hd, Hh. unfold release_events. simpl. rewrite <- app_assoc. split; [|split; [done|split; [done|]]].
    + unfold set_releasing. simpl. f_equal. rewrite list_filter_filter. apply list_filter_iff.
      intros q. rewrite not_elem_of_cons. tauto.
    + by rewrite orb_true_r.
Qed.

Lemma elem_of_accepted l rs id :
  id ∈ accepted l rs <-> exists j c, l !! j = Some c /\ ID c = id /\ rs !! j = Some None.
Proof.
  unfold accepted. rewrite list_elem_of_fmap. split.
  - intros (c & -> & Hin). apply list_elem_of_fmap in Hin as ([c' r] & -> & Hin).
    apply list_elem_of_filter in Hin as [Hr Hin]. simpl in *. subst r.
    apply list_elem_of_lookup_1 in Hin as [j Hj]. apply lookup_zip_with_Some in Hj as (c & r & [= <- <-] & Hl & Hr).
    eauto.
  - intros (j & c & Hl & <- & Hr). exists c. split; [done|]. apply list_elem_of_fmap. exists (c, None).
    split; [done|]. apply list_elem_of_filter. split; [done|]. apply (list_elem_of_lookup_2 _ j).
    apply lookup_zip_with_Some. eauto.
Qed.

(** Distinct ids: exactly the refused positions stay. *)
Lemma filter_accepted l rs :
  NoDup (ID <$> l) -> length rs = length l ->
  filter (fun q => ID q ∉ accepted l rs) l = (filter (fun cr => cr.2 <> None) (zip l rs)).*1.
Proof.
  revert rs. induction l as [|c l IH]; intros [|r rs] Hnd Hlen; try done.
  rewrite fmap_cons in Hnd. apply NoDup_cons in Hnd as [Hc Hnd]. injection Hlen as Hlen.
  assert (Hno : ID c ∉ accepted l rs).
  { intros (j & c' & Hl & He & _)%elem_of_accepted. apply Hc. rewrite <- He. apply list_elem_of_fmap.
    exists c'. split; [done|]. by eapply list_elem_of_lookup_2. }
  assert (Htail : filter (fun q => ID q ∉ accepted (c :: l) (r :: rs)) l = filter (fun q => ID q ∉ accepted l rs) l).
  { apply filter_iff_on. intros q Hq. destruct r; [done|].
    change (accepted (c :: l) (None :: rs)) with (ID c :: accepted l rs). rewrite not_elem_of_cons.
    split; [by intros [_ ?]|]. intros Hn. split; [|done]. intros He. apply Hc. rewrite <- He.
    apply list_elem_of_fmap. eauto. }
  rewrite filter_cons, Htail, IH by done. cbn [zip_with zip]. rewrite filter_cons. cbn [snd].
  destruct r as [e|].
  - rewrite !decide_True by done. done.
  - change (accepted (c :: l) (None :: rs)) with (ID c :: accepted l rs).
    rewrite !decide_False by set_solver. done.
Qed.

(** C24: The drain leaves exactly the refused releases.  Whatever sandboxd answers,
    every queued claim's credential is sent to it once and in order, and nothing
    else is asked; a claim leaves the queue exactly if a release of its id was
    accepted (with distinct ids: exactly the claims at the refused positions stay,
    in order); nothing but the queue changes; and the result tells whether any
    release was accepted, so that the queue is saved again. *)
Theorem drain_exact w :
  let '(b, w') := exec env drainReleases w in
  let queue := releasing (mem w) in
  exists rs, answered (hist w) queue rs /\
    hist w' = hist w ++ release_events queue rs /\ disk w' = disk w /\
    mem w' = set_releasing (filter (fun q => ID q ∉ accepted queue rs) queue) (mem w) /\
    (NoDup (ID <$> queue) ->
       releasing (mem w') = (filter (fun cr => cr.2 <> None) (zip queue rs)).*1) /\
    (b = true <-> None ∈ rs).
Proof.
  unfold drainReleases. xread. pose proof (exec_drain (releasing (mem w)) false w) as H.
  destruct (exec env (foldM release_queued _ _) w) as [b w'].
  destruct H as (rs & Hans & Hm & Hd & Hh & ->). exists rs. repeat (split; [done|]).
  destruct Hans as [Hlen _]. split.
  { intros Hnd. rewrite Hm. by apply filter_accepted. }
  simpl. rewrite bool_decide_eq_true. split.
  - intros Hne. destruct (accepted (releasing (mem w)) rs) as [|id ids] eqn:Hacc; [done|].
    assert (Hid : id ∈ accepted (releasing (mem w)) rs) by (rewrite Hacc; set_solver).
    apply elem_of_accepted in Hid as (j & c & _ & _ & Hr). by eapply list_elem_of_lookup_2.
  - intros [j Hj]%list_elem_of_lookup_1 Hnil.
    destruct (lookup_lt_is_Some_2 (releasing (mem w)) j) as [c Hc].
    { rewrite <- Hlen. by eapply lookup_lt_Some. }
    assert (Hin : ID c ∈ accepted (releasing (mem w)) rs) by (apply elem_of_accepted; eauto).
    rewrite Hnil in Hin. by apply elem_of_nil in Hin.
Qed.




(** ** A whole turn *)



(** The row is due and its owner gone. *)
Definition leaves (now : time) (w : World) (kc : string * Claim) : Prop :=
  recheck_due now (ownerRechecks (mem w) !! kc.1) = true /\ row_verdict kc w = authRelease.

#[local] Instance leaves_dec now w kc : Decision (leaves now w kc).
Proof. unfold leaves. apply _. Defined.








End recheck.
