(* ===== verification/Footprint.v ===== *)
(** * Which actions an operation can take at all

    Facts about every run of an operation, whatever the other goroutines do
    between its actions and whatever the answers are: they follow from the actions
    in its program. *)

From S2P Require Import Prelude GoLib Kube Prog State Provider StateFile Persist Runs Ownership Status Create Delete Background DeleteSpec CreateSpec.
Local Open Scope string_scope.
Local Open Scope list_scope.

(** Walks through a program; [act] solves the goal for one action. *)
Ltac walk act :=
  cbv beta zeta;
  lazymatch goal with
  | |- acts _ (_ ≫= _) => apply acts_bind; [|intros ?]; walk act
  | |- acts _ (check_err _ _) => apply acts_bind; [|intros ?]; walk act
  | |- acts _ (mret _) => exact I
  | |- acts _ (foldM _ _ _) => apply acts_foldM; intros ? ?; walk act
  | |- acts _ (match ?x with _ => _ end) => destruct x eqn:?; walk act
  | |- acts _ (call _) => apply acts_call; act
  | |- acts _ (read_mu _) => apply acts_call; act
  | |- acts _ (write_mu _) => apply acts_call; act
  | |- acts _ (locked _) => apply acts_call; act
  | |- acts _ ?p => first [done | solve [auto with vk]
      | let h := head_of p in unfold h; walk act]
  end
with head_of t := lazymatch t with ?f _ => head_of f | _ => t end.

Section footprint.
Context `{K : KubeLib} (cfg : Config).

(** ** Claim requests *)

Definition valid_request (pod : Pod) (e : act) : Prop :=
  match e with
  | AClaim spec =>
      served pod /\ Template spec <> "" /\ (0 <= TTLSeconds spec <= int64_max)%Z /\
      ClaimRef spec = keyOf pod
  | _ => True
  end.

Lemma claim_ttl_range pod ttl : claim_ttl pod = Some ttl -> (0 <= ttl <= int64_max)%Z.
Proof.
  unfold claim_ttl. cbv zeta. case_match; [by intros [= <-]|].
  destruct (Atoi _) as [v|] eqn:Hv; [|done]. destruct (Z.ltb_spec v 0); [done|].
  intros [= <-]. apply ParseInt10_range in Hv. unfold int64_max. lia.
Qed.

(** C16: Every claim request is valid.  Whatever happens around it, [CreatePod]
    asks sandboxd for a sandbox only for a pod of this provider's runtime, with a
    template, with a lease that is not negative and fits a Go int, and with the
    pod's key as the reference that traces a lost response to its pod; an
    unparsable or negative lease or a missing template never reaches sandboxd. *)
Theorem claim_requests_valid pod : acts (valid_request pod) (CreatePod cfg pod).
Proof.
  unfold CreatePod. cbv zeta.
  destruct (String.eqb_spec (ann pod AnnRuntime RuntimeSandboxd) RuntimeSandboxd) as [Hrt|]; [|done].
  cbn [negb]. walk ltac:(first [done|idtac]).
  match goal with H : claim_ttl pod = Some ?v |- _ => apply claim_ttl_range in H end.
  match goal with H : String.eqb _ "" = false |- _ => apply String.eqb_neq in H end.
  split; [exact Hrt|]. split; [done|]. split; [simpl; lia|done].
Qed.

(** ** The loops that only look *)

(** Nothing is claimed, released or saved. *)
Definition read_only_outside (e : act) : Prop :=
  match e with
  | AClaim _ | ARelease _ _ _ | AMkdirAll | AWriteTmp _ | ARename => False
  | _ => True
  end.

(** Besides, memory changes only in the scan's own verdicts. *)
Definition audits (e : act) : Prop :=
  match e with
  | AMu X f => forall p, (f p).2 = set_orphanVerdicts (orphanVerdicts (f p).2) p
  | ANotify _ => False
  | _ => read_only_outside e
  end.

(** C17: The background loops that compare with the node have no authority.  In
    every run, the orphan scan changes nothing but its own verdicts: it claims,
    releases, saves and notifies nothing; and the verification, the lease watch
    and a status read claim, release and save nothing. *)
Theorem scans_destroy_nothing ns name :
  acts audits (OrphanScan cfg) /\
  acts read_only_outside (VerifyClaimsAgainstNode cfg) /\
  acts read_only_outside (publishExpiredLeases cfg) /\
  acts read_only_outside (GetPodStatus ns name).
Proof.
  split.
  { walk ltac:(first [done | by intros []]). }
  split; [|split]; walk ltac:(done).
Qed.
End footprint.
