(* ===== verification/Ledger.v ===== *)
(** * The credential ledger

    The abstract contract of the provider: a sandbox's release credential (its id
    and token) is never lost.  Once sandboxd grants it, it is held in the claims
    table or in the release queue until there is evidence that the sandbox is
    gone: a successful release, or a successful listing without it.

    This file defines the ledger, the invariant of the table, and the rely and
    guarantee conditions under which goroutines keep both, whatever they
    interleave with; the file Concurrent proves them for every operation. *)

From S2P Require Import Prelude Kube Prog State Provider StateFile Persist.
Local Open Scope string_scope.
Local Open Scope list_scope.

(** ** What the history shows *)

(** The id a successful claim grants. *)
Definition grants (ev : event) : option string :=
  match ev with EvClaim _ (inl r) => Some (ResID r) | _ => None end.

(** The sandbox is released, or a listing does not contain it. *)
Definition evidence (ev : event) (id : string) : Prop :=
  match ev with
  | EvRelease _ id' _ None => id' = id
  | EvSandboxes (inl listed) => id ∉ SumID <$> listed
  | _ => False
  end.

Definition is_clock (ev : event) : Prop := match ev with EvNow _ => True | _ => False end.

(** Evidence that came after every grant of the id. *)
Definition gone (h : history) (id : string) : Prop :=
  exists h1 ie h2, h = h1 ++ ie :: h2 /\ evidence ie.2 id /\
    Forall (fun ie' => grants ie'.2 <> Some id) h2.

(** ** What the table holds *)

Definition cred (c : Claim) : string * string := (ID c, Token c).

Definition holds (p : Provider) (id tok : string) : Prop :=
  (exists key c, claims p !! key = Some c /\ cred c = (id, tok)) \/
  (exists c, c ∈ releasing p /\ cred c = (id, tok)).

(** ** What the disk holds *)

Definition file_has (st : stateFile) (cr : string * string) : Prop :=
  (exists m k c, SClaims st = Some m /\ m !! k = Some c /\ cred c = cr) \/
  (exists c, c ∈ SReleasing st /\ cred c = cr).

(** Every claim that counts (not tentative) and every queued one has its credential
    in [st]. *)
Definition covers (st : stateFile) (p : Provider) : Prop :=
  (forall k c, claims p !! k = Some c -> k ∉ tentative p -> file_has st (cred c)) /\
  (forall c, c ∈ releasing p -> file_has st (cred c)).

Section ledger.
Context `{K : KubeLib}.
(** The credentials known when the goroutines start, by id. *)
Context (k0 : gmap string string).

Definition durable (d : Disk) (p : Provider) : Prop :=
  exists st, stateOnDisk d = Some (Doc (encode_state st)) /\ covers st p.

Definition issued (h : history) (id tok : string) : Prop :=
  k0 !! id = Some tok \/
  exists i spec r, (i, EvClaim spec (inl r)) ∈ h /\ ResID r = id /\ ResToken r = tok.

(** sandboxd never issues an id twice. *)
Definition fresh (h : history) : Prop :=
  forall h1 ie h2 id, h = h1 ++ ie :: h2 -> grants ie.2 = Some id ->
    k0 !! id = None /\ Forall (fun ie' => grants ie'.2 <> Some id) h1.

(** The grant of the id is over: it is from before, or the goroutine that got it has
    since done more than read the clock.  A claim is inserted while its grant is
    open, so an id that was closed once is never inserted again. *)
Definition closed (h : history) (id : string) : Prop :=
  is_Some (k0 !! id) \/
  exists h1 j ev h2 ev', h = h1 ++ (j, ev) :: h2 /\ grants ev = Some id /\
    (j, ev') ∈ h2 /\ ~ is_clock ev'.

Definition closed_rows (h : history) (p : Provider) : Prop :=
  forall k c, claims p !! k = Some c -> k ∉ tentative p -> closed h (ID c).

(** A row that becomes tentative has an id whose grant is open. *)
Definition marks (h : history) (p p' : Provider) : Prop :=
  forall k c', claims p' !! k = Some c' -> k ∈ tentative p' ->
    (exists c, claims p !! k = Some c /\ cred c' = cred c /\ k ∈ tentative p) \/
    ~ closed h (ID c').

Definition covered (w : World) (id tok : string) : Prop :=
  holds (mem w) id tok \/ gone (hist w) id.

(** The invariant every goroutine keeps. *)
Definition Inv (w : World) : Prop :=
  fresh (hist w) /\
  (forall id tok, holds (mem w) id tok -> issued (hist w) id tok) /\
  (quarantined (mem w) ⊆ dom (claims (mem w)) /\ closed_rows (hist w) (mem w)) /\
  durable (disk w) (mem w).

(** Every grant made to goroutine [i] is accounted for. *)
Definition mine (i : nat) (w : World) : Prop :=
  forall spec r, (i, EvClaim spec (inl r)) ∈ hist w -> covered w (ResID r) (ResToken r).

(** The steps of [i] with the ids sandboxd may grant. *)
Definition fstep (i : nat) (e : act) (w : World) (x : res e) (w' : World) : Prop :=
  astep_of i e w x w' /\ fresh (hist w').

(** What happens at a key when its owner is not acting: the row may go or change
    its lease, but no other claim takes its place, and its tentative mark stays. *)
Definition key_stable (k : string) (p p' : Provider) : Prop :=
  (forall c', claims p' !! k = Some c' ->
     exists c, claims p !! k = Some c /\ cred c' = cred c) /\
  (k ∈ tentative p' <-> k ∈ tentative p).

(** No credential starts to count: a settled row was settled, and a queued claim was
    queued or the claim of a settled row. *)
Definition settled_shrink (p p' : Provider) : Prop :=
  (forall k c', claims p' !! k = Some c' -> k ∉ tentative p' ->
    exists c, claims p !! k = Some c /\ cred c' = cred c /\ k ∉ tentative p) /\
  (forall c', c' ∈ releasing p' ->
    (exists c, c ∈ releasing p /\ cred c' = cred c) \/
    (exists k c, claims p !! k = Some c /\ cred c' = cred c /\ k ∉ tentative p)).

Lemma covers_shrink st p p' : covers st p -> settled_shrink p p' -> covers st p'.
Proof.
  intros [Hc Hq] [Hs Hr]. split.
  - intros k c' Hk Hn. destruct (Hs k c' Hk Hn) as (c & Hk' & -> & Hn'). eauto.
  - intros c' Hc'. destruct (Hr c' Hc') as [(c & Hin & ->)|(k & c & Hk & -> & Hn)]; eauto.
Qed.

Lemma durable_shrink d p p' : durable d p -> settled_shrink p p' -> durable d p'.
Proof. intros (st & Hst & Hc) Hs. exists st. split; [done|]. by eapply covers_shrink. Qed.

(** The part of a transition all goroutines may rely on. *)
Definition common (w w' : World) : Prop :=
  Inv w' /\
  (quarantined (mem w') ⊆ quarantined (mem w) /\ marks (hist w) (mem w) (mem w')) /\
  (forall id tok, issued (hist w) id tok -> covered w id tok -> covered w' id tok).

(** What goroutine [i], the only one handling the key [own] (if any), guarantees. *)
Definition guar (i : nat) (own : option string) (w w' : World) : Prop :=
  Inv w ->
  common w w' /\
  (exists t, hist w' = hist w ++ t /\ Forall (fun ie => ie.1 = i) t) /\
  (forall k, own <> Some k -> key_stable k (mem w) (mem w')) /\
  (forall j, j <> i -> saveOwner w = Some j ->
     saveOwner w' = Some j /\ disk w' = disk w /\ settled_shrink (mem w) (mem w')).

(** What it relies on. *)
Definition rely (i : nat) (own : option string) (w w' : World) : Prop :=
  Inv w ->
  common w w' /\
  (exists t, hist w' = hist w ++ t /\ Forall (fun ie => ie.1 <> i) t) /\
  (forall k, own = Some k -> key_stable k (mem w) (mem w')) /\
  (saveOwner w = Some i ->
     saveOwner w' = Some i /\ disk w' = disk w /\ settled_shrink (mem w) (mem w')).

(** ** Facts about histories *)

Lemma issued_ext h t id tok : issued h id tok -> issued (h ++ t) id tok.
Proof. intros [?|(i & spec & r & ? & ?)]; [by left|right; exists i, spec, r; set_solver]. Qed.

Lemma fresh_prefix h t : fresh (h ++ t) -> fresh h.
Proof.
  intros Hf h1 ie h2 id -> Hg. apply (Hf h1 ie (h2 ++ t)); [|done].
  by rewrite <- app_assoc.
Qed.

(** Freshness as a check on the list of granted ids. *)
Lemma fresh_intro h :
  NoDup (omap (fun ie : nat * event => grants ie.2) h) ->
  Forall (fun id => k0 !! id = None) (omap (fun ie : nat * event => grants ie.2) h) ->
  fresh h.
Proof.
  intros Hnd Hk h1 ie h2 id -> Hg. rewrite omap_app in Hnd, Hk. simpl in Hnd, Hk.
  rewrite Hg in Hnd, Hk. split.
  - apply Forall_app in Hk as [_ Hk]. by apply Forall_cons in Hk as [? _].
  - apply Forall_forall. intros ie' Hin Hg'. apply NoDup_app in Hnd as (_ & Hd & _).
    apply (Hd id); [|set_solver]. apply list_elem_of_omap. by exists ie'.
Qed.

Lemma issued_grant h id tok :
  issued h id tok -> k0 !! id = Some tok \/ exists ie, ie ∈ h /\ grants ie.2 = Some id.
Proof.
  intros [?|(i & spec & r & Hin & <- & _)]; [by left|right].
  by exists (i, EvClaim spec (inl r)).
Qed.

(** An issued id is not granted again. *)
Lemma fresh_no_regrant h t id tok :
  fresh (h ++ t) -> issued h id tok -> Forall (fun ie => grants ie.2 <> Some id) t.
Proof.
  intros Hf Hi. apply Forall_forall. intros ie (t1 & t2 & ->)%list_elem_of_split Hg.
  destruct (Hf (h ++ t1) ie t2 id) as [H0 H1]; [by rewrite <- app_assoc|done|].
  destruct (issued_grant _ _ _ Hi) as [?|(ie' & Hin & Hg')]; [congruence|].
  rewrite Forall_forall in H1. by apply (H1 ie' ltac:(set_solver)).
Qed.

(** The grant of an id has one place in the history. *)
Lemma fresh_unique h h1 x h2 g1 y g2 id :
  fresh h -> h = h1 ++ x :: h2 -> h = g1 ++ y :: g2 ->
  grants x.2 = Some id -> grants y.2 = Some id -> x = y /\ h2 = g2.
Proof.
  intros Hf Hx Hy Gx Gy.
  destruct (Hf _ _ _ _ Hx Gx) as [_ Fx]. destruct (Hf _ _ _ _ Hy Gy) as [_ Fy].
  rewrite Forall_forall in Fx, Fy. rewrite Hx in Hy.
  apply app_split_cons in Hy as [(t & -> & _)|(t & -> & Ht)].
  { by destruct (Fx y ltac:(set_solver)). }
  destruct t as [|z t]; simplify_eq/=; [done|]. by destruct (Fy z ltac:(set_solver)).
Qed.

(** With ids issued once, an id determines its token. *)
Lemma issued_functional h id t1 t2 :
  fresh h -> issued h id t1 -> issued h id t2 -> t1 = t2.
Proof.
  intros Hf [H1|(i & s & r & Hin & <- & <-)] [H2|(j & s' & r' & Hin' & Heq & <-)].
  - congruence.
  - apply list_elem_of_split in Hin' as (h1 & h2 & ->).
    destruct (Hf h1 _ h2 (ResID r') eq_refl eq_refl). congruence.
  - apply list_elem_of_split in Hin as (h1 & h2 & ->).
    destruct (Hf h1 _ h2 (ResID r) eq_refl eq_refl). congruence.
  - apply list_elem_of_split in Hin as (h1 & h2 & ->).
    apply elem_of_app in Hin' as [Hin'|[Hin'|Hin']%elem_of_cons].
    + destruct (Hf h1 _ h2 (ResID r) eq_refl eq_refl) as [_ H].
      rewrite Forall_forall in H. destruct (H _ Hin'). simpl. congruence.
    + congruence.
    + apply list_elem_of_split in Hin' as (h3 & h4 & ->).
      destruct (Hf (h1 ++ (i, EvClaim s (inl r)) :: h3) (j, EvClaim s' (inl r')) h4 (ResID r'))
        as [_ H]; [by rewrite <- app_assoc|done|].
      rewrite Forall_forall in H.
      destruct (H (i, EvClaim s (inl r))); [set_solver|simpl; congruence].
Qed.

Lemma gone_ext h t id tok :
  fresh (h ++ t) -> issued h id tok -> gone h id -> gone (h ++ t) id.
Proof.
  intros Hf Hi (h1 & ie & h2 & -> & He & Hg).
  exists h1, ie, (h2 ++ t). rewrite <- app_assoc. split; [done|]. split; [done|].
  apply Forall_app. split; [done|]. by eapply fresh_no_regrant.
Qed.

Lemma gone_now h ie id : evidence ie.2 id -> gone (h ++ [ie]) id.
Proof. intros He. by exists h, ie, []. Qed.

Lemma fresh_snoc h ie : fresh h -> grants ie.2 = None -> fresh (h ++ [ie]).
Proof.
  intros Hf Hn h1 ie' h2 id Heq Hg.
  destruct h2 as [|x h2] using rev_ind.
  - apply app_inj_tail in Heq as [-> ->]. congruence.
  - rewrite app_comm_cons, app_assoc in Heq. apply app_inj_tail in Heq as [-> ->].
    by eapply Hf.
Qed.

(** ** The conditions compose *)

Lemma closed_ext h t id : closed h id -> closed (h ++ t) id.
Proof.
  intros [H|(h1 & j & ev & h2 & ev' & -> & Hg & Hin & Hn)]; [by left|right].
  exists h1, j, ev, (h2 ++ t), ev'. rewrite <- app_assoc. set_solver.
Qed.

Lemma closed_rows_ext h t p : closed_rows h p -> closed_rows (h ++ t) p.
Proof. intros H k c Hk Hn. apply closed_ext. by eapply H. Qed.

Lemma closed_rows_shrink h p p' : closed_rows h p -> settled_shrink p p' -> closed_rows h p'.
Proof. intros Hc [Hs _] k c' Hk Hn. destruct (Hs k c' Hk Hn) as (c & Hk' & [= -> _] & Hn'). by eapply Hc. Qed.

Lemma marks_refl h p : marks h p p.
Proof. intros k c Hk Ht. left. eauto. Qed.

Lemma marks_trans h t p1 p2 p3 : marks h p1 p2 -> marks (h ++ t) p2 p3 -> marks h p1 p3.
Proof.
  intros H1 H2 k c3 Hk Ht. destruct (H2 k c3 Hk Ht) as [(c2 & Hk2 & E2 & Ht2)|Hn].
  - injection E2 as Eid Etok. rewrite Eid. destruct (H1 k c2 Hk2 Ht2) as [(c1 & Hk1 & E1 & Ht1)|Hn]; [|by right].
    left. exists c1. split; [done|]. split; [|done]. rewrite <- E1. unfold cred. congruence.
  - right. intros Hc. by apply Hn, closed_ext.
Qed.

Lemma common_refl w : Inv w -> common w w.
Proof. intros HI. split; [done|]. split; [split; [done|apply marks_refl]|]. by auto. Qed.

Lemma key_stable_refl k p : key_stable k p p.
Proof. split; [by eauto|done]. Qed.

Lemma key_stable_trans k p1 p2 p3 :
  key_stable k p1 p2 -> key_stable k p2 p3 -> key_stable k p1 p3.
Proof.
  intros [H1 T1] [H2 T2]. split; [|by rewrite T2].
  intros c3 (c2 & Hc2 & E2)%H2. apply H1 in Hc2 as (c1 & Hc1 & E1).
  exists c1. by rewrite E2, E1.
Qed.

Lemma settled_shrink_refl p : settled_shrink p p.
Proof. split; [intros k c Hk Ht; eauto|]. intros c Hc. left. eauto. Qed.

Lemma settled_shrink_trans p1 p2 p3 :
  settled_shrink p1 p2 -> settled_shrink p2 p3 -> settled_shrink p1 p3.
Proof.
  intros [H1 Q1] [H2 Q2].
  assert (Hrow : forall k c3, claims p2 !! k = Some c3 -> k ∉ tentative p2 ->
    exists c, claims p1 !! k = Some c /\ cred c3 = cred c /\ k ∉ tentative p1) by done.
  split.
  - intros k c3 Hk Ht. destruct (H2 k c3 Hk Ht) as (c2 & Hk2 & E2 & Ht2).
    rewrite E2. by apply Hrow.
  - intros c3 Hc. destruct (Q2 c3 Hc) as [(c2 & Hc2 & ->)|(k & c2 & Hk2 & -> & Ht2)]; [by apply Q1|].
    right. exists k. by apply Hrow.
Qed.

#[export] Instance rely_preorder i own : PreOrder (rely i own).
Proof.
  split.
  - intros w HI. split; [by apply common_refl|]. split; [|split].
    + exists []. by rewrite app_nil_r.
    + intros. apply key_stable_refl.
    + intros ?. split; [done|]. split; [done|]. apply settled_shrink_refl.
  - intros w1 w2 w3 H12 H23 HI.
    destruct (H12 HI) as ((HI2 & Hq2 & Hc2) & (t2 & Ht2 & Ho2) & Hk2 & Hs2).
    destruct (H23 HI2) as ((HI3 & Hq3 & Hc3) & (t3 & Ht3 & Ho3) & Hk3 & Hs3).
    split; [|split; [|split]].
    + split; [done|]. split.
      { destruct Hq2 as [Hq2 Hm2], Hq3 as [Hq3 Hm3]. split; [set_solver|].
        rewrite Ht2 in Hm3. by eapply marks_trans. }
      intros id tok Hi Hcov. apply Hc3; [|by apply Hc2].
      rewrite Ht2. by apply issued_ext.
    + exists (t2 ++ t3). rewrite Ht3, Ht2, app_assoc. split; [done|]. by apply Forall_app.
    + intros k Hk. eapply key_stable_trans; eauto.
    + intros Hs. destruct (Hs2 Hs) as (Hs2' & Hd2 & Hh2). destruct (Hs3 Hs2') as (? & Hd3 & Hh3).
      split; [done|]. split; [congruence|]. eapply settled_shrink_trans; eauto.
Qed.

(** Two goroutines that handle different keys may run together. *)
Lemma guar_rely i j own own' w w' :
  i <> j -> (forall k, own = Some k -> own' <> Some k) ->
  guar i own w w' -> rely j own' w w'.
Proof.
  intros Hij Hown HG HI.
  destruct (HG HI) as (Hc & (t & Ht & Hti) & Hk & Hs).
  split; [done|]. split; [|split].
  - exists t. split; [done|]. eapply Forall_impl; [done|]. intros ie ->. done.
  - intros k Hk'. apply Hk. intros Hk''. by apply (Hown k).
  - intros Hs'. apply Hs; done.
Qed.

(** What goroutine [i] has been granted stays accounted for. *)
Lemma mine_rely i own w w' : Inv w -> mine i w -> rely i own w w' -> mine i w'.
Proof.
  intros HI Hm HR spec r Hin.
  destruct (HR HI) as ((HI' & _ & Hc) & (t & Ht & Hti) & _).
  rewrite Ht in Hin. apply elem_of_app in Hin as [Hin|Hin].
  - apply Hc; [|by eapply Hm]. right. by exists i, spec, r.
  - rewrite Forall_forall in Hti. by destruct (Hti _ Hin).
Qed.
End ledger.
