(* ===== verification/Rules.v ===== *)
(** * Proof rules for goroutines under interference

    For goroutine [i], which alone handles the key [own] (or no key), a rule per
    kind of action: what it may assume before (the invariant, its own grants
    accounted for, and [rely] since it last looked) and what it owes ([mem_ok] for
    a change of the table). *)

From S2P Require Import Prelude Kube Prog State Provider StateFile Persist Ledger.
Local Open Scope string_scope.
Local Open Scope list_scope.

Section rules.
Context `{K : KubeLib} (k0 : gmap string string) (i : nat) (own : option string).

Definition L (w : World) : Prop := Inv k0 w /\ mine i w.

Abbreviation R := (rely k0 i own).
Abbreviation G := (guar k0 i own).
Definition wpi {A} (p : M A) (Q : A -> World -> Prop) (w : World) : Prop :=
  wp (fstep k0 i) R G p Q w.

(** A change of the provider's memory that goroutine [i] may make. *)
Record mem_ok (w : World) (p' : Provider) : Prop := {
  mem_covered : forall id tok, holds (mem w) id tok -> holds p' id tok \/ gone (hist w) id;
  mem_issued : forall id tok, holds p' id tok -> issued k0 (hist w) id tok;
  mem_quarantine : quarantined p' ⊆ dom (claims p') /\ quarantined p' ⊆ quarantined (mem w);
  mem_keys : forall k, own <> Some k -> key_stable k (mem w) p';
  mem_settled : settled_shrink (mem w) p' \/
    saveOwner w = Some i /\ durable (disk w) p' /\ closed_rows k0 (hist w) p';
  mem_marks : marks k0 (hist w) (mem w) p';
}.

(** ** Each kind of step *)

Lemma guar_mem w p' : mem_ok w p' -> G w (set_mem p' w).
Proof.
  intros [Hc Hi [Hq1 Hq2] Hk Hs Hm] (Hf & Hiss & [Hq Hcl] & Hd).
  split; [split; [|split]|split; [|split]].
  - split; [done|]. split; [by auto|]. simpl.
    destruct Hs as [Hs|(_ & Hs & Hcl')]; [|by repeat split]. split; [|by eapply durable_shrink].
    split; [done|]. by eapply closed_rows_shrink.
  - by split.
  - intros id tok _ [Hh|Hg]; [|by right]. destruct (Hc _ _ Hh); [by left|by right].
  - exists []. by rewrite app_nil_r.
  - done.
  - intros j Hj Ho. destruct Hs as [Hs|[Hs _]]; [done|congruence].
Qed.

Lemma guar_emit ev w : fresh k0 (hist w ++ [(i, ev)]) -> G w (emit i ev w).
Proof.
  intros Hf (_ & Hiss & [Hq Hcl] & Hd). split; [split; [|split]|split; [|split]].
  - split; [done|]. split; [intros id tok Hh; by apply issued_ext, Hiss|]. split; [|done].
    split; [done|]. by apply closed_rows_ext.
  - split; [done|apply marks_refl].
  - intros id tok Hi [Hh|Hg]; [by left|right]. by eapply gone_ext.
  - exists [(i, ev)]. split; [done|]. by repeat constructor.
  - intros k _. apply key_stable_refl.
  - intros j _ Ho. split; [done|]. split; [done|]. apply settled_shrink_refl.
Qed.

(** Locks and the disk: the disk changes only under [saveMu]. *)
Lemma guar_same_mem w w' :
  mem w' = mem w -> hist w' = hist w -> durable (disk w') (mem w) ->
  (forall j, j <> i -> saveOwner w = Some j -> saveOwner w' = Some j /\ disk w' = disk w) ->
  G w w'.
Proof.
  intros Hm Hh Hd Hs HI. pose proof HI as (Hf & Hiss & Hq & _).
  split; [split; [|split]|split; [|split]].
  - unfold Inv. by rewrite Hm, Hh.
  - rewrite Hm. split; [done|apply marks_refl].
  - intros id tok _. unfold covered. by rewrite Hm, Hh.
  - exists []. by rewrite app_nil_r.
  - intros k _. rewrite Hm. apply key_stable_refl.
  - intros j Hj Ho. rewrite Hm. destruct (Hs j Hj Ho). split_and!; [done..|].
    apply settled_shrink_refl.
Qed.

Lemma guar_trans_disk w d ev :
  saveOwner w = Some i -> durable d (mem w) -> fresh k0 (hist w ++ [(i, ev)]) ->
  G w (emit i ev (set_disk d w)).
Proof.
  intros Ho Hd Hf HI.
  assert (Hno : forall j, j <> i -> saveOwner w = Some j -> False) by (intros; congruence).
  assert (HG1 : G w (set_disk d w)).
  { apply guar_same_mem; [done..|]. intros j Hj Hs. by destruct (Hno j). }
  destruct (HG1 HI) as ((HI1 & Hq1 & Hc1) & _).
  destruct (guar_emit ev (set_disk d w) Hf HI1) as ((HI2 & Hq2 & Hc2) & Ht & Hk & _).
  split; [split; [done|]; split; [done|]; auto|]. split; [done|]. split; [done|].
  intros j Hj Hs. by destruct (Hno j).
Qed.

Lemma L_rely w w1 : L w -> R w w1 -> L w1.
Proof.
  intros [HI Hm] HR. split; [apply (HR HI)|]. by eapply mine_rely.
Qed.

Lemma L_mem w p' : L w -> mem_ok w p' -> L (set_mem p' w).
Proof.
  intros [HI Hm] Hok. destruct (guar_mem w p' Hok HI) as ((HI' & _ & Hc) & _).
  split; [done|]. intros spec r Hin. apply Hc; [|by eapply Hm].
  right. by exists i, spec, r.
Qed.

Lemma L_emit w ev :
  L w -> fresh k0 (hist w ++ [(i, ev)]) -> grants ev = None -> L (emit i ev w).
Proof.
  intros [HI Hm] Hf Hg. destruct (guar_emit ev w Hf HI) as ((HI' & _ & Hc) & _).
  split; [done|]. intros spec r Hin. simpl in Hin.
  apply elem_of_app in Hin as [Hin|[=<-]%list_elem_of_singleton]; [|done].
  apply Hc; [|by eapply Hm]. right. by exists i, spec, r.
Qed.

(** A step of [i] that adds no grant keeps its grants accounted for. *)
Lemma L_guar w w' ev :
  L w -> G w w' -> hist w' = hist w ++ [(i, ev)] -> grants ev = None -> L w'.
Proof.
  intros [HI Hm] HG Hh Hg. destruct (HG HI) as ((HI' & _ & Hc) & _).
  split; [done|]. intros spec r Hin. rewrite Hh in Hin.
  apply elem_of_app in Hin as [Hin|[=<-]%list_elem_of_singleton]; [|done].
  apply Hc; [|by eapply Hm]. right. by exists i, spec, r.
Qed.

(** ** What the others leave alone *)

(** Facts about the goroutine's own key, the quarantine and the past. *)
Definition stab (w w' : World) : Prop :=
  (forall k, own = Some k -> key_stable k (mem w) (mem w')) /\
  (quarantined (mem w') ⊆ quarantined (mem w) /\ marks k0 (hist w) (mem w) (mem w')) /\
  (exists t, hist w' = hist w ++ t).

Lemma stab_same w w' : mem w' = mem w -> (exists t, hist w' = hist w ++ t) -> stab w w'.
Proof.
  intros Hm Ht. split; [intros k _; rewrite Hm; apply key_stable_refl|].
  split; [|done]. rewrite Hm. split; [done|apply marks_refl].
Qed.

Lemma stab_refl w : stab w w.
Proof. apply stab_same; [done|]. exists []. by rewrite app_nil_r. Qed.

Lemma stab_emit w ev : stab w (emit i ev w).
Proof. apply stab_same; [done|]. by eexists. Qed.

Lemma stab_trans w1 w2 w3 : stab w1 w2 -> stab w2 w3 -> stab w1 w3.
Proof.
  intros (Hk1 & [Hq1 Hm1] & t1 & Ht1) (Hk2 & [Hq2 Hm2] & t2 & Ht2). split; [|split].
  - intros k Hk. eapply key_stable_trans; eauto.
  - split; [set_solver|]. rewrite Ht1 in Hm2. by eapply marks_trans.
  - exists (t1 ++ t2). by rewrite Ht2, Ht1, app_assoc.
Qed.

Lemma stab_rely w w' : L w -> R w w' -> stab w w'.
Proof.
  intros [HI _] HR. destruct (HR HI) as ((_ & Hq & _) & (t & Ht & _) & Hk & _).
  split; [done|]. split; [done|]. by exists t.
Qed.

(** ** Rules *)

Lemma wpi_ret {A} (a : A) Q w : Q a w -> wpi (mret a) Q w.
Proof. done. Qed.

Lemma wpi_bind {A B} (p : M A) (f : A -> M B) Q w :
  wpi p (fun a w => wpi (f a) Q w) w -> wpi (p ≫= f) Q w.
Proof. intros H. by apply wp_bind. Qed.

Lemma wpi_mono {A} (p : M A) (Q Q' : A -> World -> Prop) w :
  wpi p Q w -> (forall a w, Q a w -> Q' a w) -> wpi p Q' w.
Proof. intros H HQ. by eapply wp_mono. Qed.

Lemma wpi_read {X} (f : Provider -> X) (Q : X -> World -> Prop) w :
  L w -> (forall w1, L w1 -> R w w1 -> Q (f (mem w1)) w1) -> wpi (read_mu f) Q w.
Proof.
  intros HL HQ w1 HR x w2 [[-> ->] Hf]. simpl.
  assert (Hw : set_mem (mem w1) w1 = w1) by (by destruct w1). rewrite Hw.
  assert (HL1 : L w1) by (by eapply L_rely).
  split; [apply guar_same_mem; try done; apply HL1|]. by apply HQ.
Qed.

Lemma wpi_locked {X} (f : Provider -> X * Provider) (Q : X -> World -> Prop) w :
  L w ->
  (forall w1, L w1 -> R w w1 -> mem_ok w1 (f (mem w1)).2 /\
     (L (set_mem (f (mem w1)).2 w1) -> Q (f (mem w1)).1 (set_mem (f (mem w1)).2 w1))) ->
  wpi (locked f) Q w.
Proof.
  intros HL HQ w1 HR x w2 [[-> ->] Hf].
  assert (HL1 : L w1) by (by eapply L_rely).
  destruct (HQ w1 HL1 HR) as [Hok HQ']. split; [by apply guar_mem|].
  apply HQ'. by apply L_mem.
Qed.

Lemma wpi_write f (Q : unit -> World -> Prop) w :
  L w ->
  (forall w1, L w1 -> R w w1 -> mem_ok w1 (f (mem w1)) /\
     (L (set_mem (f (mem w1)) w1) -> Q tt (set_mem (f (mem w1)) w1))) ->
  wpi (write_mu f) Q w.
Proof. intros HL HQ. by apply wpi_locked. Qed.

(** An action that only leaves an event, not a grant. *)
Lemma wpi_emit e (ev : res e -> event) (Q : res e -> World -> Prop) w :
  (forall w x w', astep_of i e w x w' -> w' = emit i (ev x) w) ->
  (forall x, grants (ev x) = None) ->
  L w ->
  (forall w1 x, L w1 -> R w w1 -> L (emit i (ev x) w1) -> Q x (emit i (ev x) w1)) ->
  wpi (call e) Q w.
Proof.
  intros He Hg HL HQ w1 HR x w2 [Hs%He Hf]. subst w2.
  assert (HL1 : L w1) by (by eapply L_rely).
  split; [by apply guar_emit|]. apply HQ; [done|done|]. by apply L_emit.
Qed.

Lemma wpi_range {V} (m : gmap string V) (Q : list (string * V) -> World -> Prop) w :
  L w ->
  (forall w1 l, L w1 -> R w w1 -> l ≡ₚ map_to_list m -> Q l w1) ->
  wpi (range m) Q w.
Proof.
  intros HL HQ. unfold range. apply wpi_bind. intros w1 HR ks w2 [[Hks ->] Hf].
  assert (HL1 : L w1) by (by eapply L_rely).
  split; [apply guar_same_mem; try done; apply HL1|]. apply wpi_ret.
  apply HQ; [done|done|]. by apply entries_permutation.
Qed.

Lemma wpi_foldM {A S} (I : S -> World -> Prop) (body : A -> S -> M S) l s w :
  (forall x s w, x ∈ l -> I s w -> wpi (body x s) I w) ->
  I s w -> wpi (foldM body l s) I w.
Proof. apply wp_foldM. Qed.

(** ** [saveMu] and the disk *)

Lemma wpi_lock (Q : unit -> World -> Prop) w :
  L w ->
  (forall w1, L w1 -> R w w1 -> Q tt (set_saveOwner (Some i) w1)) ->
  wpi (call ASaveLock) Q w.
Proof.
  intros HL HQ w1 HR [] w2 [[Ho ->] Hf].
  assert (HL1 : L w1) by (by eapply L_rely).
  split; [|by apply HQ]. apply guar_same_mem; [done|done|apply HL1|].
  intros j _ Hj. congruence.
Qed.

Lemma wpi_unlock (Q : unit -> World -> Prop) w :
  L w -> saveOwner w = Some i ->
  (forall w1, L w1 -> R w w1 -> Q tt (set_saveOwner None w1)) ->
  wpi (call ASaveUnlock) Q w.
Proof.
  intros HL Ho HQ w1 HR [] w2 [[Ho1 ->] Hf].
  assert (HL1 : L w1) by (by eapply L_rely).
  split; [|by apply HQ]. apply guar_same_mem; [done|done|apply HL1|].
  intros j Hj Hj'. congruence.
Qed.

Lemma wpi_write_tmp c (Q : option gerr -> World -> Prop) w :
  L w -> saveOwner w = Some i ->
  (forall w1 r d, L w1 -> R w w1 -> stateOnDisk d = stateOnDisk (disk w1) ->
     (r = None -> tmpOnDisk d = Some c) ->
     L (emit i (EvWriteTmp r) (set_disk d w1)) ->
     Q r (emit i (EvWriteTmp r) (set_disk d w1))) ->
  wpi (call (AWriteTmp c)) Q w.
Proof.
  intros HL Ho HQ w1 HR r w2 [(io & Hio & Hw2) Hf]. simpl in r, Hio, Hw2.
  assert (HL1 : L w1) by (by eapply L_rely).
  assert (Ho1 : saveOwner w1 = Some i) by (apply (HR (proj1 HL)); done).
  set (d := disk w2) in *. clearbody d. subst w2. simpl in Hf.
  assert (Hst : stateOnDisk d = stateOnDisk (disk w1) /\ (r = None -> tmpOnDisk d = Some c)).
  { destruct io as [[e rest]|]; simpl in Hio; by simplify_eq. }
  assert (Hdur : durable d (mem w1)).
  { destruct HL1 as [(_ & _ & _ & st & Hst1 & Hc) _]. exists st. split; [|done].
    destruct Hst as [-> _]. done. }
  assert (HG : G w1 (emit i (EvWriteTmp r) (set_disk d w1))) by (by apply guar_trans_disk).
  split; [done|]. destruct Hst. apply HQ; try done. by eapply L_guar.
Qed.

Lemma wpi_rename st (Q : option gerr -> World -> Prop) w :
  L w -> saveOwner w = Some i -> tmpOnDisk (disk w) = Some (Doc (encode_state st)) ->
  covers st (mem w) ->
  (forall w1 r d, L w1 -> R w w1 -> covers st (mem w1) ->
     (r = None -> stateOnDisk d = Some (Doc (encode_state st))) ->
     L (emit i (EvRename r) (set_disk d w1)) ->
     Q r (emit i (EvRename r) (set_disk d w1))) ->
  wpi (call ARename) Q w.
Proof.
  intros HL Ho Htmp Hcov HQ w1 HR r w2 [(io & Hio & Hw2) Hf]. simpl in r, Hio, Hw2.
  assert (HL1 : L w1) by (by eapply L_rely).
  destruct (HR (proj1 HL)) as (_ & _ & _ & Hs). destruct (Hs Ho) as (Ho1 & Hd1 & Hsh).
  assert (Hcov1 : covers st (mem w1)) by (by eapply covers_shrink).
  set (d := disk w2) in *. clearbody d. subst w2. simpl in Hf.
  rewrite Hd1 in Hio. unfold rename_answer in Hio. rewrite Htmp in Hio.
  assert (Hdur : durable d (mem w1) /\ (r = None -> stateOnDisk d = Some (Doc (encode_state st)))).
  { destruct io as [e|]; simplify_eq.
    - split; [|done]. destruct HL1 as [(_ & _ & _ & Hdur) _]. by rewrite <- Hd1.
    - split; [|done]. by exists st. }
  destruct Hdur as [Hdur Hr].
  assert (HG : G w1 (emit i (EvRename r) (set_disk d w1))) by (by apply guar_trans_disk).
  split; [done|]. apply HQ; try done. by eapply L_guar.
Qed.

(** ** Table changes *)

(** Changes made in one critical section compose. *)
Lemma mem_ok_trans w p1 p2 : mem_ok w p1 -> mem_ok (set_mem p1 w) p2 -> mem_ok w p2.
Proof.
  intros [C1 I1 [_ Q1] K1 S1 T1] [C2 I2 [D2 Q2] K2 S2 T2]. simpl in *. constructor.
  - intros id tok [H|H]%C1; [|by right]. destruct (C2 _ _ H); auto.
  - auto.
  - split; [done|]. set_solver.
  - intros k Hk. eapply key_stable_trans; [by apply K1|by apply K2].
  - destruct S2 as [S2|S2]; [|by right]. destruct S1 as [S1|(S1 & S1' & S1'')].
    + left. by eapply settled_shrink_trans.
    + right. split; [done|]. split; [by eapply durable_shrink|by eapply closed_rows_shrink].
  - apply (marks_trans k0 _ [] _ p1); [done|]. by rewrite app_nil_r.
Qed.

(** Rows that keep their credential and their mark, and a queue that does not grow. *)
Lemma kept_marks h p p' :
  (forall k x, claims p' !! k = Some x -> exists y, claims p !! k = Some y /\ cred x = cred y) ->
  tentative p' ⊆ tentative p -> marks k0 h p p'.
Proof.
  intros Hrow Ht k x Hx Hk. left. destruct (Hrow k x Hx) as (y & Hy & E).
  exists y. split; [done|]. split; [done|]. by apply Ht.
Qed.

(** A change that leaves rows, marks and the queue alone. *)
Lemma mem_ok_frame w p' :
  L w -> claims p' = claims (mem w) -> tentative p' = tentative (mem w) ->
  quarantined p' = quarantined (mem w) -> releasing p' = releasing (mem w) ->
  mem_ok w p'.
Proof.
  intros [(Hf & Hi & [Hq Hcl] & Hdur) _] Hc Ht Hqu Hr.
  assert (Hh : forall id tok, holds p' id tok <-> holds (mem w) id tok).
  { intros. unfold holds. by rewrite Hc, Hr. }
  constructor.
  - intros id tok ?. left. by apply Hh.
  - intros id tok ?%Hh. auto.
  - by rewrite Hqu, Hc.
  - intros k _. split; [rewrite Hc; eauto|by rewrite Ht].
  - left. split; [intros k c; rewrite Hc, Ht; eauto|]. rewrite Hr. eauto.
  - apply kept_marks; [rewrite Hc; eauto|by rewrite Ht].
Qed.

(** A row keeps its credential. *)
Lemma mem_ok_update w p' key c c' :
  L w -> claims (mem w) !! key = Some c -> cred c' = cred c ->
  claims p' = <[key := c']> (claims (mem w)) -> tentative p' = tentative (mem w) ->
  quarantined p' ⊆ quarantined (mem w) -> releasing p' = releasing (mem w) ->
  mem_ok w p'.
Proof.
  intros [(Hf & Hi & [Hq Hcl] & Hdur) _] Hk Hcred Hc Ht Hqu Hr.
  assert (Hrow : forall k x, claims p' !! k = Some x ->
    exists y, claims (mem w) !! k = Some y /\ cred x = cred y).
  { intros k x. rewrite Hc. intros [[<- <-]|[? ?]]%lookup_insert_Some; eauto. }
  assert (Hrow' : forall k y, claims (mem w) !! k = Some y ->
    exists x, claims p' !! k = Some x /\ cred x = cred y).
  { intros k y Hy. rewrite Hc. destruct (decide (key = k)) as [<-|].
    - rewrite lookup_insert_eq. assert (y = c) as -> by congruence. eauto.
    - rewrite lookup_insert_ne by done. eauto. }
  constructor.
  - intros id tok [(k & y & Hy & E)|(y & Hy & E)]; left.
    + destruct (Hrow' _ _ Hy) as (x & Hx & Ex). left. exists k, x. by rewrite Ex.
    + right. exists y. by rewrite Hr.
  - intros id tok [(k & x & Hx & E)|(x & Hx & E)]; apply Hi.
    + destruct (Hrow _ _ Hx) as (y & Hy & Ey). left. exists k, y. by rewrite <- Ey.
    + right. exists x. by rewrite <- Hr.
  - split; [|done]. rewrite Hc, dom_insert_L. set_solver.
  - intros k _. split; [by apply Hrow|by rewrite Ht].
  - left. split; [|rewrite Hr; eauto]. intros k x Hx. rewrite Ht. intros Hn.
    destruct (Hrow _ _ Hx) as (y & Hy & Ey). eauto.
  - apply kept_marks; [done|by rewrite Ht].
Qed.

(** A row goes: its credential is queued, or its sandbox is gone. *)
Lemma mem_ok_delete w p' key c :
  L w -> claims (mem w) !! key = Some c ->
  gone (hist w) (ID c) \/ (exists c', c' ∈ releasing p' /\ cred c' = cred c) ->
  claims p' = delete key (claims (mem w)) ->
  (tentative p' = tentative (mem w) \/
   own = Some key /\ tentative p' = tentative (mem w) ∖ {[key]}) ->
  quarantined p' ⊆ quarantined (mem w) ∖ {[key]} ->
  (forall q, q ∈ releasing (mem w) -> q ∈ releasing p') ->
  (forall q, q ∈ releasing p' ->
     q ∈ releasing (mem w) \/ cred q = cred c /\ key ∉ tentative (mem w)) ->
  mem_ok w p'.
Proof.
  intros [(Hf & Hi & [Hq Hcl] & Hdur) _] Hk Hgone Hc Ht Hqu Hr1 Hr2.
  assert (Hrow : forall k x, claims p' !! k = Some x ->
    k <> key /\ claims (mem w) !! k = Some x).
  { intros k x. rewrite Hc. intros [? ?]%lookup_delete_Some. auto. }
  constructor.
  - intros id tok [(k & y & Hy & E)|(y & Hy & E)].
    + destruct (decide (k = key)) as [->|].
      * assert (y = c) as -> by congruence. destruct Hgone as [Hg|(c' & Hc' & E')].
        -- right. by injection E as <- <-.
        -- left. right. exists c'. by rewrite E'.
      * left. left. exists k, y. split; [|done]. rewrite Hc. by rewrite lookup_delete_ne.
    + left. right. exists y. auto.
  - intros id tok [(k & x & Hx & E)|(x & Hx & E)]; apply Hi.
    + left. exists k, x. split; [apply (Hrow _ _ Hx)|done].
    + destruct (Hr2 _ Hx) as [?|[E' _]]; [right; eauto|]. left. exists key, c.
      by rewrite <- E'.
  - rewrite Hc, dom_delete_L. set_solver.
  - intros k Hown. split.
    + intros x [_ Hx]%Hrow. eauto.
    + destruct Ht as [->|[Hk' ->]]; [done|]. assert (k <> key) by congruence. set_solver.
  - left. split.
    + intros k x [Hne Hx]%Hrow Hn. exists x. split; [done|]. split; [done|].
      destruct Ht as [<-|[_ Ht]]; [done|]. rewrite Ht in Hn. set_solver.
    + intros q [Hq'|[E Hn]]%Hr2; [left; by exists q|right; by exists key, c].
  - apply kept_marks; [|destruct Ht as [->|[_ ->]]; set_solver].
    intros k x [_ Hx]%Hrow. eauto.
Qed.

(** Queued credentials of a sandbox that is gone are dropped. *)
Lemma mem_ok_unqueue w id :
  L w -> gone (hist w) id ->
  mem_ok w (set_releasing (filter (fun q => ID q <> id) (releasing (mem w))) (mem w)).
Proof.
  intros [(Hf & Hi & [Hq Hcl] & Hdur) _] Hg. constructor; simpl.
  - intros id' tok [?|(c & Hc & E)]; [left; by left|].
    destruct (decide (ID c = id)) as [<-|Hne].
    + right. by injection E as <- <-.
    + left. right. exists c. split; [|done]. simpl. by apply list_elem_of_filter.
  - intros id' tok [?|(c & Hc & E)]; apply Hi; [by left|right].
    simpl in Hc. apply list_elem_of_filter in Hc as [_ Hc]. eauto.
  - done.
  - intros k _. split; simpl; eauto.
  - left. split; [intros k c Hk Hn; simpl in *; eauto|]. simpl.
    intros c [_ Hc]%list_elem_of_filter. left. by exists c.
  - apply kept_marks; simpl; eauto.
Qed.
End rules.

#[global] Arguments wpi : simpl never.

(** A change that is good for a goroutine with no key of its own is good for all. *)
Lemma mem_ok_any `{K : KubeLib} k0 i own w p' :
  mem_ok k0 i None w p' -> mem_ok k0 i own w p' /\ stab k0 own w (set_mem p' w).
Proof.
  intros [C I Q Ks S T]. split; [constructor; auto|].
  split; [|split]; [|split; [apply Q|done]|exists []; by rewrite app_nil_r].
  intros k _. by apply Ks.
Qed.
