(* ===== verification/Concurrent.v ===== *)
(** * The operations under interference

    For every operation of the provider: goroutine [i], running it while any other
    goroutines run any operations on other keys and any background loops, keeps
    the invariant, loses no credential, and does to its own key what it should.
    The section's hypotheses are what main.go guarantees: a state path and a
    lister. *)

From S2P Require Import Prelude GoLib Kube Prog State Provider StateFile Persist Ownership Status Create Delete Background Ledger Rules.
Local Open Scope string_scope.
Local Open Scope list_scope.
#[local] Set Default Proof Using "Type".

Section concurrent.
Context `{K : KubeLib}.
Context (k0 : gmap string string) (i : nat) (own : option string).

Abbreviation L := (L k0 i).
Abbreviation R := (rely k0 i own).
Abbreviation wpi := (wpi k0 i own).
Abbreviation stab := (stab k0 own).
Abbreviation mem_ok := (mem_ok k0 i own).

(** The usual postcondition: nothing was lost and the own key is as it was. *)
Definition keeps (w w' : World) : Prop := L w' /\ stab w w'.

Lemma keeps_refl w : L w -> keeps w w.
Proof. intros HL. split; [done|apply stab_refl]. Qed.

Lemma keeps_trans w1 w2 w3 : keeps w1 w2 -> keeps w2 w3 -> keeps w1 w3.
Proof. intros [_ H1] [HL H2]. split; [done|]. by eapply stab_trans. Qed.

Lemma keeps_rely w w1 : L w -> R w w1 -> keeps w w1.
Proof. intros HL HR. split; [by eapply L_rely|by eapply stab_rely]. Qed.

Lemma wpi_read_keeps {X} (f : Provider -> X) (Q : X -> World -> Prop) w :
  L w -> (forall w1, keeps w w1 -> Q (f (mem w1)) w1) -> wpi (read_mu f) Q w.
Proof. intros HL HQ. apply wpi_read; [done|]. intros w1 HL1 HR. by apply HQ, keeps_rely. Qed.

(** ** Actions that only leave an event *)

Lemma wpi_event e (ev : res e -> event) (Q : res e -> World -> Prop) w :
  (forall w x w', astep_of i e w x w' -> w' = emit i (ev x) w) ->
  (forall x, grants (ev x) = None) ->
  L w ->
  (forall x w1 h, keeps w w1 -> hist w1 = h ++ [(i, ev x)] -> Q x w1) ->
  wpi (call e) Q w.
Proof.
  intros He Hg HL HQ. apply (wpi_emit _ _ _ e ev); [done..|].
  intros w1 x HL1 HR HL2. eapply HQ; [|done]. split; [done|].
  eapply stab_trans; [by eapply stab_rely|apply stab_emit].
Qed.

Lemma wpi_release c id tok (Q : option gerr -> World -> Prop) w :
  L w ->
  (forall r w1, keeps w w1 -> (r = None -> gone (hist w1) id) -> Q r w1) ->
  wpi (call (ARelease c id tok)) Q w.
Proof.
  intros HL HQ. apply (wpi_event (ARelease c id tok) (EvRelease c id tok)); [done..|].
  intros r w1 h Hk Hh. apply HQ; [done|]. intros ->. rewrite Hh. by apply gone_now.
Qed.

Lemma wpi_sandboxes (Q : list SandboxSummary + gerr -> World -> Prop) w :
  L w ->
  (forall r w1, keeps w w1 ->
     (forall listed id, r = inl listed -> id ∉ SumID <$> listed -> gone (hist w1) id) -> Q r w1) ->
  wpi (call ASandboxes) Q w.
Proof.
  intros HL HQ. apply (wpi_event ASandboxes EvSandboxes); [done..|].
  intros r w1 h Hk Hh. apply HQ; [done|]. intros listed id -> Hid. rewrite Hh.
  by apply gone_now.
Qed.

Lemma wpi_now (Q : time -> World -> Prop) w :
  L w -> (forall t w1, keeps w w1 -> Q t w1) -> wpi (call ANow) Q w.
Proof. intros HL HQ. apply (wpi_event ANow EvNow); [done..|]. eauto. Qed.

Lemma wpi_select (Q : bool -> World -> Prop) w :
  L w -> (forall t w1, keeps w w1 -> Q t w1) -> wpi (call ASelect) Q w.
Proof. intros HL HQ. apply (wpi_event ASelect EvSelect); [done..|]. eauto. Qed.

Lemma wpi_log l (Q : unit -> World -> Prop) w :
  L w -> (forall w1, keeps w w1 -> Q tt w1) -> wpi (call (ALogVerdicts l)) Q w.
Proof.
  intros HL HQ. apply (wpi_event (ALogVerdicts l) (fun _ => EvLogVerdicts l)); [done..|].
  intros [] w1 h Hk _. auto.
Qed.

Lemma wpi_notify pod (Q : unit -> World -> Prop) w :
  L w -> (forall w1, keeps w w1 -> Q tt w1) -> wpi (notify pod) Q w.
Proof.
  intros HL HQ. unfold notify. apply wpi_bind. apply wpi_read_keeps; [done|].
  intros w1 Hk1. destruct (notifier (mem w1)); [|by apply HQ].
  apply (wpi_event (ANotify pod) (fun _ => EvNotify pod)); [done..|apply Hk1|].
  intros [] w2 h Hk2 _. apply HQ. by eapply keeps_trans.
Qed.

(** Gone sandboxes stay gone. *)
Lemma gone_keeps w w' id tok :
  keeps w w' -> issued k0 (hist w) id tok -> gone (hist w) id -> gone (hist w') id.
Proof.
  intros [[(Hf & _) _] (_ & _ & t & Ht)] Hi Hg. rewrite Ht in *. by eapply gone_ext.
Qed.

Lemma held_issued w k c :
  L w -> claims (mem w) !! k = Some c -> issued k0 (hist w) (ID c) (Token c).
Proof. intros [(_ & Hi & _) _] Hk. apply Hi. left. by exists k, c. Qed.

Lemma keeps_issued w w' id tok :
  keeps w w' -> issued k0 (hist w) id tok -> issued k0 (hist w') id tok.
Proof. intros [_ (_ & _ & t & ->)]. apply issued_ext. Qed.

(** The grant of [id] is over and the key's row, if it has this id, counts. *)
Definition calm (key id : string) (w : World) : Prop :=
  closed k0 (hist w) id /\
  forall c, claims (mem w) !! key = Some c -> ID c = id -> key ∉ tentative (mem w).

Lemma calm_keeps key id w w' : keeps w w' -> calm key id w -> calm key id w'.
Proof.
  intros [_ (_ & [_ Hm] & t & Ht)] [Hc Hr]. split; [rewrite Ht; by apply closed_ext|].
  intros c' Hk <- Hin. destruct (Hm key c' Hk Hin) as [(c & Hc0 & [= E _] & Hin0)|Hn]; [|done].
  by apply (Hr c).
Qed.

Lemma settled_calm w key c :
  L w -> claims (mem w) !! key = Some c -> key ∉ tentative (mem w) -> calm key (ID c) w.
Proof. intros [(_ & _ & [_ Hcl] & _) _] Hk Hn. split; [by eapply Hcl|done]. Qed.

(** ** Persistence *)

Lemma snapshot_covers committing p : covers (snapshot committing p) p.
Proof.
  split; [|intros c Hc; right; by exists c].
  intros k c Hk Hn. left. eexists _, k, c. split; [done|]. split; [|done].
  apply map_lookup_filter_Some. split; [done|]. by left.
Qed.

Lemma snapshot_committing key p c :
  claims p !! key = Some c -> file_has (snapshot key p) (cred c).
Proof.
  intros Hk. left. eexists _, key, c. split; [done|]. split; [|done].
  apply map_lookup_filter_Some. split; [done|]. by right.
Qed.

(** While [write] holds [saveMu], its snapshot keeps covering the table. *)
Definition writing (committing : string) (st : stateFile) (w0 w : World) : Prop :=
  keeps w0 w /\ saveOwner w = Some i /\ covers st (mem w) /\
  (own = Some committing ->
   forall c, claims (mem w) !! committing = Some c -> file_has st (cred c)).

Lemma writing_rely committing st w0 w w1 :
  writing committing st w0 w -> R w w1 -> writing committing st w0 w1 /\ disk w1 = disk w.
Proof.
  intros ([HL Hst] & Ho & Hc & Hown) HR.
  destruct (HR (proj1 HL)) as (_ & _ & Hk & Hs). destruct (Hs Ho) as (Ho1 & Hd & Hsh).
  split; [|done]. split; [|split; [done|split]].
  - eapply keeps_trans; [by split|by apply keeps_rely].
  - by eapply covers_shrink.
  - intros Hc' c Hc1. destruct (Hk _ Hc') as [Hk' _].
    destruct (Hk' _ Hc1) as (c0 & Hc0 & ->). by apply Hown.
Qed.

Lemma writing_same committing st w0 w w' :
  writing committing st w0 w -> mem w' = mem w -> (exists t, hist w' = hist w ++ t) ->
  saveOwner w' = Some i -> L w' -> writing committing st w0 w'.
Proof.
  intros ([_ Hst] & _ & Hc & Hown) Hm Ht Ho HL. split; [|by rewrite Hm].
  split; [done|]. eapply stab_trans; [done|]. by apply stab_same.
Qed.


(** ** Table changes any goroutine may make *)

Lemma wpi_locked_keeps {X} (f : Provider -> X * Provider) (Q : X -> World -> Prop) w :
  L w ->
  (forall w1, keeps w w1 -> Rules.mem_ok k0 i None w1 (f (mem w1)).2 /\
     (keeps w (set_mem (f (mem w1)).2 w1) -> Q (f (mem w1)).1 (set_mem (f (mem w1)).2 w1))) ->
  wpi (locked f) Q w.
Proof.
  intros HL HQ. apply wpi_locked; [done|]. intros w1 HL1 HR.
  destruct (HQ w1 (keeps_rely _ _ HL HR)) as [Hok HQ'].
  apply (mem_ok_any _ _ own) in Hok as [Hok Hst]. split; [done|]. intros HL2. apply HQ'.
  eapply keeps_trans; [by apply keeps_rely|]. by split.
Qed.

Lemma wpi_write_keeps f (Q : unit -> World -> Prop) w :
  L w ->
  (forall w1, keeps w w1 -> Rules.mem_ok k0 i None w1 (f (mem w1)) /\
     (keeps w (set_mem (f (mem w1)) w1) -> Q tt (set_mem (f (mem w1)) w1))) ->
  wpi (write_mu f) Q w.
Proof. intros HL HQ. by apply wpi_locked_keeps. Qed.

Lemma refresh_row_ok w key id d :
  L w -> Rules.mem_ok k0 i None w (refresh_row key id d (mem w)).
Proof.
  intros HL. unfold refresh_row. destruct (claims (mem w) !! key) as [c|] eqn:Hk;
    [destruct (String.eqb_spec (ID c) id)|]; try by apply mem_ok_frame.
  by eapply (mem_ok_update _ _ _ _ _ key c (with_Deadline d c)).
Qed.

Lemma drop_row_ok w key id :
  L w -> gone (hist w) id -> key ∉ quarantined (mem w) ->
  Rules.mem_ok k0 i None w (drop_row key id (mem w)).
Proof.
  intros HL Hg Hq. unfold drop_row. destruct (claims (mem w) !! key) as [c|] eqn:Hk;
    [destruct (String.eqb_spec (ID c) id) as [<-|]|]; try by apply mem_ok_frame.
  eapply (mem_ok_delete _ _ _ _ _ key c); simpl; auto. set_solver.
Qed.

Lemma settle_row_ok w live key id :
  L w -> (live !! id = None -> gone (hist w) id) ->
  Rules.mem_ok k0 i None w (settle_row live key id (mem w)).
Proof.
  intros HL Hg. unfold settle_row. destruct (claims (mem w) !! key) as [c|] eqn:Hk;
    [|by apply mem_ok_frame].
  destruct (String.eqb_spec (ID c) id) as [<-|]; [|by apply mem_ok_frame]. simpl.
  destruct (live !! ID c) as [d|].
  - destruct (IsZero (Deadline c) && negb (IsZero d))%bool.
    + eapply (mem_ok_update _ _ _ _ _ key c (with_Deadline d c)); simpl; auto. set_solver.
    + eapply (mem_ok_update _ _ _ _ _ key c c); simpl; auto; [|set_solver].
      by rewrite insert_id.
  - eapply (mem_ok_delete _ _ _ _ _ key c); simpl; auto.
Qed.

Lemma settle_rows_ok w live rows :
  L w -> (forall key id, (key, id) ∈ rows -> live !! id = None -> gone (hist w) id) ->
  Rules.mem_ok k0 i None w (settle_rows live rows (mem w)).
Proof.
  revert w. induction rows as [|[key id] rows IH]; intros w HL Hg; [by apply mem_ok_frame|].
  assert (H1 : Rules.mem_ok k0 i None w (settle_row live key id (mem w))).
  { apply settle_row_ok; [done|]. apply (Hg key). set_solver. }
  eapply mem_ok_trans; [exact H1|].
  apply (IH (set_mem (settle_row live key id (mem w)) w)); [by eapply L_mem|].
  intros k' id' Hin. apply (Hg k'). set_solver.
Qed.

Lemma wpi_owner gvr ns name (Q : OwnerObject + APIError -> World -> Prop) w :
  L w -> (forall r w1, keeps w w1 -> Q r w1) -> wpi (call (AGetOwner gvr ns name)) Q w.
Proof.
  intros HL HQ. apply (wpi_event (AGetOwner gvr ns name) (EvGetOwner gvr ns name)); [done..|].
  eauto.
Qed.

Lemma wpi_refreshDeadline key id d (Q : unit -> World -> Prop) w :
  L w -> (forall w1, keeps w w1 -> Q tt w1) -> wpi (refreshDeadline key id d) Q w.
Proof.
  intros HL HQ. apply wpi_write_keeps; [done|]. intros w1 Hk.
  split; [apply refresh_row_ok, Hk|]. apply HQ.
Qed.

(** A change of the fields that carry no credential. *)
Lemma wpi_write_frame f (Q : unit -> World -> Prop) w :
  (forall p, claims (f p) = claims p /\ tentative (f p) = tentative p /\
             quarantined (f p) = quarantined p /\ releasing (f p) = releasing p) ->
  L w -> (forall w1, keeps w w1 -> Q tt w1) -> wpi (write_mu f) Q w.
Proof.
  intros Hf HL HQ. apply wpi_write_keeps; [done|]. intros w1 Hk.
  destruct (Hf (mem w1)) as (? & ? & ? & ?). split; [|apply HQ].
  apply mem_ok_frame; [apply Hk|done..].
Qed.

Lemma wpi_publish_row live kc u (Q : unit -> World -> Prop) w :
  L w -> (forall w1, keeps w w1 -> Q tt w1) -> wpi (publish_row live kc u) Q w.
Proof.
  intros HL HQ. destruct kc as [key c]. unfold publish_row.
  destruct (live !! ID c); [by apply wpi_refreshDeadline|].
  apply wpi_bind. apply wpi_read_keeps; [done|]. intros w1 Hk.
  destruct (pods (mem w1) !! key), (claims (mem w1) !! key); try by apply wpi_ret, HQ.
  destruct (String.eqb _ _); [|by apply wpi_ret, HQ].
  apply wpi_notify; [apply Hk|]. intros w2 Hk2. apply HQ. by eapply keeps_trans.
Qed.

Lemma wpi_loop {A S} (body : A -> S -> M S) l s w :
  (forall x s w, L w -> wpi (body x s) (fun _ w' => keeps w w') w) ->
  L w -> wpi (foldM body l s) (fun _ w' => keeps w w') w.
Proof.
  intros Hb HL. apply (wpi_foldM _ _ _ (fun _ w' => keeps w w')); [|by apply keeps_refl].
  intros x s' w1 _ Hk. eapply wpi_mono; [apply Hb, Hk|]. intros ? w2 Hk2.
  by eapply keeps_trans.
Qed.

Lemma wpi_drainReleases (Q : bool -> World -> Prop) w :
  L w -> (forall b w1, keeps w w1 -> Q b w1) -> wpi drainReleases Q w.
Proof.
  intros HL HQ. unfold drainReleases. apply wpi_bind, wpi_read; [done|].
  intros w1 HL1 HR1.
  assert (Hq : forall c, c ∈ releasing (mem w1) -> issued k0 (hist w1) (ID c) (Token c)).
  { intros c Hc. apply HL1. right. by exists c. }
  eapply wpi_mono; [apply (wpi_foldM _ _ _ (fun _ w' => keeps w1 w'));
    [|by apply keeps_refl]|].
  2: { intros b w2 Hk. apply HQ. eapply keeps_trans; [by apply keeps_rely|done]. }
  intros c b w2 Hin Hk2. unfold release_queued.
  apply wpi_bind, wpi_release; [apply Hk2|]. intros r w3 Hk3 Hg.
  assert (Hk13 : keeps w1 w3) by (by eapply keeps_trans).
  destruct r as [e|]; [by apply wpi_ret|].
  apply wpi_bind, wpi_write_keeps; [apply Hk3|]. intros w4 Hk4.
  assert (Hk14 : keeps w1 w4) by (by eapply keeps_trans).
  split.
  - apply mem_ok_unqueue; [apply Hk4|]. eapply (gone_keeps w3); [done| |by apply Hg].
    eapply keeps_issued; [exact Hk13|by apply Hq].
  - intros Hk5. apply wpi_ret. exact (keeps_trans _ _ _ Hk13 Hk5).
Qed.

(** Queueing a row the re-check saw before: by then the row with the same id has
    the same token. *)
Lemma queue_row_ok w key c :
  L w -> issued k0 (hist w) (ID c) (Token c) -> key ∉ quarantined (mem w) -> calm key (ID c) w ->
  Rules.mem_ok k0 i None w (queue_row key c (mem w)).2.
Proof.
  intros HL Hi Hq [_ Hcalm]. unfold queue_row.
  destruct (claims (mem w) !! key) as [cur|] eqn:Hk; [|by apply mem_ok_frame].
  destruct (pods (mem w) !! key); [by apply mem_ok_frame|].
  destruct (String.eqb_spec (ID cur) (ID c)) as [Hid|]; [|by apply mem_ok_frame].
  assert (Hcred : cred c = cred cur).
  { unfold cred. rewrite Hid. f_equal. pose proof (held_issued _ _ _ HL Hk) as Hi'.
    rewrite Hid in Hi'. eapply issued_functional; [apply HL|done|done]. }
  eapply (mem_ok_delete _ _ _ _ _ key cur); simpl; auto.
  - right. exists c. split; [|done]. apply elem_of_app. right. by apply list_elem_of_singleton.
  - set_solver.
  - intros q Hin. apply elem_of_app. by left.
  - intros q Hin. apply elem_of_app in Hin as [Hin|Hin%list_elem_of_singleton]; [by left|right].
    subst q. split; [done|]. by apply (Hcalm cur).
Qed.

(** ** The loops *)

Lemma wpi_ticker_loop fuel action w :
  (forall w, L w -> wpi action (fun _ w' => keeps w w') w) ->
  L w -> wpi (ticker_loop fuel action) (fun _ w' => keeps w w') w.
Proof.
  intros Ha. revert w. induction fuel as [|fuel IH]; intros w HL;
    cbn [ticker_loop]; [by apply wpi_ret, keeps_refl|].
  apply wpi_bind, wpi_select; [done|]. intros [] w1 Hk1; [|by apply wpi_ret].
  apply wpi_bind. eapply wpi_mono; [apply Ha, Hk1|]. intros [] w2 Hk2.
  - eapply wpi_mono; [apply IH, Hk2|]. intros ? w3 Hk3. eauto using keeps_trans.
  - apply wpi_ret. by eapply keeps_trans.
Qed.

Lemma wpi_runTicker fuel d action w :
  (forall w, L w -> wpi action (fun _ w' => keeps w w') w) ->
  L w -> wpi (runTicker fuel d action) (fun _ w' => keeps w w') w.
Proof.
  intros Ha HL. unfold runTicker. destruct (Z.leb d 0); [by apply wpi_ret, keeps_refl|].
  apply wpi_bind. eapply wpi_mono; [by apply wpi_ticker_loop|]. intros ? w1 Hk1. by apply wpi_ret.
Qed.

(** ** Operations that use the configuration *)

Context (cfg : Config) (Hpath : StatePath cfg <> "") (Hlist : HasLister cfg = true).

Lemma wpi_write_file committing w :
  L w -> saveOwner w = Some i ->
  wpi (write cfg committing) (fun e w' => exists st, writing committing st w w' /\
    (e = None -> stateOnDisk (disk w') = Some (Doc (encode_state st)) /\
       exists t ev, hist w' = hist w ++ t /\ (i, ev) ∈ t /\ ~ is_clock ev)) w.
Proof using Hpath.
  clear Hlist. intros HL Ho. unfold write. destruct (String.eqb_spec (StatePath cfg) ""); [done|].
  apply wpi_bind. apply wpi_read; [done|]. intros w1 HL1 HR1.
  set (st := snapshot committing (mem w1)).
  assert (HW1 : writing committing st w w1).
  { split; [by apply keeps_rely|]. split; [by apply (HR1 (proj1 HL))|].
    split; [apply snapshot_covers|]. intros _ c. apply snapshot_committing. }
  apply wpi_bind. apply (wpi_emit _ _ _ AMkdirAll EvMkdirAll); [done..|].
  intros w2 e HL2 HR2 HL2'.
  assert (HW2 : writing committing st w (emit i (EvMkdirAll e) w2)).
  { destruct (writing_rely _ _ _ _ _ HW1 HR2) as [HW2 _].
    eapply writing_same; [exact HW2|done|by eexists|apply HW2|done]. }
  destruct e as [e|]; [by exists st|].
  apply wpi_bind. apply wpi_write_tmp; [done|apply HW2|].
  intros w3 e d HL3 HR3 Hd Htmp HL3'.
  assert (HW3 : writing committing st w (emit i (EvWriteTmp e) (set_disk d w3))).
  { destruct (writing_rely _ _ _ _ _ HW2 HR3) as [HW3 _].
    eapply writing_same; [exact HW3|done|by eexists|apply HW3|done]. }
  destruct e as [e|]; [by exists st|].
  apply wpi_bind. apply (wpi_rename _ _ _ st); [done|apply HW3|by apply Htmp|apply HW3|].
  intros w4 e d4 HL4 HR4 Hc4 Hd4 HL4'.
  assert (HW4 : writing committing st w (emit i (EvRename e) (set_disk d4 w4))).
  { destruct (writing_rely _ _ _ _ _ HW3 HR4) as [HW4 _].
    eapply writing_same; [exact HW4|done|by eexists|apply HW4|done]. }
  destruct e as [e|]; exists st; (split; [done|]); [done|]. intros _. split; [by apply Hd4|].
  destruct HW4 as ([_ (_ & _ & t4 & Ht4)] & _). destruct HW3 as ([_ (_ & _ & t3 & Ht3)] & _).
  destruct (HR4 (proj1 HL3')) as (_ & (t & Ht & _) & _). simpl in *.
  exists (t3 ++ t ++ [(i, EvRename None)]), (EvRename None). split; [|set_solver].
  rewrite Ht, Ht3. by rewrite <- !app_assoc.
Qed.

Lemma wpi_persist (Q : option gerr -> World -> Prop) w :
  L w -> (forall e w1, keeps w w1 -> Q e w1) -> wpi (persist cfg) Q w.
Proof using Hpath.
  intros HL HQ. unfold persist. apply wpi_bind. apply wpi_lock; [done|].
  intros w1 HL1 HR1. apply wpi_bind.
  eapply wpi_mono; [by apply wpi_write_file|].
  intros e w2 (st & HW & _). apply wpi_bind.
  destruct HW as (Hk2 & Ho2 & _). apply wpi_unlock; [apply Hk2|done|].
  intros w3 HL3 HR3. apply wpi_ret. apply HQ.
  eapply keeps_trans; [by apply keeps_rely|].
  eapply (keeps_trans _ w2); [|apply (keeps_rely w2 w3); [apply Hk2|done]]. apply Hk2.
Qed.

Lemma wpi_saveState (Q : unit -> World -> Prop) w :
  L w -> (forall w1, keeps w w1 -> Q tt w1) -> wpi (saveState cfg) Q w.
Proof using Hpath.
  intros HL HQ. unfold saveState. apply wpi_bind. apply wpi_persist; [done|].
  intros ? w1 Hk. by apply HQ.
Qed.

(** ** Verification *)

(** After a successful listing the goroutine's own key is not quarantined. *)
Lemma wpi_verify w :
  L w ->
  wpi (VerifyClaimsAgainstNode cfg) (fun ok w' => keeps w w' /\
    (ok = true -> forall k, own = Some k -> k ∉ quarantined (mem w'))) w.
Proof using Hlist.
  intros HL. unfold VerifyClaimsAgainstNode. rewrite Hlist. cbn [negb].
  apply wpi_bind. apply wpi_read_keeps; [done|]. intros w1 Hk1.
  set (before := quarantine_snapshot (mem w1)).
  assert (Hnot : forall k, before !! k = None -> k ∉ quarantined (mem w1)).
  { intros k Hb Hq. unfold before in Hb. rewrite quarantine_snapshot_lookup, decide_True in Hb by done.
    destruct Hk1 as [[(_ & _ & Hd & _) _] _]. apply Hd, elem_of_dom in Hq as [c Hc].
    by rewrite Hc in Hb. }
  destruct (decide (before = ∅)) as [He|_].
  { apply wpi_ret. split; [done|]. intros _ k _. apply Hnot. by rewrite He. }
  apply wpi_bind. apply wpi_sandboxes; [apply Hk1|]. intros r w2 Hk2 Hgone.
  destruct r as [listed|err]; [|apply wpi_ret; split; [by eapply keeps_trans|done]].
  apply wpi_bind. apply wpi_range; [apply Hk2|]. intros w3 rows HL3 HR3 Hrows.
  assert (Hk3 : keeps w2 w3) by (apply keeps_rely; [apply Hk2|done]).
  apply wpi_bind. apply wpi_write_keeps; [done|]. intros w4 Hk4.
  assert (Hk14 : keeps w1 w4) by (eauto using keeps_trans).
  assert (Hrow : forall key id, (key, id) ∈ rows -> exists c,
    claims (mem w1) !! key = Some c /\ ID c = id).
  { intros key id Hin. rewrite Hrows, elem_of_map_to_list in Hin. unfold before in Hin.
    rewrite quarantine_snapshot_lookup in Hin. case_decide; [|done].
    destruct (claims (mem w1) !! key) as [c|]; [|done]. simpl in Hin. simplify_eq. eauto. }
  split.
  { apply settle_rows_ok; [apply Hk4|]. intros key id Hin Hlive.
    destruct (Hrow _ _ Hin) as (c & Hc & <-).
    assert (Hi : issued k0 (hist w1) (ID c) (Token c)) by (eapply held_issued; [apply Hk1|done]).
    apply (gone_keeps w2 w4 (ID c) (Token c)).
    - by eapply keeps_trans.
    - by eapply keeps_issued.
    - eapply Hgone; [done|]. by apply liveDeadlines_None. }
  intros Hk5. apply wpi_ret. split; [eauto using keeps_trans|].
  intros _ k Hown. simpl. apply settle_rows_lifts. intros Hq.
  assert (Hk : key_stable k (mem w1) (mem w4)) by (by apply Hk14).
  assert (Hd : k ∈ dom (claims (mem w4))) by (by apply Hk4).
  apply elem_of_dom in Hd as [c Hc]. exists c. split; [done|].
  destruct Hk as [Hk _]. destruct (Hk _ Hc) as (c0 & Hc0 & [= -> _]).
  rewrite Hrows, elem_of_map_to_list. unfold before.
  rewrite quarantine_snapshot_lookup, decide_True; [by rewrite Hc0|].
  by apply Hk14.
Qed.

(** ** The owner query, status reads and the lease watch *)

Lemma wpi_destroyAuthorized ns ref (Q : authVerdict * string -> World -> Prop) w :
  L w -> (forall v w1, keeps w w1 -> Q v w1) -> wpi (destroyAuthorized cfg ns ref) Q w.
Proof.
  intros HL HQ. unfold destroyAuthorized.
  destruct ref as [ref|]; [|by apply wpi_ret, HQ, keeps_refl].
  destruct (negb (HasDynamic cfg)); [by apply wpi_ret, HQ, keeps_refl|].
  destruct (ownerGVR _ _) as [gvr|]; [|by apply wpi_ret, HQ, keeps_refl].
  apply wpi_bind. apply wpi_owner; [done|]. intros r w1 Hk. by apply wpi_ret, HQ.
Qed.

Lemma wpi_publishExpiredLeases w :
  L w -> wpi (publishExpiredLeases cfg) (fun _ w' => keeps w w') w.
Proof using Hlist.
  intros HL. unfold publishExpiredLeases. rewrite Hlist.
  apply wpi_bind, wpi_now; [done|]. intros now w1 Hk1.
  apply wpi_bind, wpi_read_keeps; [apply Hk1|]. intros w2 Hk2.
  assert (Hk12 : keeps w w2) by (by eapply keeps_trans).
  destruct (decide _); [by apply wpi_ret|].
  apply wpi_bind, wpi_sandboxes; [apply Hk2|]. intros r w3 Hk3 _.
  assert (Hk13 : keeps w w3) by (by eapply keeps_trans).
  destruct r as [listed|]; [|by apply wpi_ret].
  apply wpi_bind, wpi_range; [apply Hk3|]. intros w4 rows HL4 HR4 _.
  eapply wpi_mono; [apply wpi_loop; [|done]|].
  - intros kc u w5 HL5. by apply wpi_publish_row.
  - intros ? w5 Hk5. eapply keeps_trans; [exact Hk13|].
    eapply keeps_trans; [apply keeps_rely; [apply Hk3|done]|done].
Qed.

(** ** The orphan scan *)

Lemma wpi_OrphanScan w : L w -> wpi (OrphanScan cfg) (fun _ w' => keeps w w') w.
Proof using Hlist.
  intros HL. unfold OrphanScan. rewrite Hlist. cbn [negb].
  apply wpi_bind, wpi_sandboxes; [done|]. intros r w1 Hk1 _.
  destruct r as [listed|]; [|by apply wpi_ret].
  apply wpi_bind, wpi_read_keeps; [apply Hk1|]. intros w2 Hk2.
  apply wpi_bind, wpi_range; [apply Hk2|]. intros w3 order HL3 HR3 _.
  apply wpi_bind, wpi_read_keeps; [done|]. intros w4 Hk4.
  apply wpi_bind, wpi_range; [apply Hk4|]. intros w5 rows HL5 HR5 _.
  apply wpi_bind, wpi_log; [done|]. intros w6 Hk6.
  apply wpi_bind, wpi_write_frame; [done|apply Hk6|]. intros w7 Hk7. apply wpi_ret.
  assert (keeps w2 w3) by (apply keeps_rely; [apply Hk2|done]).
  assert (keeps w4 w5) by (apply keeps_rely; [apply Hk4|done]).
  eauto 10 using keeps_trans.
Qed.

(** ** The owner re-check *)

Lemma wpi_recheck_row now base kc changed w :
  L w -> issued k0 (hist w) (ID kc.2) (Token kc.2) -> kc.1 ∉ quarantined (mem w) ->
  calm kc.1 (ID kc.2) w ->
  wpi (recheck_row cfg now base kc changed) (fun _ w' => keeps w w') w.
Proof.
  clear Hpath Hlist.
  intros HL Hi Hq Hcalm. destruct kc as [key c]. unfold recheck_row. simpl in Hi, Hq, Hcalm.
  apply wpi_bind, wpi_read_keeps; [done|]. intros w1 Hk1.
  destruct (negb (recheck_due _ _)); [by apply wpi_ret|].
  destruct (Cut key _) as [[ns rest] found].
  apply wpi_bind, wpi_destroyAuthorized; [apply Hk1|]. intros [v reason] w2 Hk2.
  assert (Hk02 : keeps w w2) by (by eapply keeps_trans).
  destruct v; cbn [fst].
  - apply wpi_bind, wpi_write_frame; [done|apply Hk2|]. intros w3 Hk3.
    apply wpi_ret. by eapply keeps_trans.
  - apply wpi_bind, wpi_locked_keeps; [apply Hk2|]. intros w3 Hk3.
    assert (Hk03 : keeps w w3) by (by eapply keeps_trans). split.
    + apply queue_row_ok; [apply Hk3|by eapply keeps_issued| |by eapply calm_keeps].
      destruct Hk03 as [_ (_ & [Hsub _] & _)]. set_solver.
    + intros Hk4. apply wpi_bind, wpi_write_frame; [done|apply Hk4|]. intros w5 Hk5.
      apply wpi_ret. eauto using keeps_trans.
Qed.

Lemma wpi_recheckOwners now base w :
  L w -> wpi (recheckOwners cfg now base) (fun _ w' => keeps w w') w.
Proof using Hpath.
  clear Hlist.
  intros HL. unfold recheckOwners. apply wpi_bind, wpi_read_keeps; [done|].
  intros w1 Hk1. set (preserved := preserved_claims (mem w1)).
  apply wpi_bind, wpi_write_frame; [done|apply Hk1|]. intros w2 Hk2.
  apply wpi_bind, wpi_range; [apply Hk2|]. intros w3 rows HL3 HR3 Hrows.
  assert (Hk13 : keeps w1 w3).
  { eapply keeps_trans; [done|]. apply keeps_rely; [apply Hk2|done]. }
  assert (Hrow : forall kc, kc ∈ rows ->
    issued k0 (hist w1) (ID kc.2) (Token kc.2) /\ (kc.1 ∉ quarantined (mem w1)) /\
    calm kc.1 (ID kc.2) w1).
  { intros [key c] Hin. rewrite Hrows, elem_of_map_to_list in Hin.
    unfold preserved, preserved_claims in Hin.
    apply map_lookup_filter_Some in Hin as [Hc (_ & _ & Hs)].
    apply settled_true in Hs as [Ht Hs]. split; [by apply (held_issued _ key); [apply Hk1|]|].
    split; [done|]. by apply settled_calm; [apply Hk1|..]. }
  apply wpi_bind. eapply wpi_mono.
  { apply (wpi_foldM _ _ _ (fun _ w' => keeps w1 w')); [|exact Hk13].
    intros kc changed w4 Hin Hk4. destruct (Hrow _ Hin) as (Hi & Hq & Hcalm).
    eapply wpi_mono; [apply wpi_recheck_row; [apply Hk4|by eapply keeps_issued| |by eapply calm_keeps]|].
    - destruct Hk4 as [_ (_ & [Hsub _] & _)]. set_solver.
    - intros ? w5 Hk5. by eapply keeps_trans. }
  intros changed w4 Hk4. apply wpi_bind, wpi_drainReleases; [apply Hk4|].
  intros released w5 Hk5.
  assert (Hk15 : keeps w1 w5) by exact (keeps_trans _ _ _ Hk4 Hk5).
  assert (Hk05 : keeps w w5) by exact (keeps_trans _ _ _ Hk1 Hk15).
  destruct (released || changed)%bool; [|by apply wpi_ret].
  apply wpi_saveState; [apply Hk5|]. intros w6 Hk6. by eapply keeps_trans.
Qed.

End concurrent.
