(* ===== verification/Lifecycle.v ===== *)
(** * CreatePod, UpdatePod and DeletePod under interference

    Goroutine [i] is the only one handling the pod key [key].  The heart is
    [wpi_claim_insert]: when sandboxd grants a credential, the row it goes to is
    empty, so no credential is overwritten. *)

From S2P Require Import Prelude GoLib Kube Prog State Provider StateFile Persist Ownership Status Create Delete Background Ledger Rules Concurrent.
Local Open Scope string_scope.
Local Open Scope list_scope.
#[local] Set Default Proof Using "Type".

Section lifecycle.
Context `{K : KubeLib}.
Context (k0 : gmap string string) (i : nat) (key : string).

Abbreviation own := (Some key).
Abbreviation L := (L k0 i).
Abbreviation R := (rely k0 i own).
Abbreviation G := (guar k0 i own).
Abbreviation wpi := (wpi k0 i own).
Abbreviation stab := (stab k0 own).
Abbreviation mem_ok := (mem_ok k0 i own).
Abbreviation keeps := (keeps k0 i own).

(** A row of the own key keeps its id as long as it stays. *)
Definition row_is (id : string) (w : World) : Prop :=
  forall c, claims (mem w) !! key = Some c -> ID c = id.

Definition row_empty (w : World) : Prop := claims (mem w) !! key = None.

Lemma row_is_keeps id w w' : keeps w w' -> row_is id w -> row_is id w'.
Proof.
  intros [_ (Hk & _)] Hr c Hc. destruct (Hk key eq_refl) as [Hk' _].
  destruct (Hk' _ Hc) as (c0 & Hc0 & [= -> _]). by apply Hr.
Qed.

Lemma row_empty_keeps w w' : keeps w w' -> row_empty w -> row_empty w'.
Proof.
  intros [_ (Hk & _)] Hr. destruct (Hk key eq_refl) as [Hk' _].
  unfold row_empty in *. destruct (claims (mem w') !! key) as [c|] eqn:Hc; [|done].
  destruct (Hk' _ eq_refl) as (c0 & Hc0 & _). congruence.
Qed.

Lemma tentative_keeps w w' :
  keeps w w' -> key ∈ tentative (mem w) -> key ∈ tentative (mem w').
Proof. intros [_ (Hk & _)] Ht. by apply (Hk key eq_refl). Qed.

Lemma quarantined_keeps w w' :
  keeps w w' -> key ∉ quarantined (mem w) -> key ∉ quarantined (mem w').
Proof. intros [_ (_ & Hq & _)] Hn. set_solver. Qed.

(** ** Changes of the own row *)

Lemma withdraw_row_ok w id :
  L w -> row_is id w -> gone (hist w) id ->
  mem_ok w (withdraw_row key id (mem w)) /\
  claims (withdraw_row key id (mem w)) !! key = None.
Proof.
  intros HL Hr Hg. unfold withdraw_row.
  destruct (claims (mem w) !! key) as [c|] eqn:Hc.
  - pose proof (Hr c Hc) as <-. rewrite String.eqb_refl. simpl.
    split; [|by rewrite lookup_delete_eq].
    eapply (mem_ok_delete _ _ _ _ _ key c); simpl; auto.
  - split; [|done]. simpl. destruct HL as [(Hf & Hi & [Hq Hcl] & Hd) _].
    constructor; simpl; auto.
    + set_solver.
    + intros k Hk. split; simpl; [eauto|]. assert (k <> key) by congruence. set_solver.
    + left. split; [|eauto]. intros k c' Hc' Hn. simpl in *. exists c'. split; [done|]. split; [done|].
      assert (k <> key) by congruence. set_solver.
    + apply kept_marks; simpl; [eauto|set_solver].
Qed.

Lemma preserve_row_ok w id o :
  L w -> mem_ok w (preserve_row key id o (mem w)).
Proof.
  intros HL. unfold preserve_row. simpl.
  destruct (claims (mem w) !! key) as [c|] eqn:Hc; [|by apply mem_ok_frame].
  destruct (String.eqb_spec (ID c) id); [|by apply mem_ok_frame].
  by eapply (mem_ok_update _ _ _ _ _ key c (with_Owner o c)).
Qed.

Lemma adopt_row_ok w pod :
  L w -> key ∉ quarantined (mem w) ->
  mem_ok w (adopt_row key pod (mem w)).2 /\
  ((adopt_row key pod (mem w)).1 = None ->
     claims (adopt_row key pod (mem w)).2 !! key = None \/
     key ∈ tentative (adopt_row key pod (mem w)).2).
Proof.
  intros HL Hq. unfold adopt_row.
  destruct (claims (mem w) !! key) as [c|] eqn:Hc.
  2: { split; [by apply mem_ok_frame|]. auto. }
  destruct (settled (mem w) key) eqn:Hs; simpl.
  2: { split; [by apply mem_ok_frame|]. intros _. right.
       destruct (decide (key ∈ tentative (mem w))) as [|Hn]; [done|].
       assert (settled (mem w) key = true) by (by apply settled_true). congruence. }
  apply settled_true in Hs as [Ht _].
  destruct (adoptableBy c pod); simpl.
  - split; [|done].
    by eapply (mem_ok_update _ _ _ _ _ key c (rebind (UID pod) (Some (authorityOf pod)) c)).
  - split; [|intros _; left; by rewrite lookup_delete_eq].
    eapply (mem_ok_delete _ _ _ _ _ key c); simpl; auto.
    + right. exists c. split; [|done]. apply elem_of_app. right. by apply list_elem_of_singleton.
    + set_solver.
    + intros q Hin. apply elem_of_app. by left.
    + intros q Hin. apply elem_of_app in Hin as [Hin|Hin%list_elem_of_singleton];
        [by left|right; by subst].
Qed.

(** A new row in an empty place, while its grant is open. *)
Lemma insert_claim_ok w pod c :
  Inv k0 w -> row_empty w -> issued k0 (hist w) (ID c) (Token c) -> ~ closed k0 (hist w) (ID c) ->
  mem_ok w (insert_claim key pod c (mem w)).
Proof.
  intros (Hf & Hi & [Hq Hcl] & Hd) Hr Hc Hopen. unfold row_empty in Hr. constructor; simpl.
  - intros id tok [(k & y & Hy & E)|Hy]; left; [left|by right].
    exists k, y. split; [|done]. simpl. rewrite lookup_insert_ne; [done|congruence].
  - intros id tok [(k & y & Hy & E)|Hy]; [|apply Hi; by right]. simpl in Hy.
    apply lookup_insert_Some in Hy as [[-> <-]|[_ Hy]].
    + by injection E as <- <-.
    + apply Hi. left. by exists k, y.
  - rewrite dom_insert_L. set_solver.
  - intros k Hk. assert (k <> key) by congruence. split; simpl; [|set_solver].
    intros c'. rewrite lookup_insert_ne by done. eauto.
  - left. split; [|simpl; eauto]. intros k c' Hc' Hn. simpl in *. assert (k <> key) by set_solver.
    rewrite lookup_insert_ne in Hc' by done. exists c'. set_solver.
  - intros k c' Hc' Ht. simpl in *. apply lookup_insert_Some in Hc' as [[_ <-]|[Hne Hc']]; [by right|left].
    exists c'. set_solver.
Qed.

(** ** The steps before the claim *)

Lemma wpi_adoptExistingClaim pod w :
  L w -> key ∉ quarantined (mem w) ->
  wpi (adoptExistingClaim key pod) (fun r w' => L w' /\
    (r = None -> row_empty w' \/ key ∈ tentative (mem w'))) w.
Proof.
  intros HL Hq. apply wpi_locked; [done|]. intros w1 HL1 HR.
  assert (Hk1 : keeps w w1) by (by apply keeps_rely).
  destruct (adopt_row_ok w1 pod HL1) as [Hok Hn]; [by eapply quarantined_keeps|].
  split; [done|]. intros HL2. split; [done|]. exact Hn.
Qed.

(** Returning a sandbox and withdrawing its row. *)
Lemma wpi_withdrawClaim id tok w :
  L w -> row_is id w -> issued k0 (hist w) id tok -> gone (hist w) id ->
  wpi (withdrawClaim key id) (fun _ w' => L w' /\ row_empty w') w.
Proof.
  intros HL Hr Hi Hg. apply wpi_write; [done|]. intros w1 HL1 HR.
  assert (Hk : keeps w w1) by (by apply keeps_rely).
  destruct (withdraw_row_ok w1 id HL1) as [Hok He].
  - by eapply row_is_keeps.
  - by eapply gone_keeps.
  - split; [done|]. intros HL2. by split.
Qed.

Lemma wpi_clearStrandedClaim w :
  L w -> row_empty w \/ key ∈ tentative (mem w) ->
  wpi (clearStrandedClaim key) (fun e w' => L w' /\ (e = None -> row_empty w')) w.
Proof.
  intros HL Hpre. unfold clearStrandedClaim. apply wpi_bind, wpi_read_keeps; [done|].
  intros w1 Hk1. destruct (claims (mem w1) !! key) as [c|] eqn:Hc.
  2: { apply wpi_ret. split; [apply Hk1|done]. }
  assert (Ht : key ∈ tentative (mem w1)).
  { destruct Hpre as [Hr|Ht]; [|by eapply tentative_keeps].
    pose proof (row_empty_keeps _ _ Hk1 Hr) as Hr1. unfold row_empty in Hr1. congruence. }
  rewrite bool_decide_true by done.
  assert (Hi : issued k0 (hist w1) (ID c) (Token c)) by (eapply held_issued; [apply Hk1|done]).
  assert (Hr : row_is (ID c) w1) by (intros c' Hc'; congruence).
  apply wpi_bind, wpi_release; [apply Hk1|]. intros r w2 Hk2 Hg.
  destruct r as [err|]; [apply wpi_ret; split; [apply Hk2|done]|].
  apply wpi_bind. eapply wpi_mono.
  - apply (wpi_withdrawClaim (ID c) (Token c)); [apply Hk2| | |by apply Hg].
    + by eapply row_is_keeps.
    + by eapply keeps_issued.
  - intros ? w3 [HL3 He]. apply wpi_ret. by split.
Qed.

Lemma wpi_undoUnpersistedClaim c err w :
  L w -> row_is (ID c) w -> issued k0 (hist w) (ID c) (Token c) ->
  wpi (undoUnpersistedClaim key c err) (fun _ w' => L w') w.
Proof.
  intros HL Hr Hi. unfold undoUnpersistedClaim.
  apply wpi_bind, wpi_release; [done|]. intros r w1 Hk1 Hg.
  destruct r as [e|]; [apply wpi_ret, Hk1|].
  apply wpi_bind. eapply wpi_mono.
  - apply (wpi_withdrawClaim (ID c) (Token c)); [apply Hk1| | |by apply Hg].
    + by eapply row_is_keeps.
    + by eapply keeps_issued.
  - intros ? w3 [HL3 _]. by apply wpi_ret.
Qed.

(** ** The claim *)

(** Since the grant the goroutine has only read the clock. *)
Definition pending (spec : ClaimSpec) (r : ClaimResult) (h : history) : Prop :=
  exists h1 h2, h = h1 ++ (i, EvClaim spec (inl r)) :: h2 /\
    Forall (fun ie => ie.1 = i -> is_clock ie.2) h2.

Lemma pending_ext spec r h t :
  pending spec r h -> Forall (fun ie => ie.1 = i -> is_clock ie.2) t -> pending spec r (h ++ t).
Proof.
  intros (h1 & h2 & -> & H2) Ht. exists h1, (h2 ++ t). rewrite <- app_assoc. split; [done|].
  by apply Forall_app.
Qed.

Lemma pending_in spec r h : pending spec r h -> (i, EvClaim spec (inl r)) ∈ h.
Proof. intros (h1 & h2 & -> & _). set_solver. Qed.

Lemma pending_open spec r h : fresh k0 h -> pending spec r h -> ~ closed k0 h (ResID r).
Proof.
  intros Hf (h1 & h2 & Hh & Hq) [[tok Hk]|(g1 & j & ev & g2 & ev' & Hg & Hgr & Hin & Hn)].
  - destruct (Hf _ _ _ (ResID r) Hh eq_refl). congruence.
  - destruct (fresh_unique k0 _ _ _ _ _ _ _ (ResID r) Hf Hh Hg eq_refl Hgr) as [[= <- <-] ->].
    rewrite Forall_forall in Hq. by apply Hn, (Hq _ Hin).
Qed.

(** Between the grant and the insertion the granted credential is the
    goroutine's alone; the other grants stay accounted for. *)
Definition in_flight (spec : ClaimSpec) (r : ClaimResult) (w : World) : Prop :=
  Inv k0 w /\ row_empty w /\ pending spec r (hist w) /\
  forall spec' r', (i, EvClaim spec' (inl r')) ∈ hist w ->
    r' = r \/ covered w (ResID r') (ResToken r').

Lemma in_flight_rely spec r w w' : in_flight spec r w -> R w w' -> in_flight spec r w'.
Proof.
  intros (HI & Hr & Hin & Hm) HR.
  destruct (HR HI) as ((HI' & _ & Hc) & (t & Ht & Hti) & Hk & _).
  split; [done|]. split; [|split].
  - destruct (Hk key eq_refl) as [Hk' _]. unfold row_empty in *.
    destruct (claims (mem w') !! key) as [c|] eqn:Hc'; [|done].
    destruct (Hk' _ eq_refl) as (c0 & Hc0 & _). congruence.
  - rewrite Ht. apply pending_ext; [done|]. eapply Forall_impl; [exact Hti|]. by intros ie Hne ?.
  - intros spec' r' Hin'. rewrite Ht in Hin'. apply elem_of_app in Hin' as [Hin'|Hin'].
    + destruct (Hm _ _ Hin') as [?|Hcov]; [by left|right]. apply Hc; [|done].
      right. by exists i, spec', r'.
    + rewrite Forall_forall in Hti. by destruct (Hti _ Hin').
Qed.

Lemma in_flight_emit spec r w ev :
  in_flight spec r w -> fresh k0 (hist w ++ [(i, ev)]) -> grants ev = None -> is_clock ev ->
  in_flight spec r (emit i ev w).
Proof.
  intros (HI & Hr & Hin & Hm) Hf Hg Hclk.
  destruct (guar_emit k0 i own ev w Hf HI) as ((HI' & _ & Hc) & _).
  split; [done|]. split; [done|]. split; [apply pending_ext; [done|by repeat constructor]|].
  intros spec' r' Hin'. simpl in Hin'.
  apply elem_of_app in Hin' as [Hin'|[=<-]%list_elem_of_singleton]; [|done].
  destruct (Hm _ _ Hin') as [?|Hcov]; [by left|right]. apply Hc; [|done].
  right. by exists i, spec', r'.
Qed.

Lemma wpi_claim_insert pod spec (Q : option perr -> World -> Prop) w
    (fail : gerr -> M (option perr)) (done_ : Claim -> M (option perr)) :
  L w -> row_empty w ->
  (forall err w1, keeps w w1 -> wpi (fail err) Q w1) ->
  (forall r now w1, let c := granted_claim pod r now in
     L w1 -> row_is (ID c) w1 -> issued k0 (hist w1) (ID c) (Token c) ->
     (i, EvClaim spec (inl r)) ∈ hist w1 -> wpi (done_ c) Q w1) ->
  wpi (r ← call (AClaim spec);
       match r with
       | inr err => fail err
       | inl r =>
           now ← call ANow;
           let c := granted_claim pod r now in
           _ ← write_mu (insert_claim key pod c);
           done_ c
       end) Q w.
Proof.
  intros HL Hr Hfail Hdone. apply wpi_bind. intros w1 HR1 r w2 [Hs Hf]. simpl in Hs. subst w2.
  assert (Hk1 : keeps w w1) by (by apply keeps_rely).
  split; [by apply guar_emit|]. destruct r as [r|err].
  2: { apply Hfail. split; [by apply (L_emit k0 i own); [apply Hk1|..]|].
       eapply stab_trans; [apply Hk1|apply stab_emit]. }
  assert (HF2 : in_flight spec r (emit i (EvClaim spec (inl r)) w1)).
  { destruct Hk1 as [[HI1 Hm1] Hst1].
    destruct (guar_emit k0 i own _ w1 Hf HI1) as ((HI2 & _ & Hc) & _).
    split; [done|]. split; [|split; [by exists (hist w1), []|]].
    - exact (row_empty_keeps w w1 (conj (conj HI1 Hm1) Hst1) Hr).
    - intros spec' r' Hin. simpl in Hin.
      apply elem_of_app in Hin as [Hin|[= _ ->]%list_elem_of_singleton]; [right|by left].
      apply Hc; [|by eapply Hm1]. right. by exists i, spec', r'. }
  apply wpi_bind. intros w3 HR3 now w4 [Hs4 Hf4]. simpl in Hs4. subst w4.
  pose proof (in_flight_rely _ _ _ _ HF2 HR3) as HF3. split; [by apply guar_emit|].
  assert (HF4 : in_flight spec r (emit i (EvNow now) w3)) by (by apply in_flight_emit).
  apply wpi_bind. intros w5 HR5 [] w6 [[_ Hs6] Hf6]. simpl in Hs6. subst w6.
  pose proof (in_flight_rely _ _ _ _ HF4 HR5) as (HI5 & Hr5 & Hin5 & Hm5).
  set (c := granted_claim pod r now).
  assert (Hi : issued k0 (hist w5) (ID c) (Token c)).
  { right. exists i, spec, r. split; [by apply pending_in|done]. }
  pose proof (insert_claim_ok w5 pod c HI5 Hr5 Hi (pending_open _ _ _ (proj1 HI5) Hin5)) as Hok.
  pose proof (guar_mem _ _ _ _ _ Hok) as HG. split; [exact HG|].
  destruct (HG HI5) as ((HI6 & _ & Hc6) & _). apply Hdone.
  - split; [done|]. intros spec' r' Hin'. destruct (Hm5 _ _ Hin') as [->|Hcov].
    + left. left. exists key, c. simpl. by rewrite lookup_insert_eq.
    + apply Hc6; [|done]. right. by exists i, spec', r'.
  - intros c' Hc'. simpl in Hc'. rewrite lookup_insert_eq in Hc'. by simplify_eq.
  - done.
  - by apply pending_in.
Qed.

(** ** Operations that use the configuration *)

Context (cfg : Config) (Hpath : StatePath cfg <> "") (Hlist : HasLister cfg = true).

Lemma wpi_resolveUnverifiedClaim w :
  L w ->
  wpi (resolveUnverifiedClaim cfg key) (fun e w' => keeps w w' /\
    (e = None -> key ∉ quarantined (mem w'))) w.
Proof using Hlist.
  intros HL. unfold resolveUnverifiedClaim. apply wpi_bind, wpi_read_keeps; [done|].
  intros w1 Hk1. destruct (bool_decide_reflect (key ∈ quarantined (mem w1))) as [Hq|Hq];
    cbn [negb]; [|by apply wpi_ret].
  apply wpi_bind. eapply wpi_mono; [apply wpi_verify; [done|apply Hk1]|].
  intros ok w2 [Hk2 Hok]. assert (Hk02 : keeps w w2) by (by eapply keeps_trans).
  destruct ok; apply wpi_ret; (split; [done|]); intros; [by apply Hok|done].
Qed.

Lemma wpi_settleExpiredClaim w :
  L w -> wpi (settleExpiredClaim cfg key) (fun _ w' => keeps w w') w.
Proof using Hlist.
  intros HL. unfold settleExpiredClaim, claimFor. apply wpi_bind, wpi_read_keeps; [done|].
  intros w1 Hk1. destruct (settled (mem w1) key) eqn:Hs; cbn [negb]; [|by apply wpi_ret].
  apply settled_true in Hs as [Ht Hq].
  destruct (claims (mem w1) !! key) as [c|] eqn:Hc; [|by apply wpi_ret].
  assert (Hi : issued k0 (hist w1) (ID c) (Token c)) by (eapply held_issued; [apply Hk1|done]).
  apply wpi_bind, wpi_now; [apply Hk1|]. intros now w2 Hk2.
  assert (Hk02 : keeps w w2) by (by eapply keeps_trans).
  destruct (negb (expired c now)); [by apply wpi_ret|]. rewrite Hlist. cbn [negb].
  apply wpi_bind, wpi_sandboxes; [apply Hk2|]. intros r w3 Hk3 Hgone.
  assert (Hk13 : keeps w1 w3) by (by eapply keeps_trans).
  assert (Hk03 : keeps w w3) by (by eapply keeps_trans).
  destruct r as [listed|err]; [|by apply wpi_ret].
  destruct (find_row listed (ID c)) as [row|] eqn:Hrow; apply wpi_bind.
  - apply wpi_refreshDeadline; [apply Hk3|]. intros w4 Hk4. apply wpi_ret.
    by eapply keeps_trans.
  - apply wpi_write_keeps; [apply Hk3|]. intros w4 Hk4. split.
    + apply drop_row_ok; [apply Hk4| |].
      * eapply (gone_keeps _ _ _ w3); [done|by eapply (keeps_issued _ _ _ w1)|].
        eapply Hgone; [done|]. by apply find_row_None.
      * eapply (quarantined_keeps w1); [by eapply keeps_trans|done].
    + intros Hk5. apply wpi_ret. by eapply keeps_trans.
Qed.

(** ** The commit *)

(** After the rename the row counts; its credential is in the file and its grant is
    over. *)
Lemma wpi_commitClaim spec r w :
  L w -> row_is (ResID r) w -> (i, EvClaim spec (inl r)) ∈ hist w ->
  wpi (commitClaim cfg key) (fun e w' => L w' /\ (e <> None -> keeps w w')) w.
Proof using Hpath.
  clear Hlist.
  intros HL Hrow Hgrant. unfold commitClaim. apply wpi_bind, wpi_lock; [done|]. intros w1 HL1 HR1.
  apply wpi_bind. eapply wpi_mono; [by apply wpi_write_file|].
  intros e w2 (st & HW & Hdisk). pose proof HW as (Hk2 & Ho2 & _).
  assert (Hk02 : keeps w w2).
  { eapply keeps_trans; [by apply (keeps_rely _ _ _ w w1)|]. exact Hk2. }
  destruct e as [err|].
  { apply wpi_bind, wpi_unlock; [apply Hk2|done|]. intros w3 HL3 HR3. apply wpi_ret.
    split; [done|]. intros _. eapply keeps_trans; [exact Hk02|].
    by apply (keeps_rely _ _ _ w2 w3); [apply Hk2|]. }
  apply wpi_bind, wpi_write; [apply Hk2|]. intros w3 HL3 HR3.
  destruct (writing_rely _ _ _ _ _ _ _ _ HW HR3) as [(Hk3 & Ho3 & Hcov & Hown) Hd3].
  split.
  - destruct HL3 as [(Hf & Hi & [Hq Hcl] & Hdur) _]. destruct (Hdisk eq_refl) as [Hst2 (t & ev & Ht & Hev & Hnc)].
    assert (Hk03 : keeps w w3) by (eapply keeps_trans; [exact Hk02|by apply (keeps_rely _ _ _ w2 w3); [apply Hk2|]]).
    constructor; simpl; auto.
    + intros k Hk. assert (k <> key) by congruence. split; simpl; [eauto|set_solver].
    + right. split; [done|]. split.
      * exists st. split; [by rewrite Hd3|]. split; [|apply Hcov].
        intros k c Hc Hn. simpl in *. destruct (decide (k = key)) as [->|]; [by apply Hown|].
        apply (proj1 Hcov k); [done|]. set_solver.
      * intros k c Hc Hn. simpl in *. destruct (decide (k = key)) as [->|].
        2:{ apply (Hcl k); [done|]. set_solver. }
        rewrite (row_is_keeps _ _ _ Hk03 Hrow c Hc).
        destruct (HR3 (proj1 (proj1 Hk2))) as (_ & (t3 & Ht3 & _) & _). rewrite Ht3. apply closed_ext.
        destruct (HR1 (proj1 HL)) as (_ & (t1 & Ht1 & _) & _). simpl in Ht.
        rewrite Ht, Ht1. apply list_elem_of_split in Hgrant as (g1 & g2 & ->). right.
        exists g1, i, (EvClaim spec (inl r)), (g2 ++ t1 ++ t), ev. rewrite <- !app_assoc. set_solver.
    + apply kept_marks; simpl; [eauto|set_solver].
  - intros HL4. apply wpi_bind, wpi_unlock; [done|done|]. intros w5 HL5 HR5.
    apply wpi_ret. by split.
Qed.

(** ** The handlers *)

Lemma wpi_check (p q : M (option perr)) (Q : option perr -> World -> Prop) w :
  wpi p (fun e w' => match e with Some e => Q (Some e) w' | None => wpi q Q w' end) w ->
  wpi (check_err p q) Q w.
Proof.
  intros H. unfold check_err. apply wpi_bind. eapply wpi_mono; [exact H|].
  intros [e|] w' HQ; [by apply wpi_ret|done].
Qed.

Lemma wpi_pushRunning pod c (Q : unit -> World -> Prop) w :
  L w -> (forall w1, keeps w w1 -> Q tt w1) -> wpi (pushRunning pod c) Q w.
Proof. intros HL HQ. by apply wpi_notify. Qed.

Lemma wpi_CreatePod pod w :
  keyOf pod = key -> L w -> wpi (CreatePod cfg pod) (fun _ w' => L w') w.
Proof using Hpath Hlist.
  intros Hkey HL. unfold CreatePod. change (podKey (Namespace pod) (PodName pod)) with (keyOf pod).
  rewrite Hkey. cbv zeta.
  destruct (negb _); [by apply wpi_ret|].
  apply wpi_check. eapply wpi_mono; [by apply wpi_resolveUnverifiedClaim|].
  intros [e|] w1 [Hk1 Hq1]; [apply Hk1|].
  apply wpi_check. eapply wpi_mono; [apply wpi_settleExpiredClaim, Hk1|].
  intros [e|] w2 Hk2; [apply Hk2|].
  assert (Hq2 : key ∉ quarantined (mem w2)) by (eapply quarantined_keeps; [exact Hk2|auto]).
  apply wpi_bind. eapply wpi_mono; [apply wpi_adoptExistingClaim; [apply Hk2|done]|].
  intros [c|] w3 [HL3 H3].
  { apply wpi_bind, wpi_saveState; [done|done|]. intros w4 Hk4.
    apply wpi_bind, wpi_pushRunning; [apply Hk4|]. intros w5 Hk5. apply wpi_ret, Hk5. }
  apply wpi_check. eapply wpi_mono; [apply wpi_clearStrandedClaim; auto|].
  intros [e|] w4 [HL4 He4]; [done|]. specialize (He4 eq_refl).
  destruct (claim_ttl pod) as [ttl|]; [|by apply wpi_ret].
  destruct (String.eqb _ _); [by apply wpi_ret|].
  apply (wpi_claim_insert pod _ _ _ (fun err => mret (Some (ErrClaim key _ err)))
    (fun c => e ← commitClaim cfg key;
              match e with
              | Some err => undoUnpersistedClaim key c err
              | None => _ ← pushRunning pod c; mret None
              end)); [done|done| |].
  - intros err w5 Hk5. apply wpi_ret, Hk5.
  - intros r now w5 c HL5 Hr5 Hi5 Hg5. apply wpi_bind.
    eapply wpi_mono; [by apply (wpi_commitClaim (claim_spec pod ttl) r)|]. intros [err|] w6 [HL6 Hk6].
    + assert (Hk56 : keeps w5 w6) by (by apply Hk6).
      apply wpi_undoUnpersistedClaim; [done|by eapply row_is_keeps|by eapply keeps_issued].
    + apply wpi_bind, wpi_pushRunning; [done|]. intros w7 Hk7. apply wpi_ret, Hk7.
Qed.

Lemma wpi_UpdatePod pod w :
  keyOf pod = key -> L w -> wpi (UpdatePod cfg pod) (fun _ w' => L w') w.
Proof using Hpath Hlist.
  intros Hkey HL. unfold UpdatePod. change (podKey (Namespace pod) (PodName pod)) with (keyOf pod).
  rewrite Hkey. cbv zeta. apply wpi_bind, wpi_read_keeps; [done|]. intros w1 Hk1.
  destruct (negb _); [apply wpi_ret, Hk1|].
  apply wpi_bind, wpi_locked; [apply Hk1|]. intros w2 HL2 HR2.
  destruct (bool_decide (key ∈ tentative (mem w2))); (split; [by apply mem_ok_frame|]);
    intros HL3; [by apply wpi_CreatePod|by apply wpi_ret].
Qed.

Lemma wpi_DeletePod pod w :
  keyOf pod = key -> L w -> wpi (DeletePod cfg pod) (fun _ w' => L w') w.
Proof using Hpath Hlist.
  intros Hkey HL. unfold DeletePod. change (podKey (Namespace pod) (PodName pod)) with (keyOf pod).
  rewrite Hkey. cbv zeta. apply wpi_bind, wpi_read_keeps; [done|]. intros w1 Hk1.
  destruct (negb _); [apply wpi_ret, Hk1|].
  apply wpi_bind, wpi_read_keeps; [apply Hk1|]. intros w2 Hk2.
  destruct (claims (mem w2) !! key) as [c|] eqn:Hc.
  2: { apply wpi_bind, wpi_write_frame; [done|apply Hk2|]. intros w3 Hk3.
       apply wpi_ret, Hk3. }
  assert (Hi : issued k0 (hist w2) (ID c) (Token c)) by (eapply held_issued; [apply Hk2|done]).
  assert (Hr : row_is (ID c) w2) by (intros c' Hc'; congruence).
  apply wpi_bind, wpi_destroyAuthorized; [apply Hk2|]. intros [v reason] w3 Hk3.
  destruct v; cbn [fst].
  - apply wpi_bind. unfold preserveClaim. apply wpi_bind, wpi_write; [apply Hk3|].
    intros w4 HL4 _. split; [by apply preserve_row_ok|]. intros HL5.
    apply wpi_saveState; [done|done|]. intros w6 Hk6. apply wpi_ret, Hk6.
  - apply wpi_bind, wpi_release; [apply Hk3|]. intros r w4 Hk4 Hg.
    assert (Hk24 : keeps w2 w4) by (by eapply keeps_trans).
    destruct r as [err|]; [apply wpi_ret, Hk4|].
    apply wpi_bind. eapply wpi_mono.
    + apply (wpi_withdrawClaim (ID c) (Token c)); [apply Hk4| | |by apply Hg].
      * by eapply row_is_keeps.
      * by eapply keeps_issued.
    + intros ? w5 [HL5 _]. apply wpi_bind, wpi_saveState; [done|done|].
      intros w6 Hk6. apply wpi_ret, Hk6.
Qed.

(** Dropping the guarded view of the own key leaves [L]. *)
Lemma wpi_GetPodStatus ns name w : L w -> wpi (GetPodStatus ns name) (fun _ w' => L w') w.
Proof.
  intros HL. unfold GetPodStatus. apply wpi_bind, wpi_read_keeps; [done|]. intros w1 Hk1.
  destruct (pods (mem w1) !! _); [|apply wpi_ret, Hk1].
  destruct (claims (mem w1) !! _); [|apply wpi_ret, Hk1].
  destruct (settled (mem w1) _); [|apply wpi_ret, Hk1].
  apply wpi_bind, wpi_now; [apply Hk1|]. intros now w2 Hk2.
  destruct (expired _ now); apply wpi_ret, Hk2.
Qed.
End lifecycle.
