(* ===== verification/Pool.v ===== *)
(** * The daemon: every interleaving of the goroutines

    main.go starts the background loops and virtual-kubelet calls the pod handlers
    from its work queues, which never run two syncs of one pod key at a time.
    Here a goroutine is one key's sequence of handler calls or one loop, and the
    theorems hold for every interleaving of any number of them, action by action,
    with any answers of sandboxd, the apiserver, the disk and the clock. *)

From S2P Require Import Prelude GoLib Kube Prog State Provider StateFile Persist Ownership Status Create Delete Background Ledger Rules Concurrent Lifecycle.
Local Open Scope string_scope.
Local Open Scope list_scope.

Inductive handler_call :=
| OpCreate (pod : Pod)
| OpUpdate (pod : Pod)
| OpDelete (pod : Pod)
| OpStatus (namespace name : string).

Inductive goroutine :=
| PodWorker (key : string) (calls : list handler_call)
| OrphanScanner (ticks : nat) (interval : duration)
| ClaimVerifier (ticks : nat) (interval : duration)
| LeaseWatcher (ticks : nat) (interval : duration)
| OwnerRechecker (ticks : nat) (interval : duration).

(** The pods a worker handles all have its key. *)
Definition call_on (key : string) (c : handler_call) : Prop :=
  match c with
  | OpCreate pod | OpUpdate pod | OpDelete pod => keyOf pod = key
  | OpStatus _ _ => True
  end.

Definition key_of (g : goroutine) : option string :=
  match g with PodWorker key _ => Some key | _ => None end.

Definition goroutine_wf (g : goroutine) : Prop :=
  match g with PodWorker key calls => Forall (call_on key) calls | _ => True end.

(** No two workers share a key. *)
Definition pool_wf (gs : list goroutine) : Prop :=
  Forall goroutine_wf gs /\
  forall i j g g' k, i <> j -> gs !! i = Some g -> gs !! j = Some g' ->
    key_of g = Some k -> key_of g' <> Some k.

Section pool.
Context `{K : KubeLib} (cfg : Config).

Definition run_call (c : handler_call) : M unit :=
  match c with
  | OpCreate pod => _ ← CreatePod cfg pod; mret tt
  | OpUpdate pod => _ ← UpdatePod cfg pod; mret tt
  | OpDelete pod => _ ← DeletePod cfg pod; mret tt
  | OpStatus ns name => _ ← GetPodStatus ns name; mret tt
  end.

Definition body (g : goroutine) : M unit :=
  match g with
  | PodWorker _ calls => foldM (fun c _ => run_call c) calls tt
  | OrphanScanner n d => _ ← RunOrphanScan cfg n d; mret tt
  | ClaimVerifier n d => _ ← RunClaimVerification cfg n d; mret tt
  | LeaseWatcher n d => _ ← RunLeaseWatch cfg n d; mret tt
  | OwnerRechecker n d => _ ← RunOwnerRecheck cfg n d; mret tt
  end.

(** The provider's goroutines main.go starts next to the pod workers, with the
    interval of each. *)
Definition main_loops (ticks : nat) (orphan verify lease recheck : duration) : list goroutine :=
  (if Z.ltb 0 orphan then [OrphanScanner ticks orphan] else []) ++
  [ClaimVerifier ticks verify; LeaseWatcher ticks lease; OwnerRechecker ticks recheck].

(** The worlds the daemon can reach from [w0]; sandboxd issues each id once. *)
Definition reaches (k0 : gmap string string) (gs : list goroutine) (w0 : World)
    (ts : list (M unit)) (w : World) : Prop :=
  rtc (pool_step (fstep k0)) (body <$> gs, w0) (ts, w).

Definition own_of (gs : list goroutine) (i : nat) : option string :=
  match gs !! i with Some g => key_of g | None => None end.

Context (Hpath : StatePath cfg <> "") (Hlist : HasLister cfg = true).

Lemma body_wpi k0 i g w :
  goroutine_wf g -> L k0 i w -> wpi k0 i (key_of g) (body g) (fun _ w' => L k0 i w') w.
Proof using Hpath Hlist.
  intros Hwf HL. destruct g as [key calls|n d|n d|n d|n d]; cbn [body key_of].
  - apply wpi_foldM; [|done]. intros c [] w1 Hin HL1.
    simpl in Hwf. rewrite Forall_forall in Hwf. specialize (Hwf c Hin).
    destruct c as [pod|pod|pod|ns name]; cbn [run_call]; apply wpi_bind;
      (eapply wpi_mono; [first [by apply wpi_CreatePod | by apply wpi_UpdatePod
        | by apply wpi_DeletePod | by apply wpi_GetPodStatus]|]);
      intros ? w2 HL2; by apply wpi_ret.
  - apply wpi_bind. eapply wpi_mono; [apply wpi_runTicker; [|done]|].
    + intros w1 HL1. apply wpi_bind. eapply wpi_mono; [by apply wpi_OrphanScan|].
      intros ? w2 Hk2. by apply wpi_ret.
    + intros ? w1 Hk1. apply wpi_ret, Hk1.
  - apply wpi_bind. eapply wpi_mono; [apply wpi_runTicker; [|done]|].
    + intros w1 HL1. apply wpi_bind. eapply wpi_mono; [by apply wpi_verify|].
      intros ok w2 [Hk2 _]. destruct ok; cbn [negb]; [|by apply wpi_ret].
      apply wpi_read_keeps; [apply Hk2|]. intros w3 Hk3. by eapply keeps_trans.
    + intros ? w1 Hk1. apply wpi_ret, Hk1.
  - apply wpi_bind. eapply wpi_mono; [apply wpi_runTicker; [|done]|].
    + intros w1 HL1. apply wpi_bind. eapply wpi_mono; [by apply wpi_publishExpiredLeases|].
      intros ? w2 Hk2. by apply wpi_ret.
    + intros ? w1 Hk1. apply wpi_ret, Hk1.
  - apply wpi_bind. eapply wpi_mono; [apply wpi_runTicker; [|done]|].
    + intros w1 HL1. apply wpi_bind, wpi_now; [done|]. intros now w2 Hk2.
      apply wpi_bind. eapply wpi_mono; [apply wpi_recheckOwners; [done|apply Hk2]|].
      intros ? w3 Hk3. apply wpi_ret. exact (keeps_trans _ _ _ _ _ _ Hk2 Hk3).
    + intros ? w1 Hk1. apply wpi_ret, Hk1.
Qed.

Definition RG (k0 : gmap string string) (gs : list goroutine) (i : nat) :=
  (rely k0 i (own_of gs i), guar k0 i (own_of gs i)).

Lemma RG_compatible k0 gs i j w w' :
  pool_wf gs -> i <> j -> (RG k0 gs i).2 w w' -> (RG k0 gs j).1 w w'.
Proof.
  intros [_ Hd] Hij HG. eapply guar_rely; [done| |exact HG].
  intros k Hi Hj. unfold own_of in *.
  destruct (gs !! i) as [g|] eqn:Hgi, (gs !! j) as [g'|] eqn:Hgj; try done.
  by apply (Hd i j g g' k).
Qed.

Lemma pool_start k0 gs w0 i p :
  pool_wf gs -> Inv k0 w0 -> (forall i, mine i w0) -> (body <$> gs) !! i = Some p ->
  wp (fstep k0 i) (RG k0 gs i).1 (RG k0 gs i).2 p (fun _ w => L k0 i w) w0.
Proof using Hpath Hlist.
  intros [Hwf _] HI Hm Hp. apply list_lookup_fmap_Some in Hp as (g & -> & Hg). simpl.
  unfold own_of. rewrite Hg. apply body_wpi; [|by split].
  rewrite Forall_forall in Hwf. by eapply Hwf, list_elem_of_lookup_2.
Qed.

Lemma pool_guaranteed k0 gs w0 ts w (I : World -> Prop) :
  pool_wf gs -> Inv k0 w0 -> (forall i, mine i w0) ->
  (forall i w w', I w -> guar k0 i (own_of gs i) w w' -> I w') ->
  I w0 -> reaches k0 gs w0 ts w -> I w.
Proof using Hpath Hlist.
  intros Hwf HI Hm HG H0 Hr.
  apply (pool_invariant (fstep k0) (RG k0 gs) (fun i _ w => L k0 i w) I
    (body <$> gs, w0) (ts, w)); [| | |exact HG| |exact H0|exact Hr].
  - intros i. apply rely_preorder.
  - intros i j w1 w2. by apply RG_compatible.
  - intros i _ w1 w2 HL HR. exact (L_rely _ _ _ _ _ HL HR).
  - intros i p. by apply pool_start.
Qed.

Lemma pool_thread k0 gs w0 ts w i p :
  pool_wf gs -> Inv k0 w0 -> (forall i, mine i w0) -> reaches k0 gs w0 ts w ->
  ts !! i = Some p ->
  wp (fstep k0 i) (RG k0 gs i).1 (RG k0 gs i).2 p (fun _ w => L k0 i w) w.
Proof using Hpath Hlist.
  intros Hwf HI Hm Hr Hi.
  apply (pool_safe (fstep k0) (RG k0 gs) (fun i _ w => L k0 i w)
    (body <$> gs, w0) (ts, w)); [| | | |exact Hr|exact Hi].
  - intros j. apply rely_preorder.
  - intros j1 j2 w1 w2. by apply RG_compatible.
  - intros j _ w1 w2 HL HR. exact (L_rely _ _ _ _ _ HL HR).
  - intros j q. by apply pool_start.
Qed.

Lemma pool_Inv k0 gs w0 ts w :
  pool_wf gs -> Inv k0 w0 -> (forall i, mine i w0) -> reaches k0 gs w0 ts w -> Inv k0 w.
Proof using Hpath Hlist.
  intros Hwf HI Hm Hr. apply (pool_guaranteed k0 gs w0 ts w (Inv k0)); [done|done|done| |done|done].
  intros i w1 w2 HI1 HG. by apply HG.
Qed.

(** Coverage of an issued credential is kept by every interleaving. *)
Lemma pool_covered k0 gs w0 ts w id tok :
  pool_wf gs -> Inv k0 w0 -> (forall i, mine i w0) -> reaches k0 gs w0 ts w ->
  issued k0 (hist w0) id tok -> covered w0 id tok -> covered w id tok.
Proof using Hpath Hlist.
  intros Hwf HI Hm Hr Hi0 Hc0.
  assert (H : issued k0 (hist w) id tok /\ Inv k0 w /\ covered w id tok); [|by apply H].
  apply (pool_guaranteed k0 gs w0 ts w
    (fun w => issued k0 (hist w) id tok /\ Inv k0 w /\ covered w id tok)); [done|done|done| |done|done].
  intros i w1 w2 (Hi & HI1 & Hc) HG.
  destruct (HG HI1) as ((HI2 & _ & Hcov) & (t & Ht & _) & _).
  split; [|split; [done|by apply Hcov]]. rewrite Ht. by apply issued_ext.
Qed.

(** C1: No interleaving loses a release credential.  A credential the provider
    holds when the goroutines start, and every credential sandboxd grants to a
    goroutine that has since finished its call, is still held in the claims
    table or the release queue, unless the history shows that the sandbox is
    gone (released, or absent from a listing taken after the grant). *)
Theorem no_credential_lost k0 gs w0 ts w :
  pool_wf gs -> Inv k0 w0 -> (forall i, mine i w0) -> reaches k0 gs w0 ts w ->
  (forall id tok, holds (mem w0) id tok -> covered w id tok) /\
  (forall i spec r, ts !! i = Some (Ret tt) -> (i, EvClaim spec (inl r)) ∈ hist w ->
     covered w (ResID r) (ResToken r)).
Proof using Hpath Hlist.
  intros Hwf HI Hm Hr. split.
  - intros id tok Hh. apply (pool_covered k0 gs w0 ts w); [done|done|done|done| |by left].
    by apply HI.
  - intros i spec r Hi Hin.
    pose proof (pool_thread _ _ _ _ _ _ _ Hwf HI Hm Hr Hi) as [_ Hmine].
    by apply (Hmine spec).
Qed.

(** C2: What counts is durable.  In every reachable world, the state file on disk has
    the id and token of every claim that is not tentative and of every claim in the
    release queue. *)
Theorem settled_claims_durable k0 gs w0 ts w :
  pool_wf gs -> Inv k0 w0 -> (forall i, mine i w0) -> reaches k0 gs w0 ts w ->
  exists st, stateOnDisk (disk w) = Some (Doc (encode_state st)) /\
    (forall key c, claims (mem w) !! key = Some c -> key ∉ tentative (mem w) -> file_has st (cred c)) /\
    (forall c, c ∈ releasing (mem w) -> file_has st (cred c)).
Proof using Hpath Hlist.
  intros Hwf HI Hm Hr. destruct (pool_Inv _ _ _ _ _ Hwf HI Hm Hr) as (_ & _ & _ & st & Hst & Hcov).
  by exists st.
Qed.
End pool.
