(* ===== verification/Startup.v ===== *)
(** * Starting the provider: [New] over the file a previous process left

    The state file is read back, every loaded row is quarantined and judged by a
    listing, and the table is saved again before the provider serves pods. *)

From stdpp Require Import sorting.
From S2P Require Import Prelude GoLib Kube Prog State Provider StateFile Persist Runs Ledger Concurrent Pool.
Local Open Scope string_scope.
Local Open Scope list_scope.

(** A process starts with the disk and nothing else. *)
Definition boot (d : Disk) : World := mkWorld emptyProvider d [] None.

Definition load_event (ev : event) : Prop :=
  match ev with EvRead _ | EvNow _ | EvSandboxes _ => True | _ => disk_event ev end.

Section startup.
Context `{K : KubeLib} `{HK : !KubeLibOk} (cfg : Config) (env : Env).

(** The table [loadState] builds from the file's. *)
Definition loaded (st : stateFile) (now : time) : Provider :=
  set_claims (match SClaims st with Some cs => backfill now <$> cs | None => ∅ end)
    (set_releasing (SReleasing st) emptyProvider).

Lemma cred_stored c : cred (stored_claim c) = cred c.
Proof. done. Qed.

Lemma cred_backfill now c : cred (backfill now c) = cred c.
Proof. unfold backfill. by case_match. Qed.

(** The table holds the file's credentials and no others. *)
Lemma loaded_holds st now id tok :
  holds (loaded (stored_state st) now) id tok <-> file_has st (id, tok).
Proof.
  unfold holds, file_has, loaded, stored_state. simpl. split; intros [H|H].
  - destruct H as (k & c & Hk & Hc). left. destruct (SClaims st) as [m|]; simpl in Hk; [|by rewrite lookup_empty in Hk].
    rewrite <- map_fmap_compose, lookup_fmap in Hk. destruct (m !! k) as [c0|] eqn:Hm; simplify_eq/=.
    exists m, k, c0. rewrite cred_backfill in Hc. done.
  - destruct H as (c & Hin & Hc). right. apply list_elem_of_fmap in Hin as (c0 & -> & Hin). by exists c0.
  - destruct H as (m & k & c & -> & Hk & Hc). left. exists k, (backfill now (stored_claim c)).
    simpl. rewrite <- map_fmap_compose, lookup_fmap, Hk. split; [done|]. by rewrite cred_backfill.
  - destruct H as (c & Hin & Hc). right. exists (stored_claim c). split; [|done].
    apply list_elem_of_fmap. eauto.
Qed.

Lemma exec_loadState st d w' :
  StatePath cfg <> "" -> stateOnDisk d = Some (Doc (encode_state st)) -> timely_state st ->
  exec env (loadState cfg) (boot d) = (None, w') ->
  disk w' = d /\ adds load_event (boot d) w' /\ exists now, mem w' = loaded (stored_state st) now.
Proof.
  intros Hp Hd Ht. unfold loadState. destruct (String.eqb_spec (StatePath cfg) ""); [done|].
  xact. unfold read_answer. cbn [disk boot]. rewrite Hd.
  destruct (env_read env _) as [e|]; [done|]. cbn [Unmarshal]. rewrite decode_encode_state by done.
  xwrite. destruct (SClaims (stored_state st)) as [cs|] eqn:Hcs.
  - xact. xwrite. intros [= <-]. split; [done|]. split; [add_events|].
    eexists. unfold loaded. by rewrite Hcs.
  - intros [= <-]. split; [done|]. split; [add_events|].
    exists zeroTime. unfold loaded. by rewrite Hcs.
Qed.

(** A verification of a table that is quarantined as a whole. *)
Lemma verify_quarantined w :
  HasLister cfg = true -> tentative (mem w) = ∅ -> quarantined (mem w) = dom (claims (mem w)) ->
  let w' := (verify_result cfg env w).2 in
  disk w' = disk w /\ saveOwner w' = saveOwner w /\ adds load_event w w' /\
  tentative (mem w') = ∅ /\ quarantined (mem w') ⊆ dom (claims (mem w')) /\
  (forall id tok, holds (mem w) id tok -> covered w' id tok) /\
  (forall id tok, holds (mem w') id tok -> holds (mem w) id tok) /\
  (forall key c, claims (mem w') !! key = Some c -> settled (mem w') key = true ->
     exists listed, (0, EvSandboxes (inl listed)) ∈ hist w' /\ ID c ∈ SumID <$> listed).
Proof.
  intros Hl Ht Hq w'. unfold w', verify_result. rewrite Hl. cbn [negb].
  assert (Hun : unverified (mem w) = dom (claims (mem w))) by (unfold unverified; set_solver).
  assert (Hset : forall key c, claims (mem w) !! key = Some c -> settled (mem w) key = true -> False).
  { intros key c Hk [_ Hn]%settled_true. apply Hn. rewrite Hq. by eapply elem_of_dom_2. }
  assert (Hsub : quarantined (mem w) ⊆ dom (claims (mem w))) by set_solver.
  case_decide as He; [|destruct (env_list env (hist w)) as [listed|e]]; cbn [snd mem set_mem emit].
  - split; [done|]. split; [done|]. split; [add_events|]. split; [done|]. split; [done|].
    split; [by left|]. split; [done|]. intros key c Hk Hs. by destruct (Hset key c).
  - split; [done|]. split; [done|]. split; [add_events|]. split; [done|].
    split; [simpl; set_solver|].
    set (p' := verified_on (liveDeadlines listed) (unverified (mem w)) (mem w)).
    assert (Hrow : forall key c, claims (mem w) !! key = Some c ->
      claims p' !! key = judged (liveDeadlines listed) c).
    { intros key c Hk. simpl. rewrite map_lookup_imap, Hk. simpl. unfold judged_in.
      rewrite decide_True; [done|]. rewrite Hun. by eapply elem_of_dom_2. }
    split; [|split].
    + intros id tok [(key & c & Hk & Hc)|(c & Hc)]; [|left; right; by exists c].
      specialize (Hrow key c Hk). unfold judged in Hrow.
      destruct (liveDeadlines listed !! ID c) as [dl|] eqn:Hlive.
      * left. left. exists key. eexists. split; [exact Hrow|]. by case_match.
      * right. apply gone_now. simpl. apply liveDeadlines_None. by injection Hc as <- _.
    + intros id tok [(key & c & Hk & Hc)|(c & Hc)]; [|right; by exists c].
      destruct (claims (mem w) !! key) as [c0|] eqn:Hk0.
      2:{ simpl in Hk. by rewrite map_lookup_imap, Hk0 in Hk. }
      rewrite (Hrow key c0 Hk0) in Hk. left. exists key, c0. split; [done|].
      unfold judged in Hk. repeat case_match; by simplify_eq.
    + intros key c Hk _. exists listed. split; [set_solver|].
      destruct (claims (mem w) !! key) as [c0|] eqn:Hk0.
      2:{ simpl in Hk. by rewrite map_lookup_imap, Hk0 in Hk. }
      rewrite (Hrow key c0 Hk0) in Hk. unfold judged in Hk.
      destruct (liveDeadlines listed !! ID c0) as [dl|] eqn:Hlive; [|done].
      assert (ID c = ID c0) as -> by (repeat case_match; by simplify_eq).
      apply elem_of_dom_2 in Hlive. rewrite dom_liveDeadlines in Hlive. set_solver.
  - split; [done|]. split; [done|]. split; [add_events|]. split; [done|]. split; [done|].
    split; [by left|]. split; [done|]. intros key c Hk Hs. by destruct (Hset key c).
Qed.

Lemma adds_no_grant w w' : hist w = [] -> adds load_event w w' ->
  Forall (fun ie : nat * event => grants ie.2 = None) (hist w').
Proof.
  intros H0 (t & Ht & F). rewrite Ht, H0. eapply Forall_impl; [exact F|].
  by intros [i []].
Qed.

Lemma no_grant_fresh k0 h :
  Forall (fun ie : nat * event => grants ie.2 = None) h -> fresh k0 h.
Proof.
  intros F. assert (Ho : omap (fun ie : nat * event => grants ie.2) h = []).
  { induction F as [|ie h Hie _ IH]; [done|]. simpl. by rewrite Hie. }
  apply fresh_intro; rewrite Ho; constructor.
Qed.

(** [New] up to its save: the loaded table, quarantined and verified once. *)
Lemma exec_New st d w' :
  StatePath cfg <> "" -> HasLister cfg = true ->
  stateOnDisk d = Some (Doc (encode_state st)) -> timely_state st ->
  exec env (New cfg) (boot d) = (None, w') ->
  exists w1, hist (boot d) = [] /\ adds load_event (boot d) w1 /\
    tentative (mem w1) = ∅ /\ quarantined (mem w1) = dom (claims (mem w1)) /\
    (forall id tok, holds (mem w1) id tok <-> file_has st (id, tok)) /\
    saved cfg env "" (verify_result cfg env w1).2 None w'.
Proof.
  intros Hp Hl Hd Ht. unfold New. xwrite. change (set_mem emptyProvider (boot d)) with (boot d).
  rewrite exec_check. destruct (exec env (loadState cfg) (boot d)) as [[e|] w1] eqn:Hload; [done|].
  destruct (exec_loadState _ _ _ Hp Hd Ht Hload) as (_ & Ha & now & Hm). cbn [fst snd].
  rewrite Hl, exec_bind. unfold quarantineLoadedClaims. xwrite.
  rewrite (exec_bind env (VerifyClaimsAgainstNode cfg)), exec_verify, exec_ret. cbn [snd].
  set (w2 := set_mem _ w1). rewrite exec_bind.
  destruct (exec_persist cfg env (verify_result cfg env w2).2) as [Hs _].
  destruct (exec env (persist cfg) _) as [[e|] w3]; [done|]. intros [= <-].
  exists w2. split; [done|]. split; [done|].
  assert (Hm2 : mem w2 = set_quarantined (dom (claims (mem w1)) ∪ ∅) (loaded (stored_state st) now)).
  { unfold w2. simpl. by rewrite Hm. }
  rewrite Hm2, Hm. split; [done|]. split; [simpl; set_solver|]. split; [|exact Hs].
  intros id tok. apply (loaded_holds st now id tok).
Qed.

(** The credentials of the file after [New]. *)
Lemma startup_covered st d w' id tok :
  StatePath cfg <> "" -> HasLister cfg = true ->
  stateOnDisk d = Some (Doc (encode_state st)) -> timely_state st ->
  exec env (New cfg) (boot d) = (None, w') -> file_has st (id, tok) -> covered w' id tok.
Proof.
  intros Hp Hl Hd Ht Hrun Hfile.
  destruct (exec_New _ _ _ Hp Hl Hd Ht Hrun) as (w1 & _ & _ & Ht1 & Hq1 & Hh1 & Hm & (t & Hht & Ft) & _).
  destruct (verify_quarantined w1 Hl Ht1 Hq1) as (_ & _ & _ & _ & _ & Hc2 & _).
  apply Hh1, Hc2 in Hfile. destruct Hfile as [Hh|(h1 & ie & h2 & Heq & Hev & Hg)].
  - left. by rewrite Hm.
  - right. exists h1, ie, (h2 ++ t). rewrite Hht, Heq, <- app_assoc. split; [done|].
    split; [done|]. apply Forall_app. split; [done|].
    eapply Forall_impl; [exact Ft|]. by intros [i []].
Qed.

(** [New] establishes the daemon's invariant, with no grant in its history. *)
Lemma startup_Inv st d w' k0 :
  StatePath cfg <> "" -> HasLister cfg = true ->
  stateOnDisk d = Some (Doc (encode_state st)) -> timely_state st ->
  (forall id tok, file_has st (id, tok) -> k0 !! id = Some tok) ->
  exec env (New cfg) (boot d) = (None, w') ->
  Inv k0 w' /\ (forall i, mine i w').
Proof.
  intros Hp Hl Hd Ht Hk Hrun.
  destruct (exec_New _ _ _ Hp Hl Hd Ht Hrun) as (w1 & H0 & Ha1 & Ht1 & Hq1 & Hh1 & Hm & Ha & Hf & _).
  destruct (verify_quarantined w1 Hl Ht1 Hq1) as (_ & _ & Ha2 & Ht2 & Hq2 & Hc2 & Hh2 & Hs2).
  set (w2 := (verify_result cfg env w1).2) in *.
  assert (Hall : adds load_event (boot d) w').
  { eapply adds_trans; [eapply adds_trans; [exact Ha1|exact Ha2]|].
    eapply adds_mono; [|exact Ha]. by intros []. }
  pose proof (adds_no_grant _ _ H0 Hall) as Hng. split.
  - assert (Hknown : forall id tok, holds (mem w2) id tok -> k0 !! id = Some tok)
      by (intros id tok Hh; by apply Hk, Hh1, Hh2).
    split; [by apply no_grant_fresh|]. rewrite Hm. split; [|split; [split; [done|]|]].
    + intros id tok Hh. left. by apply Hknown.
    + intros k c Hc _. left. exists (Token c). apply Hknown. left. by exists k, c.
    + eexists. split; [by apply Hf|apply snapshot_covers].
  - intros i spec r Hin. rewrite Forall_forall in Hng. by specialize (Hng _ Hin).
Qed.

(** C4: A restart loses nothing that was saved.  When [New] succeeds over a state
    file, every credential of the file is in the new table or release queue, or a
    listing taken by [New] shows its sandbox is gone; the provider starts in the
    invariant of the daemon (C1, C2) with nothing tentative; and a row counts as
    settled only if that listing contained its sandbox. *)
Theorem startup_restores st d w' k0 :
  StatePath cfg <> "" -> HasLister cfg = true ->
  stateOnDisk d = Some (Doc (encode_state st)) -> timely_state st ->
  (forall id tok, file_has st (id, tok) -> k0 !! id = Some tok) ->
  exec env (New cfg) (boot d) = (None, w') ->
  (forall id tok, file_has st (id, tok) -> covered w' id tok) /\
  Inv k0 w' /\ (forall i, mine i w') /\ tentative (mem w') = ∅ /\
  (forall key c, claims (mem w') !! key = Some c -> settled (mem w') key = true ->
     exists listed, (0, EvSandboxes (inl listed)) ∈ hist w' /\ ID c ∈ SumID <$> listed).
Proof.
  intros Hp Hl Hd Ht Hk Hrun. destruct (startup_Inv _ _ _ _ Hp Hl Hd Ht Hk Hrun) as [HI Hmi].
  destruct (exec_New _ _ _ Hp Hl Hd Ht Hrun) as (w1 & _ & _ & Ht1 & Hq1 & _ & Hm & (t & Hht & _) & _).
  destruct (verify_quarantined w1 Hl Ht1 Hq1) as (_ & _ & _ & Ht2 & _ & _ & _ & Hs2).
  split; [intros id tok; by eapply startup_covered|]. split; [done|]. split; [done|].
  rewrite Hm. split; [done|]. intros key c Hc Hset.
  destruct (Hs2 key c Hc Hset) as (listed & Hin & Hid). exists listed. split; [|done]. rewrite Hht. set_solver.
Qed.

(** The document determines the credentials of the table it was made from. *)
Lemma encode_claim_cred c c' : encode_claim c = encode_claim c' -> cred c = cred c'.
Proof. unfold encode_claim, cred. simpl. by intros [= -> -> _]. Qed.

Lemma encode_file_has st st' cr :
  encode_state st = encode_state st' -> file_has st cr -> file_has st' cr.
Proof.
  destruct st as [om q], st' as [om' q']. unfold encode_state. cbn [SClaims SReleasing].
  intros Heq. injection Heq as Hm Hq. intros [(m & k & c & Hs & Hk & <-)|(c & Hc & <-)].
  - simpl in Hs. subst om. destruct om' as [m'|]; [|done]. injection Hm as Hm.
    assert (Hin : (k, encode_claim c) ∈ prod_map id encode_claim <$> map_to_list m').
    { rewrite <- (merge_sort_Permutation key_le), <- Hm, merge_sort_Permutation.
      apply list_elem_of_fmap. exists (k, c). split; [done|]. by apply elem_of_map_to_list. }
    apply list_elem_of_fmap in Hin as ([k' c'] & Hkc & Hin%elem_of_map_to_list).
    apply (f_equal snd) in Hkc. left. exists m', k', c'. split; [done|]. split; [done|].
    symmetry. by apply encode_claim_cred.
  - simpl in Hc. right. destruct q as [|c1 q1]; [by apply elem_of_nil in Hc|].
    destruct q' as [|c2 q2]; [done|]. set (l := c1 :: q1) in *. set (l' := c2 :: q2) in *.
    assert (Hl : encode_claim <$> l = encode_claim <$> l')
      by exact (f_equal (fun j => match j with [(_, JArr x)] => x | _ => [] end) Hq).
    assert (Hin : encode_claim c ∈ encode_claim <$> l) by (apply list_elem_of_fmap; eauto).
    rewrite Hl in Hin. apply list_elem_of_fmap in Hin as (c' & Hcc & Hin).
    exists c'. split; [done|]. symmetry. by apply encode_claim_cred.
Qed.

(** C5: A crash at any instant loses nothing that counts.  Take any world any
    interleaving reaches, in the middle of a save included; a new process that
    starts successfully over the disk as it is then holds the credential of every
    claim that was not tentative and of every claim that was queued for release, or
    its listing shows the sandbox is gone. *)
Theorem crash_recovery k0 gs w0 ts w st w' c :
  StatePath cfg <> "" -> HasLister cfg = true ->
  pool_wf gs -> Inv k0 w0 -> (forall i, mine i w0) -> reaches cfg k0 gs w0 ts w ->
  stateOnDisk (disk w) = Some (Doc (encode_state st)) -> timely_state st ->
  exec env (New cfg) (boot (disk w)) = (None, w') ->
  (exists key, claims (mem w) !! key = Some c /\ (key ∉ tentative (mem w))) \/ c ∈ releasing (mem w) ->
  covered w' (ID c) (Token c).
Proof.
  intros Hp Hl Hwf HI Hm Hr Hd Ht Hrun Hc.
  destruct (pool_Inv cfg Hp Hl _ _ _ _ _ Hwf HI Hm Hr) as (_ & _ & _ & st' & Hst & Hcov & Hq).
  apply (startup_covered st (disk w)); try done.
  apply (encode_file_has st'); [congruence|]. destruct Hc as [(key & Hk & Hn)|Hin]; [by eapply Hcov|by apply Hq].
Qed.
End startup.
