(* ===== verification/StatusSpec.v ===== *)
(** * What Kubernetes is told

    The status of a pod in terms of the claims table, what Running implies in every
    reachable world, and the address a status carries. *)

From S2P Require Import Prelude GoLib Kube Prog State Provider StateFile Persist Runs Status Ledger Pool.
From Stdlib Require Import Ascii.
Local Open Scope string_scope.
Local Open Scope list_scope.

Section status.
Context `{K : KubeLib} (cfg : Config) (env : Env).

(** The key's row, if it may be served: a tentative or quarantined one is withheld. *)
Definition served_row (p : Provider) (key : string) : option Claim :=
  if settled p key then claims p !! key else None.

(** No row, or one that is tentative or quarantined. *)
Definition unserved (p : Provider) (key : string) : Prop :=
  claims p !! key = None \/ key ∈ tentative p \/ key ∈ quarantined p.

(** The status a read computes. *)
Definition status_of (pod : Pod) (row : option Claim) (now : time) : PodStatus :=
  match row with
  | None => with_Phase PodPending (Status pod)
  | Some c => if expired c now then expiredStatus pod c else runningStatus pod c
  end.

Lemma exec_GetPodStatus ns name w :
  let key := podKey ns name in
  let '(st, w') := exec env (GetPodStatus ns name) w in
  st = (pod ← pods (mem w) !! key; Some (status_of pod (served_row (mem w) key) (env_now env (hist w)))) /\
  mem w' = mem w /\ disk w' = disk w.
Proof.
  cbv zeta. unfold GetPodStatus, served_row. xread.
  destruct (pods (mem w) !! _) as [pod|]; [|done].
  destruct (claims (mem w) !! _) as [c|]; [|by destruct (settled (mem w) _)].
  destruct (settled (mem w) _); [|done]. xact. unfold status_of. simpl. by destruct (expired c _).
Qed.

Lemma served_row_None p key : served_row p key = None <-> unserved p key.
Proof.
  unfold served_row, unserved. destruct (settled p key) eqn:Hs.
  - apply settled_true in Hs as [? ?]. naive_solver.
  - split; [|done]. intros _. right. destruct (decide (key ∈ tentative p)); [by left|right].
    apply dec_stable. intros Hq. assert (settled p key = true) by (by apply settled_true). congruence.
Qed.

Lemma served_row_Some p key c :
  served_row p key = Some c <-> claims p !! key = Some c /\ ~ unserved p key.
Proof.
  rewrite <- served_row_None. unfold served_row. destruct (settled p key); [|naive_solver].
  split; [intros ->; by split|by intros [-> _]].
Qed.

(** What is reported of a container of a pod with the claim [c]. *)
Definition reports (c : Claim) (ready : bool) (state : ContainerState) (ctr : Container)
    (cs : ContainerStatus) : Prop :=
  CSName cs = ContainerName ctr /\ CSImage cs = ContainerImage ctr /\
  CSImageID cs = "sandboxd://" +:+ ID c /\ CSReady cs = ready /\ CSState cs = state.

Lemma containerStatuses_reports pod c state ready :
  Forall2 (reports c ready state) (Containers pod) (containerStatuses pod c state ready).
Proof.
  unfold containerStatuses. induction (Containers pod) as [|ctr l IH]; [done|]. by constructor.
Qed.

(** Pending: the status the pod came with, but for its phase. *)
Definition pending_status (pod : Pod) (s : PodStatus) : Prop :=
  let s0 := Status pod in
  s = mkPodStatus PodPending (Conditions s0) (Message s0) (Reason s0) (HostIP s0) (PodIP s0)
        (PodIPs s0) (StartTime s0) (ContainerStatuses s0).

(** Failed: the lease end is the finish time of every container. *)
Definition failed_status (pod : Pod) (c : Claim) (s : PodStatus) : Prop :=
  Phase s = PodFailed /\ Reason s = "SandboxLeaseExpired" /\
  Message s = "sandbox lease ended at " +:+ FormatRFC3339 (Deadline c)
    +:+ "; the microVM is reaped at the deadline" /\
  Conditions s = [] /\ HostIP s = "" /\ PodIP s = "" /\ PodIPs s = [] /\
  StartTime s = Some (ClaimedAt c) /\
  Forall2 (reports c false (mkContainerState None (Some (mkTerminated 1 "SandboxLeaseExpired" (Deadline c)))))
    (Containers pod) (ContainerStatuses s).

(** Running: since the claim, at the claim's host, ready in every respect. *)
Definition running_status (pod : Pod) (c : Claim) (s : PodStatus) : Prop :=
  let ip := claimIP (Address c) in
  Phase s = PodRunning /\ Reason s = "" /\ Message s = "" /\
  Conditions s = [mkPodCondition PodInitialized true; mkPodCondition PodReady true;
                  mkPodCondition PodScheduled true] /\
  HostIP s = ip /\ PodIP s = ip /\ (ip = "" -> PodIPs s = []) /\ (ip <> "" -> PodIPs s = [ip]) /\
  StartTime s = Some (ClaimedAt c) /\
  Forall2 (reports c true (mkContainerState (Some (ClaimedAt c)) None)) (Containers pod) (ContainerStatuses s).

Lemma expiredStatus_failed pod c : failed_status pod c (expiredStatus pod c).
Proof. repeat (split; [done|]). apply containerStatuses_reports. Qed.

Lemma runningStatus_running pod c : running_status pod c (runningStatus pod c).
Proof.
  unfold runningStatus, running_status. cbn. repeat (split; [done|]).
  split; [by bdestr|]. split; [by bdestr|]. split; [by bdestr|].
  split; [done|apply containerStatuses_reports].
Qed.

(** C26: A pod's status is exactly what its row and the clock say.  An unknown pod
    has none.  Without a row, or while its row is tentative or quarantined, the
    status is the pod's own with the phase Pending.  With a settled row whose lease
    is over (a lease end is known and the clock has reached it) it is Failed, with
    the lease end as the finish time of every container, all terminated with exit
    code 1, and no address; otherwise Running since the claim, at the claim's host,
    every container ready.  A status read changes neither memory nor disk. *)
Theorem status_exact ns name w :
  let key := podKey ns name in
  let now := env_now env (hist w) in
  let '(st, w') := exec env (GetPodStatus ns name) w in
  mem w' = mem w /\ disk w' = disk w /\
  (pods (mem w) !! key = None -> st = None) /\
  (forall pod, pods (mem w) !! key = Some pod -> exists s, st = Some s /\
     (unserved (mem w) key -> pending_status pod s) /\
     (forall c, claims (mem w) !! key = Some c -> ~ unserved (mem w) key ->
        (lease_over c now -> failed_status pod c s) /\
        (~ lease_over c now -> running_status pod c s))).
Proof.
  cbv zeta. pose proof (exec_GetPodStatus ns name w) as H. cbv zeta in H.
  destruct (exec env (GetPodStatus ns name) w) as [st w']. destruct H as (-> & Hm & Hd).
  split; [done|]. split; [done|]. split; [by intros ->|].
  intros pod ->. eexists. split; [done|]. split.
  - by intros ->%served_row_None.
  - intros c Hc Hn. rewrite (proj2 (served_row_Some _ _ c)) by done. unfold status_of. split.
    + intros ->%expired_iff. apply expiredStatus_failed.
    + intros ->%expired_not_iff. apply runningStatus_running.
Qed.

(** C27: Running means durable.  In every reachable world, a pod that a status
    read reports Running has a row whose credential is in the state file on disk,
    so a crash right after the answer cannot lose its sandbox. *)
Theorem running_means_durable k0 gs w0 ts w ns name s w' :
  StatePath cfg <> "" -> HasLister cfg = true ->
  pool_wf gs -> Inv k0 w0 -> (forall i, mine i w0) -> reaches cfg k0 gs w0 ts w ->
  exec env (GetPodStatus ns name) w = (Some s, w') -> Phase s = PodRunning ->
  exists c st, claims (mem w) !! podKey ns name = Some c /\
    stateOnDisk (disk w) = Some (Doc (encode_state st)) /\ file_has st (cred c).
Proof.
  intros Hp Hl Hwf HI Hm Hr Hrun Hph.
  destruct (pool_Inv cfg Hp Hl _ _ _ _ _ Hwf HI Hm Hr) as (_ & _ & _ & st & Hst & Hcov & _).
  pose proof (exec_GetPodStatus ns name w) as H. cbv zeta in H. rewrite Hrun in H.
  destruct H as (Hs & _ & _). destruct (pods (mem w) !! _) as [pod|]; simplify_eq/=.
  unfold served_row, status_of in Hph. destruct (settled (mem w) (podKey ns name)) eqn:Hset; [|done].
  destruct (claims (mem w) !! podKey ns name) as [c|] eqn:Hc; [|done].
  apply settled_true in Hset as [Ht _]. exists c, st. split; [done|]. split; [done|]. by eapply Hcov.
Qed.

(** A host or port as it stands in an address: no colon and no bracket. *)
Definition plain (s : string) : Prop :=
  contains_byte s ":" = false /\ contains_byte s "[" = false /\ contains_byte s "]" = false.

(** C30: The published address is the host of sandboxd's owner address.  For
    [host:port], and for [[host]:port] with an IPv6 host, [claimIP] is the host; an
    address without a port is published as it is; and a nonempty address never
    gives an empty one. *)
Theorem claimIP_host host port addr :
  (host <> "" -> plain host -> plain port -> claimIP (host +:+ String ":" port) = host) /\
  (host <> "" -> contains_byte host "[" = false -> contains_byte host "]" = false -> plain port ->
     claimIP (String "[" (host +:+ String "]" (String ":" port))) = host) /\
  (contains_byte addr ":" = false -> claimIP addr = addr) /\
  (addr <> "" -> claimIP addr <> "").
Proof.
  unfold claimIP. split; [|split; [|split]].
  - intros Hne (? & ? & ?) (? & ? & ?). rewrite SplitHostPort_join by done. by bdestr.
  - intros Hne ? ? (? & ? & ?). rewrite SplitHostPort_join_bracket by done. by bdestr.
  - intros Hc. unfold SplitHostPort. apply LastIndexByte_None in Hc. by rewrite Hc.
  - intros Hne. destruct (SplitHostPort addr) as [[h q]|]; [|done]. by bdestr.
Qed.
End status.
