(* ===== verification/Authority.v ===== *)
(** * Who may destroy a sandbox

    The rule of docs/architecture.md that a pod deletion is not VM authority, as an
    invariant of the whole daemon: every release that any goroutine sends to
    sandboxd has a reason, and the reason is in the history before it.  The proof
    is a second rely/guarantee layer over the same programs; it does not need fresh
    ids. *)

From S2P Require Import Prelude GoLib Kube Prog State Provider StateFile Persist Ownership Status Create Delete Background Ledger Pool.
From Stdlib Require Import Ascii.
Local Open Scope string_scope.
Local Open Scope list_scope.

Section authority.
Context `{K : KubeLib} (cfg : Config).
(** The calls the workers make, and the table the run starts from. *)
Context (calls : handler_call -> Prop) (p0 : Provider).

(** sandboxd granted [cr] for the pod key in this run. *)
Definition granted (h : history) (key : string) (cr : string * string) : Prop :=
  exists i spec r, (i, EvClaim spec (inl r)) ∈ h /\ ClaimRef spec = key /\
    (ResID r, ResToken r) = cr.

(** [cr] is the credential of [key]'s sandbox. *)
Definition bound (h : history) (key : string) (cr : string * string) : Prop :=
  (exists c, claims p0 !! key = Some c /\ cred c = cr) \/ granted h key cr.

(** The apiserver answered that the owner is gone, in teardown, expired or replaced:
    an answer of the decision table [gone_by]. *)
Definition owner_gone (h : history) (namespace : string) (ref : OwnerReference) : Prop :=
  HasDynamic cfg = true /\
  exists i gvr r, ownerGVR (APIVersion ref) (Kind ref) = Some gvr /\
    (i, EvGetOwner gvr namespace (OwnerName ref) r) ∈ h /\ gone_by ref r.

(** Why a claim is in the release queue: a previous run queued it, a pod of
    another authority took its key, or its recorded owner is gone. *)
Inductive queue_reason (h : history) (c : Claim) : Prop :=
| queued_before : c ∈ releasing p0 -> queue_reason h c
| queued_replaced pod :
    calls (OpCreate pod) \/ calls (OpUpdate pod) ->
    bound h (keyOf pod) (cred c) -> ~ same_authority c pod -> queue_reason h c
| queued_owner_gone key ref :
    bound h key (cred c) -> Owner c = Some ref ->
    owner_gone h (Cut key "/"%char).1.1 ref -> queue_reason h c.

(** What goroutine [i] did in [h]. *)
Definition events_of (i : nat) (h : history) : list event := (filter (fun ie => ie.1 = i) h).*2.

(** A save that failed at one of its three steps. *)
Inductive failed_save : list event -> Prop :=
| failed_mkdir e : failed_save [EvMkdirAll (Some e)]
| failed_write e : failed_save [EvMkdirAll None; EvWriteTmp (Some e)]
| failed_rename e : failed_save [EvMkdirAll None; EvWriteTmp None; EvRename (Some e)].

(** sandboxd granted [cr] for the pod key, and the commit of that claim failed: all
    that the goroutine that got it did next was to read the clock and to fail to
    save, so it neither made the claim durable nor reported it; then it did [rest]. *)
Definition unsaved (h : history) (key : string) (cr : string * string) (rest : list event) : Prop :=
  exists h1 i spec r h2 now evs,
    h = h1 ++ (i, EvClaim spec (inl r)) :: h2 /\ ClaimRef spec = key /\ (ResID r, ResToken r) = cr /\
    failed_save evs /\ events_of i h2 = EvNow now :: evs ++ rest.

(** The claim is being undone for the first time, or its undo was refused before. *)
Definition undone (h : history) (key : string) (cr : string * string) : Prop :=
  unsaved h key cr [] \/
  exists err rest, unsaved h key cr (EvRelease DetachedCtx cr.1 cr.2 (Some err) :: rest).

(** Why a release is sent: the pod that is deleted has no controller, or its
    controller is gone; the claim could not be saved when it was made; or the queue
    holds it. *)
Inductive release_reason (h : history) : relctx -> string -> string -> Prop :=
| release_bare pod id tok :
    calls (OpDelete pod) -> bound h (keyOf pod) (id, tok) -> GetControllerOf pod = None ->
    release_reason h CallerCtx id tok
| release_owner_gone pod ref id tok :
    calls (OpDelete pod) -> bound h (keyOf pod) (id, tok) -> GetControllerOf pod = Some ref ->
    owner_gone h (Namespace pod) ref -> release_reason h CallerCtx id tok
| release_uncommitted pod id tok :
    calls (OpCreate pod) \/ calls (OpUpdate pod) -> undone h (keyOf pod) (id, tok) ->
    release_reason h DetachedCtx id tok
| release_queue c :
    queue_reason h c -> release_reason h CallerCtx (ID c) (Token c).

Definition table_ok (h : history) (p : Provider) : Prop :=
  (forall k c, claims p !! k = Some c -> bound h k (cred c)) /\
  (forall c, c ∈ releasing p -> queue_reason h c).

Definition releases_ok (h : history) : Prop :=
  forall h1 i ctx id tok r h2, h = h1 ++ (i, EvRelease ctx id tok r) :: h2 ->
    release_reason h1 ctx id tok.

(** The invariant all goroutines keep. *)
Definition Lawful (w : World) : Prop := table_ok (hist w) (mem w) /\ releases_ok (hist w).

(** A tentative row of [k] is a tentative row from before. *)
Definition tent_stable (k : string) (p p' : Provider) : Prop :=
  forall c', claims p' !! k = Some c' -> k ∈ tentative p' ->
    exists c, claims p !! k = Some c /\ cred c' = cred c /\ k ∈ tentative p.

(** The key whose pods the goroutine handles, if any. *)
Context (own : option string).

(** Between its calls, a tentative row of the goroutine's key is stranded: its commit
    failed and so did its release. *)
Definition Stranded (w : World) : Prop :=
  forall k c, own = Some k -> claims (mem w) !! k = Some c -> k ∈ tentative (mem w) ->
    exists err rest, unsaved (hist w) k (cred c) (EvRelease DetachedCtx (ID c) (Token c) (Some err) :: rest).

Definition Auth (w : World) : Prop := Lawful w /\ Stranded w.

(** What goroutine [i] guarantees, and what it relies on. *)
Definition gives (i : nat) (w w' : World) : Prop :=
  Lawful w -> Lawful w' /\
  (exists t, hist w' = hist w ++ t /\ Forall (fun ie => ie.1 = i) t) /\
  forall k, own <> Some k -> tent_stable k (mem w) (mem w').

Definition steady (i : nat) (w w' : World) : Prop :=
  Lawful w -> Lawful w' /\
  (exists t, hist w' = hist w ++ t /\ Forall (fun ie => ie.1 <> i) t) /\
  forall k, own = Some k -> tent_stable k (mem w) (mem w').

Definition grown (w w' : World) : Prop := hist w `prefix_of` hist w' /\ Auth w'.

Definition wpa {A} (i : nat) (p : M A) (Q : A -> World -> Prop) (w : World) : Prop :=
  wp (astep i) (steady i) (gives i) p Q w.

(** ** Histories grow *)

Lemma granted_mono h h' key cr : h `prefix_of` h' -> granted h key cr -> granted h' key cr.
Proof.
  intros [t ->] (i & spec & r & Hin & H). exists i, spec, r. split; [set_solver|done].
Qed.

Lemma bound_mono h h' key cr : h `prefix_of` h' -> bound h key cr -> bound h' key cr.
Proof. intros Hp [H|H]; [by left|right]. by eapply granted_mono. Qed.

Lemma owner_gone_mono h h' ns ref :
  h `prefix_of` h' -> owner_gone h ns ref -> owner_gone h' ns ref.
Proof.
  intros [t ->] (Hd & i & gvr & r & Hg & Hin & Hj). split; [done|].
  exists i, gvr, r. split; [done|]. split; [set_solver|done].
Qed.

Lemma queue_reason_mono h h' c : h `prefix_of` h' -> queue_reason h c -> queue_reason h' c.
Proof.
  intros Hp []; [by apply queued_before
    |eapply queued_replaced; eauto using bound_mono
    |eapply queued_owner_gone; eauto using bound_mono, owner_gone_mono].
Qed.

Lemma table_ok_mono h h' p : h `prefix_of` h' -> table_ok h p -> table_ok h' p.
Proof. intros Hp (H1 & H2). split; eauto using bound_mono, queue_reason_mono. Qed.

Lemma events_of_app i h t : events_of i (h ++ t) = events_of i h ++ events_of i t.
Proof. unfold events_of. by rewrite filter_app, fmap_app. Qed.

Lemma events_of_others i t : Forall (fun ie : nat * event => ie.1 <> i) t -> events_of i t = [].
Proof.
  unfold events_of. induction 1 as [|ie t Hi _ IH]; [done|]. by rewrite filter_cons_False.
Qed.

Lemma events_of_own i l : events_of i (pair i <$> l) = l.
Proof.
  unfold events_of. induction l as [|ev l IH]; [done|]. rewrite fmap_cons, filter_cons_True by done.
  rewrite fmap_cons. by f_equal.
Qed.

Lemma unsaved_mono h h' key cr rest :
  h `prefix_of` h' -> unsaved h key cr rest -> exists t, unsaved h' key cr (rest ++ t).
Proof.
  intros [t ->] (h1 & i & spec & r & h2 & now & evs & -> & Hk & Hcr & Hf & He).
  exists (events_of i t), h1, i, spec, r, (h2 ++ t), now, evs. rewrite events_of_app, He.
  split; [by rewrite <- app_assoc|]. repeat (split; [done|]). by rewrite <- app_comm_cons, <- app_assoc.
Qed.

#[export] Instance steady_preorder i : PreOrder (steady i).
Proof.
  split.
  - intros w HL. split; [done|]. split; [exists []; by rewrite app_nil_r|]. intros k _ c Hc Ht. eauto.
  - intros w1 w2 w3 H1 H2 HL. destruct (H1 HL) as (HL2 & (t1 & Ht1 & F1) & S1).
    destruct (H2 HL2) as (HL3 & (t2 & Ht2 & F2) & S2). split; [done|]. split.
    + exists (t1 ++ t2). rewrite Ht2, Ht1, app_assoc. split; [done|]. by apply Forall_app.
    + intros k Hk c3 Hc3 T3. destruct (S2 k Hk c3 Hc3 T3) as (c2 & Hc2 & -> & T2). by apply S1.
Qed.

(** A stranded row stays one, whatever the others do. *)
Lemma Stranded_mono w w' :
  hist w `prefix_of` hist w' -> (forall k, own = Some k -> tent_stable k (mem w) (mem w')) ->
  Stranded w -> Stranded w'.
Proof.
  intros Hp Hs HS k c' Hk Hc' Ht'. destruct (Hs k Hk c' Hc' Ht') as (c & Hc & [= Hid Htok] & Ht).
  destruct (HS k c Hk Hc Ht) as (err & rest & Hu). apply (unsaved_mono _ _ _ _ _ Hp) in Hu as [t Hu].
  exists err, (rest ++ t). unfold cred. rewrite Hid, Htok. exact Hu.
Qed.

Lemma grown_trans w1 w2 w3 : grown w1 w2 -> grown w2 w3 -> grown w1 w3.
Proof. intros [Hp1 _] [Hp2 HA]. split; [by etrans|done]. Qed.

Lemma grown_rely i w w1 w2 : grown w w1 -> steady i w1 w2 -> grown w w2.
Proof.
  intros [Hp [HL HS]] HR. destruct (HR HL) as (HL2 & (t & Ht & _) & Hs).
  assert (hist w1 `prefix_of` hist w2) by (rewrite Ht; by apply prefix_app_r).
  split; [by etrans|]. split; [done|]. by eapply Stranded_mono.
Qed.

Lemma Auth_rely i w w' : Auth w -> steady i w w' -> Auth w'.
Proof. intros HA HR. by apply (grown_rely i w w). Qed.

(** ** Changes of the table that need no reason *)

(** Rows keep their credentials and are not made tentative; the queue only shrinks. *)
Definition shrinks (p p' : Provider) : Prop :=
  (forall k c', claims p' !! k = Some c' ->
     exists c, claims p !! k = Some c /\ cred c' = cred c /\ (k ∈ tentative p' -> k ∈ tentative p)) /\
  (forall c, c ∈ releasing p' -> c ∈ releasing p).

Lemma shrinks_ok h p p' : shrinks p p' -> table_ok h p -> table_ok h p'.
Proof.
  intros [Hc Hr] (H1 & H2). split; [|eauto].
  intros k c' Hk. destruct (Hc k c' Hk) as (c & Hk' & -> & _). eauto.
Qed.

Lemma shrinks_tent p p' k : shrinks p p' -> tent_stable k p p'.
Proof. intros [Hc _] c' Hk Ht. destruct (Hc k c' Hk) as (c & Hk' & Hcr & Ht'). eauto. Qed.

#[export] Instance shrinks_preorder : PreOrder shrinks.
Proof.
  split; [intros p; split; eauto|]. intros p1 p2 p3 [Hc1 Hr1] [Hc2 Hr2]. split; [|auto].
  intros k c3 Hk3. destruct (Hc2 k c3 Hk3) as (c2 & Hk2 & -> & Ht2).
  destruct (Hc1 k c2 Hk2) as (c1 & Hk1 & -> & Ht1). eauto 10.
Qed.

(** The operations on one row: it goes, or it keeps its credential. *)
Lemma shrinks_row key p p' :
  (forall k, k <> key -> claims p' !! k = claims p !! k) ->
  (forall c', claims p' !! key = Some c' -> exists c, claims p !! key = Some c /\ cred c' = cred c) ->
  tentative p' ⊆ tentative p -> releasing p' = releasing p -> shrinks p p'.
Proof.
  intros Ho Hk Ht Hr. split; [|by rewrite Hr]. intros k c' Hc.
  destruct (decide (k = key)) as [->|Hne].
  - destruct (Hk c' Hc) as (c & Hc' & Hcr). exists c. auto.
  - rewrite (Ho k Hne) in Hc. exists c'. auto.
Qed.

(** Solves [shrinks p (op p)] for an operation on the row [key]. *)
Ltac shrink_row key :=
  apply (shrinks_row key); simpl; repeat case_match; simpl; try done;
    try (intros; rewrite ?lookup_insert_ne, ?lookup_delete_ne by done; done);
    try (intros ?; rewrite ?lookup_insert_eq, ?lookup_delete_eq; intros; simplify_eq; eauto);
    try set_solver.

Lemma drop_row_shrinks key id p : shrinks p (drop_row key id p).
Proof. unfold drop_row. shrink_row key. Qed.

Lemma refresh_row_shrinks key id d p : shrinks p (refresh_row key id d p).
Proof. unfold refresh_row. shrink_row key. Qed.

Lemma withdraw_row_shrinks key id p : shrinks p (withdraw_row key id p).
Proof. unfold withdraw_row. shrink_row key. Qed.

Lemma preserve_row_shrinks key id o p : shrinks p (preserve_row key id o p).
Proof. unfold preserve_row. shrink_row key. Qed.

Lemma settle_row_shrinks live key id p : shrinks p (settle_row live key id p).
Proof. unfold settle_row. shrink_row key. Qed.

Lemma settle_rows_shrinks live rows p : shrinks p (settle_rows live rows p).
Proof.
  unfold settle_rows. revert p. induction rows as [|row rows IH]; intros p; [done|].
  simpl. etrans; [apply settle_row_shrinks|apply IH].
Qed.

(** ** Programs that send no release and only shrink the table *)

Definition quiet_act (e : act) : Prop :=
  match e with
  | AMu X f => forall p, shrinks p (f p).2
  | ARelease _ _ _ => False
  | _ => True
  end.

Definition quiet {A} (p : M A) : Prop := acts quiet_act p.

Lemma quiet_bind {A B} (p : M A) (f : A -> M B) :
  quiet p -> (forall a, quiet (f a)) -> quiet (p ≫= f).
Proof. apply acts_bind. Qed.

Lemma quiet_foldM {A S} (body : A -> S -> M S) l s :
  (forall x s, quiet (body x s)) -> quiet (foldM body l s).
Proof. apply acts_foldM. Qed.

Lemma quiet_read {X} (f : Provider -> X) : quiet (read_mu f).
Proof. apply acts_call. by intros p. Qed.

Lemma quiet_write f : (forall p, shrinks p (f p)) -> quiet (write_mu f).
Proof. intros Hf. by apply acts_call. Qed.

(** ** Steps *)

Lemma releases_ok_snoc h i ev :
  releases_ok h ->
  match ev with EvRelease ctx id tok _ => release_reason h ctx id tok | _ => True end ->
  releases_ok (h ++ [(i, ev)]).
Proof.
  intros Hh Hev h1 j ctx id tok r h2 Heq.
  destruct h2 as [|y h2 _] using rev_ind.
  - apply app_inj_tail in Heq as [-> [= -> ->]]. exact Hev.
  - rewrite app_comm_cons, app_assoc in Heq. apply app_inj_tail in Heq as [-> _]. by eapply Hh.
Qed.

(** What an action needs for the invariant to hold after it. *)
Definition lawful_act (w : World) (e : act) : Prop :=
  match e with
  | AMu X f => table_ok (hist w) (f (mem w)).2
  | ARelease ctx id tok => release_reason (hist w) ctx id tok
  | _ => True
  end.

(** The keys whose tentative rows an action leaves as they are. *)
Definition spares (w : World) (e : act) (k : string) : Prop :=
  match e with AMu X f => tent_stable k (mem w) (f (mem w)).2 | _ => True end.

Lemma tent_stable_refl k p : tent_stable k p p.
Proof. intros c Hc Ht. eauto. Qed.

Lemma astep_spares i e w x w' k : astep i e w x w' -> spares w e k -> tent_stable k (mem w) (mem w').
Proof.
  intros [_ Hm]%astep_effect Hk. rewrite Hm. destruct e; try apply tent_stable_refl. exact Hk.
Qed.

Lemma astep_lawful i e w x w' : Lawful w -> lawful_act w e -> astep i e w x w' -> Lawful w'.
Proof.
  intros [Ht Hr] He Hs. pose proof (astep_effect _ _ _ _ _ Hs) as [Hh Hm].
  assert (Hp : hist w `prefix_of` hist w') by (rewrite Hh; by apply prefix_app_r).
  split.
  - apply (table_ok_mono (hist w)); [done|]. rewrite Hm. by destruct e.
  - rewrite Hh. destruct e; simpl; rewrite ?app_nil_r; try done; by apply releases_ok_snoc.
Qed.

Lemma astep_gives i e w x w' :
  lawful_act w e -> (forall k, own <> Some k -> spares w e k) -> astep i e w x w' -> gives i w w'.
Proof.
  intros He Hk Hs HL. split; [by eapply astep_lawful|]. split.
  - destruct (astep_effect _ _ _ _ _ Hs) as [Hh _]. eexists. split; [exact Hh|].
    by apply Forall_fmap, Forall_true.
  - intros k Hne. eapply astep_spares; eauto.
Qed.

Lemma astep_grown i e w x w' :
  Auth w -> lawful_act w e -> (forall k, spares w e k) -> astep i e w x w' -> grown w w'.
Proof.
  intros [HL HS] He Hk Hs. assert (Hp : hist w `prefix_of` hist w').
  { destruct (astep_effect _ _ _ _ _ Hs) as [-> _]. by apply prefix_app_r. }
  split; [done|]. split; [by eapply astep_lawful|].
  apply (Stranded_mono w w'); [done| |done]. intros k _. by eapply astep_spares.
Qed.

Lemma wpa_act {A} i e (k : res e -> M A) Q w :
  Auth w ->
  (forall w1, grown w w1 ->
     (lawful_act w1 e /\ forall k, spares w1 e k) /\
     forall x w2, astep i e w1 x w2 -> grown w1 w2 -> wpa i (k x) Q w2) ->
  wpa i (call e ≫= k) Q w.
Proof.
  intros HA H w1 HR x w2 Hs.
  assert (Hg : grown w w1) by (by eapply grown_rely; [split|exact HR]).
  destruct (H w1 Hg) as [[He Hsp] Hk].
  assert (Hg2 : grown w1 w2) by (eapply astep_grown; [apply Hg|exact He|exact Hsp|exact Hs]).
  split; [by eapply astep_gives|by apply Hk].
Qed.

Lemma wpa_ret {A} i (a : A) (Q : A -> World -> Prop) w : Q a w -> wpa i (mret a) Q w.
Proof. done. Qed.

Lemma wpa_bind {A B} i (p : M A) (f : A -> M B) Q w :
  wpa i p (fun a w => wpa i (f a) Q w) w -> wpa i (p ≫= f) Q w.
Proof. apply wp_bind. Qed.

Lemma wpa_mono {A} i (p : M A) (Q Q' : A -> World -> Prop) w :
  wpa i p Q w -> (forall a w, Q a w -> Q' a w) -> wpa i p Q' w.
Proof. intros H HQ. by eapply wp_mono. Qed.

(** The history only grows along a program. *)
Lemma wpa_prefix {A} i (p : M A) Q w :
  Lawful w -> wpa i p Q w -> wpa i p (fun a w' => Q a w' /\ hist w `prefix_of` hist w') w.
Proof.
  intros HL. assert (Hp : hist w `prefix_of` hist w) by done. revert HL Hp. generalize w at 2 5 as w0.
  revert w. induction p as [a|e k IH]; intros w w0 HL Hp Hw; [done|].
  intros w1 HR x w2 Hs. destruct (Hw w1 HR x w2 Hs) as [HG Hk].
  destruct (HR HL) as (HL1 & (t1 & Ht1 & _) & _). destruct (HG HL1) as (HL2 & (t2 & Ht2 & _) & _).
  split; [done|]. apply IH; [done| |done]. rewrite Ht2, Ht1, <- app_assoc. by apply prefix_app_r.
Qed.

Lemma wpa_quiet {A} i (p : M A) w :
  quiet p -> Auth w -> wpa i p (fun _ w' => grown w w') w.
Proof.
  intros Hq HA. assert (Hg : grown w w) by done. revert Hg. generalize w at 1 3 as w0.
  revert w HA. induction p as [a|e k IH]; intros w HA w0 Hg; [done|].
  destruct Hq as [He Hk]. apply (wpa_act i e k); [done|]. intros w1 Hg1. split; [split|].
  - destruct e; try done. apply (shrinks_ok _ (mem w1)); [apply He|apply Hg1].
  - intros k1. destruct e; try done. apply shrinks_tent, He.
  - intros x w2 _ Hg2. apply IH; [apply Hk|apply Hg2|]. eauto using grown_trans.
Qed.

Lemma wpa_quiet_last {A} i (p : M A) w0 w :
  quiet p -> grown w0 w -> wpa i p (fun _ w' => grown w0 w') w.
Proof.
  intros Hq Hg. eapply wpa_mono; [apply wpa_quiet; [done|apply Hg]|].
  intros a w' Hg'. exact (grown_trans _ _ _ Hg Hg').
Qed.

(** A quiet step, then the rest. *)
Lemma wpa_quiet_bind {A B} i (p : M A) (f : A -> M B) Q w :
  quiet p -> Auth w -> (forall a w', grown w w' -> wpa i (f a) Q w') -> wpa i (p ≫= f) Q w.
Proof.
  intros Hq HA Hf. apply wpa_bind. eapply wpa_mono; [by apply wpa_quiet|]. intros a w'. apply Hf.
Qed.

Lemma wpa_foldM {A S} i (body : A -> S -> M S) l s w :
  Auth w ->
  (forall x s w', x ∈ l -> grown w w' -> wpa i (body x s) (fun _ w2 => grown w' w2) w') ->
  wpa i (foldM body l s) (fun _ w' => grown w w') w.
Proof.
  intros HA Hb. apply (wp_foldM _ _ _ (fun _ w' => grown w w')); [|done].
  intros x s' w' Hx Hg. eapply wpa_mono; [by apply Hb|]. intros a w2 Hg2.
  exact (grown_trans _ _ _ Hg Hg2).
Qed.

(** ** The quiet operations *)

Ltac quietly :=
  cbv beta zeta;
  lazymatch goal with
  | |- quiet (_ ≫= _) => apply quiet_bind; [|intros ?]; quietly
  | |- quiet (check_err _ _) => apply quiet_bind; [|intros ?]; quietly
  | |- quiet (read_mu _) => apply quiet_read
  | |- quiet (write_mu _) => apply quiet_write; intros ?; auto with vk
  | |- quiet (mret _) => exact I
  | |- quiet (call _) => by apply acts_call
  | |- quiet (range _) => apply quiet_bind; [|intros ?]; quietly
  | |- quiet (foldM _ _ _) => apply quiet_foldM; intros ? ?; quietly
  | |- quiet (match ?x with _ => _ end) => destruct x; quietly
  | |- quiet _ => auto with vk
  end.

Hint Resolve drop_row_shrinks refresh_row_shrinks withdraw_row_shrinks preserve_row_shrinks
  settle_rows_shrinks : vk.

Lemma shrinks_same p p' :
  claims p' = claims p -> tentative p' ⊆ tentative p -> releasing p' = releasing p -> shrinks p p'.
Proof. intros Hc Ht Hr. split; rewrite ?Hc, ?Hr; eauto. Qed.

Lemma commit_shrinks key p : shrinks p (set_tentative (tentative p ∖ {[key]}) p).
Proof. apply shrinks_same; simpl; set_solver. Qed.

Lemma pods_shrinks x p : shrinks p (set_pods x p).
Proof. by apply shrinks_same. Qed.

Lemma verdicts_shrinks x p : shrinks p (set_orphanVerdicts x p).
Proof. by apply shrinks_same. Qed.

Lemma rechecks_shrinks x p : shrinks p (set_ownerRechecks x p).
Proof. by apply shrinks_same. Qed.

Lemma unqueue_shrinks (P : Claim -> Prop) `{!forall c, Decision (P c)} p :
  shrinks p (set_releasing (filter P (releasing p)) p).
Proof. split; simpl; [eauto|]. intros c Hc. by apply list_elem_of_filter in Hc as [_ ?]. Qed.

Hint Resolve commit_shrinks pods_shrinks verdicts_shrinks rechecks_shrinks unqueue_shrinks : vk.

Lemma quiet_write_file committing : quiet (write cfg committing).
Proof. unfold write. quietly. Qed.
Hint Resolve quiet_write_file : vk.

Lemma quiet_saveState : quiet (saveState cfg).
Proof. unfold saveState, persist. quietly. Qed.
Hint Resolve quiet_saveState : vk.

Lemma quiet_commitClaim key : quiet (commitClaim cfg key).
Proof. unfold commitClaim. quietly. Qed.

Lemma quiet_notify pod : quiet (notify pod).
Proof. unfold notify. quietly. Qed.
Hint Resolve quiet_notify : vk.

Lemma quiet_verify : quiet (VerifyClaimsAgainstNode cfg).
Proof. unfold VerifyClaimsAgainstNode. quietly. Qed.
Hint Resolve quiet_verify : vk.

Lemma quiet_resolve key : quiet (resolveUnverifiedClaim cfg key).
Proof. unfold resolveUnverifiedClaim. quietly. Qed.

Lemma quiet_settleExpired key : quiet (settleExpiredClaim cfg key).
Proof. unfold settleExpiredClaim, claimFor, dropClaim, refreshDeadline. quietly. Qed.

Lemma quiet_OrphanScan : quiet (OrphanScan cfg).
Proof. unfold OrphanScan. quietly. Qed.

Lemma quiet_publish : quiet (publishExpiredLeases cfg).
Proof. unfold publishExpiredLeases, publish_row, refreshDeadline. quietly. Qed.

Lemma quiet_GetPodStatus ns name : quiet (GetPodStatus ns name).
Proof. unfold GetPodStatus. quietly. Qed.

Lemma quiet_hasQuarantined : quiet hasQuarantined.
Proof. unfold hasQuarantined. quietly. Qed.

(** ** The operations that release or queue *)

Lemma prefix_grown w w1 : grown w w1 -> hist w `prefix_of` hist w1.
Proof. by intros []. Qed.

Lemma grown_refl w : Auth w -> grown w w.
Proof. done. Qed.
Hint Resolve prefix_grown grown_refl grown_trans : vk.
Hint Extern 1 (Auth _) => (match goal with H : grown _ ?w |- Auth ?w => exact (proj2 H) end) : vk.

Lemma grown_bound w w1 k c :
  grown w w1 -> claims (mem w1) !! k = Some c -> bound (hist w1) k (cred c).
Proof. intros [_ [[[H _] _] _]]. apply H. Qed.

(** A read, with what the table shows when it happens. *)
Lemma wpa_read {X B} i (f : Provider -> X) (k : X -> M B) Q w :
  Auth w ->
  (forall w1, grown w w1 -> wpa i (k (f (mem w1))) Q w1) ->
  wpa i (read_mu f ≫= k) Q w.
Proof.
  intros HA H. apply wpa_act; [done|]. intros w1 Hg. split.
  { split; [apply Hg|]. intros k1. apply tent_stable_refl. }
  intros x w2 [-> ->] _. replace (set_mem _ w1) with w1 by by destruct w1. by apply H.
Qed.

Lemma wpa_release {B} i ctx id tok (k : option gerr -> M B) Q w :
  Auth w -> (forall w1, grown w w1 -> release_reason (hist w1) ctx id tok) ->
  (forall r w1, grown w w1 -> wpa i (k r) Q w1) ->
  wpa i (call (ARelease ctx id tok) ≫= k) Q w.
Proof.
  intros HA Hr Hk. apply wpa_act; [done|]. intros w1 Hg. split; [by split; [apply Hr|]|].
  intros r w2 _ Hg2. apply Hk. eauto with vk.
Qed.

Lemma destroyAuthorized_gone i ns ref w :
  Auth w ->
  wpa i (destroyAuthorized cfg ns ref)
    (fun v w' => grown w w' /\
       (v.1 = authRelease -> match ref with Some ref => owner_gone (hist w') ns ref | None => True end)) w.
Proof.
  intros HA. unfold destroyAuthorized. destruct ref as [ref|]; [|by apply wpa_ret].
  destruct (HasDynamic cfg) eqn:Hd; cbn [negb]; [|by apply wpa_ret].
  destruct (ownerGVR _ _) as [gvr|] eqn:Hg; [|by apply wpa_ret].
  apply wpa_act; [done|]. intros w1 Hg1. split; [done|]. intros r w2 Hs Hg2.
  simpl in Hs. apply wpa_ret. split; [eauto with vk|]. intros Hv. split; [done|].
  exists i, gvr, r. subst w2. simpl. split; [done|]. split; [set_solver|]. by apply judge_owner_release.
Qed.

Lemma wpa_DeletePod i pod w :
  calls (OpDelete pod) -> Auth w ->
  wpa i (DeletePod cfg pod) (fun _ w' => grown w w') w.
Proof.
  intros Hcall HA. unfold DeletePod, podUIDIsCurrent, heldClaimFor, forgetPod, preserveClaim, withdrawClaim.
  cbv zeta. apply wpa_read; [done|]. intros w1 Hg1. case_match; [by apply wpa_ret|].
  apply wpa_read; [eauto with vk|]. intros w2 Hg2.
  destruct (claims (mem w2) !! _) as [c|] eqn:Hc.
  2:{ apply wpa_quiet_last; [quietly|eauto with vk]. }
  assert (Hb : bound (hist w2) (keyOf pod) (cred c)) by (eapply grown_bound; eauto).
  apply wpa_bind. eapply wpa_mono; [apply destroyAuthorized_gone; eauto with vk|].
  intros [v reason] w3 [Hg3 Hv]. cbn [fst] in *. destruct v.
  - apply wpa_quiet_last; [quietly|eauto with vk].
  - specialize (Hv eq_refl). apply wpa_release; [eauto with vk| |].
    + intros w4 Hg4. assert (bound (hist w4) (keyOf pod) (ID c, Token c)).
      { apply (bound_mono (hist w2)); [|done]. apply prefix_grown. eauto with vk. }
      destruct (GetControllerOf pod) as [ref|] eqn:Hctl; [|by eapply release_bare].
      eapply release_owner_gone; eauto using owner_gone_mono with vk.
    + intros r w4 Hg4. apply wpa_quiet_last; [quietly|eauto 6 with vk].
Qed.

Lemma wpa_clearStranded i pod w :
  own = Some (keyOf pod) -> calls (OpCreate pod) \/ calls (OpUpdate pod) -> Auth w ->
  wpa i (clearStrandedClaim (keyOf pod)) (fun _ w' => grown w w') w.
Proof.
  intros Hown Hcall HA. unfold clearStrandedClaim, releaseDetached, withdrawClaim.
  apply wpa_read; [done|]. intros w1 Hg1.
  destruct (claims (mem w1) !! _) as [c|] eqn:Hc; [|by apply wpa_ret].
  case_bool_decide as Ht; [|by apply wpa_ret].
  apply wpa_release; [eauto with vk| |].
  - intros w2 Hg2. apply (release_uncommitted _ pod); [done|]. right.
    destruct (proj2 (proj2 Hg1) _ _ Hown Hc Ht) as (err & rest & Hu).
    apply (unsaved_mono _ _ _ _ _ (prefix_grown _ _ Hg2)) in Hu as [t Hu]. by exists err, (rest ++ t).
  - intros r w2 Hg2. apply wpa_quiet_last; [quietly|eauto with vk].
Qed.

Lemma adopt_row_auth h pod p :
  calls (OpCreate pod) \/ calls (OpUpdate pod) ->
  table_ok h p -> table_ok h (adopt_row (keyOf pod) pod p).2.
Proof.
  intros Hcall Ht. unfold adopt_row. destruct (claims p !! keyOf pod) as [c|] eqn:Hc; [|done].
  destruct (settled p (keyOf pod)) eqn:Hs; [|done]. cbn [negb].
  pose proof Ht as (Hb & Hq).
  destruct (adoptableBy c pod) eqn:Ha; cbn [negb snd].
  - apply (shrinks_ok h p); [|done]. apply (shrinks_row (keyOf pod)); simpl; [| |done|done].
    + intros k Hne. by rewrite lookup_insert_ne.
    + rewrite lookup_insert_eq. intros c' [= <-]. eauto.
  - split; simpl.
    + intros k c' Hk. apply lookup_delete_Some in Hk as [_ Hk]. eauto.
    + intros c' [Hin| ->%list_elem_of_singleton]%elem_of_app; [eauto|].
      eapply queued_replaced; eauto. by apply adoptableBy_not_iff.
Qed.

(** Only settled rows are adopted or queued. *)
Lemma adopt_row_tent pod p k : tent_stable k p (adopt_row (keyOf pod) pod p).2.
Proof.
  unfold adopt_row. destruct (claims p !! keyOf pod) as [c|] eqn:Hc; [|apply tent_stable_refl].
  destruct (settled p (keyOf pod)) eqn:Hs; [|apply tent_stable_refl]. cbn [negb].
  apply settled_true in Hs as [Hs _]. destruct (adoptableBy c pod); cbn [negb snd]; intros c' Hk Ht; simpl in Hk, Ht.
  - apply lookup_insert_Some in Hk as [[<- <-]|[_ Hk]]; [done|eauto].
  - apply lookup_delete_Some in Hk as [_ Hk]. eauto.
Qed.

Lemma insert_claim_auth h key pod c p :
  granted h key (cred c) -> table_ok h p -> table_ok h (insert_claim key pod c p).
Proof.
  intros Hgr (Hb & Hq). split; simpl; [|done].
  intros k c' [[<- <-]|[Hne Hk]]%lookup_insert_Some; [by right|eauto].
Qed.

Lemma insert_claim_tent key pod c p k : k <> key -> tent_stable k p (insert_claim key pod c p).
Proof.
  intros Hne c' Hk Ht. simpl in Hk, Ht. rewrite lookup_insert_ne in Hk by done. exists c'. set_solver.
Qed.

(** ** From the grant to the commit

    [opened i key r evs w]: goroutine [i] was granted [r] for the key and has since
    done [evs].  [claiming] adds that a tentative row of the key, if there is one, is
    that claim. *)

Definition opened (i : nat) (key : string) (r : ClaimResult) (evs : list event) (w : World) : Prop :=
  exists h1 spec h2, hist w = h1 ++ (i, EvClaim spec (inl r)) :: h2 /\ ClaimRef spec = key /\
    events_of i h2 = evs.

Definition claiming (i : nat) (key : string) (r : ClaimResult) (evs : list event) (w : World) : Prop :=
  Lawful w /\ opened i key r evs w /\
  forall c, claims (mem w) !! key = Some c -> key ∈ tentative (mem w) -> cred c = (ResID r, ResToken r).

Lemma opened_ext i key r evs w w' t :
  opened i key r evs w -> hist w' = hist w ++ t -> opened i key r (evs ++ events_of i t) w'.
Proof.
  intros (h1 & spec & h2 & Hh & Hk & <-) Ht. exists h1, spec, (h2 ++ t). rewrite Ht, Hh, <- app_assoc.
  by rewrite events_of_app.
Qed.

Lemma opened_rely i key r evs w w' :
  Lawful w -> steady i w w' -> opened i key r evs w -> opened i key r evs w'.
Proof.
  intros HL HR Ho. destruct (HR HL) as (_ & (t & Ht & F) & _). apply (opened_ext _ _ _ _ _ w' t) in Ho; [|done].
  by rewrite events_of_others, app_nil_r in Ho.
Qed.

Lemma opened_astep i key r evs e w x w' :
  astep i e w x w' -> opened i key r evs w -> opened i key r (evs ++ emits e x) w'.
Proof.
  intros [Hh _]%astep_effect Ho. apply (opened_ext _ _ _ _ _ _ _ Ho) in Hh. by rewrite events_of_own in Hh.
Qed.

Lemma opened_granted i key r evs w : opened i key r evs w -> granted (hist w) key (ResID r, ResToken r).
Proof. intros (h1 & spec & h2 & -> & Hk & _). exists i, spec, r. split; [set_solver|done]. Qed.

Lemma claiming_rely i key r evs w w' :
  own = Some key -> steady i w w' -> claiming i key r evs w -> claiming i key r evs w'.
Proof.
  intros Hown HR (HL & Ho & Hrow). split; [by apply (HR HL)|]. split; [by eapply opened_rely|].
  intros c' Hc' Ht'. destruct (HR HL) as (_ & _ & Hs). destruct (Hs key Hown c' Hc' Ht') as (c & Hc & -> & Ht). eauto.
Qed.

(** A step while the claim is being made: its event is added. *)
Lemma wpa_claiming {A} i key r evs e (k : res e -> M A) Q w :
  own = Some key -> claiming i key r evs w ->
  (forall w1, claiming i key r evs w1 ->
     (lawful_act w1 e /\ forall k, spares w1 e k) /\
     forall x w2, astep i e w1 x w2 -> claiming i key r (evs ++ emits e x) w2 -> wpa i (k x) Q w2) ->
  wpa i (call e ≫= k) Q w.
Proof.
  intros Hown Hcl H w1 HR x w2 Hs. assert (Hcl1 : claiming i key r evs w1) by by eapply claiming_rely.
  destruct (H w1 Hcl1) as [[He Hsp] Hk]. split; [by eapply astep_gives|]. apply Hk; [done|].
  destruct Hcl1 as (HL & Ho & Hrow). split; [by eapply astep_lawful|]. split; [by eapply opened_astep|].
  intros c' Hc' Ht'. destruct (astep_spares _ _ _ _ _ key Hs (Hsp key) c' Hc' Ht') as (c & Hc & -> & Ht). eauto.
Qed.

(** A step that neither writes nor releases. *)
Lemma wpa_claiming_quiet {A} i key r evs e (k : res e -> M A) Q w :
  own = Some key -> quiet_act e -> claiming i key r evs w ->
  (forall x w2, claiming i key r (evs ++ emits e x) w2 -> wpa i (k x) Q w2) ->
  wpa i (call e ≫= k) Q w.
Proof.
  intros Hown Hq Hcl Hk. eapply wpa_claiming; [done..|]. intros w1 Hcl1. split; [|auto].
  split; [|intros k1]; destruct e; try done.
  - apply (shrinks_ok _ (mem w1)); [apply Hq|apply Hcl1].
  - apply shrinks_tent, Hq.
Qed.

(** The claim is settled, or the key has none. *)
Lemma claiming_done i key r evs w w' :
  own = Some key -> hist w `prefix_of` hist w' -> claiming i key r evs w' -> key ∉ tentative (mem w') -> grown w w'.
Proof.
  intros Hown Hp (HL & _) Hn. split; [done|]. split; [done|].
  intros k c Hk _ Ht. rewrite Hown in Hk. injection Hk as <-. done.
Qed.

Lemma wpa_claiming_write i key r evs w :
  own = Some key -> claiming i key r evs w ->
  wpa i (write cfg key)
    (fun e w' => match e with
                 | Some _ => exists t, failed_save t /\ claiming i key r (evs ++ t) w'
                 | None => exists t, claiming i key r (evs ++ t) w'
                 end) w.
Proof.
  intros Hown Hcl. unfold write. destruct (String.eqb _ _).
  { apply wpa_ret. exists []. by rewrite app_nil_r. }
  eapply wpa_claiming_quiet; [done|by intros p|done|]. intros st w1 Hc1. simpl in Hc1. rewrite app_nil_r in Hc1.
  cbv zeta. eapply wpa_claiming_quiet; [done..|]. intros [e|] w2 Hc2; simpl in Hc2.
  { apply wpa_ret. eexists. split; [|exact Hc2]. apply failed_mkdir. }
  eapply wpa_claiming_quiet; [done..|]. intros [e|] w3 Hc3; simpl in Hc3; rewrite <- app_assoc in Hc3.
  { apply wpa_ret. eexists. split; [|exact Hc3]. apply failed_write. }
  eapply wpa_claiming_quiet; [done..|]. intros [e|] w4 Hc4; simpl in Hc4; rewrite <- app_assoc in Hc4;
    apply wpa_ret; [|by eexists]. eexists. split; [|exact Hc4]. apply failed_rename.
Qed.

Lemma wpa_claiming_commit i key r evs w :
  own = Some key -> claiming i key r evs w ->
  wpa i (commitClaim cfg key)
    (fun e w' => match e with
                 | Some _ => exists t, failed_save t /\ claiming i key r (evs ++ t) w'
                 | None => Auth w'
                 end) w.
Proof.
  intros Hown Hcl. unfold commitClaim. eapply wpa_claiming_quiet; [done..|].
  intros ? w1 Hc1. simpl in Hc1. rewrite app_nil_r in Hc1. apply wpa_bind.
  eapply wpa_mono; [by eapply wpa_claiming_write|]. cbv beta. intros [e|] w2.
  - intros (t & Ht & Hc2). eapply wpa_claiming_quiet; [done..|]. intros ? w3 Hc3. simpl in Hc3.
    rewrite app_nil_r in Hc3. apply wpa_ret. eauto.
  - intros (t & Hc2). eapply wpa_claiming; [done..|]. intros w3 Hc3. split.
    { split; [|intros k1; apply shrinks_tent, commit_shrinks].
      apply (shrinks_ok _ (mem w3)); [apply commit_shrinks|apply Hc3]. }
    intros ? w4 [_ ->] Hc4. assert (HA : Auth (set_mem (set_tentative (tentative (mem w3) ∖ {[key]}) (mem w3)) w3)).
    { eapply (claiming_done _ _ _ _ _ _ Hown); [reflexivity|exact Hc4|]. simpl. set_solver. }
    apply wpa_quiet_bind; [quietly|exact HA|]. intros ? w5 Hg5. apply wpa_ret. eauto with vk.
Qed.

(** A fallible step, then the rest when it succeeds. *)
Lemma wpa_check i p q w0 w :
  wpa i p (fun _ w' => grown w w') w -> grown w0 w ->
  (forall w', grown w w' -> wpa i q (fun _ w2 => grown w0 w2) w') ->
  wpa i (check_err p q) (fun _ w' => grown w0 w') w.
Proof.
  intros Hp H0 Hq. apply wpa_bind. eapply wpa_mono; [exact Hp|].
  intros [e|] w' Hg; [apply wpa_ret; eauto with vk|by apply Hq].
Qed.

(** What a failed commit leads to. *)
Lemma wpa_undo i pod r c err now t w :
  own = Some (keyOf pod) -> calls (OpCreate pod) \/ calls (OpUpdate pod) ->
  cred c = (ResID r, ResToken r) -> failed_save t ->
  claiming i (keyOf pod) r (EvNow now :: t) w ->
  wpa i (undoUnpersistedClaim (keyOf pod) c err) (fun _ w' => Auth w') w.
Proof.
  intros Hown Hcall Hcr Hf Hcl. unfold undoUnpersistedClaim, releaseDetached, withdrawClaim.
  pose proof Hcr as [= Hid Htok]. eapply wpa_claiming; [done..|]. intros w1 Hc1. split; [split; [|done]|].
  - apply (release_uncommitted _ pod); [done|]. left. destruct Hc1 as (_ & (h1 & spec & h2 & Hh & Hk & He) & _).
    exists h1, i, spec, r, h2, now, t. rewrite app_nil_r, Hid, Htok. done.
  - intros [e|] w2 _ Hc2; simpl in Hc2.
    + apply wpa_ret. split; [apply Hc2|]. intros k c' Hk Hc' Ht'. rewrite Hown in Hk. injection Hk as <-.
      destruct Hc2 as (_ & (h1 & spec & h2 & Hh & Hk & He) & Hrow). pose proof (Hrow c' Hc' Ht') as Hcr'.
      pose proof Hcr' as [= Hid' Htok'].
      exists e, [], h1, i, spec, r, h2, now, t. split; [done|]. split; [done|]. split; [done|].
      split; [done|]. rewrite He, Hid', Htok', Hid, Htok. done.
    + eapply wpa_claiming; [done..|]. intros w3 Hc3. split.
      { split; [|intros k1; apply shrinks_tent, withdraw_row_shrinks].
        apply (shrinks_ok _ (mem w3)); [apply withdraw_row_shrinks|apply Hc3]. }
      intros ? w4 [_ ->] Hc4. apply wpa_ret.
      eapply (claiming_done _ _ _ _ _ _ Hown); [reflexivity|exact Hc4|]. simpl. set_solver.
Qed.

(** From the claim to the notification. *)
Lemma wpa_claim i pod spec w :
  own = Some (keyOf pod) -> calls (OpCreate pod) \/ calls (OpUpdate pod) ->
  ClaimRef spec = keyOf pod -> Auth w ->
  wpa i (r ← call (AClaim spec);
         match r with
         | inr err => mret (Some (ErrClaim (keyOf pod) (Template spec) err))
         | inl r =>
             now ← call ANow;
             let c := granted_claim pod r now in
             _ ← write_mu (insert_claim (keyOf pod) pod c);
             e ← commitClaim cfg (keyOf pod);
             match e with
             | Some err => undoUnpersistedClaim (keyOf pod) c err
             | None => _ ← pushRunning pod c; mret None
             end
         end) (fun _ w' => Auth w') w.
Proof.
  intros Hown Hcall Href HA. apply wpa_act; [done|]. intros w1 Hg1. split; [done|].
  intros [r|err] w2 Hs Hg2; [|apply wpa_ret; eauto with vk].
  assert (Ho2 : opened i (keyOf pod) r [] w2).
  { simpl in Hs. subst w2. exists (hist w1), spec, []. done. }
  intros w3 HR now w4 Hs4. assert (HA3 : Auth w3) by (eapply Auth_rely; [apply Hg2|exact HR]).
  assert (Ho3 : opened i (keyOf pod) r [] w3) by (eapply opened_rely; [apply Hg2|exact HR|exact Ho2]).
  assert (Hg4 : grown w3 w4) by exact (astep_grown i ANow _ _ _ HA3 I (fun _ => I) Hs4).
  assert (Ho4 : opened i (keyOf pod) r [EvNow now] w4) by exact (opened_astep _ _ _ _ _ _ _ _ Hs4 Ho3).
  split; [exact (astep_gives i ANow _ _ _ I (fun _ _ => I) Hs4)|]. cbv zeta. set (c := granted_claim pod r now).
  intros w5 HR5 x w6 Hs6.
  assert (HA5 : Auth w5) by (eapply Auth_rely; [apply Hg4|exact HR5]).
  assert (Ho5 : opened i (keyOf pod) r [EvNow now] w5) by (eapply opened_rely; [apply Hg4|exact HR5|exact Ho4]).
  set (e := AMu unit _) in Hs6. assert (Hl5 : lawful_act w5 e).
  { simpl. apply insert_claim_auth; [|apply HA5]. by eapply opened_granted. }
  split.
  { apply (astep_gives i e w5 x w6 Hl5); [|exact Hs6]. intros k Hk. apply insert_claim_tent. congruence. }
  assert (Hc6 : claiming i (keyOf pod) r [EvNow now] w6).
  { split; [exact (astep_lawful i e w5 x w6 (proj1 HA5) Hl5 Hs6)|]. split.
    - exact (opened_astep _ _ _ _ _ _ _ _ Hs6 Ho5).
    - destruct Hs6 as [_ ->]. simpl. rewrite lookup_insert_eq. by intros c' [= <-] _. }
  apply wpa_bind. eapply wpa_mono; [by eapply wpa_claiming_commit|]. cbv beta. intros [err|] w7.
  - intros (t & Ht & Hc7). by eapply wpa_undo.
  - intros HA7. apply wpa_quiet_bind; [unfold pushRunning; quietly|done|]. intros ? w8 Hg8. apply wpa_ret, Hg8.
Qed.

Lemma wpa_CreatePod i pod w :
  own = Some (keyOf pod) -> calls (OpCreate pod) \/ calls (OpUpdate pod) -> Auth w ->
  wpa i (CreatePod cfg pod) (fun _ w' => grown w w') w.
Proof.
  intros Hown Hcall HA. unfold CreatePod. cbv zeta. case_match; [by apply wpa_ret|].
  apply wpa_check; [apply wpa_quiet; [apply quiet_resolve|done]|done|]. intros w1 Hg1.
  apply wpa_check; [apply wpa_quiet; [apply quiet_settleExpired|eauto with vk]|done|].
  intros w2 Hg2. unfold adoptExistingClaim, locked.
  apply wpa_act; [eauto with vk|]. intros w3 Hg3. split.
  { split; [apply adopt_row_auth; [done|apply Hg3]|]. intros k. apply adopt_row_tent. }
  intros [c|] w4 _ Hg4.
  { apply wpa_quiet_last; [unfold pushRunning; quietly|eauto 6 with vk]. }
  assert (Hg04 : grown w w4) by eauto 6 with vk.
  apply wpa_check; [by apply wpa_clearStranded; [..|eauto with vk]|done|]. intros w5 Hg5.
  destruct (claim_ttl pod) as [ttl|]; [|apply wpa_ret; eauto with vk].
  case_match; [apply wpa_ret; eauto with vk|].
  eapply wpa_mono; [apply wpa_prefix; [apply Hg5|by apply wpa_claim; [..|eauto with vk]]|].
  cbv beta. intros ? w6 [HA6 Hp6]. apply (grown_trans _ w5); [eauto with vk|by split].
Qed.

Lemma wpa_UpdatePod i pod w :
  own = Some (keyOf pod) -> calls (OpUpdate pod) -> Auth w ->
  wpa i (UpdatePod cfg pod) (fun _ w' => grown w w') w.
Proof.
  intros Hown Hcall HA. unfold UpdatePod, podUIDIsCurrent, locked. cbv zeta.
  apply wpa_read; [done|]. intros w1 Hg1. case_match; [by apply wpa_ret|].
  apply wpa_act; [eauto with vk|]. intros w2 Hg2. split.
  { assert (Hsh : forall p, shrinks p (if bool_decide (keyOf pod ∈ tentative p) then (true, p)
        else (false, set_pods (<[keyOf pod := pod]> (pods p)) p)).2)
      by (intros p; case_bool_decide; simpl; [done|auto with vk]).
    split; [apply (shrinks_ok _ (mem w2)); [apply Hsh|apply Hg2]|]. intros k. apply shrinks_tent, Hsh. }
  intros pending w3 _ Hg3. assert (Hg03 : grown w w3) by eauto with vk.
  destruct pending; [|by apply wpa_ret].
  eapply wpa_mono; [apply wpa_CreatePod; [done|by right|eauto with vk]|].
  cbv beta. intros ? w4 Hg4. eauto with vk.
Qed.

Lemma queue_row_auth h key c p :
  queue_reason h c -> table_ok h p -> table_ok h (queue_row key c p).2.
Proof.
  intros Hr Ht. unfold queue_row. repeat case_match; try done.
  destruct Ht as (Hb & Hq). split; simpl.
  - intros k c' Hk. apply lookup_delete_Some in Hk as [_ Hk]. eauto.
  - intros c' [Hin| ->%list_elem_of_singleton]%elem_of_app; eauto.
Qed.

Lemma queue_row_tent key c p k : tent_stable k p (queue_row key c p).2.
Proof.
  unfold queue_row. repeat case_match; try apply tent_stable_refl. intros c' Hk Ht. simpl in *.
  apply lookup_delete_Some in Hk as [_ Hk]. eauto.
Qed.

Lemma wpa_recheck_row i now base key c changed w :
  Auth w -> Owner c <> None -> bound (hist w) key (cred c) ->
  wpa i (recheck_row cfg now base (key, c) changed) (fun _ w' => grown w w') w.
Proof.
  intros HA Ho Hb. unfold recheck_row. apply wpa_read; [done|]. intros w1 Hg1.
  case_match; [by apply wpa_ret|]. destruct (Cut key "/") as [[ns x] y] eqn:Hcut.
  apply wpa_bind. eapply wpa_mono; [apply destroyAuthorized_gone; eauto with vk|].
  intros [v reason] w2 [Hg2 Hv]. cbn [fst] in *. destruct v.
  { apply wpa_quiet_last; [quietly|eauto with vk]. }
  specialize (Hv eq_refl). destruct (Owner c) as [ref|] eqn:Href in Ho, Hv |- *; [|done].
  apply wpa_act; [eauto with vk|]. intros w3 Hg3.
  assert (Hg03 : grown w w3) by eauto with vk. split.
  { split; [|intros k; apply queue_row_tent].
    apply queue_row_auth; [|apply Hg3]. apply (queued_owner_gone _ _ key ref); [|done|].
    - apply (bound_mono (hist w)); [by apply prefix_grown|done].
    - rewrite Hcut. apply (owner_gone_mono (hist w2)); [by apply prefix_grown|done]. }
  intros withdrawn w4 _ Hg4. apply wpa_quiet_last; [quietly|eauto with vk].
Qed.

Lemma wpa_drainReleases i w :
  Auth w -> wpa i drainReleases (fun _ w' => grown w w') w.
Proof.
  intros HA. unfold drainReleases. apply wpa_read; [done|]. intros w1 Hg1.
  eapply wpa_mono; [apply wpa_foldM; [eauto with vk|]|cbv beta; eauto with vk].
  intros c released w2 Hin Hg2. unfold release_queued. apply wpa_release; [eauto with vk| |].
  - intros w3 Hg3. apply release_queue. apply (queue_reason_mono (hist w1)).
    + apply prefix_grown. eauto with vk.
    + destruct Hg1 as [_ [[[_ Hq] _] _]]. by apply Hq.
  - intros r w3 Hg3. apply wpa_quiet_last; [quietly|eauto with vk].
Qed.

Lemma wpa_recheckOwners i now base w :
  Auth w -> wpa i (recheckOwners cfg now base) (fun _ w' => grown w w') w.
Proof.
  intros HA. unfold recheckOwners. apply wpa_read; [done|]. intros w1 Hg1.
  apply wpa_quiet_bind; [quietly|eauto with vk|]. intros ? w2 Hg2.
  unfold range. apply wpa_bind, wpa_act; [eauto with vk|]. intros w3 Hg3. split; [done|].
  intros ks w4 _ Hg4. apply wpa_ret, wpa_bind. assert (Hg14 : grown w1 w4) by eauto with vk.
  eapply wpa_mono; [apply wpa_foldM; [eauto with vk|]|].
  - intros [key c] changed w5 Hin Hg5. apply elem_of_entries in Hin as [_ Hp].
    apply map_lookup_filter_Some in Hp as [Hc (Ho & _ & _)].
    apply wpa_recheck_row; [eauto with vk|done|].
    apply (bound_mono (hist w1)); [apply prefix_grown; eauto with vk|]. by eapply grown_bound.
  - cbv beta. intros changed w5 Hg5. apply wpa_bind.
    eapply wpa_mono; [apply wpa_drainReleases; eauto with vk|]. cbv beta. intros released w6 Hg6.
    apply wpa_quiet_last; [quietly|]. eauto 8 with vk.
Qed.

Lemma wpa_ticker_loop i n (action : M bool) w :
  Auth w -> (forall w', Auth w' -> wpa i action (fun _ w2 => grown w' w2) w') ->
  wpa i (ticker_loop n action) (fun _ w' => grown w w') w.
Proof.
  intros HA Ha. revert w HA. induction n as [|n IH]; intros w HA; [by apply wpa_ret|].
  cbn [ticker_loop]. apply wpa_quiet_bind; [quietly|done|]. intros tick w1 Hg1.
  destruct tick; [|by apply wpa_ret]. apply wpa_bind.
  eapply wpa_mono; [apply Ha, Hg1|]. cbv beta. intros again w2 Hg2.
  assert (Hg02 : grown w w2) by eauto with vk. destruct again; [|by apply wpa_ret].
  eapply wpa_mono; [apply IH, Hg2|]. cbv beta. eauto with vk.
Qed.

Lemma wpa_runTicker i n d (action : M bool) w :
  Auth w -> (forall w', Auth w' -> wpa i action (fun _ w2 => grown w' w2) w') ->
  wpa i (runTicker n d action) (fun _ w' => grown w w') w.
Proof.
  intros HA Ha. unfold runTicker. destruct (Z.leb d 0); [by apply wpa_ret|].
  apply wpa_bind. eapply wpa_mono; [by apply wpa_ticker_loop|]. by intros.
Qed.

Lemma wpa_body i g w :
  own = key_of g -> goroutine_wf g ->
  (forall key cs c, g = PodWorker key cs -> c ∈ cs -> calls c) -> Auth w ->
  wpa i (body cfg g) (fun _ w' => grown w w') w.
Proof.
  intros Hown Hwf Hcalls HA. destruct g as [key cs|n d|n d|n d|n d]; cbn [body].
  - apply (wpa_foldM i (fun c _ => run_call cfg c)); [done|]. intros c [] w1 Hin Hg1.
    specialize (Hcalls key cs c eq_refl Hin). simpl in Hwf, Hown. rewrite Forall_forall in Hwf.
    specialize (Hwf c Hin).
    destruct c as [pod|pod|pod|ns name]; simpl in Hwf; try rewrite <- Hwf in Hown;
      cbn [run_call]; apply wpa_bind;
      (eapply wpa_mono; [first [by apply wpa_CreatePod; [|left|eauto with vk]
        | by apply wpa_UpdatePod; [| |eauto with vk] | by apply wpa_DeletePod; [|eauto with vk]
        | by apply wpa_quiet; [apply quiet_GetPodStatus|eauto with vk]]|]); by intros.
  - apply wpa_bind. eapply wpa_mono; [apply wpa_runTicker; [done|]|by intros].
    intros w1 HA1. apply wpa_quiet; [|done]. apply quiet_bind; [apply quiet_OrphanScan|done].
  - apply wpa_bind. eapply wpa_mono; [apply wpa_runTicker; [done|]|by intros].
    intros w1 HA1. apply wpa_quiet; [|done]. apply quiet_bind; [apply quiet_verify|].
    intros []; [apply quiet_hasQuarantined|done].
  - apply wpa_bind. eapply wpa_mono; [apply wpa_runTicker; [done|]|by intros].
    intros w1 HA1. apply wpa_quiet; [|done]. apply quiet_bind; [apply quiet_publish|done].
  - apply wpa_bind. eapply wpa_mono; [apply wpa_runTicker; [done|]|by intros].
    intros w1 HA1. apply wpa_quiet_bind; [quietly|done|]. intros now w2 Hg2.
    apply wpa_bind. eapply wpa_mono; [apply wpa_recheckOwners; eauto with vk|].
    cbv beta. intros ? w3 Hg3. apply wpa_ret. eauto with vk.
Qed.
End authority.

(** ** The daemon *)

(** The calls the pool's workers make. *)
Definition called (gs : list goroutine) (c : handler_call) : Prop :=
  exists key cs, PodWorker key cs ∈ gs /\ c ∈ cs.

(** The worlds any interleaving of the goroutines reaches, with no assumption on
    the ids sandboxd grants. *)
Definition interleaves `{K : KubeLib} (cfg : Config) (gs : list goroutine) (w0 : World)
    (ts : list (M unit)) (w : World) : Prop :=
  rtc (pool_step astep_of) (body cfg <$> gs, w0) (ts, w).

(** No key is held by two workers, so what one goroutine gives the others rely on. *)
Lemma gives_steady `{K : KubeLib} cfg calls p0 gs i j w w' :
  pool_wf gs -> i <> j -> gives cfg calls p0 (own_of gs i) i w w' -> steady cfg calls p0 (own_of gs j) j w w'.
Proof.
  intros [_ Hd] Hij HG HL. destruct (HG HL) as (HL' & (t & Ht & F) & Hs). split; [done|]. split.
  - exists t. split; [done|]. eapply Forall_impl; [exact F|]. by intros ie ->.
  - intros k Hj. apply Hs. intros Hi. unfold own_of in *.
    destruct (gs !! i) as [g|] eqn:Hgi, (gs !! j) as [g'|] eqn:Hgj; try done. by apply (Hd i j g g' k).
Qed.

Lemma Auth_start `{K : KubeLib} cfg calls own w0 :
  hist w0 = [] -> tentative (mem w0) = ∅ -> Auth cfg calls (mem w0) own w0.
Proof.
  intros Hh Ht. split; [split; [split|]|].
  - intros k c Hk. left. eauto.
  - intros c Hc. by apply queued_before.
  - rewrite Hh. intros [] ??????; discriminate.
  - intros k c _ _ Hk. rewrite Ht in Hk. set_solver.
Qed.

(** C3: No sandbox is destroyed without authority.  In every interleaving of the
    daemon's goroutines, where no two workers handle the same key, every release
    sent to sandboxd is preceded by its reason.  Either it is the credential of a
    deleted pod that has no controller, or about whose controller the apiserver had
    given an answer of the decision table [gone_by] (gone by name, in teardown,
    expired or replaced).  Or it is the credential of a claim that was granted for
    the pod's key and could not be saved: the goroutine that got it read the clock,
    failed to save and did nothing else before this release, or had a release of it
    refused right then; so no release follows a commit.  Or it is the credential of a
    claim in the release queue, put there by a previous run, because a pod that does
    not speak for whomever the claim answers to took its key, or because the
    apiserver gave such an answer about its recorded owner. *)
Theorem releases_authorized `{K : KubeLib} cfg gs w0 ts w :
  pool_wf gs -> hist w0 = [] -> tentative (mem w0) = ∅ -> interleaves cfg gs w0 ts w ->
  forall h1 i ctx id tok r h2, hist w = h1 ++ (i, EvRelease ctx id tok r) :: h2 ->
    release_reason cfg (called gs) (mem w0) h1 ctx id tok.
Proof.
  intros Hwf Hh Ht Hr.
  set (st i := steady cfg (called gs) (mem w0) (own_of gs i) i).
  set (gv i := gives cfg (called gs) (mem w0) (own_of gs i) i).
  assert (HL : Lawful cfg (called gs) (mem w0) w); [|by apply HL].
  apply (pool_invariant astep_of (fun i => (st i, gv i))
    (fun i _ w => True)
    (Lawful cfg (called gs) (mem w0)) (body cfg <$> gs, w0) (ts, w)); try done.
  - intros i. apply steady_preorder.
  - intros i j w1 w2 Hij. by apply gives_steady.
  - intros i w1 w2 HL1 HG. by apply (HG HL1).
  - intros i p Hp. apply list_lookup_fmap_Some in Hp as (g & -> & Hg). simpl.
    eapply wp_astep_mono; [apply astep_of_astep|].
    eapply (wpa_mono cfg (called gs) (mem w0) (own_of gs i)); [apply wpa_body|done].
    + unfold own_of. by rewrite Hg.
    + destruct Hwf as [Hwf _]. rewrite Forall_forall in Hwf. by eapply Hwf, list_elem_of_lookup_2.
    + intros key cs c -> Hc. exists key, cs. split; [by eapply list_elem_of_lookup_2|done].
    + by apply Auth_start.
  - by apply (Auth_start cfg (called gs) None w0).
Qed.
