(* ===== verification/Inventory.v ===== *)
(** * inventory/: the node's NodeInventory

    [LiveSource], [Publisher] and the node info source.  The publisher talks to the
    apiserver, sandboxd, the provider's address view and the applier through Go
    interfaces, so its programs have actions of their own; [nodeSeen] is passed
    along explicitly.  What the operator's [scale] package computes is the class
    [ScaleLib]. *)

From stdpp Require Import sorting.
From S2P Require Import Prelude Kube Prog State Provider.
Local Open Scope string_scope.
Local Open Scope list_scope.
Local Open Scope go_scope.

(** ** Data *)

(** Code and types of other packages: the fields of an entry besides its name and
    address, sandboxd's node info, and the conversions.  What [EntryFromSummary]
    makes of a row may depend on all of it, [SumOther] included. *)
Class ScaleLib := {
  EntryRest : Type;
  RawInfo : Type;
  PoolCapacity : Type;
  PromotedTemplate : Type;
  entry_name : SandboxSummary -> string;
  entry_address : SandboxSummary -> string;
  entry_rest : SandboxSummary -> EntryRest;
  PoolCapacityFromInfo : RawInfo -> list PoolCapacity;
  TemplatesFromInfo : RawInfo -> list PromotedTemplate;
  InventoryKind : string;
  InventoryAPIVersion : string;
}.

Record NodeObject := mkNode { NodeObjName : string; NodeObjUID : string }.

Section data.
Context `{SL : ScaleLib}.

Record InventoryEntry := mkEntry {
  EntryName : string;
  EntryAddress : string;
  EntryOther : EntryRest;
}.

Record NodeInfo := mkNodeInfo {
  InfoAddress : string;
  InfoPools : list PoolCapacity;
  InfoTemplates : list PromotedTemplate;
}.

Record NodeInventory := mkInventory {
  InvKind : string;
  InvAPIVersion : string;
  InvName : string;
  InvNode : string;
  InvEntries : list InventoryEntry;
  InvOwners : list OwnerReference;
  InvPublishedAt : time;
  InvAddress : string;
  InvPools : list PoolCapacity;
  InvTemplates : list PromotedTemplate;
}.

Definition EntryFromSummary (row : SandboxSummary) : InventoryEntry :=
  mkEntry (entry_name row) (entry_address row) (entry_rest row).

Definition set_Address (addr : string) (e : InventoryEntry) : InventoryEntry :=
  mkEntry (EntryName e) addr (EntryOther e).

(** ** The publisher's actions *)

(** [ISort] is [slices.SortFunc] by name, which leaves entries of one name in any
    order; [ITick] is one wait of the loop, [false] when the context is done. *)
Inductive iact :=
| IGetNode (name : string)
| ISandboxes
| IAddresses
| ISort (l : list InventoryEntry)
| IInfo
| INow
| IApply (inv : NodeInventory)
| ITick.

Definition ires (e : iact) : Type :=
  match e with
  | IGetNode _ => NodeObject + APIError
  | ISandboxes => list SandboxSummary + gerr
  | IAddresses => gmap string string
  | ISort _ => list InventoryEntry
  | IInfo => RawInfo + gerr
  | INow => time
  | IApply _ => option gerr
  | ITick => bool
  end.

Abbreviation P := (prog ires).

Definition icall (e : iact) : P (ires e) := call e.

Inductive puberr :=
| ErrNodeDeleted (node : string)
| ErrReadNode (node text : string)
| ErrReadLive (node : string) (e : gerr)
| ErrReadInfo (node : string) (e : gerr)
| ErrApply (node : string) (e : gerr).

(** ** Operations *)

(** [e := scale.EntryFromSummary(row); e.Address = addrByID[row.ID]] *)
Definition with_address (addrByID : gmap string string) (row : SandboxSummary) : InventoryEntry :=
  set_Address (default "" (addrByID !! SumID row)) (EntryFromSummary row).

Definition LiveSandboxes : P (list InventoryEntry + gerr) :=
  r ← icall ISandboxes;
  match r with
  | inr e => mret (inr e)
  | inl listed =>
      addrByID ← icall IAddresses;
      out ← icall (ISort (with_address addrByID <$> listed));
      mret (inl out)
  end.

(** [sandboxdInfoSource.NodeInfo] *)
Definition NodeInfoOf (address : string) : P (NodeInfo + gerr) :=
  r ← icall IInfo;
  match r with
  | inr e => mret (inr e)
  | inl info => mret (inl (mkNodeInfo address (PoolCapacityFromInfo info) (TemplatesFromInfo info)))
  end.

(** The node is the owner: none before it registers, an error once it is deleted.
    The first component is the new [nodeSeen]. *)
Definition owners (node : string) (nodeSeen : bool) : P (bool * (list OwnerReference + puberr)) :=
  r ← icall (IGetNode node);
  match r with
  | inl n => mret (true, inl [mkOwnerReference "v1" "Node" (NodeObjName n) (NodeObjUID n) None None])
  | inr err =>
      if IsNotFound err && ! nodeSeen then mret (nodeSeen, inl [])
      else if IsNotFound err then mret (nodeSeen, inr (ErrNodeDeleted node))
      else mret (nodeSeen, inr (ErrReadNode node (ErrorText err)))
  end.

Definition Publish (node address : string) (nodeSeen : bool) : P (bool * (nat + puberr)) :=
  v ← owners node nodeSeen;
  let '(nodeSeen, r) := v in
  match r with
  | inr e => mret (nodeSeen, inr e)
  | inl refs =>
      live ← LiveSandboxes;
      match live with
      | inr e => mret (nodeSeen, inr (ErrReadLive node e))
      | inl entries =>
          now ← icall INow;
          ni ← NodeInfoOf address;
          match ni with
          | inr e => mret (nodeSeen, inr (ErrReadInfo node e))
          | inl ni =>
              e ← icall (IApply (mkInventory InventoryKind InventoryAPIVersion node node entries refs now
                   (InfoAddress ni) (InfoPools ni) (InfoTemplates ni)));
              match e with
              | Some e => mret (nodeSeen, inr (ErrApply node e))
              | None => mret (nodeSeen, inl (length entries))
              end
          end
      end
  end.

(** The [for] loop.  [fuel] bounds the publications the model looks at; failures are
    only logged. *)
Fixpoint publish_loop (fuel : nat) (node address : string) (nodeSeen : bool) : P bool :=
  match fuel with
  | O => mret nodeSeen
  | S fuel =>
      v ← Publish node address nodeSeen;
      let nodeSeen := v.1 in
      tick ← icall ITick;
      if (tick : bool) then publish_loop fuel node address nodeSeen else mret nodeSeen
  end.

(** [time.NewTicker] panics on an interval that is not positive: [None]. *)
Definition PublishPeriodically (fuel : nat) (node address : string) (nodeSeen : bool)
    (interval : duration) : P (option bool) :=
  if Z.leb interval 0 then mret None
  else nodeSeen ← publish_loop fuel node address nodeSeen; mret (Some nodeSeen).

(** ** Runs: the actions taken, with their answers *)

Inductive ievent :=
| IvGetNode (name : string) (r : NodeObject + APIError)
| IvSandboxes (r : list SandboxSummary + gerr)
| IvAddresses (m : gmap string string)
| IvSort (l out : list InventoryEntry)
| IvInfo (r : RawInfo + gerr)
| IvNow (t : time)
| IvApply (inv : NodeInventory) (r : option gerr)
| IvTick (tick : bool).

Definition observe (e : iact) : ires e -> ievent :=
  match e return ires e -> ievent with
  | IGetNode name => IvGetNode name
  | ISandboxes => IvSandboxes
  | IAddresses => IvAddresses
  | ISort l => IvSort l
  | IInfo => IvInfo
  | INow => IvNow
  | IApply inv => IvApply inv
  | ITick => IvTick
  end.

Definition name_le (a b : InventoryEntry) : Prop := Is_true (String.leb (EntryName a) (EntryName b)).

(** A sort answers any arrangement of its input in name order. *)
Definition answers (e : iact) : ires e -> Prop :=
  match e return ires e -> Prop with
  | ISort l => fun out => out ≡ₚ l /\ Sorted name_le out
  | _ => fun _ => True
  end.

(** [p] can take the actions [h] and return [a]. *)
Definition runs {A} (p : P A) (h : list ievent) (a : A) : Prop := can_run observe answers p h a.

(** ** Facts *)

Lemma runs_bind {A B} (p : P A) (f : A -> P B) h b :
  runs (p ≫= f) h b <-> exists h1 h2 a, h = h1 ++ h2 /\ runs p h1 a /\ runs (f a) h2 b.
Proof. apply can_run_bind. Qed.

Lemma runs_icall {B} e (k : ires e -> P B) h b :
  runs (icall e ≫= k) h b <-> exists x h', answers e x /\ h = observe e x :: h' /\ runs (k x) h' b.
Proof. apply can_run_call. Qed.
End data.
