(* ===== verification/InventorySpec.v ===== *)
(** * What the inventory publishes

    One publication, the publisher's loop as a state machine over what it has seen
    of its Node, and the address view the provider promises to it. *)

From stdpp Require Import sorting.
From S2P Require Import Prelude Kube Prog State Provider StateFile Persist Runs Ownership Status Create Delete Background BackgroundSpec Inventory.
Local Open Scope string_scope.
Local Open Scope list_scope.

(** ** The provider's promise to the publisher *)

(** The view maps an id to the address of the sandbox held under it. *)
Class AddressView (view : gmap string string) (held : string -> string -> Prop) : Prop :=
  view_exact : forall id addr, view !! id = Some addr <-> held id addr.

(** A claim of the table with this id and address. *)
Definition claim_held (p : Provider) (id addr : string) : Prop :=
  addr <> "" /\ exists key c, claims p !! key = Some c /\ ID c = id /\ Address c = addr.

Definition address_map (order : list (string * Claim)) : gmap string string :=
  foldl (fun out (kc : string * Claim) =>
           if String.eqb (Address kc.2) "" then out else <[ID kc.2 := Address kc.2]> out) ∅ order.

Lemma address_map_spec order id addr :
  (forall k c k' c', (k, c) ∈ order -> (k', c') ∈ order -> ID c = ID c' -> Address c = Address c') ->
  address_map order !! id = Some addr <->
  addr <> "" /\ exists key c, (key, c) ∈ order /\ ID c = id /\ Address c = addr.
Proof.
  unfold address_map. induction order as [|[k c] order IH] using rev_ind; intros Hu.
  { split; [done|]. intros (_ & key & c & Hin & _). by apply elem_of_nil in Hin. }
  rewrite foldl_app. simpl.
  assert (IH' := IH ltac:(intros k1 c1 k2 c2 H1 H2; apply (Hu k1 c1 k2 c2); set_solver)). clear IH.
  destruct (String.eqb_spec (Address c) "") as [He|He].
  - rewrite IH'. split; intros (Hne & key & c' & Hin & Hid & Ha).
    + split; [done|]. exists key, c'. set_solver.
    + split; [done|]. exists key, c'. apply elem_of_app in Hin as [Hin|Hin]; [done|].
      apply list_elem_of_singleton in Hin. by simplify_eq.
  - rewrite lookup_insert_Some, IH'. split.
    + intros [[<- <-]|[_ (Hne & key & c' & Hin & Hid & Ha)]].
      * split; [done|]. exists k, c. set_solver.
      * split; [done|]. exists key, c'. set_solver.
    + intros (Hne & key & c' & Hin & Hid & Ha). destruct (decide (ID c = id)) as [<-|Hne'].
      * left. split; [done|]. rewrite <- Ha. apply (Hu k c key c'); [set_solver|exact Hin|done].
      * right. split; [done|]. split; [done|]. exists key, c'.
        apply elem_of_app in Hin as [Hin|Hin]; [done|].
        apply list_elem_of_singleton in Hin. by simplify_eq.
Qed.

(** C31: The provider's address view is its table.  With one row per sandbox,
    [ClaimAddresses] maps exactly the ids of the rows that have an address to it,
    in whatever order it visits the table, and changes nothing. *)
Theorem claim_addresses_exact env w :
  unique_ids (claims (mem w)) ->
  let '(m, w') := exec env ClaimAddresses w in
  w' = w /\ AddressView m (claim_held (mem w)).
Proof.
  intros Hu. unfold ClaimAddresses. xread.
  match goal with |- context [exec env (range ?m ≫= ?k) w] =>
    destruct (exec_range env m k w) as (order & Hp & ->) end.
  rewrite exec_ret. split; [done|]. fold (address_map order). intros id addr.
  assert (Hel : forall k c, (k, c) ∈ order <-> claims (mem w) !! k = Some c)
    by (intros; by rewrite Hp, elem_of_map_to_list).
  rewrite address_map_spec.
  - unfold claim_held. by setoid_rewrite Hel.
  - intros k c k' c' Hk%Hel Hk'%Hel Hid. pose proof (Hu _ _ _ _ Hk Hk' Hid). by simplify_eq.
Qed.

Section publisher.
Context `{SL : ScaleLib}.

Definition node_ref (n : NodeObject) : OwnerReference :=
  mkOwnerReference "v1" "Node" (NodeObjName n) (NodeObjUID n) None None.

(** ** One publication *)

(** The entries a listing and an address view give, in name order. *)
Definition entries_of (listed : list SandboxSummary) (view : gmap string string)
    (entries : list InventoryEntry) : Prop :=
  entries ≡ₚ (with_address view <$> listed) /\ Sorted name_le entries.

(** What [owners] makes of the apiserver's answer. *)
Definition owner_answer (node : string) (seen : bool) (g : NodeObject + APIError)
  : bool * (list OwnerReference + puberr) :=
  match g with
  | inl n => (true, inl [node_ref n])
  | inr err =>
      if IsNotFound err then (seen, if seen then inr (ErrNodeDeleted node) else inl [])
      else (seen, inr (ErrReadNode node (ErrorText err)))
  end.

(** The inventory made of what was read. *)
Definition inventory_of (node address : string) (refs : list OwnerReference)
    (entries : list InventoryEntry) (now : time) (info : RawInfo) : NodeInventory :=
  mkInventory InventoryKind InventoryAPIVersion node node entries refs now
    address (PoolCapacityFromInfo info) (TemplatesFromInfo info).

Lemma runs_LiveSandboxes h r :
  runs LiveSandboxes h r ->
  match r with
  | inl entries => exists listed view, entries_of listed view entries /\
      h = [IvSandboxes (inl listed); IvAddresses view; IvSort (with_address view <$> listed) entries]
  | inr e => h = [IvSandboxes (inr e)]
  end.
Proof.
  intros ([listed|e] & h1 & _ & -> & Hk).
  - destruct Hk as (view & h2 & _ & -> & out & h3 & Ho & -> & [-> ->]). by exists listed, view.
  - by destruct Hk as [-> ->].
Qed.

Lemma runs_NodeInfoOf address h r :
  runs (NodeInfoOf address) h r ->
  match r with
  | inl ni => exists info, h = [IvInfo (inl info)] /\
      ni = mkNodeInfo address (PoolCapacityFromInfo info) (TemplatesFromInfo info)
  | inr e => h = [IvInfo (inr e)]
  end.
Proof. intros ([info|e] & h1 & _ & -> & [-> ->]); [by exists info|done]. Qed.

Lemma runs_owners node seen h v :
  runs (owners node seen) h v -> exists g, h = [IvGetNode node g] /\ v = owner_answer node seen g.
Proof.
  intros ([n|err] & h1 & _ & -> & Hk); [destruct Hk as [-> ->]; eauto|].
  exists (inr err). simpl in *. destruct (IsNotFound err), seen; by destruct Hk as [-> ->].
Qed.

(** The four ways a publication goes: the actions taken, in order, with the new
    [nodeSeen] and the result. *)
Inductive publication (node address : string) (seen : bool)
  : list ievent -> bool * (nat + puberr) -> Prop :=
| pub_no_owner g e :
    (owner_answer node seen g).2 = inr e ->
    publication node address seen [IvGetNode node g] ((owner_answer node seen g).1, inr e)
| pub_no_listing g refs e :
    (owner_answer node seen g).2 = inl refs ->
    publication node address seen [IvGetNode node g; IvSandboxes (inr e)]
      ((owner_answer node seen g).1, inr (ErrReadLive node e))
| pub_no_info g refs listed view entries now e :
    (owner_answer node seen g).2 = inl refs ->
    entries_of listed view entries ->
    publication node address seen
      [IvGetNode node g; IvSandboxes (inl listed); IvAddresses view;
       IvSort (with_address view <$> listed) entries; IvNow now; IvInfo (inr e)]
      ((owner_answer node seen g).1, inr (ErrReadInfo node e))
| pub_applied g refs listed view entries now info a :
    (owner_answer node seen g).2 = inl refs ->
    entries_of listed view entries ->
    publication node address seen
      [IvGetNode node g; IvSandboxes (inl listed); IvAddresses view;
       IvSort (with_address view <$> listed) entries; IvNow now; IvInfo (inl info);
       IvApply (inventory_of node address refs entries now info) a]
      ((owner_answer node seen g).1,
       match a with None => inl (length listed) | Some e => inr (ErrApply node e) end).

Lemma runs_Publish node address seen h v :
  runs (Publish node address seen) h v -> publication node address seen h v.
Proof.
  unfold Publish. rewrite runs_bind. intros (h1 & h2 & v' & -> & (g & -> & ->)%runs_owners & Hk).
  pose proof (pub_no_owner node address seen g) as C1. pose proof (pub_no_listing node address seen g) as C2.
  pose proof (pub_no_info node address seen g) as C3. pose proof (pub_applied node address seen g) as C4.
  destruct (owner_answer node seen g) as [s [refs|e]]; [|by destruct Hk as [-> ->]; apply C1].
  apply runs_bind in Hk as (h3 & h4 & live & -> & Hl%runs_LiveSandboxes & Hk).
  destruct live as [entries|e]; [|destruct Hk as [-> ->]; subst h3; by apply (C2 refs)].
  destruct Hl as (listed & view & Hen & ->).
  apply (proj1 (runs_icall INow _ _ _)) in Hk as (now & h5 & _ & -> & Hk).
  apply runs_bind in Hk as (h6 & h7 & ni & -> & Hn%runs_NodeInfoOf & Hk).
  destruct ni as [ni|e]; [|destruct Hk as [-> ->]; subst h6; by apply (C3 refs)].
  destruct Hn as (info & -> & ->).
  apply (proj1 (runs_icall (IApply _) _ _ _)) in Hk as (a & h8 & _ & -> & Hk).
  specialize (C4 refs listed view entries now info a eq_refl Hen).
  assert (Hlen : length entries = length listed) by (by rewrite (proj1 Hen), length_fmap).
  destruct a as [e|]; destruct Hk as [-> ->]; [done|]. by rewrite Hlen.
Qed.

(** C32: A publication is one of four histories, and each of them can happen.  The
    Node is read first; the first failed read ends it with that read's error and
    nothing applied; otherwise exactly one inventory is applied, last, with exactly
    the rows sandboxd listed, in name order and with the provider's addresses, the
    warm capacity just read and the owner the Node's answer gives, and the count
    returned is the number of rows. *)
Theorem publication_exact node address seen h v :
  runs (Publish node address seen) h v <-> publication node address seen h v.
Proof.
  split; [apply runs_Publish|]. intros Hp. unfold Publish. apply runs_bind.
  assert (Ho : forall g, runs (owners node seen) [IvGetNode node g] (owner_answer node seen g)).
  { intros g. exists g, []. split; [done|]. split; [done|]. unfold owner_answer.
    destruct g as [n|err]; [done|]. simpl. by destruct (IsNotFound err), seen. }
  destruct Hp as [g e He|g refs e He|g refs listed view entries now e He Hen|g refs listed view entries now info a He Hen];
    exists [IvGetNode node g]; eexists _, _; (split; [reflexivity|]); (split; [apply Ho|]);
    destruct (owner_answer node seen g) as [s o]; simpl in He; subst o.
  - done.
  - by exists (inr e), [].
  - exists (inl listed). eexists. split; [done|]. split; [done|]. exists view. eexists. split; [done|].
    split; [done|]. exists entries. eexists. split; [done|]. split; [done|]. exists now. eexists.
    split; [done|]. split; [done|]. by exists (inr e), [].
  - assert (Hlen : length entries = length listed) by (by rewrite (proj1 Hen), length_fmap).
    exists (inl listed). eexists. split; [done|]. split; [done|]. exists view. eexists. split; [done|].
    split; [done|]. exists entries. eexists. split; [done|]. split; [done|]. exists now. eexists.
    split; [done|]. split; [done|]. exists (inl info). eexists. split; [done|]. split; [done|].
    exists a, []. split; [done|]. split; [done|]. rewrite <- Hlen. by destruct a.
Qed.

(** ** The loop *)

Definition is_get (ev : ievent) : Prop := match ev with IvGetNode _ _ => True | _ => False end.

(** [inv] may be applied after [h1]: its owner is the Node as read last, and it is
    ownerless only if no read has ever found the Node. *)
Definition owner_current (node : string) (seen : bool) (h1 : list ievent) (inv : NodeInventory) : Prop :=
  exists h0 g t, h1 = h0 ++ IvGetNode node g :: t /\ Forall (fun ev => ~ is_get ev) t /\
  match g with
  | inl n => InvOwners inv = [node_ref n]
  | inr err => IsNotFound err = true /\ InvOwners inv = [] /\ seen = false /\
      forall n, IvGetNode node (inl n) ∉ h0
  end.

(** Every apply in [h] is current. *)
Definition applies_current (node : string) (seen : bool) (h : list ievent) : Prop :=
  forall h1 inv a h2, h = h1 ++ IvApply inv a :: h2 -> owner_current node seen h1 inv.

(** [nodeSeen] after [h]: set by the first read that finds the Node. *)
Definition seen_after (node : string) (seen : bool) (h : list ievent) (seen' : bool) : Prop :=
  seen' = true <-> seen = true \/ exists n, IvGetNode node (inl n) ∈ h.

Lemma owner_current_skip node seen seen' pre h1 inv :
  owner_current node seen' h1 inv ->
  (seen' = false -> seen = false /\ forall n, IvGetNode node (inl n) ∉ pre) ->
  owner_current node seen (pre ++ h1) inv.
Proof.
  intros (h0 & g & t & -> & Ht & Hg) Hs. exists (pre ++ h0), g, t.
  split; [by rewrite app_assoc|]. split; [done|]. destruct g as [n|err]; [done|].
  destruct Hg as (He & Ho & Hf & Hn). destruct (Hs Hf) as [Hs1 Hs2].
  repeat (split; [done|]). intros n [Hin|Hin]%elem_of_app; [by apply (Hs2 n)|by apply (Hn n)].
Qed.

Lemma publication_seen node address seen h v :
  publication node address seen h v -> seen_after node seen h v.1.
Proof.
  assert (Hg : forall g, (owner_answer node seen g).1 = true <->
    seen = true \/ exists n, g = inl n).
  { intros [n|err]; simpl; [naive_solver|]. destruct (IsNotFound err); simpl; naive_solver. }
  unfold seen_after. intros [g ? _|g ? ? _|g ? ? ? ? ? ? _ _|g ? ? ? ? ? ? ? _ _];
    cbn [fst]; rewrite Hg; set_solver.
Qed.

Lemma publication_applies node address seen h v :
  publication node address seen h v -> applies_current node seen h.
Proof.
  intros Hp h1 inv a h2 Hh.
  assert (Happ : IvApply inv a ∈ h) by (rewrite Hh; set_solver).
  destruct Hp as [g ? _|g ? ? _|g ? ? ? ? ? ? _ _|g refs listed view entries now info a' Ho _];
    try (exfalso; set_solver).
  destruct h1 as [|e1 [|e2 [|e3 [|e4 [|e5 [|e6 [|e7 h1]]]]]]]; simplify_eq/=.
  2:{ by destruct h1. }
  exists [], g. eexists. split; [reflexivity|]. split; [repeat (constructor; [by intros []|]); constructor|].
  destruct g as [n|err]; simpl in *; [by simplify_eq|].
  destruct (IsNotFound err), seen; simplify_eq/=. repeat (split; [done|]). set_solver.
Qed.

Lemma loop_applies fuel node address seen h seen' :
  runs (publish_loop fuel node address seen) h seen' ->
  applies_current node seen h /\ seen_after node seen h seen'.
Proof.
  revert seen h. induction fuel as [|fuel IH]; intros seen h.
  { intros [-> ->]. split; [by intros [] *|]. unfold seen_after. set_solver. }
  cbn [publish_loop]. rewrite runs_bind. intros (h1 & h2 & v & -> & Hp%runs_Publish & Hk).
  apply (proj1 (runs_icall ITick _ _ _)) in Hk as (tick & h3 & _ & -> & Hk).
  pose proof (publication_seen _ _ _ _ _ Hp) as Hs. apply publication_applies in Hp as Ha.
  assert (Hrest : applies_current node v.1 h3 /\ seen_after node v.1 h3 seen').
  { destruct tick; [by apply IH|]. destruct Hk as [-> ->]. split; [by intros [] *|].
    unfold seen_after. set_solver. }
  destruct Hrest as [Har Hsr]. unfold seen_after in *. split; [|rewrite Hsr, Hs; set_solver].
  intros g1 inv a g2 [(t & -> & _)|(t & -> & Ht)]%app_split_cons; [by eapply Ha|].
  destruct t as [|e t]; simplify_eq/=. rewrite cons_middle, app_assoc.
  eapply owner_current_skip; [by eapply Har|]. intros Hf.
  assert (Hno : ~ (seen = true \/ exists n, IvGetNode node (inl n) ∈ h1)) by (rewrite <- Hs; congruence).
  split; [destruct seen; [naive_solver|done]|]. intros n Hin. apply Hno. right. exists n. set_solver.
Qed.

(** C33: The publisher's state machine over its Node.  However many publications
    the loop makes and however they fail, an inventory is applied only with the
    Node as the last read returned it as its owner, or ownerless when that read
    found no Node and no earlier one ever did: once the Node has been seen and is
    gone, nothing is published again. *)
Theorem inventory_owner_current fuel node address interval h seen h1 inv a h2 :
  runs (PublishPeriodically fuel node address false interval) h seen ->
  h = h1 ++ IvApply inv a :: h2 ->
  exists h0 g t, h1 = h0 ++ IvGetNode node g :: t /\ Forall (fun ev => ~ is_get ev) t /\
  match g with
  | inl n => InvOwners inv = [node_ref n]
  | inr err => IsNotFound err = true /\ InvOwners inv = [] /\
      forall n, IvGetNode node (inl n) ∉ h0
  end.
Proof.
  unfold PublishPeriodically. destruct (Z.leb interval 0).
  { intros [-> _] Hh. by destruct h1. }
  rewrite runs_bind. intros (h3 & h4 & s & -> & [Ha _]%loop_applies & [-> _]). rewrite app_nil_r.
  intros Hh. destruct (Ha _ _ _ _ Hh) as (h0 & g & t & -> & Ht & Hg).
  exists h0, g, t. split; [done|]. split; [done|]. destruct g; naive_solver.
Qed.
End publisher.
