(* ===== verification/Daemon.v ===== *)
(** * The daemon's options and what it asks of the outside

    The types of main.go, events.go and selfsigned.go, and the actions of their
    programs: Kubernetes and sandboxd clients, files, randomness, the
    virtual-kubelet node and the goroutines started.  What other modules compute
    is the class [DaemonLib]. *)

From stdpp Require Import pretty.
From Stdlib Require Import SpecFloat.
From S2P Require Import Prelude GoLib GoText Kube Prog State.
Local Open Scope string_scope.
Local Open Scope list_scope.

(** ** Floating point

    Go's [float64] and [float32] are IEEE binary64 and binary32. *)

Definition round_to (prec emax : Z) (x : spec_float) : spec_float :=
  match x with
  | S754_finite s m e => binary_normalize prec emax (if s then Zneg m else Zpos m) e s
  | _ => x
  end.

Definition float32 (x : spec_float) : spec_float := round_to 24 128 x.
Definition float64 (x : spec_float) : spec_float := round_to 53 1024 x.
Definition float_of_Z (z : Z) : spec_float := binary_normalize 53 1024 z 0 false.
Definition float_zero : spec_float := S754_zero false.

(** [cmp.Or]: the first argument that does not compare equal to zero. *)
Definition cmp_Or_float (x def : spec_float) : spec_float := if SFeqb x float_zero then def else x.
Definition cmp_Or_int (x def : Z) : Z := if Z.eqb x 0 then def else x.

(** ** Options *)

Record options := mkOptions {
  nodeName : string;
  nodeIP : string;
  listenAddr : string;
  tlsCert : string;
  tlsKey : string;
  nodeCPU : string;
  nodeMem : string;
  nodePods : string;
  sandboxdURL : string;
  sandboxdAddr : string;
  tokenFile : string;
  statePath : string;
  podLabels : string;
  orphanInterval : duration;
  publishInterval : duration;
  publishInventory : bool;
  disablePodEvents : bool;
  kubeQPS : spec_float;
  kubeBurst : Z;
}.

(** Code and types of other modules: the Unicode part of [strings.TrimSpace]; the
    host [url.Parse] finds; [resource.ParseQuantity]; client-go's defaults; and the
    fields of their objects the daemon passes through. *)
Class DaemonLib := {
  unicode_trim : string -> string;
  url_host : string -> option string;
  Quantity : Type;
  ParseQuantity : string -> option Quantity;
  DefaultQPS : spec_float;
  DefaultBurst : Z;
  RestOther : Type;
  NodeOther : Type;
  Certificate : Type;
  PrivateKey : Type;
}.

Section data.
Context `{DL : DaemonLib}.

(** ** Kubernetes and sandboxd clients *)

Record RestConfig := mkRest { RestQPS : spec_float; RestBurst : Z; RestRemainder : RestOther }.

Record SandboxdClient := mkSandboxdClient {
  BaseURL : string;
  ClientToken : string;
  Timeout : duration;
  MaxIdleConns : Z;
  MaxIdleConnsPerHost : Z;
  IdleConnTimeout : duration;
}.

(** ** The virtual node *)

Inductive TaintEffect := NoSchedule | OtherEffect (s : string).
Record Taint := mkTaint { TaintKeyOf : string; TaintValue : string; Effect : TaintEffect }.

Inductive NodeAddressType := NodeHostName | NodeInternalIP.
Record NodeAddress := mkNodeAddress { AddressType : NodeAddressType; AddressOf : string }.

Inductive resource_name := ResourceCPU | ResourceMemory | ResourcePods.
Definition ResourceList : Type := list (resource_name * Quantity).

(** The Node object; [Labels] is [None] for a nil map. *)
Record VNode := mkVNode {
  Labels : option (gmap string string);
  Taints : list Taint;
  Addresses : list NodeAddress;
  KubeletPort : Z;
  Capacity : ResourceList;
  Allocatable : ResourceList;
  NodeRemainder : NodeOther;
}.

Inductive limiter :=
| ItemExponentialFailure (base max : duration)
| MaxOf (l1 l2 : limiter)
| Bucket (limit : spec_float) (burst : Z).

Record PodControllerLimits := mkLimits {
  SyncPodsFromKubernetes : limiter;
  DeletePodsFromKubernetes : limiter;
  SyncPodStatusFromProvider : limiter;
}.

(** The options passed to [nodeutil.NewNode], in order. *)
Inductive NodeOpt :=
| WithClient
| AttachProviderRoutes
| WithPodControllerConfigOverrides (limits : PodControllerLimits)
| ListenAndHandle (addr : string)
| RecordWarningsOnly (component : string)
| ServeTLS (cert : Certificate) (clientAuth : bool) (minVersion : Z).

(** ** Certificates *)

Record CertTemplate := mkTemplate {
  SerialNumber : Z;
  CommonName : string;
  NotBefore : time;
  NotAfter : time;
  KeyUsage : Z;
  ExtKeyUsage : list Z;
  BasicConstraintsValid : bool;
  IPAddresses : list (list Z);
  DNSNames : list string;
}.

Record PEMBlock := mkPEM { PEMType : string; PEMBytes : string }.

(** ** Goroutines *)

Inductive loop :=
| GoOrphanScan (interval : duration)
| GoClaimVerification (interval : duration)
| GoLeaseWatch (interval : duration)
| GoOwnerRecheck (interval : duration)
| GoPublish (node address : string) (interval : duration).

Inductive runerr :=
| ErrStatePathRequired
| ErrKubeConfig (e : gerr)
| ErrClientset (e : gerr)
| ErrDynamicClient (e : gerr)
| ErrToken (e : gerr)
| ErrBuildProvider (e : perr)
| ErrListenAddr
| ErrLoadCert (e : gerr)
| ErrSelfSign (step : string) (e : gerr)
| ErrCreateNode (e : gerr)
| ErrInventoryClient (e : gerr)
| ErrNodeExited (e : gerr).

(** ** Actions *)

(** [DNotifyContext] makes the context the given signals cancel; [DNewNode] answers
    the Node object [nodeutil.NewNode] hands to the provider factory; [DRunNode] the
    error of [n.Run] and whether the context was done; [DStat] and [DStderrMode] a
    file mode.  [DGo] starts a goroutine of this program; [DNewBroadcaster] and
    [DStartRecordingToSink] also start goroutines, which are client-go's. *)
Inductive dact :=
| DInClusterConfig
| DBuildConfigFromFlags (path : string)
| DNewClientset (cfg : RestConfig)
| DNewDynamic (cfg : RestConfig)
| DTokenFrom (file : string)
| DNewProvider (client : SandboxdClient) (cfg : Config)
| DNotifyContext (signals : list Z)
| DNewBroadcaster
| DStartRecordingToSink
| DNewRecorder (component : string)
| DStat (path : string)
| DLoadX509KeyPair (cert key : string)
| DGenerateKey
| DRandInt (bound : Z)
| DNow
| DCreateCertificate (tmpl parent : CertTemplate) (key : PrivateKey)
| DMarshalECPrivateKey (key : PrivateKey)
| DX509KeyPair (cert key : PEMBlock)
| DNewNode (name : string) (opts : list NodeOpt)
| DGo (l : loop)
| DNewCtrlClient (cfg : RestConfig)
| DRunNode (node : VNode)
| DParseFlags (defaults : options)
| DPrintVersion
| DStderrMode
| DSetupLog (level : string) (useJSON : bool)
| DFatal (e : runerr).

Definition dres (e : dact) : Type :=
  match e with
  | DInClusterConfig | DBuildConfigFromFlags _ => RestConfig + gerr
  | DNewClientset _ | DNewDynamic _ | DNewCtrlClient _ => option gerr
  | DTokenFrom _ => string + gerr
  | DNewProvider _ _ => option perr
  | DNotifyContext _ | DNewBroadcaster | DStartRecordingToSink | DNewRecorder _ => unit
  | DGo _ | DPrintVersion | DFatal _ => unit
  | DStat _ | DStderrMode => option Z
  | DLoadX509KeyPair _ _ | DX509KeyPair _ _ => Certificate + gerr
  | DGenerateKey => PrivateKey + gerr
  | DRandInt _ => Z + gerr
  | DNow => time
  | DCreateCertificate _ _ _ | DMarshalECPrivateKey _ => string + gerr
  | DNewNode _ _ => VNode + gerr
  | DRunNode _ => option gerr * bool
  | DParseFlags _ => options * bool
  | DSetupLog _ _ => option gerr
  end.

(** An action together with its answer. *)
Inductive devent := Did (e : dact) (x : dres e).

(** [rand.Int] is below its bound; anything else may be answered anything. *)
Definition danswers (e : dact) : dres e -> Prop :=
  match e return dres e -> Prop with
  | DRandInt bound => fun r => match r with inl n => (0 <= n < bound)%Z | inr _ => True end
  | _ => fun _ => True
  end.

Definition dcall (e : dact) : prog dres (dres e) := call e.

Definition does {A} (p : prog dres A) (h : list devent) (a : A) : Prop := can_run Did danswers p h a.
End data.

Abbreviation D := (prog dres).
