(* ===== verification/Cert.v ===== *)
(** * selfsigned.go: the in-memory kubelet certificate *)

From S2P Require Import Prelude GoLib GoText Kube Prog State Daemon.
Local Open Scope string_scope.
Local Open Scope list_scope.

Section cert.
Context `{DL : DaemonLib}.

Definition Hour : duration := (60 * Minute)%Z.

(** [x509.KeyUsageDigitalSignature] and [x509.ExtKeyUsageServerAuth]. *)
Definition KeyUsageDigitalSignature : Z := 1.
Definition ExtKeyUsageServerAuth : Z := 1.

Definition with_sans (ips : list (list Z)) (names : list string) (t : CertTemplate) : CertTemplate :=
  mkTemplate (SerialNumber t) (CommonName t) (NotBefore t) (NotAfter t) (KeyUsage t) (ExtKeyUsage t)
    (BasicConstraintsValid t) ips names.

(** The loop over the hosts: an address goes to [IPAddresses], a name to
    [DNSNames], an empty host nowhere. *)
Definition add_host (h : string) (t : CertTemplate) : CertTemplate :=
  if (h =? "")%go then t
  else match ParseIP h with
       | Some ip => with_sans (IPAddresses t ++ [ip]) (DNSNames t) t
       | None => with_sans (IPAddresses t) (DNSNames t ++ [h]) t
       end.

Definition add_hosts (hosts : list string) (tmpl : CertTemplate) : CertTemplate :=
  foldl (fun t h => add_host h t) tmpl hosts.

(** [inr (step, e)] names the failed step. *)
Definition selfSignedCert (hosts : list string) : D (Certificate + string * gerr) :=
  r ← dcall DGenerateKey;
  match r with
  | inr e => mret (inr ("generate key", e))
  | inl priv =>
      r ← dcall (DRandInt (Z.shiftl 1 128));
      match r with
      | inr e => mret (inr ("serial", e))
      | inl serial =>
          now1 ← dcall DNow;
          now2 ← dcall DNow;
          let tmpl := mkTemplate serial "vk-sandbox" (time_Add now1 (- Hour)%Z)
                        (time_Add now2 (10 * 365 * 24 * Hour)%Z) KeyUsageDigitalSignature
                        [ExtKeyUsageServerAuth] true [] [] in
          let tmpl := add_hosts hosts tmpl in
          r ← dcall (DCreateCertificate tmpl tmpl priv);
          match r with
          | inr e => mret (inr ("create cert", e))
          | inl der =>
              r ← dcall (DMarshalECPrivateKey priv);
              match r with
              | inr e => mret (inr ("marshal key", e))
              | inl keyDER =>
                  r ← dcall (DX509KeyPair (mkPEM "CERTIFICATE" der) (mkPEM "EC PRIVATE KEY" keyDER));
                  match r with
                  | inr e => mret (inr ("", e))
                  | inl cert => mret (inl cert)
                  end
              end
          end
      end
  end.
End cert.
