(* ===== verification/Events.v ===== *)
(** * events.go: the event filter

    A recorder is what it does with a call; [warningEvents] wraps one. *)

From S2P Require Import Prelude.
Local Open Scope string_scope.
Local Open Scope list_scope.

Section events.
(** The object an event is about and a format's arguments. *)
Context {Object Arg : Type}.

Inductive recording :=
| Event (object : Object) (eventtype reason message : string)
| Eventf (object : Object) (eventtype reason messageFmt : string) (args : list Arg)
| AnnotatedEventf (object : Object) (annotations : option (gmap string string))
    (eventtype reason messageFmt : string) (args : list Arg).

Definition eventtype_of (r : recording) : string :=
  match r with
  | Event _ ty _ _ | Eventf _ ty _ _ _ | AnnotatedEventf _ _ ty _ _ _ => ty
  end.

Definition EventTypeNormal : string := "Normal".

(** A recorder's state is the list of calls it has taken. *)
Definition recorder : Type := recording -> list recording -> list recording.

Definition warningEvents (inner : recorder) : recorder := fun r log =>
  match r with
  | Event object ty reason message =>
      if negb (String.eqb ty EventTypeNormal) then inner (Event object ty reason message) log else log
  | Eventf object ty reason fmt args =>
      if negb (String.eqb ty EventTypeNormal) then inner (Eventf object ty reason fmt args) log else log
  | AnnotatedEventf object anns ty reason fmt args =>
      if negb (String.eqb ty EventTypeNormal) then inner (AnnotatedEventf object anns ty reason fmt args) log
      else log
  end.

(** The wrapped recorder takes exactly the events that are not Normal, in order. *)
Lemma warningEvents_filter inner calls log :
  foldl (fun log r => warningEvents inner r log) log calls =
  foldl (fun log r => inner r log) log (filter (fun r => eventtype_of r <> EventTypeNormal) calls).
Proof.
  revert log. induction calls as [|r calls IH]; intros log; [done|].
  assert (Hw : warningEvents inner r log =
    if decide (eventtype_of r <> EventTypeNormal) then inner r log else log).
  { destruct r; simpl; bdestr; case_decide; tauto. }
  cbn [foldl]. rewrite Hw, IH, filter_cons. by case_decide.
Qed.
End events.
