(* ===== verification/Main.v ===== *)
(** * main.go: options, the virtual node, and the start of the daemon

    [options_run] is [(o *options) run] up to the return of [n.Run]: it hands the
    goroutines it starts to [DGo].  [getenv] is the process environment. *)

From Stdlib Require Import SpecFloat Ascii.
From S2P Require Import Prelude GoLib GoText Kube Prog State Create Daemon Cert.
Local Open Scope string_scope.
Local Open Scope list_scope.
Local Open Scope go_scope.

(** ** Constants *)

Definition sandboxdRequestTimeout : duration := (10 * Second)%Z.
Definition sandboxdMaxIdleConns : Z := 64.
Definition sandboxdIdleConnTimeout : duration := (90 * Second)%Z.
Definition claimVerifyInterval : duration := (15 * Second)%Z.
Definition leaseWatchInterval : duration := (30 * Second)%Z.
Definition ownerRecheckInterval : duration := (10 * Second)%Z.
Definition podRetryBaseDelay : duration := (5 * Millisecond)%Z.
Definition podRetryMaxDelay : duration := (1000 * Second)%Z.
Definition TaintKey : string := "virtual-kubelet.io/provider".
Definition VersionTLS12 : Z := 771.
Definition SIGINT : Z := 2.
Definition SIGTERM : Z := 15.

(** ** Files *)

(** [fs.ModeType]: directory, symlink, device, named pipe, socket, character
    device, irregular. *)
Definition ModeCharDevice : Z := Z.shiftl 1 21.
Definition ModeType : Z :=
  Z.lor (Z.shiftl 1 31) (Z.lor (Z.shiftl 1 27) (Z.lor (Z.shiftl 1 26) (Z.lor (Z.shiftl 1 25)
    (Z.lor (Z.shiftl 1 24) (Z.lor ModeCharDevice (Z.shiftl 1 19)))))).

Definition IsRegular (mode : Z) : bool := Z.eqb (Z.land mode ModeType) 0.

Section main.
Context `{DL : DaemonLib}.

(** ** Parsing options *)

Definition envOr (getenv : string -> string) (key def : string) : string := cmp_Or (getenv key) def.

(** The flags' values before the command line is read. *)
Definition default_options (getenv : string -> string) : options := {|
  nodeName := envOr getenv "VK_NODE_NAME" "vk-sandboxd";
  nodeIP := envOr getenv "VK_NODE_IP" "";
  listenAddr := envOr getenv "VK_LISTEN_ADDR" ":10260";
  tlsCert := getenv "VK_TLS_CERT";
  tlsKey := getenv "VK_TLS_KEY";
  nodeCPU := envOr getenv "VK_NODE_CPU" "4000";
  nodeMem := envOr getenv "VK_NODE_MEMORY" "8Ti";
  nodePods := envOr getenv "VK_NODE_PODS" "2000";
  kubeQPS := float_of_Z 200;
  kubeBurst := 400;
  sandboxdURL := envOr getenv "SANDBOXD_URL" "http://127.0.0.1:7777";
  sandboxdAddr := envOr getenv "SANDBOXD_ADVERTISE_ADDR" "";
  tokenFile := getenv "SANDBOXD_TOKEN_FILE";
  statePath := envOr getenv "VK_STATE_PATH" "/var/lib/vk-sandbox/claims.json";
  orphanInterval := (60 * Second)%Z;
  publishInventory := false;
  publishInterval := (30 * Second)%Z;
  podLabels := "sandbox.cocoonstack.io/runtime=sandboxd";
  disablePodEvents := false;
|}.

(** One [key=value] of the list; a later one replaces an earlier one. *)
Definition add_label (out : gmap string string) (kv : string) : gmap string string :=
  let '(k, v, ok) := Cut (TrimSpace unicode_trim kv) "="%char in
  if ok && ! (k =? "") then <[k := v]> out else out.

Definition parseLabels (s : string) : gmap string string := foldl add_label ∅ (SplitByte ","%char s).

Definition hostPort (raw : string) : string :=
  match url_host raw with
  | Some host => if ! (host =? "") then host else TrimRight raw "/"%char
  | None => TrimRight raw "/"%char
  end.

Inductive port_error := BadAddr (e : addr_error) | BadPort | PortOutOfRange (port : Z).

Definition listenPort (addr : string) : Z + port_error :=
  match SplitHostPort addr with
  | inr e => inr (BadAddr e)
  | inl (_, portStr) =>
      match ParseInt10 32 portStr with
      | None => inr BadPort
      | Some port =>
          if Z.ltb port 1 || Z.ltb 65535 port then inr (PortOutOfRange port) else inl port
      end
  end.

(** ** The virtual node *)

Definition podQueueLimits (o : options) : PodControllerLimits :=
  let qps := cmp_Or_float (float32 (kubeQPS o)) DefaultQPS in
  let burst := cmp_Or_int (kubeBurst o) DefaultBurst in
  let limiter :=
    let backoff := ItemExponentialFailure podRetryBaseDelay podRetryMaxDelay in
    if SFltb qps float_zero then backoff
    else MaxOf backoff (Bucket (float64 qps) burst) in
  mkLimits limiter limiter limiter.

(** [resource.MustParse] panics on a malformed quantity: [None]. *)
Definition capacity (o : options) : option ResourceList :=
  cpu ← ParseQuantity (nodeCPU o);
  memory ← ParseQuantity (nodeMem o);
  pods ← ParseQuantity (nodePods o);
  Some [(ResourceCPU, cpu); (ResourceMemory, memory); (ResourcePods, pods)].

(** [maps.Copy] panics when it has to write to a nil map: [None]. *)
Definition maps_Copy (dst : option (gmap string string)) (src : gmap string string)
  : option (option (gmap string string)) :=
  match dst with
  | Some m => Some (Some (src ∪ m))
  | None => if decide (src = ∅) then Some None else None
  end.

Definition node_addresses (o : options) : list NodeAddress :=
  let addrs := [mkNodeAddress NodeHostName (nodeName o)] in
  if ! (nodeIP o =? "") then mkNodeAddress NodeInternalIP (nodeIP o) :: addrs else addrs.

(** What the factory does to the Node it is given; [None] is a panic. *)
Definition factory (o : options) (capacity : ResourceList) (node : VNode) : option VNode :=
  let kubeletPort := match listenPort (listenAddr o) with inl port => port | inr _ => 0%Z end in
  labels ← maps_Copy (Labels node) (parseLabels (podLabels o));
  Some (mkVNode labels (Taints node ++ [mkTaint TaintKey RuntimeSandboxd NoSchedule])
    (node_addresses o) kubeletPort capacity capacity (NodeRemainder node)).

Definition providerFactory (o : options) : option (VNode -> option VNode) := factory o <$> capacity o.

Definition fileReadable (path : string) : D bool :=
  r ← dcall (DStat path);
  mret (match r with Some mode => IsRegular mode | None => false end).

Definition warningsOnly (o : options) : D NodeOpt :=
  let component := nodeName o +:+ "/pod-controller" in
  _ ← dcall DNewBroadcaster;
  _ ← dcall DStartRecordingToSink;
  _ ← dcall (DNewRecorder component);
  mret (RecordWarningsOnly component).

(** The certificate pair of the options when both files are readable, else a
    self-signed one. *)
Definition kubelet_cert (o : options) : D (Certificate + runerr) :=
  c ← fileReadable (tlsCert o);
  k ← (if (c : bool) then fileReadable (tlsKey o) else mret false);
  if (k : bool) then
    r ← dcall (DLoadX509KeyPair (tlsCert o) (tlsKey o));
    mret (match r with inl cert => inl cert | inr e => inr (ErrLoadCert e) end)
  else
    r ← selfSignedCert [nodeName o; nodeIP o; "127.0.0.1"];
    mret (match r with inl cert => inl cert | inr (step, e) => inr (ErrSelfSign step e) end).

Definition nodeOptions (o : options) : D (list NodeOpt + runerr) :=
  match listenPort (listenAddr o) with
  | inr _ => mret (inr ErrListenAddr)
  | inl _ =>
      let opts := [WithClient; AttachProviderRoutes;
                   WithPodControllerConfigOverrides (podQueueLimits o);
                   ListenAndHandle (listenAddr o)] in
      opts ← (if disablePodEvents o then w ← warningsOnly o; mret (opts ++ [w]) else mret opts);
      r ← kubelet_cert o;
      match r with
      | inr e => mret (inr e)
      | inl cert => mret (inl (opts ++ [ServeTLS cert false VersionTLS12]))
      end
  end.

(** ** Running *)

Definition kubeConfig (getenv : string -> string) : D (RestConfig + gerr) :=
  r ← dcall DInClusterConfig;
  match r with
  | inl cfg => mret (inl cfg)
  | inr _ => dcall (DBuildConfigFromFlags (getenv "KUBECONFIG"))
  end.

(** The return of [run], or its panic. *)
Inductive outcome := Returned (e : option runerr) | Panicked.

(** [v, err := p; if err != nil { return wrap(err) }], and the same for a call
    that only returns an error. *)
Definition orReturn {A E} (wrap : E -> runerr) (p : D (A + E)) (k : A -> D outcome) : D outcome :=
  r ← p;
  match r with
  | inl a => k a
  | inr e => mret (Returned (Some (wrap e)))
  end.

Definition ifErr {E} (wrap : E -> runerr) (p : D (option E)) (k : D outcome) : D outcome :=
  r ← p;
  match r with
  | None => k
  | Some e => mret (Returned (Some (wrap e)))
  end.

Definition sandboxd_client (o : options) (token : string) : SandboxdClient :=
  mkSandboxdClient (sandboxdURL o) token sandboxdRequestTimeout sandboxdMaxIdleConns
    sandboxdMaxIdleConns sandboxdIdleConnTimeout.

Definition provider_config (o : options) : Config := mkConfig true true (statePath o).

Definition startInventoryPublisher (o : options) (cfg : RestConfig) (k : D outcome) : D outcome :=
  ifErr ErrInventoryClient (dcall (DNewCtrlClient cfg))
    (_ ← dcall (DGo (GoPublish (nodeName o) (cmp_Or (sandboxdAddr o) (hostPort (sandboxdURL o)))
                       (publishInterval o)));
     k).

Definition serve (node : VNode) : D outcome :=
  r ← dcall (DRunNode node);
  match r with
  | (Some e, false) => mret (Returned (Some (ErrNodeExited e)))
  | _ => mret (Returned None)
  end.

(** The goroutines and the node, once everything is built. *)
Definition start (o : options) (cfg : RestConfig) (node : VNode) : D outcome :=
  _ ← (if Z.ltb 0 (orphanInterval o) then dcall (DGo (GoOrphanScan (orphanInterval o))) else mret tt);
  _ ← dcall (DGo (GoClaimVerification claimVerifyInterval));
  _ ← dcall (DGo (GoLeaseWatch leaseWatchInterval));
  _ ← dcall (DGo (GoOwnerRecheck ownerRecheckInterval));
  if publishInventory o then startInventoryPublisher o cfg (serve node) else serve node.

Definition options_run (getenv : string -> string) (o : options) : D outcome :=
  if statePath o =? "" then mret (Returned (Some ErrStatePathRequired))
  else
    _ ← dcall (DNotifyContext [SIGINT; SIGTERM]);
    orReturn ErrKubeConfig (kubeConfig getenv) (fun cfg =>
    let cfg := mkRest (float32 (kubeQPS o)) (kubeBurst o) (RestRemainder cfg) in
    ifErr ErrClientset (dcall (DNewClientset cfg)) (
    ifErr ErrDynamicClient (dcall (DNewDynamic cfg)) (
    orReturn ErrToken (dcall (DTokenFrom (tokenFile o))) (fun token =>
    ifErr ErrBuildProvider (dcall (DNewProvider (sandboxd_client o token) (provider_config o))) (
    orReturn id (nodeOptions o) (fun opts =>
    match providerFactory o with
    | None => mret Panicked
    | Some f =>
        orReturn ErrCreateNode (dcall (DNewNode (nodeName o) opts)) (fun node0 =>
        match f node0 with
        | None => mret Panicked
        | Some node => start o cfg node
        end)
    end)))))).

(** ** main *)

Inductive exit := ExitOK | ExitSetupLog (e : gerr) | ExitFatal (e : runerr) | ExitPanic.

Definition stderrIsTerminal : D bool :=
  r ← dcall DStderrMode;
  mret (match r with Some mode => ! (Z.eqb (Z.land mode ModeCharDevice) 0) | None => false end).

Definition main (getenv : string -> string) : D exit :=
  v ← dcall (DParseFlags (default_options getenv));
  let '(o, showVersion) := v in
  if (showVersion : bool) then _ ← dcall DPrintVersion; mret ExitOK
  else
    tty ← stderrIsTerminal;
    e ← dcall (DSetupLog (envOr getenv "VK_LOG_LEVEL" "info") (! tty));
    match e with
    | Some e => mret (ExitSetupLog e)
    | None =>
        r ← options_run getenv o;
        match r with
        | Panicked => mret ExitPanic
        | Returned (Some e) => _ ← dcall (DFatal e); mret (ExitFatal e)
        | Returned None => mret ExitOK
        end
    end.
End main.
