(* ===== verification/MainSpec.v ===== *)
(** * What the start of the daemon guarantees

    The provider's theorems assume a state path, a sandboxd lister and the loops of
    [main_loops]; here [options_run] is shown to provide them before it serves a
    pod.  The rest is about the options: ports, labels, the Node object, the pod
    queues and the self-signed certificate. *)

From stdpp Require Import pretty.
From Stdlib Require Import SpecFloat Ascii.
From S2P Require Import Prelude GoLib GoText Kube Prog State Provider StateFile Persist Runs Create Background Ledger Concurrent Pool Startup Inventory Daemon Cert Main.
Local Open Scope string_scope.
Local Open Scope list_scope.

Section histories.
Context `{DL : DaemonLib}.

Lemma does_bind {A B} (p : D A) (f : A -> D B) h b :
  does (p ≫= f) h b <-> exists h1 h2 a, h = h1 ++ h2 /\ does p h1 a /\ does (f a) h2 b.
Proof. apply can_run_bind. Qed.

Lemma does_call {B} e (k : dres e -> D B) h b :
  does (dcall e ≫= k) h b <-> exists x h', danswers e x /\ h = Did e x :: h' /\ does (k x) h' b.
Proof. apply can_run_call. Qed.

Lemma does_orReturn {A E} (wrap : E -> runerr) (p : D (A + E)) k h r :
  does (orReturn wrap p k) h r ->
  exists h1 h2 v, h = h1 ++ h2 /\ does p h1 v /\
    match v with inl a => does (k a) h2 r | inr e => h2 = [] /\ r = Returned (Some (wrap e)) end.
Proof.
  unfold orReturn. rewrite does_bind. intros (h1 & h2 & v & -> & Hp & Hk).
  exists h1, h2, v. split; [done|]. split; [done|]. by destruct v.
Qed.

Lemma does_ifErr {E} (wrap : E -> runerr) (p : D (option E)) k h r :
  does (ifErr wrap p k) h r ->
  exists h1 h2 v, h = h1 ++ h2 /\ does p h1 v /\
    match v with None => does k h2 r | Some e => h2 = [] /\ r = Returned (Some (wrap e)) end.
Proof.
  unfold ifErr. rewrite does_bind. intros (h1 & h2 & v & -> & Hp & Hk).
  exists h1, h2, v. split; [done|]. split; [done|]. by destruct v.
Qed.

(** The actions of a program are among those it may take. *)
Lemma does_acts {A} (P : dact -> Prop) (p : D A) h a :
  acts P p -> does p h a -> Forall (fun ev => match ev with Did e _ => P e end) h.
Proof.
  revert h. induction p as [b|e k IH]; intros h; [by intros _ [-> _]|].
  intros [He Hk] (x & h' & _ & -> & Hx). constructor; [done|]. by apply (IH x).
Qed.

(** ** What precedes serving *)

(** An action that neither starts a goroutine nor serves. *)
Definition building (e : dact) : Prop :=
  match e with DGo _ | DRunNode _ => False | _ => True end.

Definition prepares (h : list devent) : Prop := Forall (fun ev => match ev with Did e _ => building e end) h.

Definition started (h : list devent) : list loop :=
  omap (fun ev => match ev with Did (DGo l) _ => Some l | _ => None end) h.

Lemma prepares_started h : prepares h -> started h = [].
Proof.
  induction 1 as [|[e x] h He _ IH]; [done|]. simpl. by destruct e.
Qed.

Ltac quiet :=
  repeat first
    [ apply acts_bind; [|intros ?]
    | match goal with |- acts _ (match ?x with _ => _ end) => destruct x end
    | match goal with |- acts _ (if ?x then _ else _) => destruct x end
    | apply acts_call; exact I
    | exact I ].

Lemma nodeOptions_quiet o : acts building (nodeOptions o).
Proof.
  unfold nodeOptions, kubelet_cert, warningsOnly, fileReadable, selfSignedCert, dcall. quiet.
Qed.

Lemma kubeConfig_quiet getenv : acts building (kubeConfig getenv).
Proof. unfold kubeConfig, dcall. quiet. Qed.

(** Everything the daemon needs has been built in [pre], and [node] is the object it
    will serve. *)
Record ready (o : options) (pre : list devent) (node : VNode) : Prop := {
  ready_path : statePath o <> "";
  ready_quiet : prepares pre;
  ready_provider : exists client, Did (DNewProvider client (provider_config o)) None ∈ pre;
  ready_port : exists port, listenPort (listenAddr o) = inl port;
  ready_node : exists opts node0 cap,
    Did (DNewNode (nodeName o) opts) (inl node0) ∈ pre /\
    (exists h, does (nodeOptions o) h (inl opts)) /\
    capacity o = Some cap /\ factory o cap node0 = Some node;
}.

Lemma prepares_app h1 h2 : prepares h1 -> prepares h2 -> prepares (h1 ++ h2).
Proof. intros H1 H2. apply Forall_app. by split. Qed.

Lemma does_dcall e h v : does (dcall e) h v -> h = [Did e v].
Proof. by intros (x & h' & _ & -> & [-> ->]). Qed.

(** Concatenations of building steps. *)
Ltac prep := repeat first [ assumption | apply prepares_app | constructor ].

Lemma nodeOptions_port o h opts :
  does (nodeOptions o) h (inl opts) -> exists port, listenPort (listenAddr o) = inl port.
Proof.
  unfold nodeOptions. destruct (listenPort (listenAddr o)) as [port|e]; [eauto|]. by intros [_ [=]].
Qed.

Lemma nodeOptions_opts o h opts :
  does (nodeOptions o) h (inl opts) ->
  ListenAndHandle (listenAddr o) ∈ opts /\ exists cert, last opts = Some (ServeTLS cert false VersionTLS12).
Proof.
  unfold nodeOptions. destruct (listenPort (listenAddr o)) as [port|e]; [|by intros [_ [=]]].
  cbv zeta. set (base := [_; _; _; _]). rewrite does_bind. intros (h1 & h2 & opts1 & _ & H1 & Hk).
  assert (Hb : ListenAndHandle (listenAddr o) ∈ opts1).
  { destruct (disablePodEvents o).
    - destruct H1 as ([] & ? & _ & _ & [] & ? & _ & _ & x & h' & _ & _ & [_ ->]). set_solver.
    - destruct H1 as [_ ->]. set_solver. }
  apply does_bind in Hk as (h3 & h4 & v & _ & _ & Hk). destruct v as [cert|e]; destruct Hk as [_ [= ->]].
  split; [set_solver|]. exists cert. apply last_snoc.
Qed.

(** A run either stops while building or starts what it has built. *)
Lemma run_builds getenv o h r :
  does (options_run getenv o) h r ->
  prepares h \/
  exists pre t cfg node, h = pre ++ t /\ ready o pre node /\ does (start o cfg node) t r.
Proof.
  unfold options_run. destruct (String.eqb_spec (statePath o) "") as [|Hpath].
  { intros [-> _]. left. constructor. }
  intros ([] & hn & _ & -> & Hrun)%does_call.
  apply does_orReturn in Hrun as (h1 & h2 & v & -> & Hc & Hk).
  assert (H1 : prepares h1) by exact (does_acts building _ _ _ (kubeConfig_quiet getenv) Hc).
  destruct v as [cfg0|e]; [|left; destruct Hk as [-> _]; prep].
  cbv zeta in Hk. set (cfg := mkRest _ _ _) in Hk.
  apply does_ifErr in Hk as (h3 & h4 & [e|] & -> & ->%does_dcall & Hk); [left; destruct Hk as [-> _]; prep|].
  apply does_ifErr in Hk as (h5 & h6 & [e|] & -> & ->%does_dcall & Hk); [left; destruct Hk as [-> _]; prep|].
  apply does_orReturn in Hk as (h7 & h8 & [token|e] & -> & ->%does_dcall & Hk);
    [|left; destruct Hk as [-> _]; prep].
  apply does_ifErr in Hk as (h9 & h10 & [e|] & -> & ->%does_dcall & Hk); [left; destruct Hk as [-> _]; prep|].
  apply does_orReturn in Hk as (h11 & h12 & v & -> & Hopts & Hk).
  assert (H11 : prepares h11) by exact (does_acts building _ _ _ (nodeOptions_quiet o) Hopts).
  destruct v as [opts|e]; [|left; destruct Hk as [-> _]; prep].
  unfold providerFactory in Hk. destruct (capacity o) as [cap|] eqn:Hcap; [|left; destruct Hk as [-> _]; prep].
  apply does_orReturn in Hk as (h13 & h14 & [node0|e] & -> & ->%does_dcall & Hk);
    [|left; destruct Hk as [-> _]; prep].
  destruct (factory o cap node0) as [node|] eqn:Hf; [|left; destruct Hk as [-> _]; prep].
  right. eexists ([_] ++ h1 ++ [_] ++ [_] ++ [_] ++ [_] ++ h11 ++ [_]), h14, cfg, node.
  split; [by rewrite <- !app_assoc|]. split; [|done]. split.
  - done.
  - prep.
  - exists (sandboxd_client o token). set_solver.
  - by eapply nodeOptions_port.
  - exists opts, node0, cap. split; [set_solver|]. split; [by exists h11|]. by split.
Qed.

(** The goroutines [start] hands over, in order. *)
Definition loops_of (o : options) : list loop :=
  (if Z.ltb 0 (orphanInterval o) then [GoOrphanScan (orphanInterval o)] else []) ++
  [GoClaimVerification claimVerifyInterval; GoLeaseWatch leaseWatchInterval;
   GoOwnerRecheck ownerRecheckInterval].

Definition publisher_of (o : options) : list loop :=
  if publishInventory o
  then [GoPublish (nodeName o) (cmp_Or (sandboxdAddr o) (hostPort (sandboxdURL o))) (publishInterval o)]
  else [].

Definition is_serve (ev : devent) : Prop := match ev with Did (DRunNode _) _ => True | _ => False end.

(** No event of a concrete list serves. *)
Ltac no_serve := repeat (constructor; [intros []|]); constructor.

Lemma does_start o cfg node t r :
  does (start o cfg node) t r ->
  exists t1 t2, t = t1 ++ t2 /\ Forall (fun ev => ~ is_serve ev) t1 /\
    ((t2 = [] /\ started t1 = loops_of o) \/
     (exists x, t2 = [Did (DRunNode node) x] /\ started t1 = loops_of o ++ publisher_of o)).
Proof.
  assert (Hserve : forall h, does (serve node) h r -> exists x, h = [Did (DRunNode node) x]).
  { intros h (x & h' & _ & -> & Hx). exists x. destruct x as [[e|] []]; by destruct Hx as [-> _]. }
  unfold start. rewrite does_bind. intros (h1 & h2 & [] & -> & H1 & Hk).
  assert (Hs1 : started h1 = (if Z.ltb 0 (orphanInterval o) then [GoOrphanScan (orphanInterval o)] else [])
    /\ Forall (fun ev => ~ is_serve ev) h1).
  { destruct (Z.ltb 0 (orphanInterval o)).
    - destruct H1 as (x & h' & _ & -> & [-> _]). split; [done|no_serve].
    - destruct H1 as [-> _]. by split. }
  destruct Hs1 as [Hs1 Hn1].
  apply does_call in Hk as ([] & h3 & _ & -> & Hk). apply does_call in Hk as ([] & h4 & _ & -> & Hk).
  apply does_call in Hk as ([] & h5 & _ & -> & Hk).
  set (go := [Did (DGo (GoClaimVerification claimVerifyInterval)) tt;
              Did (DGo (GoLeaseWatch leaseWatchInterval)) tt;
              Did (DGo (GoOwnerRecheck ownerRecheckInterval)) tt] : list devent).
  assert (Hgo : forall t', started (h1 ++ go ++ t') = loops_of o ++ started t').
  { intros t'. unfold started. rewrite !omap_app. fold (started h1). rewrite Hs1.
    unfold loops_of. by rewrite <- app_assoc. }
  assert (Hnog : Forall (fun ev => ~ is_serve ev) (h1 ++ go)).
  { apply Forall_app. split; [done|]. no_serve. }
  destruct (publishInventory o) eqn:Hpub.
  - apply does_ifErr in Hk as (h6 & h7 & v & -> & ->%does_dcall & Hk).
    destruct v as [e|].
    + destruct Hk as [-> _]. exists (h1 ++ go ++ [Did (DNewCtrlClient cfg) (Some e)]), [].
      split; [by rewrite !app_nil_r|]. split.
      { rewrite app_assoc. apply Forall_app. split; [done|]. no_serve. }
      left. split; [done|]. rewrite Hgo. simpl. by rewrite app_nil_r.
    + apply does_call in Hk as ([] & h8 & _ & -> & [x ->]%Hserve). eexists (h1 ++ go ++ [_; _]), [_].
      split; [by rewrite <- !app_assoc|]. split.
      { rewrite app_assoc. apply Forall_app. split; [done|].
        no_serve. }
      right. exists x. split; [done|]. rewrite Hgo. unfold publisher_of. by rewrite Hpub.
  - apply Hserve in Hk as [x ->]. exists (h1 ++ go), [Did (DRunNode node) x].
    split; [by rewrite <- !app_assoc|]. split; [done|].
    right. exists x. split; [done|]. rewrite <- (app_nil_r go), Hgo. unfold publisher_of. by rewrite Hpub.
Qed.

Lemma start_result o cfg node t r :
  does (start o cfg node) t r ->
  r = Returned None \/ (exists e, r = Returned (Some (ErrInventoryClient e))) \/
  (exists e, r = Returned (Some (ErrNodeExited e))).
Proof.
  assert (Hserve : forall h, does (serve node) h r ->
    r = Returned None \/ (exists e, r = Returned (Some (ErrInventoryClient e))) \/
    (exists e, r = Returned (Some (ErrNodeExited e)))).
  { intros h (x & h' & _ & -> & Hx). destruct x as [[e|] []]; destruct Hx as [_ ->]; eauto. }
  unfold start. rewrite does_bind. intros (h1 & h2 & [] & -> & _ & Hk).
  do 3 apply does_call in Hk as ([] & ? & _ & -> & Hk). destruct (publishInventory o); [|by eapply Hserve].
  apply does_ifErr in Hk as (h6 & h7 & v & _ & _ & Hk). destruct v as [e|].
  - destruct Hk as [_ ->]. eauto.
  - apply does_call in Hk as ([] & ? & _ & -> & Hk). by eapply Hserve.
Qed.

Lemma run_serves getenv o h r h1 node x h2 :
  does (options_run getenv o) h r -> h = h1 ++ Did (DRunNode node) x :: h2 ->
  h2 = [] /\ started h1 = loops_of o ++ publisher_of o /\ exists pre t, h1 = pre ++ t /\ ready o pre node.
Proof.
  intros [Hq|(pre & t & cfg & node' & -> & Hr & Hs)]%run_builds Hh.
  { subst h. apply Forall_app in Hq as [_ Hq]. by inversion Hq. }
  apply does_start in Hs as (t1 & t2 & -> & Hn & Ht2).
  assert (Hno : Forall (fun ev => ~ is_serve ev) (pre ++ t1)).
  { apply Forall_app. split; [|done]. eapply Forall_impl; [apply Hr|]. intros [[] ?]; cbn; tauto. }
  rewrite app_assoc in Hh. apply app_split_cons in Hh as [(k & Hk & _)|(k & -> & Hk)].
  { rewrite Hk in Hno. apply Forall_app in Hno as [_ Hno]. apply Forall_cons in Hno as [Hno _]. by destruct Hno. }
  destruct Ht2 as [[-> _]|(x' & -> & Hst)]; [by destruct k|].
  destruct k as [|e k]; [|by destruct k]. simplify_eq/=. rewrite app_nil_r.
  split; [done|]. split; [|by exists pre, t1]. rewrite <- Hst.
  unfold started at 1. rewrite omap_app. fold (started pre). by rewrite prepares_started by apply Hr.
Qed.

(** The provider's goroutine behind a loop, watched for [ticks] turns. *)
Definition provider_loop (ticks : nat) (l : loop) : option goroutine :=
  match l with
  | GoOrphanScan d => Some (OrphanScanner ticks d)
  | GoClaimVerification d => Some (ClaimVerifier ticks d)
  | GoLeaseWatch d => Some (LeaseWatcher ticks d)
  | GoOwnerRecheck d => Some (OwnerRechecker ticks d)
  | GoPublish _ _ _ => None
  end.

Definition interval_of (l : loop) : duration :=
  match l with
  | GoOrphanScan d | GoClaimVerification d | GoLeaseWatch d | GoOwnerRecheck d | GoPublish _ _ d => d
  end.

(** C34: The daemon serves only once it is ready.  Before [options_run] serves the
    node, [provider.New] has succeeded with a sandboxd lister, a dynamic client and
    a state path that is not empty, and the listen address has a port in range.  The
    goroutines it has started are, in order, [loops_of] (the orphan scan if its
    interval is positive, the claim verification, the lease watch and the owner
    re-check, with the constants of main.go) and, if the inventory is published,
    the publisher with the interval of its flag.  The provider's loops are
    [main_loops], all with positive intervals, so that their tickers do not panic,
    and the owner re-check has a base delay the back-off bound (C23) allows; the
    only interval that may not be positive is the publisher's, which is not checked.
    Serving is the last thing it does. *)
Theorem run_serves_ready getenv o h r h1 node x h2 :
  does (options_run getenv o) h r -> h = h1 ++ Did (DRunNode node) x :: h2 ->
  h2 = [] /\ StatePath (provider_config o) <> "" /\
  HasLister (provider_config o) = true /\ HasDynamic (provider_config o) = true /\
  (exists client, Did (DNewProvider client (provider_config o)) None ∈ h1) /\
  (exists port, listenPort (listenAddr o) = inl port) /\
  started h1 = loops_of o ++ publisher_of o /\
  (forall ticks, omap (provider_loop ticks) (started h1) =
     main_loops ticks (orphanInterval o) claimVerifyInterval leaseWatchInterval ownerRecheckInterval) /\
  (forall l, l ∈ started h1 ->
     (0 < interval_of l)%Z \/ (l ∈ publisher_of o /\ interval_of l = publishInterval o)) /\
  (0 < ownerRecheckInterval <= ownerRecheckMaxDelay)%Z.
Proof.
  intros Hd Hh. destruct (run_serves _ _ _ _ _ _ _ _ Hd Hh) as (-> & Hst & pre & t & -> & Hr).
  split; [done|]. split; [apply Hr|]. split; [done|]. split; [done|].
  split; [destruct (ready_provider _ _ _ Hr) as [cl Hcl]; exists cl; set_solver|].
  split; [apply Hr|]. rewrite Hst. split; [done|]. split; [|split; [|by vm_compute]].
  - intros ticks. unfold loops_of, publisher_of, main_loops.
    by destruct (Z.ltb 0 (orphanInterval o)), (publishInventory o).
  - intros l [Hl|Hl]%elem_of_app.
    + left. unfold loops_of in Hl. destruct (Z.ltb_spec 0 (orphanInterval o));
        repeat (apply elem_of_cons in Hl as [->|Hl]; [done|]); by apply elem_of_nil in Hl.
    + right. split; [done|]. unfold publisher_of in Hl.
      destruct (publishInventory o); [|by apply elem_of_nil in Hl].
      by apply list_elem_of_singleton in Hl as ->.
Qed.

(** C38: The Node that is served is the configured one.  It is the object
    virtual-kubelet made, with the extra labels of the options winning over its own,
    the provider's NoSchedule taint added, the host name and, first, the internal
    address if there is one, the port of the listen address, and the three parsed
    quantities both as capacity and as allocatable; its endpoint listens on that
    address and speaks TLS 1.2 or later. *)
Theorem served_node_configured getenv o h r h1 node x h2 :
  does (options_run getenv o) h r -> h = h1 ++ Did (DRunNode node) x :: h2 ->
  exists opts node0 cpu memory pods,
    Did (DNewNode (nodeName o) opts) (inl node0) ∈ h1 /\
    ListenAndHandle (listenAddr o) ∈ opts /\ (exists cert, last opts = Some (ServeTLS cert false VersionTLS12)) /\
    Taints node = Taints node0 ++ [mkTaint TaintKey RuntimeSandboxd NoSchedule] /\
    (forall m, Labels node0 = Some m -> exists m', Labels node = Some m' /\
       forall k, m' !! k = match parseLabels (podLabels o) !! k with Some v => Some v | None => m !! k end) /\
    Addresses node = (if (nodeIP o =? "")%go then [] else [mkNodeAddress NodeInternalIP (nodeIP o)]) ++
                     [mkNodeAddress NodeHostName (nodeName o)] /\
    listenPort (listenAddr o) = inl (KubeletPort node) /\
    ParseQuantity (nodeCPU o) = Some cpu /\ ParseQuantity (nodeMem o) = Some memory /\
    ParseQuantity (nodePods o) = Some pods /\
    Capacity node = [(ResourceCPU, cpu); (ResourceMemory, memory); (ResourcePods, pods)] /\
    Allocatable node = Capacity node.
Proof.
  intros Hd Hh. destruct (run_serves _ _ _ _ _ _ _ _ Hd Hh) as (_ & _ & pre & t & -> & Hr).
  destruct (ready_node _ _ _ Hr) as (opts & node0 & cap & Hin & [ho Hopts] & Hcap & Hf).
  destruct (ready_port _ _ _ Hr) as [port Hport].
  unfold capacity in Hcap. apply bind_Some in Hcap as (cpu & Hcpu & Hcap).
  apply bind_Some in Hcap as (memory & Hmem & Hcap). apply bind_Some in Hcap as (pods & Hpods & [= <-]).
  unfold factory in Hf. rewrite Hport in Hf. apply bind_Some in Hf as (labels & Hl & [= <-]). cbn.
  exists opts, node0, cpu, memory, pods. split; [set_solver|].
  destruct (nodeOptions_opts _ _ _ Hopts) as [Hlisten Htls]. split; [done|]. split; [done|].
  split; [done|]. split.
  - intros m Hm. unfold maps_Copy in Hl. rewrite Hm in Hl. injection Hl as <-. eexists. split; [done|].
    intros k. rewrite lookup_union. by destruct (parseLabels (podLabels o) !! k), (m !! k).
  - split; [|done]. unfold node_addresses. by destruct (String.eqb (nodeIP o) "").
Qed.

(** C39: A failed start leaves nothing running.  Without a state path, nothing is
    done at all; and whenever [options_run] fails or panics before the inventory
    client and the node itself, no goroutine of this program has been started and
    no pod served.  (With pod events disabled, client-go's event broadcaster has its
    own goroutines by then: [DNewBroadcaster], [DStartRecordingToSink].) *)
Theorem failed_start_quiet getenv o h r :
  does (options_run getenv o) h r ->
  (statePath o = "" -> h = [] /\ r = Returned (Some ErrStatePathRequired)) /\
  (match r with
   | Panicked => True
   | Returned (Some (ErrInventoryClient _)) | Returned (Some (ErrNodeExited _)) | Returned None => False
   | Returned (Some _) => True
   end -> started h = [] /\ Forall (fun ev => ~ is_serve ev) h).
Proof.
  intros Hd. split.
  { intros He. unfold options_run in Hd. rewrite He in Hd. by destruct Hd as [-> ->]. }
  intros Hr. apply run_builds in Hd as [Hq|(pre & t & cfg & node & -> & _ & Hs)].
  { split; [by apply prepares_started|]. eapply Forall_impl; [exact Hq|]. intros [[] ?]; cbn; tauto. }
  exfalso. by apply start_result in Hs as [->|[[e ->]|[e ->]]].
Qed.
End histories.

(** ** Options *)

Section options.
Context `{DL : DaemonLib}.

Definition bare (s : string) : Prop :=
  contains_byte s ":" = false /\ contains_byte s "[" = false /\ contains_byte s "]" = false.

(** What the number of a listen address means: a TCP port, a number out of range, or
    one that does not fit in 32 bits and is no port at all. *)
Definition port_answer (z : Z) : Z + port_error :=
  if decide (1 <= z <= 65535)%Z then inl z
  else if decide (- 2 ^ 31 <= z < 2 ^ 31)%Z then inr (PortOutOfRange z)
  else inr BadPort.

Lemma listenPort_answer addr host z :
  SplitHostPort addr = inl (host, pretty z) -> listenPort addr = port_answer z.
Proof.
  intros Ha. unfold listenPort, port_answer. rewrite Ha, ParseInt_pretty.
  change (2 ^ (32 - 1))%Z with (2 ^ 31)%Z. assert (2 ^ 31 = 2147483648)%Z by done.
  destruct (decide (1 <= z <= 65535)%Z) as [Hz|Hz].
  - rewrite decide_True by lia. destruct (Z.ltb_spec z 1), (Z.ltb_spec 65535 z); done || lia.
  - case_decide; [|done]. destruct (Z.ltb_spec z 1), (Z.ltb_spec 65535 z); done || lia.
Qed.

(** C36: The listen port is the one written.  For every integer, written in decimal
    after a plain host (the empty one included) or a bracketed one, [listenPort]
    answers exactly [port_answer]: the number itself from 1 to 65535, out of range
    for any other 32-bit number, and a parse error for every number of 32 bits or
    more, so that none is truncated into a port.  And for every address at all, an
    accepted port is the value of the text after the host and a valid TCP port. *)
Theorem listenPort_exact (z : Z) host addr :
  (bare host -> listenPort (host +:+ String ":" (pretty z)) = port_answer z) /\
  (contains_byte host "[" = false -> contains_byte host "]" = false ->
     listenPort (String "[" (host +:+ String "]" (String ":" (pretty z)))) = port_answer z) /\
  (forall p, listenPort addr = inl p ->
     (1 <= p <= 65535)%Z /\
     exists h text, SplitHostPort addr = inl (h, text) /\ parse_signed text = Some p).
Proof.
  assert (Hp1 : contains_byte (pretty z) ":" = false) by by apply pretty_Z_no_byte.
  assert (Hp2 : contains_byte (pretty z) "[" = false) by by apply pretty_Z_no_byte.
  assert (Hp3 : contains_byte (pretty z) "]" = false) by by apply pretty_Z_no_byte.
  split; [|split].
  - intros (H1 & H2 & H3). apply (listenPort_answer _ host). by apply SplitHostPort_join.
  - intros H2 H3. apply (listenPort_answer _ host). by apply SplitHostPort_join_bracket.
  - unfold listenPort. intros p. destruct (SplitHostPort addr) as [[h t]|e]; [|done].
    destruct (ParseInt10 32 t) as [v|] eqn:Hv; [|done].
    destruct (Z.ltb_spec v 1), (Z.ltb_spec 65535 v); simpl; [done..|]. intros [= <-].
    split; [lia|]. exists h, t. split; [done|]. unfold ParseInt10 in Hv. by repeat case_match; simplify_eq.
Qed.

(** One label of the list as a user may write it, with spaces around it. *)
Record label := mkLabel { lead : string; lkey : string; lvalue : string; trail : string }.

Definition label_text (l : label) : string := lead l +:+ (lkey l +:+ String "=" (lvalue l)) +:+ trail l.

(** Bytes that a label's key and value are made of. *)
Definition label_byte (c : ascii) : bool := isASCII_byte c && negb (asciiSpace c) && negb (Ascii.eqb c ",").

Definition label_ok (l : label) : Prop :=
  all_bytes asciiSpace (lead l) = true /\ all_bytes asciiSpace (trail l) = true /\
  all_bytes label_byte (lkey l) = true /\ all_bytes label_byte (lvalue l) = true /\
  lkey l <> "" /\ contains_byte (lkey l) "=" = false.

Lemma all_bytes_impl f g (s : string) :
  (forall c, f c = true -> g c = true) -> all_bytes f s = true -> all_bytes g s = true.
Proof.
  intros Hfg. induction s as [|a s IH]; [done|]. simpl. intros [Ha Hs]%andb_prop.
  by rewrite (Hfg a Ha), IH.
Qed.

Lemma all_bytes_ASCII (s : string) : all_bytes isASCII_byte s = isASCII s.
Proof. induction s as [|a s IH]; [done|]. simpl. by rewrite IH. Qed.

Lemma all_bytes_none (s : string) c : all_bytes (fun a => negb (Ascii.eqb a c)) s = true -> contains_byte s c = false.
Proof.
  induction s as [|a s IH]; [done|]. simpl. intros [Ha%negb_true_iff Hs]%andb_prop.
  by rewrite contains_byte_cons, Ha, IH.
Qed.

Lemma label_byte_split c : label_byte c = true ->
  isASCII_byte c = true /\ negb (asciiSpace c) = true /\ negb (Ascii.eqb c ",") = true.
Proof. unfold label_byte. by intros [[? ?]%andb_prop ?]%andb_prop. Qed.

Lemma add_label_ok out l : label_ok l -> add_label out (label_text l) = <[lkey l := lvalue l]> out.
Proof.
  intros (Hl & Ht & Hk & Hv & Hne & Heq). unfold add_label, label_text.
  rewrite TrimSpace_pad; [|done|done| |].
  - rewrite Cut_join by done. by destruct (String.eqb_spec (lkey l) "").
  - rewrite isASCII_app, <- !all_bytes_ASCII. cbn [all_bytes].
    rewrite !(all_bytes_impl label_byte isASCII_byte) by (first [done | intros c Hc; apply label_byte_split in Hc; by destruct_and!]).
    done.
  - rewrite all_bytes_app. cbn [all_bytes].
    rewrite !(all_bytes_impl label_byte (fun c => negb (asciiSpace c)))
      by (first [done | intros c Hc; apply label_byte_split in Hc; by destruct_and!]).
    done.
Qed.

Lemma label_text_no_comma l : label_ok l -> contains_byte (label_text l) "," = false.
Proof.
  intros (Hl & Ht & Hk & Hv & _). apply all_bytes_none. set (g := fun c => negb (Ascii.eqb c ",")).
  assert (Hb : forall c, label_byte c = true -> g c = true) by (by intros c (_ & _ & ?)%label_byte_split).
  assert (Hs : forall c, asciiSpace c = true -> g c = true)
    by (intros c; unfold g; destruct (Ascii.eqb_spec c ","); [by subst|done]).
  unfold label_text. rewrite !all_bytes_app. cbn [all_bytes].
  by rewrite (all_bytes_impl _ g _ Hs Hl), (all_bytes_impl _ g _ Hs Ht), (all_bytes_impl _ g _ Hb Hk),
    (all_bytes_impl _ g _ Hb Hv).
Qed.

(** C37: Node labels are read back as written.  A comma-separated list of
    [key=value] with spaces around each, where values may contain [=], gives exactly
    these labels, the last one winning for a repeated key; and no text gives a label
    with an empty key or a key containing [=]. *)
Theorem parseLabels_roundtrip (labels : list label) :
  (Forall label_ok labels ->
     parseLabels (join "," (label_text <$> labels)) =
     foldl (fun out l => <[lkey l := lvalue l]> out) ∅ labels) /\
  (forall s k, is_Some (parseLabels s !! k) -> k <> "" /\ contains_byte k "=" = false).
Proof.
  split.
  - intros Hl. unfold parseLabels. destruct labels as [|l ls]; [reflexivity|].
    rewrite SplitByte_join; [|done|].
    2:{ apply Forall_fmap. eapply Forall_impl; [exact Hl|]. apply label_text_no_comma. }
    generalize (∅ : gmap string string). induction Hl as [|x xs Hx _ IH]; intros out; [done|].
    cbn [fmap list_fmap foldl]. rewrite add_label_ok by done. apply IH.
  - intros s k. unfold parseLabels. generalize (SplitByte "," s). intros l.
    induction l as [|kv l IH] using rev_ind; [by intros [v Hv]|]. rewrite foldl_app. cbn [foldl].
    unfold add_label at 1. unfold Cut. destruct (IndexByte (TrimSpace unicode_trim kv) "=") as [n|] eqn:Hi; [|done].
    destruct (String.eqb_spec (str_take n (TrimSpace unicode_trim kv)) "") as [|Hne]; [done|]. simpl.
    intros [v [[<- _]|[_ Hv]]%lookup_insert_Some]; [|by apply IH; exists v].
    split; [done|]. by apply IndexByte_take.
Qed.

(** The pod queues follow the budget of the clients: one limiter for all three, an
    unset rate or burst is client-go's default, a negative rate leaves only the
    per-pod back-off, and otherwise the bucket has the rate the clients were given. *)
Lemma pod_queues_budget o :
  let l := SyncPodsFromKubernetes (podQueueLimits o) in
  let backoff := ItemExponentialFailure podRetryBaseDelay podRetryMaxDelay in
  let qps := float32 (kubeQPS o) in
  podQueueLimits o = mkLimits l l l /\
  (SFltb qps float_zero = true -> l = backoff) /\
  (SFeqb qps float_zero = true -> SFltb DefaultQPS float_zero = false ->
     l = MaxOf backoff (Bucket (float64 DefaultQPS) (cmp_Or_int (kubeBurst o) DefaultBurst))) /\
  (SFltb float_zero qps = true ->
     l = MaxOf backoff (Bucket (float64 qps) (cmp_Or_int (kubeBurst o) DefaultBurst))).
Proof.
  cbv zeta. unfold podQueueLimits, cmp_Or_float. cbn [SyncPodsFromKubernetes].
  generalize (float32 (kubeQPS o)). intros q. split; [done|]. split; [|split].
  - intros Hq. assert (SFeqb q float_zero = false) as -> by (by destruct q as [[]|[]| |[]]).
    by rewrite Hq.
  - by intros -> ->.
  - intros Hq. assert (SFeqb q float_zero = false) as -> by (by destruct q as [[]|[]| |[]]).
    assert (SFltb q float_zero = false) as -> by (by destruct q as [[]|[]| |[]]). done.
Qed.
End options.

(** ** The certificate *)

Section certificate.
Context `{DL : DaemonLib}.

Lemma add_hosts_sans hosts t :
  add_hosts hosts t =
  with_sans (IPAddresses t ++ omap ParseIP hosts)
    (DNSNames t ++ filter (fun h => h <> "" /\ ParseIP h = None) hosts) t.
Proof.
  revert t. induction hosts as [|h hosts IH]; intros t.
  { unfold with_sans. simpl. rewrite !app_nil_r. by destruct t. }
  unfold add_hosts in *. cbn [foldl]. rewrite IH, filter_cons. cbn [omap list_omap]. unfold add_host.
  destruct (String.eqb_spec h "") as [->|Hne].
  { rewrite decide_False by naive_solver. done. }
  destruct (ParseIP h) as [ip|] eqn:Hip.
  - rewrite decide_False by naive_solver. unfold with_sans. simpl. by rewrite <- app_assoc.
  - rewrite decide_True by done. unfold with_sans. simpl. by rewrite <- app_assoc.
Qed.

(** C40: The self-signed certificate covers exactly its hosts.  A successful
    [selfSignedCert] signs one template with the key it generated and pairs the
    two; the template names every host that is not empty once, addresses apart from
    names and in order, has as serial the number it drew at random below 2^128, is
    for a TLS server, and is valid from an hour before to ten years after the clock
    it read. *)
Theorem selfSigned_covers hosts h cert :
  does (selfSignedCert hosts) h (inl cert) ->
  exists key tmpl der keyDER now1 now2,
    Did DGenerateKey (inl key) ∈ h /\
    Did (DRandInt (2 ^ 128)) (inl (SerialNumber tmpl)) ∈ h /\ Did DNow now1 ∈ h /\ Did DNow now2 ∈ h /\
    Did (DCreateCertificate tmpl tmpl key) (inl der) ∈ h /\
    Did (DMarshalECPrivateKey key) (inl keyDER) ∈ h /\
    last h = Some (Did (DX509KeyPair (mkPEM "CERTIFICATE" der) (mkPEM "EC PRIVATE KEY" keyDER)) (inl cert)) /\
    IPAddresses tmpl = omap ParseIP hosts /\
    DNSNames tmpl = filter (fun h => h <> "" /\ ParseIP h = None) hosts /\
    (0 <= SerialNumber tmpl < 2 ^ 128)%Z /\ ExtKeyUsage tmpl = [ExtKeyUsageServerAuth] /\
    NotBefore tmpl = (now1 - Hour)%Z /\ NotAfter tmpl = (now2 + 87600 * Hour)%Z.
Proof.
  intros ([key|e] & h1 & _ & -> & Hk); [|by destruct Hk as [_ [=]]].
  destruct Hk as ([serial|e] & h2 & Hs & -> & Hk); [|by destruct Hk as [_ [=]]].
  destruct Hk as (now1 & h3 & _ & -> & now2 & h4 & _ & -> & Hk).
  destruct Hk as ([der|e] & h5 & _ & -> & Hk); [|by destruct Hk as [_ [=]]].
  destruct Hk as ([keyDER|e] & h6 & _ & -> & Hk); [|by destruct Hk as [_ [=]]].
  destruct Hk as ([cert'|e] & h7 & _ & -> & Hk); [|by destruct Hk as [_ [=]]].
  destruct Hk as [-> [= <-]]. set (t0 := mkTemplate serial _ _ _ _ _ _ _ _).
  exists key, (add_hosts hosts t0), der, keyDER, now1, now2.
  rewrite add_hosts_sans. split; [set_solver|].
  split; [cbn; change (2 ^ 128)%Z with (Z.shiftl 1 128); set_solver|].
  split; [set_solver|]. split; [set_solver|]. split; [set_solver|].
  split; [set_solver|]. split; [reflexivity|]. cbn.
  split; [done|]. split; [done|]. split; [exact Hs|]. split; [done|]. unfold time_Add. split; lia.
Qed.
End certificate.

(** ** The publisher's interval is not checked

    The orphan scan's interval is tested before its loop is started, the
    publisher's is not: with an interval that is not positive, a serving daemon has
    started a loop that panics at its ticker. *)

Lemma publish_interval_unchecked `{DL : DaemonLib} `{SL : ScaleLib} getenv o h r h1 node x h2 :
  does (options_run getenv o) h r -> h = h1 ++ Did (DRunNode node) x :: h2 ->
  publishInventory o = true -> (publishInterval o <= 0)%Z ->
  exists address, GoPublish (nodeName o) address (publishInterval o) ∈ started h1 /\
    forall fuel, PublishPeriodically fuel (nodeName o) address false (publishInterval o) = mret None.
Proof.
  intros Hd Hh Hp Hi. destruct (run_serves _ _ _ _ _ _ _ _ Hd Hh) as (_ & Hst & _).
  exists (cmp_Or (sandboxdAddr o) (hostPort (sandboxdURL o))). split.
  - rewrite Hst. unfold publisher_of. rewrite Hp. set_solver.
  - intros fuel. unfold PublishPeriodically. by rewrite (proj2 (Z.leb_le _ _)).
Qed.

(** ** From the command line to the claims table *)

Section end_to_end.
Context `{DL : DaemonLib} `{K : KubeLib} `{HK : !KubeLibOk}.

Lemma pool_wf_loops workers loops :
  Forall (fun g => key_of g = None) loops -> pool_wf workers -> pool_wf (workers ++ loops).
Proof.
  intros Hl [Hw Hd].
  assert (Hworker : forall i g k, (workers ++ loops) !! i = Some g -> key_of g = Some k ->
    workers !! i = Some g).
  { intros i g k Hi Hk. apply lookup_app_Some in Hi as [Hi|[_ Hi]]; [done|].
    rewrite Forall_forall in Hl. by rewrite (Hl g) in Hk by (by eapply list_elem_of_lookup_2). }
  split.
  - apply Forall_app. split; [done|]. eapply Forall_impl; [exact Hl|]. by intros [].
  - intros i j g g' k Hij Hi Hj Hk Hk'. apply (Hd i j g g' k); eauto.
Qed.

(** Every provider of a history is the one [New] builds: run over the disk [d] in a
    new process, with the answers of [env], it gave the answer of the history and
    left the world [w0]. *)
Definition built_by (env : Env) (d : Disk) (w0 : World) (h : list devent) : Prop :=
  Forall (fun ev => match ev with
                    | Did (DNewProvider _ cfg) r => exec env (New cfg) (boot d) = (r, w0)
                    | _ => True
                    end) h.

(** The run that serves has called [New] with its configuration. *)
Lemma served_new getenv o h r h1 node x h2 env d w0 :
  does (options_run getenv o) h r -> h = h1 ++ Did (DRunNode node) x :: h2 -> built_by env d w0 h1 ->
  StatePath (provider_config o) <> "" /\ HasLister (provider_config o) = true /\
  exec env (New (provider_config o)) (boot d) = (None, w0).
Proof.
  intros Hd Hh Hb. destruct (run_serves _ _ _ _ _ _ _ _ Hd Hh) as (_ & _ & pre & t & -> & Hready).
  split; [apply Hready|]. split; [done|].
  destruct (ready_provider _ _ _ Hready) as [client Hin]. unfold built_by in Hb.
  rewrite Forall_forall in Hb. apply (Hb (Did (DNewProvider client (provider_config o)) None)). set_solver.
Qed.

(** C35: The daemon as a whole keeps its credentials.  Take a run of [options_run]
    that serves, whose call of [provider.New] is the modelled [New] over the state
    file a previous process left, and the goroutines that run started beside any pod
    workers with distinct keys.  In every world any interleaving of them reaches
    from the world [New] left, every credential of that file is held or its sandbox
    is known to be gone, and every claim that is not tentative or queued for release
    is in the state file.  (Assumed: sandboxd issues an id once, and the file's
    times are ones that can be written and read back.) *)
Theorem daemon_keeps_credentials getenv o h r h1 node x h2 env st d w0 k0 ticks workers ts w :
  does (options_run getenv o) h r -> h = h1 ++ Did (DRunNode node) x :: h2 ->
  built_by env d w0 h1 ->
  stateOnDisk d = Some (Doc (encode_state st)) -> timely_state st ->
  (forall id tok, file_has st (id, tok) -> k0 !! id = Some tok) ->
  pool_wf workers ->
  reaches (provider_config o) k0 (workers ++ omap (provider_loop ticks) (started h1)) w0 ts w ->
  (forall id tok, file_has st (id, tok) -> covered w id tok) /\
  exists st', stateOnDisk (disk w) = Some (Doc (encode_state st')) /\
    (forall key c, claims (mem w) !! key = Some c -> key ∉ tentative (mem w) -> file_has st' (cred c)) /\
    (forall c, c ∈ releasing (mem w) -> file_has st' (cred c)).
Proof.
  intros Hd Hh Hb Hdisk Ht Hk Hw Hr.
  destruct (served_new _ _ _ _ _ _ _ _ _ _ _ Hd Hh Hb) as (Hp & Hl & Hnew).
  destruct (startup_Inv _ env _ _ _ _ Hp Hl Hdisk Ht Hk Hnew) as [HI Hm].
  assert (Hwf : pool_wf (workers ++ omap (provider_loop ticks) (started h1))).
  { apply pool_wf_loops; [|done]. apply Forall_forall. intros g Hg.
    apply list_elem_of_omap in Hg as (l & _ & Hl'). by destruct l; simplify_eq/=. }
  split.
  - intros id tok Hf. apply (pool_covered (provider_config o) Hp Hl k0 _ _ _ _ id tok Hwf HI Hm Hr).
    + left. by apply Hk.
    + by eapply startup_covered.
  - destruct (pool_Inv _ Hp Hl _ _ _ _ _ Hwf HI Hm Hr) as (_ & _ & _ & st' & Hst' & Hcov). by exists st'.
Qed.
End end_to_end.
