(* ===== verification/Demo.v ===== *)
(** * A concrete library, environment and pods

    An instance of [KubeLib] that satisfies its laws, environments that answer
    every call, and small worlds: the inputs on which the theorems are applied to
    concrete data.  [run_pool] turns an execution of one goroutine into a run of
    the pool semantics. *)

From S2P Require Import Prelude GoLib Kube Prog State Provider StateFile Persist Ownership Status Create Delete Background Ledger Rules Concurrent Lifecycle Pool.
From Stdlib Require Import Ascii.
Local Open Scope string_scope.
Local Open Scope list_scope.

(** ** The library *)

Fixpoint pos_text (p : positive) : string :=
  match p with
  | xH => "1"
  | xO p => String "0" (pos_text p)
  | xI p => String "1" (pos_text p)
  end.

Fixpoint text_pos (s : string) : option positive :=
  match s with
  | EmptyString => None
  | String c EmptyString => if Ascii.eqb c "1" then Some xH else None
  | String c s => (if Ascii.eqb c "1" then xI else xO) <$> text_pos s
  end.

(** Seconds since the zero Time, in binary. *)
Definition demo_marshal (t : time) : string :=
  match (t / Second)%Z with Zpos p => pos_text p | _ => "0" end.
Definition demo_unmarshal (s : string) : option time :=
  if String.eqb s "0" then Some 0%Z else (fun p => (Zpos p * Second)%Z) <$> text_pos s.

Definition demo_controller (pod : Pod) : option OwnerReference :=
  head (filter (fun o => Controller o = Some true) (OwnerReferences pod)).

#[export] Instance demoLib : KubeLib := {|
  GetControllerOf := demo_controller;
  GetControllerOfNoCopy := demo_controller;
  ParseGroupVersion s :=
    match Cut s "/" with
    | (v, _, false) => Some ("", v)
    | (g, v, true) => if contains_byte v "/" then None else Some (g, v)
    end;
  SelectorTemplateKey := "sandbox.cocoonstack.io/template";
  SelectorNetKey := "sandbox.cocoonstack.io/net";
  SelectorSizeKey := "sandbox.cocoonstack.io/size";
  SandboxConditionReady := "Ready";
  SandboxReasonExpired := "SandboxExpired";
  unicode_lower := fun s => s;
  FormatRFC3339 := demo_marshal;
  time_marshal := demo_marshal;
  time_unmarshal := demo_unmarshal;
|}.

Lemma pos_text_nonempty p : exists c s, pos_text p = String c s.
Proof. destruct p; simpl; eauto. Qed.

Lemma text_pos_text p : text_pos (pos_text p) = Some p.
Proof.
  induction p as [p IH|p IH|]; simpl; [| |done];
    destruct (pos_text_nonempty p) as (c & s & Hp); rewrite Hp in *; by rewrite IH.
Qed.

Lemma pos_text_zero p : pos_text p <> "0".
Proof.
  destruct p as [p|p|]; simpl; [done| |done].
  destruct (pos_text_nonempty p) as (c & s & ->). congruence.
Qed.

#[export] Instance demoLibOk : KubeLibOk (K := demoLib).
Proof.
  constructor; [done|]. intros t [H0 H1]. unfold time_unmarshal, time_marshal, demoLib.
  unfold demo_unmarshal, demo_marshal, trunc_second.
  assert (0 <= t / Second)%Z by (apply Z.div_pos; [done|by compute]).
  destruct (t / Second)%Z as [|p|p] eqn:E; [done| |lia].
  destruct (String.eqb_spec (pos_text p) "0") as [Hz|_]; [by apply pos_text_zero in Hz|].
  by rewrite text_pos_text.
Qed.

(** ** Environments *)

(** Everything succeeds; sandboxd grants [r] and lists [listed]; the owner query
    answers [owner]. *)
Definition demo_env (r : ClaimResult + gerr) (listed : list SandboxSummary + gerr)
    (owner : OwnerObject + APIError) (now : time) : Env := {|
  env_claim _ _ := r;
  env_release _ _ _ _ := None;
  env_list _ := listed;
  env_owner _ _ _ _ := owner;
  env_now _ := now;
  env_range _ ks := ks;
  env_read _ := None;
  env_mkdir _ := None;
  env_write _ _ := None;
  env_rename _ := None;
  env_tick _ := true;
|}.

Definition demo_grant : ClaimResult := mkClaimResult "sb-1" "tok-1" "10.0.0.5:7777" (5000 * Second)%Z.

Definition demo_owner : OwnerReference :=
  mkOwnerReference "agents.x-k8s.io/v1beta1" "Sandbox" "a" "owner-uid" (Some true) None.

Definition demo_pod (uid : string) (owners : list OwnerReference) : Pod :=
  mkPod "ns" "a" uid
    (Some {["sandbox.cocoonstack.io/template" := "rt:24.04"]}) owners
    [mkContainer "agent" "rt:24.04"] zeroStatus.

Definition demo_cfg : Config := mkConfig true true "/var/lib/vk-sandbox/claims.json".

Definition demo_claim : Claim :=
  mkClaim "sb-0" "tok-0" "10.0.0.5:7777" "uid-1" (Some "owner-uid") (1000 * Second)%Z
    (3000 * Second)%Z None.

(** A provider with one settled claim, saved on disk. *)
Definition demo_provider : Provider :=
  mkProvider {["ns/b" := demo_pod "uid-1" [demo_owner]]} {["ns/b" := demo_claim]}
    true ∅ ∅ [] ∅ ∅.

Definition demo_world : World :=
  mkWorld demo_provider
    (mkDisk (Some (Doc (encode_state (snapshot "" demo_provider)))) None) [] None.

(** ** From one goroutine to the pool *)

(** Locks are taken when free and released by their holder along the run. *)
Fixpoint locks_ok {A} (env : Env) (p : M A) (w : World) : Prop :=
  match p with
  | Ret _ => True
  | Act e k =>
      match e with
      | ASaveLock => saveOwner w = None
      | ASaveUnlock => saveOwner w = Some 0
      | _ => True
      end /\ locks_ok env (k (handle env e w).1) (handle env e w).2
  end.

Lemma handle_hist env e w : exists t, hist (handle env e w).2 = hist w ++ t.
Proof.
  assert (Hnil : exists t, hist w = hist w ++ t) by (exists []; by rewrite app_nil_r).
  destruct e; simpl; eauto; repeat case_match; simpl; eauto.
Qed.

Lemma run_hist {A} env (p : M A) w : exists t, hist (exec env p w).2 = hist w ++ t.
Proof.
  revert w. induction p as [a|e k IH]; intros w; simpl.
  - exists []. by rewrite app_nil_r.
  - destruct (handle_hist env e w) as [t1 Ht1].
    destruct (handle env e w) as [x w1]. simpl in Ht1.
    destruct (IH x w1) as [t2 Ht2]. exists (t1 ++ t2). by rewrite Ht2, Ht1, app_assoc.
Qed.

Lemma handle_fstep k0 env e w :
  match e with
  | ASaveLock => saveOwner w = None
  | ASaveUnlock => saveOwner w = Some 0
  | _ => True
  end -> fresh k0 (hist (handle env e w).2) ->
  fstep k0 0 e w (handle env e w).1 (handle env e w).2.
Proof.
  intros Hl Hf. split; [|done]. pose proof (handle_astep env e w) as Ha.
  destruct e; try exact Ha; by split.
Qed.

Lemma run_pool {A} k0 env (p : M A) others w :
  locks_ok env p w -> fresh k0 (hist (exec env p w).2) ->
  rtc (pool_step (fstep k0)) (p :: others, w) (Ret (exec env p w).1 :: others, (exec env p w).2).
Proof.
  revert w. induction p as [a|e k IH]; intros w Hl Hf; [done|].
  simpl in *. destruct Hl as [Hl Hl'].
  pose proof (handle_fstep k0 env e w Hl) as Hstep.
  destruct (handle env e w) as [x w1] eqn:Hh. simpl in *.
  eapply rtc_l; [|by apply IH].
  destruct (run_hist env (k x) w1) as [t Ht]. rewrite Ht in Hf.
  apply (pool_act (fstep k0) (Act e k :: others) 0 e k w x w1); [done|].
  apply Hstep. by eapply fresh_prefix.
Qed.

Lemma exec_alone {A} env (p : M A) w :
  locks_ok env p w ->
  rtc (pool_step astep_of) ([p], w) ([Ret (exec env p w).1], (exec env p w).2).
Proof.
  revert w. induction p as [a|e k IH]; intros w Hl; [done|].
  simpl in *. destruct Hl as [Hl Hl'].
  assert (Hs : astep_of 0 e w (handle env e w).1 (handle env e w).2).
  { pose proof (handle_astep env e w) as Ha. destruct e; try exact Ha; by split. }
  destruct (handle env e w) as [x w1]. simpl in *.
  eapply rtc_l; [|by apply IH]. by apply (pool_act astep_of [Act e k] 0 e k w x w1).
Qed.

(** ** Variations *)

(** The disk refuses the rename, and sandboxd answers [rel] to a release. *)
Definition broken_disk (rel : option gerr) (env : Env) : Env := {|
  env_claim := env_claim env;
  env_release _ _ _ _ := rel;
  env_list := env_list env;
  env_owner := env_owner env;
  env_now := env_now env;
  env_range := env_range env;
  env_read := env_read env;
  env_mkdir := env_mkdir env;
  env_write := env_write env;
  env_rename _ := Some "input/output error";
  env_tick := env_tick env;
|}.

(** A table with one row under ns/a, saved on disk; [pod] tells whether it has a
    pod. *)
Definition row_provider (pod : bool) (c : Claim) (tent quar : gset string) : Provider :=
  mkProvider (if pod then {["ns/a" := demo_pod "uid-1" [demo_owner]]} else ∅) {["ns/a" := c]}
    true tent quar [] ∅ ∅.

Definition row_world (pod : bool) (c : Claim) (tent quar : gset string) : World :=
  mkWorld (row_provider pod c tent quar)
    (mkDisk (Some (Doc (encode_state (snapshot "" (row_provider pod c tent quar))))) None) [] None.

Definition empty_world : World :=
  mkWorld (mkProvider ∅ ∅ true ∅ ∅ [] ∅ ∅)
    (mkDisk (Some (Doc (encode_state (mkStateFile (Some ∅) [])))) None) [] None.

Definition demo_summary : SandboxSummary := mkSandboxSummary "sb-0" "ns/a" (9000 * Second)%Z "{}".

(** The owner is alive. *)
Definition owner_alive : OwnerObject + APIError := inl (mkOwnerObject None "owner-uid" []).

(** The owner is gone, by name. *)
Definition owner_missing : OwnerObject + APIError :=
  inr (mkAPIError true (Some (Some "a")) "not found").
