(* ===== verification/Witnesses.v ===== *)
(** * The concurrency theorems on concrete runs

    Each lemma applies a theorem to a closed input, with its hypotheses evaluated. *)

From S2P Require Import Prelude GoLib Kube Prog State Provider StateFile Persist Ownership Status Create Delete Background Runs SaveSpec DeleteSpec CreateSpec BackgroundSpec LeaseSpec RecheckSpec Footprint Ledger Rules Concurrent Lifecycle Pool Startup StatusSpec Authority Demo.
Local Open Scope string_scope.
Local Open Scope list_scope.

(** The credential known at the start. *)
Definition demo_known : gmap string string := {["sb-0" := "tok-0"]}.

Definition demo_pool : list goroutine := [PodWorker "ns/a" [OpCreate (demo_pod "uid-2" [demo_owner])]].

Definition demo_answers : Env :=
  demo_env (inl demo_grant) (inl []) (inr (mkAPIError false None "down")) (2000 * Second)%Z.

Definition demo_body : M unit :=
  body demo_cfg (PodWorker "ns/a" [OpCreate (demo_pod "uid-2" [demo_owner])]).

Definition demo_run : unit * World := exec demo_answers demo_body demo_world.

Lemma demo_pool_wf : pool_wf demo_pool.
Proof.
  split; [repeat constructor|].
  intros [|i] [|j] g g' k Hij; simpl; try done.
Qed.

Lemma demo_Inv : Inv demo_known demo_world.
Proof.
  split; [|split; [|split]].
  - intros h1 ie h2 id Hh. by destruct h1.
  - intros id tok [(k & c & Hk & Hc)|(c & Hc & _)]; [|by apply elem_of_nil in Hc].
    left. cbn in Hk. apply lookup_singleton_Some in Hk as [_ <-].
    cbv [cred] in Hc. simplify_eq. by vm_compute.
  - split; [set_solver|]. intros k c Hk _. left. cbn in Hk.
    apply lookup_singleton_Some in Hk as [_ <-]. exists "tok-0". by vm_compute.
  - eexists. split; [done|]. apply snapshot_covers.
Qed.

Lemma demo_mine i : mine i demo_world.
Proof. intros spec r Hin. by apply elem_of_nil in Hin. Qed.

Lemma demo_fresh : fresh demo_known (hist demo_run.2).
Proof.
  apply fresh_intro; vm_compute; repeat constructor; set_solver.
Qed.

Lemma demo_reaches : reaches demo_cfg demo_known demo_pool demo_world [Ret demo_run.1] demo_run.2.
Proof.
  assert (Hl : locks_ok demo_answers demo_body demo_world) by (vm_compute; repeat split).
  unfold reaches. change (body demo_cfg <$> demo_pool) with [demo_body].
  unfold demo_run. exact (run_pool demo_known demo_answers demo_body [] demo_world Hl demo_fresh).
Qed.

Lemma no_credential_lost_witness : covered demo_run.2 "sb-0" "tok-0" /\ covered demo_run.2 "sb-1" "tok-1".
Proof.
  destruct (no_credential_lost demo_cfg ltac:(done) eq_refl demo_known demo_pool demo_world
    [Ret demo_run.1] demo_run.2 demo_pool_wf demo_Inv demo_mine demo_reaches) as [H1 H2].
  split.
  - apply H1. left. exists "ns/b", demo_claim. split; by vm_compute.
  - apply (H2 0 (claim_spec (demo_pod "uid-2" [demo_owner]) 86400) demo_grant).
    + simpl. by destruct demo_run.1.
    + apply (list_elem_of_lookup_2 _ 0). by vm_compute.
Defined.

Lemma settled_claims_durable_witness :
  exists c, claims (mem demo_run.2) !! "ns/a" = Some c /\
  exists st, stateOnDisk (disk demo_run.2) = Some (Doc (encode_state st)) /\ file_has st (cred c).
Proof.
  destruct (settled_claims_durable demo_cfg ltac:(done) eq_refl demo_known demo_pool demo_world
    [Ret demo_run.1] demo_run.2 demo_pool_wf demo_Inv demo_mine demo_reaches) as (st & Hst & Hc & _).
  eexists. split; [by vm_compute|]. exists st. split; [exact Hst|]. apply (Hc "ns/a"); by vm_compute.
Defined.

(** ** Authority *)

Definition bare_pod : Pod := demo_pod "uid-1" [].
Definition delete_pool : list goroutine := [PodWorker "ns/a" [OpDelete bare_pod]].
Definition delete_world : World := row_world true demo_claim ∅ ∅.
Definition delete_run : unit * World := exec demo_answers (body demo_cfg (PodWorker "ns/a" [OpDelete bare_pod])) delete_world.

(** A create whose save fails, on an empty table. *)
Definition unsaved_answers : Env := broken_disk None demo_answers.
Definition unsaved_run : unit * World := exec unsaved_answers demo_body empty_world.
Definition unsaved_before : history :=
  [(0, EvClaim (claim_spec (demo_pod "uid-2" [demo_owner]) 86400) (inl demo_grant));
   (0, EvNow (2000 * Second)%Z); (0, EvMkdirAll None); (0, EvWriteTmp None);
   (0, EvRename (Some "input/output error"))].

Lemma one_worker_wf key c : call_on key c -> pool_wf [PodWorker key [c]].
Proof.
  intros Hc. split; [by repeat constructor|].
  intros [|i] [|j] g g' k Hij; simpl; try done.
Qed.

(** A bare pod's deletion, and the undo of a claim that could not be saved. *)
Lemma releases_authorized_witness :
  release_reason demo_cfg (called delete_pool) (mem delete_world) [] CallerCtx "sb-0" "tok-0" /\
  release_reason demo_cfg (called demo_pool) (mem empty_world) unsaved_before DetachedCtx "sb-1" "tok-1".
Proof.
  split.
  - assert (Hl : locks_ok demo_answers (body demo_cfg (PodWorker "ns/a" [OpDelete bare_pod])) delete_world)
      by (vm_compute; repeat split).
    assert (Hh : exists h2, hist delete_run.2 = [] ++ (0, EvRelease CallerCtx "sb-0" "tok-0" None) :: h2)
      by (eexists; by vm_compute).
    destruct Hh as [h2 Hh].
    exact (releases_authorized demo_cfg delete_pool delete_world [Ret delete_run.1] delete_run.2
      (one_worker_wf "ns/a" (OpDelete bare_pod) eq_refl) eq_refl eq_refl (exec_alone demo_answers _ _ Hl)
      [] 0 CallerCtx "sb-0" "tok-0" None h2 Hh).
  - assert (Hl : locks_ok unsaved_answers demo_body empty_world) by (vm_compute; repeat split).
    assert (Hh : hist unsaved_run.2 = unsaved_before ++ (0, EvRelease DetachedCtx "sb-1" "tok-1" None) :: [])
      by (by vm_compute).
    exact (releases_authorized demo_cfg demo_pool empty_world [Ret unsaved_run.1] unsaved_run.2
      demo_pool_wf eq_refl eq_refl (exec_alone unsaved_answers _ _ Hl)
      unsaved_before 0 DetachedCtx "sb-1" "tok-1" None [] Hh).
Defined.

(** ** Start-up *)

Definition saved_map : gmap string Claim := {["ns/a" := demo_claim]}.
Definition saved_table : stateFile := mkStateFile (Some saved_map) [].
Definition saved_disk : Disk := mkDisk (Some (Doc (encode_state saved_table))) None.

Lemma demo_claim_timely : timely demo_claim.
Proof. by vm_compute. Qed.

Lemma saved_table_timely : timely_state saved_table.
Proof.
  split; [|constructor]. intros m Hm. injection Hm as <-.
  apply map_Forall_singleton, demo_claim_timely.
Qed.

Lemma saved_table_known id tok : file_has saved_table (id, tok) -> demo_known !! id = Some tok.
Proof.
  intros [(m & k & c & Hm & Hk & Hc)|(c & Hc & _)]; [|by apply elem_of_nil in Hc].
  injection Hm as <-. unfold saved_map in Hk. apply lookup_singleton_Some in Hk as [_ <-].
  injection Hc as <- <-. by vm_compute.
Qed.

Lemma startup_restores_witness :
  let w' := (exec demo_answers (New demo_cfg) (boot saved_disk)).2 in
  covered w' "sb-0" "tok-0" /\ Inv demo_known w'.
Proof.
  assert (Hrun : exec demo_answers (New demo_cfg) (boot saved_disk)
    = (None, (exec demo_answers (New demo_cfg) (boot saved_disk)).2)).
  { rewrite (surjective_pairing (exec _ _ _)) at 1. by vm_compute. }
  destruct (startup_restores demo_cfg demo_answers saved_table saved_disk _ demo_known
    ltac:(done) eq_refl eq_refl saved_table_timely saved_table_known Hrun) as (H1 & H2 & _).
  split; [|exact H2]. apply H1. left. exists saved_map, "ns/a", demo_claim.
  split; [reflexivity|]. split; [apply lookup_singleton_eq|reflexivity].
Defined.


(** The claim the run of [demo_pool] commits, and the table it leaves on disk. *)
Definition demo_claim_1 : Claim :=
  mkClaim "sb-1" "tok-1" "10.0.0.5:7777" "uid-2" (Some "owner-uid") (2000 * Second)%Z
    (5000 * Second)%Z None.
Definition demo_file : stateFile :=
  mkStateFile (Some (<["ns/a" := demo_claim_1]> {["ns/b" := demo_claim]})) [].

Lemma demo_file_timely : timely_state demo_file.
Proof.
  split; [|constructor]. intros m Hm. injection Hm as <-.
  apply map_Forall_insert_2; [by vm_compute|apply map_Forall_singleton, demo_claim_timely].
Qed.

Lemma crash_recovery_witness :
  covered (exec demo_answers (New demo_cfg) (boot (disk demo_run.2))).2 "sb-1" "tok-1".
Proof.
  assert (Hrun : exec demo_answers (New demo_cfg) (boot (disk demo_run.2))
    = (None, (exec demo_answers (New demo_cfg) (boot (disk demo_run.2))).2)).
  { rewrite (surjective_pairing (exec _ _ _)) at 1. by vm_compute. }
  apply (crash_recovery demo_cfg demo_answers demo_known demo_pool demo_world [Ret demo_run.1]
    demo_run.2 demo_file _ demo_claim_1 ltac:(done) eq_refl demo_pool_wf demo_Inv demo_mine
    demo_reaches ltac:(by vm_compute) demo_file_timely Hrun).
  left. exists "ns/a". split; by vm_compute.
Defined.

Lemma table_roundtrip_witness :
  exists m' q', Unmarshal (Doc (encode_state saved_table)) = Some (mkStateFile (Some m') q') /\
    Unmarshal (Doc (encode_state (mkStateFile (Some m') q'))) = Some (mkStateFile (Some m') q').
Proof.
  destruct (table_roundtrip saved_map [] saved_table_timely) as (m' & q' & H1 & _ & _ & H2).
  exists m', q'. by split.
Defined.

Lemma save_atomic_witness :
  whole "" empty_world (exec demo_answers (persist demo_cfg) empty_world).2.
Proof.
  destruct (save_atomic demo_cfg "ns/a" empty_world ltac:(done)) as [H _].
  refine (H _ _ (exec_alone demo_answers _ _ _)). vm_compute. repeat split.
Defined.

Lemma running_means_durable_witness :
  exists c st, claims (mem demo_run.2) !! "ns/a" = Some c /\
    stateOnDisk (disk demo_run.2) = Some (Doc (encode_state st)) /\ file_has st (cred c).
Proof.
  refine (running_means_durable demo_cfg demo_answers demo_known demo_pool demo_world [Ret demo_run.1]
    demo_run.2 "ns" "a"
    (runningStatus (podWithClaim (demo_pod "uid-2" [demo_owner]) "sb-1") demo_claim_1)
    (exec demo_answers (GetPodStatus "ns" "a") demo_run.2).2
    ltac:(done) eq_refl demo_pool_wf demo_Inv demo_mine demo_reaches _ eq_refl).
  rewrite (surjective_pairing (exec _ _ _)) at 1. by vm_compute.
Defined.
