(* ===== verification/MainWitnesses.v ===== *)
(** * The start-up theorems on a concrete daemon

    A library instance, options and answers for every action; [respond] runs a
    program against fixed answers, and each lemma applies a theorem to that run. *)

From Stdlib Require Import SpecFloat.
From S2P Require Import Prelude GoLib GoText Kube Prog State Provider StateFile Persist Runs Create Background Ledger Concurrent Pool Startup Daemon Cert Main MainSpec Demo Witnesses.
Local Open Scope string_scope.
Local Open Scope list_scope.

#[local] Instance demoDaemon : DaemonLib := {|
  unicode_trim := fun s => s;
  url_host := fun _ => None;
  Quantity := string;
  ParseQuantity s := if String.eqb s "" then None else Some s;
  DefaultQPS := float_of_Z 5;
  DefaultBurst := 10;
  RestOther := unit;
  NodeOther := unit;
  Certificate := string;
  PrivateKey := string;
|}.

(** ** Running against fixed answers *)

Fixpoint respond {A} (ans : forall e, dres e) (p : D A) : list devent * A :=
  match p with
  | Ret a => ([], a)
  | Act e k => let '(h, a) := respond ans (k (ans e)) in (Did e (ans e) :: h, a)
  end.

Lemma respond_does {A} ans (p : D A) :
  (forall e, danswers e (ans e)) -> does p (respond ans p).1 (respond ans p).2.
Proof.
  intros Ha. induction p as [a|e k IH]; [by split|]. simpl.
  specialize (IH (ans e)). destruct (respond ans (k (ans e))) as [h a].
  exists (ans e), h. by repeat split.
Qed.

Definition demo_node0 : VNode := mkVNode (Some ∅) [] [] 0 [] [] tt.

(** Everything succeeds; [readable] tells whether the certificate files are there. *)
Definition ok_answers (readable : bool) (e : dact) : dres e :=
  match e return dres e with
  | DInClusterConfig => inl (mkRest float_zero 0 tt)
  | DBuildConfigFromFlags _ => inr "no kubeconfig"
  | DNewClientset _ | DNewDynamic _ | DNewCtrlClient _ => None
  | DTokenFrom _ => inl "node-token"
  | DNewProvider _ _ => None
  | DNotifyContext _ | DNewBroadcaster | DStartRecordingToSink | DNewRecorder _ => tt
  | DGo _ | DPrintVersion | DFatal _ => tt
  | DStat _ => if readable then Some 420%Z else None
  | DStderrMode => None
  | DLoadX509KeyPair _ _ => inl "loaded"
  | DX509KeyPair _ _ => inl "pair"
  | DGenerateKey => inl "key"
  | DRandInt bound => if Z.ltb 0 bound then inl (bound - 1)%Z else inr "empty range"
  | DNow => (2000 * Second)%Z
  | DCreateCertificate _ _ _ | DMarshalECPrivateKey _ => inl "der"
  | DNewNode _ _ => inl demo_node0
  | DRunNode _ => (None, true)
  | DParseFlags defaults => (defaults, false)
  | DSetupLog _ _ => None
  end.

Lemma ok_answers_allowed readable e : danswers e (ok_answers readable e).
Proof. destruct e; try exact I. simpl. destruct (Z.ltb_spec 0 bound); [lia|done]. Qed.

(** ** Serving *)

Definition demo_options : options := default_options (fun _ => "").

Definition demo_start : list devent * outcome :=
  respond (ok_answers true) (options_run (fun _ => "") demo_options).

Lemma demo_start_does : does (options_run (fun _ => "") demo_options) demo_start.1 demo_start.2.
Proof. apply respond_does, ok_answers_allowed. Qed.

Definition demo_before : list devent := take 14 demo_start.1.

(** The node that [factory] makes of [demo_node0]. *)
Definition demo_vnode : VNode :=
  mkVNode (Some (parseLabels (podLabels demo_options) ∪ ∅)) [mkTaint TaintKey RuntimeSandboxd NoSchedule]
    [mkNodeAddress NodeHostName "vk-sandboxd"] 10260
    [(ResourceCPU, "4000"); (ResourceMemory, "8Ti"); (ResourcePods, "2000")]
    [(ResourceCPU, "4000"); (ResourceMemory, "8Ti"); (ResourcePods, "2000")] tt.

Lemma demo_serves : demo_start.1 = demo_before ++ Did (DRunNode demo_vnode) (None, true) :: [].
Proof. by vm_compute. Qed.

Lemma run_serves_ready_witness :
  StatePath (provider_config demo_options) <> "" /\
  omap (provider_loop 7) (started demo_before) =
    [OrphanScanner 7 (60 * Second)%Z; ClaimVerifier 7 (15 * Second)%Z; LeaseWatcher 7 (30 * Second)%Z;
     OwnerRechecker 7 (10 * Second)%Z].
Proof.
  destruct (run_serves_ready _ _ _ _ _ _ _ _ demo_start_does demo_serves)
    as (_ & Hp & _ & _ & _ & _ & _ & Hl & _).
  split; [exact Hp|]. rewrite (Hl 7). by vm_compute.
Defined.

Lemma served_node_configured_witness :
  listenPort ":10260" = inl (KubeletPort demo_vnode) /\ Allocatable demo_vnode = Capacity demo_vnode.
Proof.
  destruct (served_node_configured _ _ _ _ _ _ _ _ demo_start_does demo_serves)
    as (opts & node0 & cpu & memory & pods & _ & _ & _ & _ & _ & _ & Hp & _ & _ & _ & _ & Ha).
  split; [exact Hp|exact Ha].
Defined.

(** The world [New] leaves over [saved_disk], and a pod created in it. *)
Definition served_world : World := (exec demo_answers (New (provider_config demo_options)) (boot saved_disk)).2.

Definition served_body : M unit :=
  body (provider_config demo_options) (PodWorker "ns/a" [OpCreate (demo_pod "uid-2" [demo_owner])]).

Definition served_run : unit * World := exec demo_answers served_body served_world.

Lemma demo_built : built_by demo_answers saved_disk served_world demo_before.
Proof.
  assert (Hnew : exec demo_answers (New (provider_config demo_options)) (boot saved_disk) = (None, served_world)).
  { rewrite (surjective_pairing (exec _ _ _)) at 1. by vm_compute. }
  unfold built_by. repeat (constructor; [first [exact I | exact Hnew]|]). constructor.
Qed.

Lemma served_reaches :
  reaches (provider_config demo_options) demo_known
    (demo_pool ++ omap (provider_loop 7) (started demo_before)) served_world
    (Ret served_run.1 :: (body (provider_config demo_options) <$> omap (provider_loop 7) (started demo_before)))
    served_run.2.
Proof.
  assert (Hl : locks_ok demo_answers served_body served_world) by (vm_compute; repeat split).
  assert (Hf : fresh demo_known (hist served_run.2))
    by (apply fresh_intro; vm_compute; repeat constructor; set_solver).
  exact (run_pool demo_known demo_answers served_body _ served_world Hl Hf).
Qed.

(** The pod's sandbox [sb-1] is granted and committed while [sb-0] of the file is
    accounted for. *)
Lemma daemon_keeps_credentials_witness :
  covered served_run.2 "sb-0" "tok-0" /\
  exists c st', claims (mem served_run.2) !! "ns/a" = Some c /\ ID c = "sb-1" /\
    stateOnDisk (disk served_run.2) = Some (Doc (encode_state st')) /\ file_has st' (cred c).
Proof.
  destruct (daemon_keeps_credentials _ _ _ _ _ _ _ _ demo_answers saved_table saved_disk served_world
    demo_known 7 demo_pool _ _ demo_start_does demo_serves demo_built eq_refl saved_table_timely
    saved_table_known demo_pool_wf served_reaches) as (H & st' & Hst & Hc & _).
  split.
  - apply H. left. exists saved_map, "ns/a", demo_claim.
    split; [reflexivity|]. split; [apply lookup_singleton_eq|reflexivity].
  - eexists _, st'. split; [by vm_compute|]. split; [done|]. split; [exact Hst|].
    apply (Hc "ns/a"); by vm_compute.
Defined.

(** ** Refusing to start *)

Definition bad_options : options := default_options (fun key => if String.eqb key "VK_LISTEN_ADDR" then ":0" else "").

Lemma failed_start_quiet_witness :
  started (respond (ok_answers true) (options_run (fun _ => "") bad_options)).1 = [].
Proof.
  destruct (failed_start_quiet (fun _ => "") bad_options _ _
    (respond_does (ok_answers true) _ (ok_answers_allowed true))) as [_ H].
  apply H. vm_compute. exact I.
Defined.

(** An advertised quantity that does not parse panics, after the provider is built. *)
Example malformed_cpu_panics :
  let o := mkOptions "vk-1" "" ":10260" "" "" "" "8Ti" "2000" "http://127.0.0.1:7777" "" ""
    "/var/lib/vk-sandbox/claims.json" "" Minute Minute false false (float_of_Z 200) 400 in
  let '(h, r) := respond (ok_answers true) (options_run (fun _ => "") o) in
  r = Panicked /\ Did (DNewProvider (sandboxd_client o "node-token") (provider_config o)) None ∈ h.
Proof. split; [reflexivity|]. apply (list_elem_of_lookup_2 _ 5). reflexivity. Qed.

(** ** The certificate *)

Lemma selfSigned_covers_witness :
  exists key tmpl der, Did (DCreateCertificate tmpl tmpl key) (inl der)
      ∈ (respond (ok_answers false) (selfSignedCert ["vk-1"; ""; "127.0.0.1"])).1 /\
    DNSNames tmpl = ["vk-1"] /\ IPAddresses tmpl = [v4_mapped [127; 0; 0; 1]%Z].
Proof.
  destruct (selfSigned_covers (DL := demoDaemon) ["vk-1"; ""; "127.0.0.1"] _ "pair"
    (respond_does (ok_answers false) _ (ok_answers_allowed false)))
    as (key & tmpl & der & keyDER & now1 & now2 & Hk & _ & _ & _ & Hc & _ & _ & Hip & Hdns & _).
  exists key, tmpl, der. split; [exact Hc|].
  split; [rewrite Hdns; by vm_compute|rewrite Hip; by vm_compute].
Defined.
