(* ===== verification/Examples.v ===== *)
(** * The handler theorems on concrete inputs

    Each lemma applies a theorem about one handler to a closed world and
    environment, with its hypotheses evaluated. *)

From S2P Require Import Prelude GoLib Kube Prog State Provider StateFile Persist Ownership Status Create Delete Background Runs SaveSpec DeleteSpec CreateSpec BackgroundSpec LeaseSpec RecheckSpec Ledger Pool StatusSpec Inventory InventorySpec Demo.
Local Open Scope string_scope.
Local Open Scope list_scope.

Definition early : time := (2000 * Second)%Z.
Definition late : time := (4000 * Second)%Z.

Definition owned_pod : Pod := demo_pod "uid-1" [demo_owner].
Definition next_pod : Pod := demo_pod "uid-2" [demo_owner].
Definition other_pod : Pod := demo_pod "uid-2" [].

Definition held_world : World := row_world true demo_claim ∅ ∅.

Definition alive_env : Env := demo_env (inl demo_grant) (inl [demo_summary]) owner_alive early.
Definition gone_env : Env := demo_env (inl demo_grant) (inl []) owner_missing late.

Lemma held_current pod : UID pod = "uid-1" -> keyOf pod = "ns/a" -> current_pod (mem held_world) pod.
Proof.
  intros Hu Hk cur Hc. rewrite Hk in Hc.
  assert (Hp : pods (mem held_world) !! "ns/a" = Some owned_pod) by reflexivity.
  rewrite Hp in Hc. injection Hc as <-. by rewrite Hu.
Qed.

Lemma demo_disk_works r l o t : disk_works (demo_env r l o t).
Proof. by split; [|split]. Qed.

(** ** Deletion *)

Lemma delete_preserves_witness :
  let '(e, w') := exec alive_env (DeletePod demo_cfg owned_pod) held_world in
  e = None /\ claims (mem w') !! "ns/a" = Some (with_Owner (Some demo_owner) demo_claim).
Proof.
  pose proof (delete_preserves demo_cfg alive_env owned_pod demo_claim held_world
    (held_current owned_pod eq_refl eq_refl) ltac:(by vm_compute) ltac:(by vm_compute)) as H.
  destruct (exec alive_env (DeletePod demo_cfg owned_pod) held_world) as [e w'].
  destruct H as (He & _ & _ & Hm & _). split; [exact He|]. rewrite Hm. by vm_compute.
Defined.

Lemma delete_releases_witness :
  let '(e, w') := exec gone_env (DeletePod demo_cfg owned_pod) held_world in
  e = None /\ claims (mem w') !! "ns/a" = None.
Proof.
  pose proof (delete_releases demo_cfg gone_env owned_pod demo_claim held_world
    (held_current owned_pod eq_refl eq_refl) ltac:(by vm_compute) ltac:(by vm_compute)) as H.
  destruct (exec gone_env (DeletePod demo_cfg owned_pod) held_world) as [e w'].
  destruct H as (asked & saves & r & _ & _ & _ & Hr & H). subst r. destruct H as (He & Hc & _).
  split; [exact He|]. rewrite Hc. by vm_compute.
Defined.

Lemma stale_generation_ignored_witness :
  exec gone_env (DeletePod demo_cfg next_pod) held_world = (None, held_world).
Proof.
  apply (stale_generation_ignored demo_cfg gone_env next_pod owned_pod held_world); [reflexivity|].
  discriminate.
Defined.

(** ** Creation *)

(** A claim that answers to the owner its deletion recorded, not to the authority it
    was bound by. *)
Definition kept_claim : Claim :=
  mkClaim "sb-0" "tok-0" "10.0.0.5:7777" "uid-1" (Some "uid-1") (1000 * Second)%Z (3000 * Second)%Z
    (Some demo_owner).
Definition kept_world : World := row_world false kept_claim ∅ ∅.

Lemma create_adopts_witness :
  let '(e, w') := exec alive_env (CreatePod demo_cfg next_pod) kept_world in
  e = None /\ claims (mem w') !! "ns/a" =
    Some (mkClaim "sb-0" "tok-0" "10.0.0.5:7777" "uid-2" (Some "owner-uid") (1000 * Second)%Z
            (3000 * Second)%Z None).
Proof.
  assert (Hsame : same_authority kept_claim next_pod).
  { right. intros u [o Ho|u' Hn _]; [|done]. injection Ho as <-. by apply (speaks_controller next_pod demo_owner). }
  pose proof (create_adopts demo_cfg alive_env next_pod kept_claim (Deadline kept_claim) "owner-uid" kept_world
    ltac:(reflexivity) ltac:(reflexivity) ltac:(by vm_compute)
    ltac:(left; split; [intros [_ H]; by vm_compute in H|reflexivity]) Hsame
    (speaks_controller next_pod demo_owner eq_refl)) as H.
  destruct (exec alive_env (CreatePod demo_cfg next_pod) kept_world) as [e w'].
  destruct H as (He & _ & Hm & _). split; [exact He|]. rewrite Hm. by vm_compute.
Defined.

Lemma create_claims_witness :
  let '(e, w') := exec alive_env (CreatePod demo_cfg next_pod) empty_world in
  e = None /\ settled (mem w') "ns/a" = true.
Proof.
  pose proof (create_claims demo_cfg alive_env next_pod 86400 demo_grant empty_world
    ltac:(reflexivity) ltac:(reflexivity) ltac:(by vm_compute) (demo_disk_works _ _ _ _)
    ltac:(split; [reflexivity|by vm_compute]) eq_refl) as H.
  destruct (exec alive_env (CreatePod demo_cfg next_pod) empty_world) as [e w'].
  destruct H as (He & Hs & _). by split.
Defined.

Lemma unsaved_claim_undone_witness :
  let env := broken_disk (Some "refused") alive_env in
  let '(e, w') := exec env (CreatePod demo_cfg next_pod) empty_world in
  stateOnDisk (disk w') = stateOnDisk (disk empty_world) /\
  stranded next_pod (new_claim env next_pod 86400 demo_grant empty_world) (mem w').
Proof.
  pose proof (unsaved_claim_undone demo_cfg (broken_disk (Some "refused") alive_env) next_pod 86400
    demo_grant "rename claims state: input/output error" empty_world
    ltac:(reflexivity) ltac:(reflexivity) ltac:(by vm_compute)
    ltac:(split; [reflexivity|by vm_compute]) eq_refl ltac:(by vm_compute)) as H.
  cbv zeta. destruct (exec _ (CreatePod demo_cfg next_pod) empty_world) as [e w'].
  destruct H as (_ & Hd & h & rel & Hrel & _ & H). subst rel. destruct H as [_ Hs]. by split.
Defined.

Definition stranded_world : World := row_world true demo_claim {["ns/a"]} ∅.

Lemma stranded_returned_first_witness :
  let '(e, w') := exec alive_env (CreatePod demo_cfg next_pod) stranded_world in
  e = None /\ settled (mem w') "ns/a" = true.
Proof.
  pose proof (stranded_returned_first demo_cfg alive_env next_pod demo_claim 86400 demo_grant stranded_world
    ltac:(reflexivity) ltac:(split; by vm_compute) ltac:(by vm_compute) (demo_disk_works _ _ _ _)
    ltac:(split; [reflexivity|by vm_compute]) ltac:(reflexivity)) as H.
  cbv zeta in H. destruct (exec alive_env (CreatePod demo_cfg next_pod) stranded_world) as [e w'].
  destruct H as (He & Hs & _). by split.
Defined.

Lemma create_replaces_witness :
  let '(e, w') := exec alive_env (CreatePod demo_cfg other_pod) held_world in
  e = None /\ releasing (mem w') = [demo_claim].
Proof.
  assert (Hother : ~ same_authority demo_claim other_pod).
  { intros [H|H]; [done|]. specialize (H "owner-uid" (answers_authority demo_claim _ eq_refl eq_refl)).
    by apply speaks_for_iff in H. }
  pose proof (create_replaces demo_cfg alive_env other_pod demo_claim held_world
    ltac:(reflexivity) ltac:(by vm_compute) Hother) as H.
  destruct (exec alive_env (CreatePod demo_cfg other_pod) held_world) as [e w'].
  destruct H as (_ & H).
  destruct (H (Deadline demo_claim) 86400%Z demo_grant) as (He & _ & Hr & _).
  - reflexivity.
  - left. split; [intros [_ Hn]; by vm_compute in Hn|reflexivity].
  - apply demo_disk_works.
  - split; [reflexivity|by vm_compute].
  - reflexivity.
  - split; [exact He|]. rewrite Hr. by vm_compute.
Defined.

Lemma create_refuses_unlistable_witness :
  let env := demo_env (inl demo_grant) (inr "unreachable") owner_alive late in
  let '(e, w') := exec env (CreatePod demo_cfg next_pod) held_world in
  e <> None /\ mem w' = mem held_world.
Proof.
  pose proof (create_refuses_unlistable demo_cfg
    (demo_env (inl demo_grant) (inr "unreachable") owner_alive late) next_pod demo_claim held_world
    ltac:(reflexivity) eq_refl ltac:(reflexivity) ltac:(right; by vm_compute)
    ltac:(intros h; by exists "unreachable")) as H.
  cbv zeta. destruct (exec _ (CreatePod demo_cfg next_pod) held_world) as [e w'].
  destruct H as (He & Hm & _). by split.
Defined.

(** ** The background loops *)

Definition unverified_world : World := row_world false demo_claim ∅ {["ns/a"]}.

Lemma verification_exact_witness :
  let '(ok, w') := exec alive_env (VerifyClaimsAgainstNode demo_cfg) unverified_world in
  ok = true /\ "ns/a" ∉ quarantined (mem w').
Proof.
  pose proof (verification_exact demo_cfg alive_env unverified_world eq_refl ltac:(by vm_compute)) as H.
  destruct (exec alive_env (VerifyClaimsAgainstNode demo_cfg) unverified_world) as [ok w'].
  destruct H as (Hok & Hrow & _). split; [exact Hok|].
  destruct (Hrow "ns/a" demo_claim) as [Hq _]; [by vm_compute|by vm_compute|exact Hq].
Defined.

Lemma verification_loop_ends_witness :
  let '(ended, w') := exec alive_env (RunClaimVerification demo_cfg 3 Minute) unverified_world in
  ended = Some true /\ quarantined (mem w') = ∅.
Proof.
  apply (verification_loop_ends demo_cfg alive_env 0 2 Minute unverified_world eq_refl eq_refl).
  - vm_compute. set_solver.
  - reflexivity.
  - intros h _. by exists [demo_summary].
  - vm_compute. lia.
Defined.

Lemma orphan_scan_exact_witness :
  let '((orphans, stale, ok), w') := exec gone_env (OrphanScan demo_cfg) held_world in
  ok = true /\ "ns/a" ∈ stale.
Proof.
  pose proof (orphan_scan_exact demo_cfg gone_env [] held_world eq_refl eq_refl) as H.
  destruct (exec gone_env (OrphanScan demo_cfg) held_world) as [[[orphans stale] ok] w'].
  destruct H as (Hok & _ & Hst & _).
  { assert (Hcl : claims (mem held_world) = {["ns/a" := demo_claim]}) by reflexivity.
    intros k k' c c' Hk Hk' _. rewrite Hcl in Hk, Hk'.
    apply lookup_singleton_Some in Hk as [<- _]. by apply lookup_singleton_Some in Hk' as [<- _]. }
  split; [exact Hok|]. apply Hst. exists demo_claim. split; [by vm_compute|]. set_solver.
Defined.

Lemma scan_logs_once_witness :
  let w1 := (exec gone_env (OrphanScan demo_cfg) held_world).2 in
  hist (exec gone_env (OrphanScan demo_cfg) w1).2 =
    hist w1 ++ [(0, EvSandboxes (inl [])); (0, EvLogVerdicts [])].
Proof.
  cbv zeta. apply (scan_logs_once demo_cfg gone_env [] held_world
    (exec gone_env (OrphanScan demo_cfg) held_world).2 eq_refl (NoDup_nil_2) eq_refl eq_refl
    eq_refl eq_refl eq_refl).
Defined.

Lemma lease_watch_exact_witness :
  (0, EvNotify (with_Status (expiredStatus owned_pod demo_claim) owned_pod))
    ∈ hist (exec gone_env (publishExpiredLeases demo_cfg) held_world).2.
Proof.
  pose proof (lease_watch_exact demo_cfg gone_env held_world eq_refl) as H. cbv zeta in H.
  destruct H as (_ & H & _). apply (H eq_refl "ns/a" owned_pod demo_claim).
  - by vm_compute.
  - set_solver.
Defined.

Definition preserved_claim : Claim := with_Owner (Some demo_owner) demo_claim.
Definition preserved_world : World := row_world false preserved_claim ∅ ∅.

(** A due turn notes a minute, and a turn half a minute later asks nothing. *)
Lemma recheck_backs_off_witness :
  let turn t w := exec alive_env (recheck_row demo_cfg t Minute ("ns/a", preserved_claim) false) w in
  let w1 := (turn early preserved_world).2 in
  ownerRechecks (mem w1) !! "ns/a" = Some (mkRecheck (early + Minute)%Z Minute) /\
  turn (early + 30 * Second)%Z w1 = (false, w1).
Proof.
  cbv zeta. split.
  - destruct (recheck_backs_off demo_cfg alive_env early Minute 0 "ns/a" preserved_claim false
      preserved_world ltac:(by vm_compute) I) as [_ H].
    destruct (exec alive_env (recheck_row _ _ _ _ _) preserved_world) as [b w'].
    destruct H as (_ & _ & Hm & _).
    + intros t (r & Hr & _). by vm_compute in Hr.
    + by vm_compute.
    + cbn [snd]. rewrite Hm. by vm_compute.
  - refine (proj1 (recheck_backs_off demo_cfg alive_env (early + 30 * Second)%Z Minute 1 "ns/a"
      preserved_claim false _ ltac:(by vm_compute) _) (early + Minute)%Z _ ltac:(by vm_compute)).
    + by vm_compute.
    + exists (mkRecheck (early + Minute)%Z Minute). split; by vm_compute.
Defined.

(** Two queued claims; sandboxd refuses until it has been asked once. *)
Definition other_claim : Claim :=
  mkClaim "sb-9" "tok-9" "" "uid-9" None (1000 * Second)%Z (3000 * Second)%Z None.
Definition queue_world : World :=
  mkWorld (mkProvider ∅ ∅ true ∅ ∅ [demo_claim; other_claim] ∅ ∅) (disk empty_world) [] None.
Definition slow_env : Env := {|
  env_claim := env_claim gone_env;
  env_release h _ _ _ := match h with [] => Some "busy" | _ => None end;
  env_list := env_list gone_env;
  env_owner := env_owner gone_env;
  env_now := env_now gone_env;
  env_range := env_range gone_env;
  env_read := env_read gone_env;
  env_mkdir := env_mkdir gone_env;
  env_write := env_write gone_env;
  env_rename := env_rename gone_env;
  env_tick := env_tick gone_env;
|}.

Lemma drain_exact_witness :
  let '(b, w') := exec slow_env drainReleases queue_world in
  b = true /\ releasing (mem w') = [demo_claim].
Proof.
  pose proof (drain_exact slow_env queue_world) as H.
  destruct (exec slow_env drainReleases queue_world) as [b w'].
  destruct H as (rs & [Hlen Hans] & _ & _ & _ & Hq & Hb).
  assert (H0 : rs !! 0 = Some (Some "busy")) by exact (Hans 0 demo_claim eq_refl).
  destruct rs as [|r0 [|r1 [|]]]; try done. injection H0 as ->.
  assert (H1 : [Some "busy"; r1] !! 1 = Some None) by exact (Hans 1 other_claim eq_refl).
  injection H1 as ->. split; [apply Hb; set_solver|].
  rewrite Hq; [by vm_compute|]. vm_compute. repeat constructor; set_solver.
Defined.


(** ** Resource names *)

(** The plural rules on kinds the sandbox operator and its tests use. *)
Example plural_rules :
  pluralResource "sandbox" = "sandboxes" /\ pluralResource "policy" = "policies" /\
  pluralResource "gateway" = "gateways" /\ pluralResource "mesh" = "meshes" /\
  pluralResource "replicaset" = "replicasets" /\ pluralResource "y" = "ys".
Proof. by vm_compute. Qed.

(** ** Status *)

(** Pending while the row is tentative, Running before the lease end, Failed after it. *)
Lemma status_exact_witness :
  (exists s, (exec alive_env (GetPodStatus "ns" "a") stranded_world).1 = Some s /\ Phase s = PodPending) /\
  (exists s, (exec alive_env (GetPodStatus "ns" "a") held_world).1 = Some s /\
     running_status owned_pod demo_claim s) /\
  (exists s, (exec gone_env (GetPodStatus "ns" "a") held_world).1 = Some s /\
     failed_status owned_pod demo_claim s).
Proof.
  assert (Hun : ~ unserved (mem held_world) "ns/a").
  { intros [H|[H|H]]; [by vm_compute in H|by apply elem_of_empty in H|by apply elem_of_empty in H]. }
  split; [|split].
  - pose proof (status_exact alive_env "ns" "a" stranded_world) as H. cbv zeta in H.
    destruct (exec alive_env (GetPodStatus "ns" "a") stranded_world) as [st w'].
    destruct H as (_ & _ & _ & H). destruct (H owned_pod) as (s & -> & Hp & _); [by vm_compute|].
    exists s. split; [done|]. rewrite Hp; [done|]. right. left. by vm_compute.
  - pose proof (status_exact alive_env "ns" "a" held_world) as H. cbv zeta in H.
    destruct (exec alive_env (GetPodStatus "ns" "a") held_world) as [st w'].
    destruct H as (_ & _ & _ & H). destruct (H owned_pod) as (s & -> & _ & Hs); [by vm_compute|].
    exists s. split; [done|]. apply (Hs demo_claim); [by vm_compute|exact Hun|].
    intros [_ Hle]. by vm_compute in Hle.
  - pose proof (status_exact gone_env "ns" "a" held_world) as H. cbv zeta in H.
    destruct (exec gone_env (GetPodStatus "ns" "a") held_world) as [st w'].
    destruct H as (_ & _ & _ & H). destruct (H owned_pod) as (s & -> & _ & Hs); [by vm_compute|].
    exists s. split; [done|]. apply (Hs demo_claim); [by vm_compute|exact Hun|].
    split; by vm_compute.
Defined.

(** ** The inventory *)

Lemma claim_addresses_exact_witness :
  let '(m, w') := exec alive_env ClaimAddresses held_world in
  w' = held_world /\ m !! "sb-0" = Some "10.0.0.5:7777".
Proof.
  pose proof (claim_addresses_exact alive_env held_world) as H.
  destruct (exec alive_env ClaimAddresses held_world) as [m w'].
  destruct H as [Hw Hm].
  { intros k k' c c' Hk Hk' _. assert (Hcl : claims (mem held_world) = {["ns/a" := demo_claim]}) by reflexivity.
    rewrite Hcl in Hk, Hk'. apply lookup_singleton_Some in Hk as [<- _].
    by apply lookup_singleton_Some in Hk' as [<- _]. }
  split; [exact Hw|]. apply Hm. split; [done|]. exists "ns/a", demo_claim. by vm_compute.
Defined.

Definition demoScale : ScaleLib := {|
  EntryRest := unit;
  RawInfo := unit;
  PoolCapacity := unit;
  PromotedTemplate := unit;
  entry_name s := SumID s;
  entry_address _ := "";
  entry_rest _ := tt;
  PoolCapacityFromInfo _ := [];
  TemplatesFromInfo _ := [];
  InventoryKind := "NodeInventory";
  InventoryAPIVersion := "sandbox.cocoonstack.io/v1beta1";
|}.

#[local] Existing Instance demoScale.

Definition demo_node : NodeObject := mkNode "vk-1" "node-uid".

Definition demo_entry : InventoryEntry := mkEntry "sb-0" "10.0.0.5:7777" tt.

Definition demo_inventory : NodeInventory :=
  inventory_of "vk-1" "10.0.0.5:7777" [node_ref demo_node] [demo_entry] early tt.

(** A publication before the Node registers fails at the listing; the next one
    finds the Node and applies. *)
Definition demo_reads : list ievent :=
  [IvGetNode "vk-1" (inr (mkAPIError true None "not found")); IvSandboxes (inr "refused"); IvTick true;
   IvGetNode "vk-1" (inl demo_node); IvSandboxes (inl [demo_summary]);
   IvAddresses {["sb-0" := "10.0.0.5:7777"]}; IvSort [demo_entry] [demo_entry]; IvNow early; IvInfo (inl tt)].

Lemma demo_publishes :
  runs (PublishPeriodically 2 "vk-1" "10.0.0.5:7777" false Minute)
    (demo_reads ++ IvApply demo_inventory None :: [IvTick false]) (Some true).
Proof.
  exists (inr (mkAPIError true None "not found")). eexists. split; [done|]. split; [done|].
  exists (inr "refused"). eexists. split; [done|]. split; [done|].
  exists true. eexists. split; [done|]. split; [done|].
  exists (inl demo_node). eexists. split; [done|]. split; [done|].
  exists (inl [demo_summary]). eexists. split; [done|]. split; [done|].
  exists {["sb-0" := "10.0.0.5:7777"]}. eexists. split; [done|]. split; [done|].
  exists [demo_entry]. eexists. split; [split; [reflexivity|repeat constructor]|]. split; [reflexivity|].
  exists early. eexists. split; [done|]. split; [done|].
  exists (inl tt). eexists. split; [done|]. split; [done|].
  exists None. eexists. split; [done|]. split; [done|].
  exists false. eexists. split; [done|]. split; [done|]. done.
Qed.

Lemma inventory_owner_current_witness :
  exists h0 g t, demo_reads = h0 ++ IvGetNode "vk-1" g :: t /\ Forall (fun ev => ~ is_get ev) t /\
  match g with
  | inl n => InvOwners demo_inventory = [node_ref n]
  | inr err => IsNotFound err = true /\ InvOwners demo_inventory = [] /\
      forall n, IvGetNode "vk-1" (inl n) ∉ h0
  end.
Proof.
  exact (inventory_owner_current 2 "vk-1" "10.0.0.5:7777" Minute _ (Some true) demo_reads demo_inventory None
    [IvTick false] demo_publishes eq_refl).
Defined.
